(* ===== verification/_CoqProject ===== *)
-Q . S2P
Prelude.v
GoStrings.v
GoJSON.v
GoPath.v
GoJSONFacts.v
GoDecode.v
GoCrypto.v
GoTime.v
GoNet.v
Core.v
CorePolicy.v
CoreCommands.v
CtxRWMutex.v
Effects.v
Schema.v
SQL.v
StoreBase.v
StoreHosts.v
StoreAccess.v
StoreDevices.v
Http.v
DeviceAuth.v
Auth.v
Api.v
OIDC.v
ApiRoutes.v
StoreInvariant.v
StoreOperations.v
StoreRuns.v
StoreHostFacts.v
StoreAccessFacts.v
StoreDeviceFacts.v
StoreEnrollFacts.v
StoreSnapshotFacts.v
AuthFacts.v
ApiFacts.v
AgentFacts.v
IssueFacts.v
WebPortal.v
LockFacts.v
OIDCFacts.v
ApiExamples.v
TrustAnchor.v
Services.v
RhizaSQL.v
TrustStartup.v
TrustInvariant.v
TrustSafety.v
TrustPool.v
TrustProps.v
TrustSettle.v
TrustExamples.v
AnchorData.v
AnchorDataFacts.v
AnchorBackend.v
AnchorRefinement.v
AnchorExamples.v
Machine.v
Traffic.v
DeviceKeys.v
Agent.v
Supervise.v
AgentSync.v
GoQuery.v
AgentServer.v
AgentTraffic.v
AgentSupervise.v
GoAny.v
Ctl.v
CtlCommands.v
CtlRuns.v
CtlTrace.v
CtlProxy.v
CtlMembers.v
StorageConfig.v
StorageFacts.v
LocalPreflight.v
LocalFacts.v
RecoveryVerifier.v
ClientExamples.v
