(* ===== verification/Prelude.v ===== *)
(** * Ternal: a verified model of the access-control plane

    Ternal hands out short-lived, policy-checked SSH access to enrolled
    devices.  ternal-api serves users (OIDC sessions), administrators and
    devices over HTTP; it keeps its state in a replicated SQL database, which
    it guards with a trust anchor outside that database, and it builds the ssh
    commands that ternalctl runs.  This library models the Go code that decides
    all this and proves what makes it correct.

    ** The parts, and the files that model them

    - The Go packages the code relies on are modelled as far as it uses them:
      GoStrings (strings, strconv, unicode/utf8), GoJSON and GoDecode
      (encoding/json, its printer, its parser and its decoding into structs),
      GoCrypto (SHA-256, HMAC, hex, base64), GoPath (path, path/filepath, URL
      escapes), GoTime, GoNet (literal addresses), GoQuery (queries of URLs) and
      GoAny (values decoded into interfaces, floats).  GoJSONFacts proves that
      what the printer writes is read back.
    - Core models internal/core/core.go, function by function: policies,
      validators, and the ssh and ProxyCommand builders.  CorePolicy and
      CoreCommands prove their properties.
    - CtxRWMutex models internal/store/ctxrwmutex.go as a step relation of any
      number of threads, with every interleaving and cancellation.
    - Effects is the language of effectful code: a program is a tree of calls
      of a signature.  Schema holds the tables and statements, SQL the meaning
      of the statement forms and the scanning of results (rhiza_sql.go).
    - TrustAnchor, Services, RhizaSQL and TrustStartup model the trust anchor
      (trust_anchor.go), the services, the fenced data path (rhiza_sql.go) and
      startup, migration and settlement (store.go, lines 45-858), over the
      signature [svcE].  TrustInvariant is the invariant of the protocol;
      TrustSafety and TrustPool prove that every program of every node keeps
      it; TrustProps and TrustSettle hold the properties and TrustExamples
      concrete deployments.
    - AnchorData is the written form of the trust anchor record, AnchorBackend
      its Kubernetes backend and the adapter for the anchor service
      (trust_anchor_kubernetes.go, trust_anchor_composite.go), over [kubeE].
      AnchorDataFacts and AnchorRefinement prove the round trips and that the
      backend is the register [Services] assumes; AnchorExamples applies them.
    - StoreBase, StoreHosts, StoreAccess and StoreDevices model the exported
      operations of the store (store.go, lines 860-2238), over the signature
      [storeE]: lock, clock, identifiers, queries and transactions.
      StoreInvariant gives the well-formedness of the tables and the relation
      every transaction respects; StoreOperations shows that every operation
      does.  StoreRuns draws the consequences for interleavings and holds a
      small program logic for single runs, with or without failing calls, used
      by StoreHostFacts, StoreAccessFacts, StoreDeviceFacts, StoreEnrollFacts
      and StoreSnapshotFacts.  ApiExamples applies them.
    - Http holds requests and responses; Auth models internal/auth/auth.go
      (sessions, middleware), OIDC internal/auth/oidc.go and the login handlers,
      DeviceAuth internal/deviceauth/deviceauth.go, Api and ApiRoutes the
      handlers, the route table and the settings of internal/api/api.go.
      AuthFacts, OIDCFacts, ApiFacts, AgentFacts, IssueFacts and LockFacts hold
      their properties and ApiExamples applies them.  WebPortal models the pages
      of internal/web/web.go and proves which rows they show.
    - Machine is what a command sees of its computer ([hostE]): files with what
      a crash leaves of them, the clock, HTTP, child processes, the terminal;
      Traffic follows the requests of a program.  DeviceKeys models the key and
      identity files (internal/deviceauth), Agent, Supervise and AgentSync
      cmd/ternal-agent; AgentServer, AgentTraffic and AgentSupervise prove what
      it installs, what it and the server make of each other's messages, and
      how it treats its child.
    - Ctl and CtlCommands model cmd/ternalctl; CtlRuns, CtlTrace, CtlProxy and
      CtlMembers prove where its sessions go, what precedes a connection, what
      OpenSSH calls back, and the preparation of members.
    - StorageConfig models the settings of the storage (rhiza_sql.go,
      local_config.go, azure_config.go, recovery_verifier.go) and the operator's
      identity (internal/operatoridentity); StorageFacts their properties.
      LocalPreflight models the preflight and the checks before the database is
      opened (local_preflight.go, and the start of cmd/ternal-api), over
      [localE]; LocalFacts proves what they allow.  RecoveryVerifier models the
      verifier of recovered databases and the anchor service.  ClientExamples
      applies the theorems about the agent, ternalctl, the settings and these.

    A request is [ApiRoutes.serve]: the middleware finds an identity, the
    guards of the route admit it or not, the handler decodes the request and
    runs operations of the store.  An operation is one program; its meaning is
    a run against the tables with every answer chosen by an oracle
    ([store_run]), or an interleaving with the operations of other nodes
    ([store_steps]).  The transactions an operation submits reach the database
    through the fenced data path, which the Trust files model down to the
    single calls of the anchor and of the data node.  The process that serves
    them starts with [LocalPreflight.runArgs]: the operator's variables, the
    settings, the checks, and then [TrustStartup].

    ** What is proved

    - Policies: wildcards are globs; a host is visible, and an account granted,
      exactly as the live policies say.
    - Commands: what the shell makes of a built ProxyCommand, that the helper
      accepts it, and which options a strict ssh command carries.
    - The lock: exclusion, progress, and the precedence of waiting writers;
      every store operation takes it once and releases it, within a bounded
      number of calls.
    - The trust protocol: the database and the anchor agree in every
      interleaving, reads are current, writes are reported honestly, the anchor
      moves forward, an unproved node is closed, a fenced write refines a plain
      transaction, and startup settles.  The anchor's written form is canonical
      and read back, and its Kubernetes backend is a compare-and-swap register.
    - The store: well-formedness, an append-only audit log, final revocation
      and monotone generations along every interleaving; what each operation
      does, whole or not at all, under any failures.
    - The API: routes are guarded, agents' requests are signed by their device
      and confined to its host, access follows the policies, logins are vouched
      for by the provider, cookies are their sessions.  The portal changes
      nothing and shows a caller granted hosts and rows of the caller's own.
    - The agent: it installs only snapshots that are vouched for and newer, its
      files survive crashes whole, the server verifies its signatures, it
      accepts what the server renders, and it starts and stops its child as its
      authority demands.
    - ternalctl: sessions stay with their origin, the terminal is handed over
      only after the grant, every command ends, OpenSSH calls it back with the
      server's routes, and prepared members are read back unchanged.
    - The settings: the trust anchor binds the storage that is opened, accepted
      settings keep the demands of their mode, and the operator's tokens reach
      their members.  The preflight stays in its staging directory, the
      database is opened only after its checks, a preflight's receipt is
      accepted, and a recovery is proved only by the recovered pair.

    ** Parameters

    Code outside the repository is a parameter with the behaviour relied on:
    [TrustAnchor.Recovery] (types of the recovery library) and
    [AnchorData.JSONType] (their JSON forms),
    [Services.ServiceParams] and [Services.how] (the anchor backend is a
    compare-and-swap register and the data node applies a request at most once;
    any call may fail, be lost, or take effect late), [Http.NetURL] (url.Parse,
    EqualFold) with [StorageFacts.URLLaws], [DeviceAuth.Ed25519] and
    [Machine.Ed25519Keys], [OIDC.IdentityProvider] (go-oidc, oauth2 and the
    provider's answers), ssh.ParseAuthorizedKey, the printing of floats and the
    conversion of floats beyond int64, the public key of a peer's seed,
    [WebPortal.Gomponents] (what a tree of elements is rendered to),
    [StorageConfig.RhizaMembers] (members of a cluster),
    [LocalPreflight.LocalArchives] (archives and their bindings),
    [RecoveryVerifier.RecoveryRequests], and the oracles of [StoreBase]
    (identifiers, clock, random bytes, failures).  Answers of [kubeE], [hostE],
    [localE] and of the recovery library are arbitrary within what [serves]
    says, or altogether.  The theorems ask of identifiers only that they are
    new, and of the clock that it does not go back.

    ** Bounds and fuel

    Integers of Go are [Z] with the wrap-around written out ([wrap64]) where
    the code can overflow.  The JSON parser has fuel, twice the length of the
    text and two more, of which every character of the text uses two at most; that it is enough
    for what the printer writes is part of GoJSONFacts.parse_print.  The IPv6 parser has 8 units, one for each group of an address.  The retries of
    a migration at startup end with its context, after a number of attempts
    that is an argument of TrustStartup.  The loop of the agent's supervisor has
    no end of its own and takes its number of rounds as an argument, of which
    the theorems hold for every value.  The polling loops of ternalctl end with
    their deadlines; [CtlRuns.ternalctl_ends] shows that 3602 rounds are enough.
    The duration parser takes one byte a round, and the resolution of a path
    one parent ([LocalFacts.resolved_enough]).  Every other function is
    structurally recursive.

    ** Not modelled

    The static files of the portal; the listeners and signal handling of the
    servers (cmd/ternal-api after the database is open, cmd/ternal-anchor); the
    Windows variants of the agent's locks and file owners; the filling of the
    Azure client's configuration (azure_config.go, bucketConfig) beyond the
    fields that are set; chi's dispatch and CORS.  REAL and BLOB values do not
    occur in the schema.  Of the store, Ready is in TrustStartup and its route is left out. *)

From stdpp Require Export base tactics list strings gmap sorting pretty.
From Stdlib Require Export Ascii ZArith Lia.

(** ** Errors and results *)

(** The error values the code returns.  [Errorf] is an error built from a text,
    [ErrorWrap] is [fmt.Errorf] with a [%w] operand, [CommandError] is the
    struct of core.go, [ErrNoRows] is [sql.ErrNoRows], [ErrTrustUnsettled] the
    sentinel of rhiza_sql.go, [ErrContext] an expired or cancelled context,
    [ErrNotExist] an error of which os.IsNotExist holds, [ErrStatus] the
    apiStatusError of ternal-agent, and [ErrService] any other error value that
    something outside the program produced. *)
Inductive error : Type :=
  | Errorf (msg : string)
  | ErrorWrap (msg : string) (inner : error)
  | CommandError (code msg : string)
  | ErrNoRows
  | ErrTrustUnsettled
  | ErrContext
  | ErrNotExist
  | ErrStatus (code : Z)
  | ErrService (code : string).

#[export] Instance error_eq_dec : EqDecision error.
Proof. solve_decision. Defined.

(** A Go pair (value, error): the value is only read when the error is nil. *)
Inductive result (A : Type) : Type :=
  | Ok (a : A)
  | Err (e : error).
Arguments Ok {A} a.
Arguments Err {A} e.

#[export] Instance result_ret : MRet result := @Ok.
#[export] Instance result_bind : MBind result := λ A B f r,
  match r with Ok a => f a | Err e => Err e end.
#[export] Instance result_fmap : FMap result := λ A B f r,
  match r with Ok a => Ok (f a) | Err e => Err e end.

Definition is_Ok {A} (r : result A) : bool :=
  match r with Ok _ => true | Err _ => false end.

(** ** Machine integers *)

(** Two's-complement wrap-around of Go's [int64]. *)
Definition wrap64 (z : Z) : Z := ((z + 2 ^ 63) mod 2 ^ 64 - 2 ^ 63)%Z.

Definition max_int64 : Z := (2 ^ 63 - 1)%Z.
Definition min_int64 : Z := (- 2 ^ 63)%Z.

Definition in_int64 (z : Z) : Prop := (min_int64 ≤ z ≤ max_int64)%Z.

Lemma wrap64_id z : in_int64 z → wrap64 z = z.
Proof.
  unfold in_int64, wrap64, min_int64, max_int64. intros H.
  rewrite Z.mod_small; lia.
Qed.

Lemma wrap64_in z : in_int64 (wrap64 z).
Proof.
  unfold in_int64, wrap64, min_int64, max_int64.
  pose proof (Z.mod_pos_bound (z + 2 ^ 63) (2 ^ 64) ltac:(lia)). lia.
Qed.

(** ** Characters *)

Definition byte_of (c : ascii) : N := N_of_ascii c.

(** [chr n] is the byte of value [n]; [bytes l] the string of the bytes [l]. *)
Definition chr (n : nat) : ascii := ascii_of_nat n.
Definition bytes (l : list nat) : string := String.string_of_list_ascii (chr <$> l).

Definition char_eqb (a b : ascii) : bool := bool_decide (a = b).

Definition between (lo hi c : ascii) : bool :=
  ((byte_of lo <=? byte_of c) && (byte_of c <=? byte_of hi))%N.

(** ** Strings as byte sequences *)

Fixpoint str_forallb (p : ascii → bool) (s : string) : bool :=
  match s with
  | EmptyString => true
  | String c s' => p c && str_forallb p s'
  end.

Fixpoint str_existsb (p : ascii → bool) (s : string) : bool :=
  match s with
  | EmptyString => false
  | String c s' => p c || str_existsb p s'
  end.

Fixpoint sdrop (n : nat) (s : string) : string :=
  match n, s with
  | O, _ => s
  | S n', String _ s' => sdrop n' s'
  | S _, EmptyString => EmptyString
  end.

Fixpoint stake (n : nat) (s : string) : string :=
  match n, s with
  | O, _ => EmptyString
  | S n', String c s' => String c (stake n' s')
  | S _, EmptyString => EmptyString
  end.

Fixpoint sconcat (l : list string) : string :=
  match l with
  | [] => EmptyString
  | s :: l' => s +:+ sconcat l'
  end.

Create HintDb str discriminated.

Lemma app_nil_s (s : string) : "" +:+ s = s.
Proof. done. Qed.

Lemma app_cons_s c (s t : string) : String c s +:+ t = String c (s +:+ t).
Proof. done. Qed.

Lemma app_nil_r_s (s : string) : s +:+ "" = s.
Proof. induction s as [|c s IH]; [done|]. by rewrite app_cons_s, IH. Qed.

Lemma app_assoc_s (s t u : string) : (s +:+ t) +:+ u = s +:+ t +:+ u.
Proof. induction s as [|c s IH]; [done|]. by rewrite !app_cons_s, IH. Qed.

Lemma length_app_s (s t : string) :
  String.length (s +:+ t) = String.length s + String.length t.
Proof. induction s as [|c s IH]; [done|]. rewrite app_cons_s. simpl. by rewrite IH. Qed.

Lemma app_inj_l_s (s t u : string) : s +:+ t = s +:+ u → t = u.
Proof.
  induction s as [|c s IH]; [done|]. rewrite !app_cons_s. intros [= H]. by apply IH.
Qed.

Lemma app_inj_len (s s' t t' : string) :
  String.length s = String.length s' → s +:+ t = s' +:+ t' → s = s' ∧ t = t'.
Proof.
  revert s'. induction s as [|c s IH]; intros [|c' s']; simpl; try done.
  rewrite !app_cons_s. intros [= Hl] [= -> H].
  destruct (IH s' Hl H) as [-> ->]. done.
Qed.

Lemma app_inj_tail_len (s s' t t' : string) :
  String.length t = String.length t' → s +:+ t = s' +:+ t' → s = s' ∧ t = t'.
Proof.
  intros Hl H. apply app_inj_len; [|done].
  apply (f_equal String.length) in H. rewrite !length_app_s in H. lia.
Qed.

#[export] Hint Rewrite app_nil_s app_cons_s app_nil_r_s app_assoc_s length_app_s : str.

Ltac str_simpl := autorewrite with str in *; simpl in *.

Lemma str_forallb_app p (s t : string) :
  str_forallb p (s +:+ t) = str_forallb p s && str_forallb p t.
Proof.
  induction s as [|c s IH]; [done|]. rewrite app_cons_s. simpl.
  by rewrite IH, andb_assoc.
Qed.

Lemma str_existsb_app p (s t : string) :
  str_existsb p (s +:+ t) = str_existsb p s || str_existsb p t.
Proof.
  induction s as [|c s IH]; [done|]. rewrite app_cons_s. simpl.
  by rewrite IH, orb_assoc.
Qed.

Lemma str_existsb_false p (s : string) :
  str_existsb p s = false ↔ str_forallb (λ c, negb (p c)) s = true.
Proof.
  induction s as [|c s IH]; [done|]. simpl.
  destruct (p c); simpl; [naive_solver|done].
Qed.

Lemma str_forallb_mono (p q : ascii → bool) (s : string) :
  (∀ c, p c = true → q c = true) → str_forallb p s = true → str_forallb q s = true.
Proof.
  intros Hpq. induction s as [|c s IH]; [done|]. simpl.
  rewrite !andb_true_iff. naive_solver.
Qed.

#[export] Hint Rewrite str_forallb_app str_existsb_app : str.

Lemma stake_sdrop n (s : string) : stake n s +:+ sdrop n s = s.
Proof.
  revert n. induction s as [|c s IH]; intros [|n]; try done.
  simpl. rewrite app_cons_s. by rewrite IH.
Qed.

Lemma sdrop_app_len (s t : string) : sdrop (String.length s) (s +:+ t) = t.
Proof. induction s as [|c s IH]; [done|]. rewrite app_cons_s. done. Qed.

Lemma stake_all n (s : string) : String.length s ≤ n → stake n s = s.
Proof.
  revert n. induction s as [|c s IH]; intros [|n] H; simpl in *; try done; [lia|]. f_equal. apply IH. lia.
Qed.

Lemma stake_app_len (s t : string) : stake (String.length s) (s +:+ t) = s.
Proof. induction s as [|c s IH]; [done|]. rewrite app_cons_s. simpl. by rewrite IH. Qed.

Lemma length_sdrop n (s : string) : String.length (sdrop n s) = String.length s - n.
Proof. revert n. induction s as [|c s IH]; intros [|n]; try done. simpl. apply IH. Qed.

Lemma length_stake n (s : string) : String.length (stake n s) = min n (String.length s).
Proof. revert n. induction s as [|c s IH]; intros [|n]; try done. simpl. by rewrite IH. Qed.

Lemma str_forallb_sdrop p n (s : string) :
  str_forallb p s = true → str_forallb p (sdrop n s) = true.
Proof.
  intros H. rewrite <- (stake_sdrop n s), str_forallb_app in H.
  apply andb_true_iff in H. tauto.
Qed.

Lemma str_forallb_stake p n (s : string) :
  str_forallb p s = true → str_forallb p (stake n s) = true.
Proof.
  intros H. rewrite <- (stake_sdrop n s), str_forallb_app in H.
  apply andb_true_iff in H. tauto.
Qed.

(** ** Tactics *)

(** Case analysis on the conditions of [if]s and [match]es, oldest first. *)
Ltac split_match :=
  match goal with
  | |- context [match ?x with _ => _ end] =>
      lazymatch x with
      | context [match _ with _ => _ end] => fail
      | _ => destruct x eqn:?
      end
  end.

Ltac bool_prop :=
  repeat match goal with
  | H : andb _ _ = true |- _ => apply andb_true_iff in H; destruct H
  | H : orb _ _ = false |- _ => apply orb_false_iff in H; destruct H
  | H : negb _ = true |- _ => apply negb_true_iff in H
  | H : negb _ = false |- _ => apply negb_false_iff in H
  | H : bool_decide _ = true |- _ => apply bool_decide_eq_true in H
  | H : bool_decide _ = false |- _ => apply bool_decide_eq_false in H
  end.

(** Proves an implication between computable conditions on one byte by trying
    all 256 of them. *)
Ltac by_byte c :=
  destruct c as [[] [] [] [] [] [] [] []];
  let H := fresh in intros H; first [reflexivity | discriminate H].
