(* ===== verification/GoStrings.v ===== *)
(** The functions of Go's [strings] and [strconv] packages the program uses, on
    byte strings, with the lemmas the components share.  A Go string is a
    sequence of bytes, so [string] (a sequence of 8-bit characters) is its exact
    counterpart; the functions that look at runes ([TrimSpace], [Fields]) do so
    through the UTF-8 encodings of Unicode white space. *)

From S2P Require Export Prelude.

Module strings.

(** strings.HasPrefix, strings.TrimPrefix *)
Definition HasPrefix (s p : string) : bool := String.prefix p s.
Definition TrimPrefix (s p : string) : string :=
  if HasPrefix s p then sdrop (String.length p) s else s.

(** strings.HasSuffix: the last [len(p)] bytes are [p]. *)
Definition HasSuffix (s p : string) : bool :=
  (String.length p <=? String.length s) &&
  bool_decide (sdrop (String.length s - String.length p) s = p).

Definition TrimSuffix (s p : string) : string :=
  if HasSuffix s p then stake (String.length s - String.length p) s else s.

(** strings.Index: the least position at which [sub] occurs; [None] is -1. *)
Fixpoint Index (s sub : string) : option nat :=
  if String.prefix sub s then Some 0
  else match s with
       | EmptyString => None
       | String _ s' => S <$> Index s' sub
       end.

Definition Contains (s sub : string) : bool :=
  match Index s sub with Some _ => true | None => false end.

(** strings.ContainsAny for a set of ASCII characters *)
Definition ContainsAny (s chars : string) : bool :=
  str_existsb (λ c, str_existsb (char_eqb c) chars) s.

(** strings.IndexByte and strings.LastIndex of a one-byte string *)
Fixpoint IndexByte (s : string) (c : ascii) : option nat :=
  match s with
  | EmptyString => None
  | String d s' => if char_eqb d c then Some 0 else S <$> IndexByte s' c
  end.

Fixpoint LastIndexByte (s : string) (c : ascii) : option nat :=
  match s with
  | EmptyString => None
  | String d s' =>
      match LastIndexByte s' c with
      | Some i => Some (S i)
      | None => if char_eqb d c then Some 0 else None
      end
  end.

(** strings.Split for a one-byte separator *)
Fixpoint Split (s : string) (sep : ascii) : list string :=
  match s with
  | EmptyString => [EmptyString]
  | String c s' =>
      if char_eqb c sep then EmptyString :: Split s' sep
      else match Split s' sep with
           | [] => [String c EmptyString]
           | w :: ws => String c w :: ws
           end
  end.

(** strings.SplitN(s, sep, 2) for a one-byte separator *)
Definition SplitN2 (s : string) (sep : ascii) : list string :=
  match IndexByte s sep with
  | None => [s]
  | Some i => [stake i s; sdrop (S i) s]
  end.

(** strings.Cut: the text before and after the first separator, and whether
    there is one *)
Definition Cut (s sep : string) : string * string * bool :=
  match Index s sep with
  | Some i => (stake i s, sdrop (i + String.length sep) s, true)
  | None => (s, "", false)
  end.

(** strings.CutPrefix *)
Definition CutPrefix (s p : string) : string * bool :=
  if HasPrefix s p then (sdrop (String.length p) s, true) else (s, false).

(** strings.Join *)
Fixpoint Join (l : list string) (sep : string) : string :=
  match l with
  | [] => EmptyString
  | [s] => s
  | s :: l' => s +:+ sep +:+ Join l' sep
  end.

(** strings.ReplaceAll for a non-empty [old]: the occurrences are taken from
    the left and do not overlap; [skip] bytes are still to be dropped. *)
Fixpoint replace_go (skip : nat) (s old new : string) : string :=
  match s with
  | EmptyString => EmptyString
  | String c s' =>
      match skip with
      | S k => replace_go k s' old new
      | O => if String.prefix old s
             then new +:+ replace_go (String.length old - 1) s' old new
             else String c (replace_go 0 s' old new)
      end
  end.
Definition ReplaceAll (s old new : string) : string := replace_go 0 s old new.

(** strings.ToLower on ASCII letters; every other byte is kept. *)
Definition lower_char (c : ascii) : ascii :=
  if between "A" "Z" c then ascii_of_N (byte_of c + 32) else c.
Fixpoint ToLowerASCII (s : string) : string :=
  match s with
  | EmptyString => EmptyString
  | String c s' => String (lower_char c) (ToLowerASCII s')
  end.

(** The UTF-8 encodings of the runes [unicode.IsSpace] accepts.  No encoding
    begins with a continuation byte, so a byte position at which one of them
    starts is always the start of a rune of Go's decoding. *)
Definition space_encodings : list string :=
  (bytes <$> ([[9]; [10]; [11]; [12]; [13]; [32]; [194; 133]; [194; 160];
     [225; 154; 128]] ++
     ((λ n, [226; 128; n]) <$> seq 128 11) ++
     [[226; 128; 168]; [226; 128; 169]; [226; 128; 175]; [226; 129; 159];
      [227; 128; 128]]))%list.

(** Width of the white-space rune [s] starts with, 0 if there is none. *)
Definition space_width (s : string) : nat :=
  match list_find (λ e, String.prefix e s = true) space_encodings with
  | Some (_, e) => String.length e
  | None => 0
  end.

(** All of [s], after [skip] bytes, is white space. *)
Fixpoint all_space (skip : nat) (s : string) : bool :=
  match s with
  | EmptyString => true
  | String _ s' =>
      match skip with
      | S k => all_space k s'
      | O => match space_width s with
             | O => false
             | S k => all_space k s'
             end
      end
  end.

Fixpoint trim_left (skip : nat) (s : string) : string :=
  match s with
  | EmptyString => EmptyString
  | String _ s' =>
      match skip with
      | S k => trim_left k s'
      | O => match space_width s with
             | O => s
             | S k => trim_left k s'
             end
      end
  end.

Fixpoint trim_right (s : string) : string :=
  match s with
  | EmptyString => EmptyString
  | String c s' => if all_space 0 s then EmptyString else String c (trim_right s')
  end.

(** strings.TrimSpace *)
Definition TrimSpace (s : string) : string := trim_right (trim_left 0 s).

(** strings.Fields *)
Definition flush (w : string) : list string :=
  match w with EmptyString => [] | _ => [w] end.
Fixpoint fields_go (skip : nat) (cur s : string) : list string :=
  match s with
  | EmptyString => flush cur
  | String c s' =>
      match skip with
      | S k => fields_go k cur s'
      | O => match space_width s with
             | O => fields_go 0 (cur +:+ String c EmptyString) s'
             | S k => flush cur ++ fields_go k EmptyString s'
             end
      end
  end.
Definition Fields (s : string) : list string := fields_go 0 EmptyString s.

End strings.

Module strconv.

Definition digit_val (c : ascii) : option N :=
  if between "0" "9" c then Some (byte_of c - 48)%N else None.

(** The decimal value of a digit string, [acc] being the digits read so far. *)
Fixpoint parse_digits (acc : N) (s : string) : option N :=
  match s with
  | EmptyString => Some acc
  | String c s' =>
      match digit_val c with
      | Some d => parse_digits (acc * 10 + d) s'
      | None => None
      end
  end.

(** strconv.ParseUint(s, 10, bits): digits only, at least one, in range. *)
Definition ParseUint (s : string) (bits : Z) : option Z :=
  match s with
  | EmptyString => None
  | _ => match parse_digits 0 s with
         | Some n => if (Z.of_N n <? 2 ^ bits)%Z then Some (Z.of_N n) else None
         | None => None
         end
  end.

(** strconv.ParseInt(s, 10, 64), which is also strconv.Atoi: an optional
    sign, then digits, in the range of int64. *)
Definition ParseInt (s : string) : option Z :=
  let '(neg, body) :=
    match s with
    | String "-" s' => (true, s')
    | String "+" s' => (false, s')
    | _ => (false, s)
    end in
  match body with
  | EmptyString => None
  | _ => match parse_digits 0 body with
         | Some n =>
             let z := if (neg : bool) then (- Z.of_N n)%Z else Z.of_N n in
             if bool_decide (in_int64 z) then Some z else None
         | None => None
         end
  end.

Definition Atoi : string → option Z := ParseInt.

(** strconv.Itoa, strconv.FormatInt(z, 10), fmt's %d *)
Definition FormatInt (z : Z) : string := pretty z.

End strconv.

(** ** Lemmas *)

Lemma prefix_iff p s : String.prefix p s = true ↔ ∃ r, s = p +:+ r.
Proof.
  revert s. induction p as [|c p IH]; intros s; simpl.
  - split; [by exists s|]. intros _. by destruct s.
  - destruct s as [|d s].
    + split; [done|]. intros [r Hr]. by rewrite app_cons_s in Hr.
    + cbn [String.prefix]. destruct (ascii_dec c d) as [->|Hne].
      * rewrite IH. split; intros [r Hr]; exists r.
        -- by rewrite app_cons_s, Hr.
        -- rewrite app_cons_s in Hr. by injection Hr.
      * split; [done|]. intros [r Hr]. rewrite app_cons_s in Hr. congruence.
Qed.

Lemma prefix_app p r : String.prefix p (p +:+ r) = true.
Proof. apply prefix_iff. by exists r. Qed.

Lemma HasPrefix_app p r : strings.HasPrefix (p +:+ r) p = true.
Proof. apply prefix_app. Qed.

Lemma HasPrefix_iff s p : strings.HasPrefix s p = true ↔ ∃ r, s = p +:+ r.
Proof. apply prefix_iff. Qed.

Lemma TrimPrefix_app p r : strings.TrimPrefix (p +:+ r) p = r.
Proof. unfold strings.TrimPrefix. by rewrite HasPrefix_app, sdrop_app_len. Qed.

Lemma HasSuffix_iff s p : strings.HasSuffix s p = true ↔ ∃ r, s = r +:+ p.
Proof.
  unfold strings.HasSuffix. rewrite andb_true_iff, Nat.leb_le, bool_decide_eq_true.
  split.
  - intros [_ H]. eexists. by rewrite <- (stake_sdrop (String.length s - String.length p) s) at 1; rewrite H.
  - intros [r ->]. rewrite length_app_s. split; [lia|].
    replace (String.length r + String.length p - String.length p) with (String.length r) by lia.
    apply sdrop_app_len.
Qed.

Lemma Index_Some s sub i :
  strings.Index s sub = Some i →
  s = stake i s +:+ sub +:+ sdrop (i + String.length sub) s.
Proof.
  revert i. induction s as [|c s IH]; intros i; cbn [strings.Index].
  - destruct (String.prefix sub "") eqn:Hp; [|done].
    intros [= <-]. apply prefix_iff in Hp as [r Hr].
    destruct sub; [done|]. by rewrite app_cons_s in Hr.
  - destruct (String.prefix sub (String c s)) eqn:Hp.
    + intros [= <-]. apply prefix_iff in Hp as [r Hr]. rewrite Hr.
      cbn [stake Nat.add]. by rewrite sdrop_app_len.
    + destruct (strings.Index s sub) as [j|] eqn:Hj; [|done].
      intros [= <-]. cbn [stake Nat.add sdrop]. rewrite app_cons_s. f_equal. by apply IH.
Qed.

(** The position [Index] returns is the leftmost one. *)
Lemma Index_leftmost a sub b :
  ∃ i, strings.Index (a +:+ sub +:+ b) sub = Some i ∧ i ≤ String.length a.
Proof.
  induction a as [|c a IH].
  - rewrite app_nil_s. exists 0. split; [|simpl; lia].
    destruct (sub +:+ b) eqn:He; cbn [strings.Index]; rewrite <- He, prefix_app; done.
  - rewrite app_cons_s. cbn [strings.Index].
    destruct (String.prefix sub (String c (a +:+ sub +:+ b))).
    + exists 0. split; [done|simpl; lia].
    + destruct IH as (i & Hi & Hle). exists (S i). rewrite Hi. simpl. split; [done|lia].
Qed.

Lemma Index_nil s : strings.Index s "" = Some 0.
Proof. by destruct s. Qed.

Lemma Contains_iff s sub :
  strings.Contains s sub = true ↔ ∃ a b, s = a +:+ sub +:+ b.
Proof.
  unfold strings.Contains. destruct (strings.Index s sub) as [i|] eqn:Hi.
  - split; [intros _|done]. apply Index_Some in Hi. eauto.
  - split; [done|]. intros (a & b & ->).
    destruct (Index_leftmost a sub b) as (i & H & _). congruence.
Qed.

Lemma char_eqb_refl c : char_eqb c c = true.
Proof. unfold char_eqb. by rewrite bool_decide_eq_true. Qed.

Lemma char_eqb_ne c d : c ≠ d → char_eqb c d = false.
Proof. intros H. unfold char_eqb. by rewrite bool_decide_eq_false. Qed.

(** *** Split *)

Lemma Split_not_nil s c : strings.Split s c ≠ [].
Proof.
  destruct s as [|d s]; [done|]. simpl.
  destruct (char_eqb d c); [done|]. by destruct (strings.Split s c).
Qed.

Lemma Split_cons_sep s c : strings.Split (String c s) c = "" :: strings.Split s c.
Proof. simpl. by rewrite char_eqb_refl. Qed.

Lemma Split_cons_ne s c d :
  d ≠ c → ∃ w ws, strings.Split s c = w :: ws ∧
                  strings.Split (String d s) c = String d w :: ws.
Proof.
  intros Hne. simpl. rewrite char_eqb_ne by done.
  pose proof (Split_not_nil s c). destruct (strings.Split s c) as [|w ws]; [done|]. eauto.
Qed.

Lemma Join_Split s c : strings.Join (strings.Split s c) (String c "") = s.
Proof.
  induction s as [|d s IH]; [done|].
  destruct (decide (d = c)) as [->|Hne].
  - rewrite Split_cons_sep. pose proof (Split_not_nil s c).
    destruct (strings.Split s c) as [|w ws]; [done|].
    change ("" +:+ String c "" +:+ strings.Join (w :: ws) (String c "") = String c s).
    by rewrite IH.
  - destruct (Split_cons_ne s c d Hne) as (w & ws & H1 & H2).
    rewrite H2. rewrite H1 in IH. rewrite <- IH. destruct ws; [done|].
    simpl. by rewrite app_cons_s.
Qed.

Lemma Split_no_sep s c w :
  w ∈ strings.Split s c → str_forallb (λ d, negb (char_eqb d c)) w = true.
Proof.
  revert w. induction s as [|d s IH]; intros w.
  - simpl. rewrite list_elem_of_singleton. by intros ->.
  - destruct (decide (d = c)) as [->|Hne].
    + rewrite Split_cons_sep. rewrite elem_of_cons. intros [->|?]; [done|auto].
    + destruct (Split_cons_ne s c d Hne) as (w0 & ws & H1 & H2).
      rewrite H2, elem_of_cons. rewrite H1 in IH.
      intros [->|Hin].
      * simpl. rewrite char_eqb_ne by done. apply IH. apply elem_of_cons. by left.
      * apply IH. apply elem_of_cons. by right.
Qed.

Lemma Split_app a b c :
  strings.Split (a +:+ String c b) c = strings.Split a c ++ strings.Split b c.
Proof.
  induction a as [|d a IH].
  - rewrite app_nil_s. by rewrite Split_cons_sep.
  - rewrite app_cons_s. destruct (decide (d = c)) as [->|Hne].
    + by rewrite !Split_cons_sep, IH.
    + destruct (Split_cons_ne (a +:+ String c b) c d Hne) as (w & ws & H1 & H2).
      destruct (Split_cons_ne a c d Hne) as (w' & ws' & H3 & H4).
      rewrite H2, H4. rewrite H1, H3 in IH. by injection IH as -> ->.
Qed.

Lemma Join_snoc l s sep :
  l ≠ [] → strings.Join (l ++ [s]) sep = strings.Join l sep +:+ sep +:+ s.
Proof.
  induction l as [|x l IH]; [done|]. intros _.
  destruct l as [|y l]; [done|]. rewrite <- app_comm_cons.
  change (strings.Join (x :: y :: l) sep) with (x +:+ sep +:+ strings.Join (y :: l) sep).
  rewrite !app_assoc_s, <- IH by done. done.
Qed.

(** *** White space *)

(** A byte that neither is nor starts white space: an ASCII character other
    than the six ASCII spaces. *)
Definition ascii_nonspace (c : ascii) : bool :=
  (byte_of c <? 128)%N &&
  negb (between "009" "013" c) && negb (char_eqb c " ").

Lemma space_width_nonspace c s :
  ascii_nonspace c = true → strings.space_width (String c s) = 0.
Proof.
  destruct c as [[] [] [] [] [] [] [] []]; intros H;
    first [discriminate H | reflexivity].
Qed.

Lemma space_width_space s : strings.space_width (String " " s) = 1.
Proof. destruct s; reflexivity. Qed.

Lemma fields_go_word w cur s :
  str_forallb ascii_nonspace w = true →
  strings.fields_go 0 cur (w +:+ s) = strings.fields_go 0 (cur +:+ w) s.
Proof.
  revert cur. induction w as [|c w IH]; intros cur Hw.
  - by rewrite app_nil_s, app_nil_r_s.
  - simpl in Hw. apply andb_true_iff in Hw as [Hc Hw].
    rewrite app_cons_s. cbn [strings.fields_go].
    rewrite space_width_nonspace by done. rewrite IH by done.
    by rewrite app_assoc_s, app_cons_s, app_nil_s.
Qed.

(** A word without white space is a field of its own. *)
Definition plain_word (w : string) : bool :=
  str_forallb ascii_nonspace w && negb (bool_decide (w = "")).

Lemma Fields_cons w s :
  plain_word w = true → strings.Fields (w +:+ " " +:+ s) = w :: strings.Fields s.
Proof.
  unfold plain_word, strings.Fields. intros H.
  apply andb_true_iff in H as [Hw Hne].
  rewrite fields_go_word by done. rewrite app_nil_s.
  change (" " +:+ s) with (String " " s). cbn [strings.fields_go].
  rewrite space_width_space. destruct w; done.
Qed.

Lemma Fields_one w : plain_word w = true → strings.Fields w = [w].
Proof.
  unfold plain_word, strings.Fields. intros H.
  apply andb_true_iff in H as [Hw Hne].
  rewrite <- (app_nil_r_s w) at 1. rewrite fields_go_word by done.
  rewrite app_nil_s. by destruct w.
Qed.

Lemma plain_word_app w1 w2 :
  plain_word w1 = true → str_forallb ascii_nonspace w2 = true →
  plain_word (w1 +:+ w2) = true.
Proof.
  unfold plain_word. rewrite str_forallb_app. intros H1 H2.
  apply andb_true_iff in H1 as [H1 Hne]. rewrite H1, H2.
  by destruct w1.
Qed.

(** Trimming is idempotent and leaves words alone. *)
Lemma trim_left_nonspace c s :
  ascii_nonspace c = true → strings.trim_left 0 (String c s) = String c s.
Proof. intros H. cbn [strings.trim_left]. by rewrite space_width_nonspace. Qed.

Lemma trim_right_word w : str_forallb ascii_nonspace w = true → strings.trim_right w = w.
Proof.
  induction w as [|c w IH]; [done|]. simpl (str_forallb _ _).
  rewrite andb_true_iff. intros [Hc Hw]. cbn [strings.trim_right strings.all_space].
  rewrite space_width_nonspace by done. by rewrite IH.
Qed.

Lemma TrimSpace_word w : str_forallb ascii_nonspace w = true → strings.TrimSpace w = w.
Proof.
  intros H. unfold strings.TrimSpace. destruct w as [|c w]; [done|].
  rewrite trim_left_nonspace; [by apply trim_right_word|].
  simpl in H. apply andb_true_iff in H. tauto.
Qed.

(** *** Decimal numbers *)

Lemma digit_val_pretty n :
  (n < 10)%N → strconv.digit_val (pretty_N_char n) = Some n.
Proof.
  intros H.
  assert (n = 0 ∨ n = 1 ∨ n = 2 ∨ n = 3 ∨ n = 4 ∨ n = 5 ∨ n = 6 ∨ n = 7 ∨ n = 8 ∨ n = 9)%N
    as Hn by lia.
  by repeat (destruct Hn as [->|Hn]; [done|]); rewrite Hn.
Qed.

(** Number of decimal digits, as a power of ten, that [n] is shifted by. *)
Lemma parse_digits_pretty (n : N) : strconv.parse_digits 0 (pretty n) = Some n.
Proof.
  assert (∀ x s acc, ∃ m, strconv.parse_digits acc (pretty_N_go x s) =
     strconv.parse_digits (acc * m + x) s) as Hgo.
  { intros x. induction (N.lt_wf_0 x) as [x _ IH]. intros s acc.
    destruct (decide (x = 0)%N) as [->|Hx].
    - exists 1%N. rewrite pretty_N_go_0. f_equal. lia.
    - rewrite pretty_N_go_step by lia.
      destruct (IH (x `div` 10)%N ltac:(apply N.div_lt; lia)
                   (String (pretty_N_char (x `mod` 10)) s) acc) as [m Hm].
      exists (m * 10)%N. rewrite Hm. simpl.
      rewrite digit_val_pretty by (apply N.mod_lt; lia). f_equal.
      pose proof (N.div_mod x 10 ltac:(lia)). lia. }
  unfold pretty, pretty_N. destruct (decide (n = 0)%N) as [->|Hn]; [done|].
  destruct (Hgo n "" 0%N) as [m Hm]. by rewrite Hm.
Qed.

Definition is_digit (c : ascii) : bool := between "0" "9" c.

Lemma is_digit_digit_val c : is_digit c = true ↔ is_Some (strconv.digit_val c).
Proof.
  unfold is_digit, strconv.digit_val. destruct (between "0" "9" c); split; try done; eauto; by intros [? ?].
Qed.

Lemma parse_digits_all acc s n :
  strconv.parse_digits acc s = Some n → str_forallb is_digit s = true.
Proof.
  revert acc. induction s as [|c s IH]; intros acc; [done|]. simpl.
  destruct (strconv.digit_val c) eqn:Hd; [|done]. intros H.
  apply andb_true_iff. split; [|by eapply IH].
  apply is_digit_digit_val. eauto.
Qed.

Lemma pretty_N_digits (n : N) : str_forallb is_digit (pretty n) = true.
Proof. eapply parse_digits_all, (parse_digits_pretty n). Qed.

Lemma pretty_N_ne (n : N) : pretty n ≠ "".
Proof.
  intros H. pose proof (parse_digits_pretty n) as Hp. rewrite H in Hp.
  injection Hp as <-. discriminate H.
Qed.

Lemma ParseUint_FormatInt z bits :
  (0 ≤ z < 2 ^ bits)%Z → strconv.ParseUint (strconv.FormatInt z) bits = Some z.
Proof.
  intros [Hz Hb]. unfold strconv.ParseUint, strconv.FormatInt.
  assert (∃ n, z = Z.of_N n) as [n ->] by (exists (Z.to_N z); lia).
  replace (pretty (Z.of_N n)) with (pretty n) by (by destruct n).
  pose proof (pretty_N_ne n). destruct (pretty n) eqn:He; [done|].
  rewrite <- He, parse_digits_pretty.
  destruct (Z.ltb_spec (Z.of_N n) (2 ^ bits)); [done|lia].
Qed.

Lemma digit_not_sign c : is_digit c = true → c ≠ "-"%char ∧ c ≠ "+"%char.
Proof. intros H. split; intros ->; discriminate H. Qed.

Lemma ParseInt_FormatInt z :
  in_int64 z → strconv.ParseInt (strconv.FormatInt z) = Some z.
Proof.
  intros Hz. unfold strconv.FormatInt.
  assert (∀ n : N, ∃ c s, pretty n = String c s ∧ is_digit c = true) as Hhd.
  { intros n. pose proof (pretty_N_ne n). pose proof (pretty_N_digits n) as Hd.
    destruct (pretty n) as [|c s]; [done|]. simpl in Hd.
    apply andb_true_iff in Hd. eexists _, _. split; [done|tauto]. }
  destruct z as [|p|p].
  - done.
  - change (pretty (Z.pos p)) with (pretty (N.pos p)).
    destruct (Hhd (N.pos p)) as (c & s & He & Hc).
    destruct (digit_not_sign c Hc) as [H1 H2].
    unfold strconv.ParseInt. rewrite He.
    replace (match c with
      | "-"%char => (true, s) | "+"%char => (false, s) | _ => (false, String c s) end)
      with (false, String c s) by (destruct c as [[] [] [] [] [] [] [] []]; done).
    cbn iota beta zeta. rewrite <- He, parse_digits_pretty.
    change (Z.of_N (N.pos p)) with (Z.pos p). cbn iota beta zeta.
    by rewrite bool_decide_eq_true_2.
  - change (pretty (Z.neg p)) with (String "-" (pretty (N.pos p))).
    destruct (Hhd (N.pos p)) as (c & s & He & Hc).
    unfold strconv.ParseInt. rewrite He. cbn iota beta zeta.
    rewrite <- He, parse_digits_pretty.
    change (- Z.of_N (N.pos p))%Z with (Z.neg p).
    by rewrite bool_decide_eq_true_2.
Qed.

(** ** UTF-8 as Go reads and writes it (package unicode/utf8)

    [DecodeRune] is utf8.DecodeRuneInString: the first code point and its
    width, or RuneError with width 1 for a byte sequence that is not minimal,
    valid UTF-8.  [EncodeRune] is utf8.AppendRune.  The lemmas relate the two;
    the text encoders built on them (GoJSON.v) carry strings through
    unchanged exactly when they are valid UTF-8. *)

Definition RuneError : N := 65533.

Definition in_range (lo hi x : N) : bool := ((lo <=? x) && (x <=? hi))%N.

(** The payload of a continuation byte. *)
Definition tail_bits (c : ascii) : N := (byte_of c - 128)%N.

Definition DecodeRune (s : string) : N * nat :=
  match s with
  | EmptyString => (RuneError, 0)
  | String c0 s1 =>
    let x := byte_of c0 in
    if (x <? 128)%N then (x, 1)
    else if in_range 194 223 x then
      match s1 with
      | String c1 _ =>
        if in_range 128 191 (byte_of c1) then (((x - 192) * 64 + tail_bits c1)%N, 2) else (RuneError, 1)
      | _ => (RuneError, 1)
      end
    else if in_range 224 239 x then
      let lo := if (x =? 224)%N then 160%N else 128%N in
      let hi := if (x =? 237)%N then 159%N else 191%N in
      match s1 with
      | String c1 (String c2 _) =>
        if in_range lo hi (byte_of c1) && in_range 128 191 (byte_of c2)
        then (((x - 224) * 4096 + tail_bits c1 * 64 + tail_bits c2)%N, 3) else (RuneError, 1)
      | _ => (RuneError, 1)
      end
    else if in_range 240 244 x then
      let lo := if (x =? 240)%N then 144%N else 128%N in
      let hi := if (x =? 244)%N then 143%N else 191%N in
      match s1 with
      | String c1 (String c2 (String c3 _)) =>
        if in_range lo hi (byte_of c1) && in_range 128 191 (byte_of c2) && in_range 128 191 (byte_of c3)
        then (((x - 240) * 262144 + tail_bits c1 * 4096 + tail_bits c2 * 64 + tail_bits c3)%N, 4)
        else (RuneError, 1)
      | _ => (RuneError, 1)
      end
    else (RuneError, 1)
  end.

Definition byte_at (n : N) : ascii := ascii_of_N n.

Definition EncodeRune (r : N) : string :=
  if (r <? 128)%N then String (byte_at r) ""
  else if (r <? 2048)%N then
    String (byte_at (192 + r / 64)) (String (byte_at (128 + r mod 64)) "")
  else if in_range 55296 57343 r || (1114111 <? r)%N then bytes [239; 191; 189]
  else if (r <? 65536)%N then
    String (byte_at (224 + r / 4096)) (String (byte_at (128 + (r / 64) mod 64))
      (String (byte_at (128 + r mod 64)) ""))
  else
    String (byte_at (240 + r / 262144)) (String (byte_at (128 + (r / 4096) mod 64))
      (String (byte_at (128 + (r / 64) mod 64)) (String (byte_at (128 + r mod 64)) ""))).

(** Whether the first code point of a nonempty string is one invalid byte. *)
Definition invalid_rune (s : string) : bool :=
  bool_decide (DecodeRune s = (RuneError, 1)).

(** utf8.ValidString. *)
Fixpoint valid_go (skip : nat) (s : string) : bool :=
  match s with
  | EmptyString => true
  | String _ s' =>
    match skip with
    | S k => valid_go k s'
    | O => negb (invalid_rune s) && valid_go (pred (snd (DecodeRune s))) s'
    end
  end.

Definition ValidString (s : string) : bool := valid_go 0 s.

(** ** Facts *)

Lemma DecodeRune_width c s : ∃ n, snd (DecodeRune (String c s)) = S n ∧ n ≤ String.length s.
Proof.
  unfold DecodeRune. repeat (split_match; simpl); eexists; (split; [reflexivity|]); lia.
Qed.

Lemma DecodeRune_ascii c s : (byte_of c <? 128)%N = true → DecodeRune (String c s) = (byte_of c, 1).
Proof. intros H. unfold DecodeRune. by rewrite H. Qed.

Lemma byte_at_of c : byte_at (byte_of c) = c.
Proof. apply ascii_N_embedding. Qed.

Lemma byte_of_at n : (n < 256)%N → byte_of (byte_at n) = n.
Proof. intros H. by apply N_ascii_embedding. Qed.

Lemma in_range_spec lo hi x : in_range lo hi x = true ↔ (lo <= x <= hi)%N.
Proof. unfold in_range. rewrite andb_true_iff, !N.leb_le. done. Qed.

Lemma byte_at_eq n c : n = byte_of c → byte_at n = c.
Proof. intros ->. apply byte_at_of. Qed.

Lemma tail_bits_spec c : in_range 128 191 (byte_of c) = true → (byte_of c = 128 + tail_bits c ∧ tail_bits c < 64)%N.
Proof. rewrite in_range_spec. unfold tail_bits. lia. Qed.

Ltac utf8_bounds :=
  repeat match goal with
  | H : andb _ _ = true |- _ => apply andb_true_iff in H; destruct H
  | H : in_range _ _ _ = true |- _ => apply in_range_spec in H
  | H : (_ <? _)%N = false |- _ => apply N.ltb_ge in H
  | H : (_ <? _)%N = true |- _ => apply N.ltb_lt in H
  | H : (_ =? _)%N = true |- _ => apply N.eqb_eq in H
  | H : (_ =? _)%N = false |- _ => apply N.eqb_neq in H
  end.

(** The digits of a number written in base 64. *)
Lemma base64_2 a b : (b < 64)%N → ((a * 64 + b) / 64 = a ∧ (a * 64 + b) mod 64 = b)%N.
Proof.
  intros H. rewrite N.add_comm, N.div_add, N.Div0.mod_add by lia.
  by rewrite N.div_small, N.mod_small.
Qed.

Lemma base64_3 a b c : (b < 64 → c < 64 →
  let r := a * 4096 + b * 64 + c in r / 4096 = a ∧ (r / 64) mod 64 = b ∧ r mod 64 = c)%N.
Proof.
  intros Hb Hc r. assert (Hr : r = ((a * 64 + b) * 64 + c)%N) by (subst r; lia).
  destruct (base64_2 (a * 64 + b) c Hc) as [E1 E2], (base64_2 a b Hb) as [E3 E4].
  change 4096%N with (64 * 64)%N. rewrite <- N.Div0.div_div. rewrite Hr, E1, E3, E4. done.
Qed.

Lemma base64_4 a b c d : (b < 64 → c < 64 → d < 64 →
  let r := a * 262144 + b * 4096 + c * 64 + d in
  r / 262144 = a ∧ (r / 4096) mod 64 = b ∧ (r / 64) mod 64 = c ∧ r mod 64 = d)%N.
Proof.
  intros Hb Hc Hd r. assert (Hr : r = ((a * 64 + b) * 4096 + c * 64 + d)%N) by (subst r; lia).
  destruct (base64_3 (a * 64 + b) c d Hc Hd) as (E1 & E2 & E3). cbn zeta in *. rewrite <- Hr in *.
  destruct (base64_2 a b Hb) as [E4 E5].
  change 262144%N with (4096 * 64)%N. rewrite <- N.Div0.div_div. rewrite E1, E4, E5. done.
Qed.

Lemma byte_N c n : (n <= byte_of c)%N → ∃ t, byte_of c = (n + t)%N ∧ byte_at (n + t) = c ∧ (byte_of c - n = t)%N.
Proof. intros H. exists (byte_of c - n)%N. split_and!; [lia| |done]. apply byte_at_eq. lia. Qed.

(** Decides the ordinal conditions of [EncodeRune]. *)
Ltac utf8_bytes :=
  repeat match goal with
  | |- context [(?a <? ?b)%N] =>
      first [rewrite (proj2 (N.ltb_lt a b)) by lia | rewrite (proj2 (N.ltb_ge a b)) by lia]
  end.

Ltac not_surrogate :=
  replace (in_range 55296 57343 _) with false by
    (symmetry; unfold in_range; apply andb_false_iff; rewrite !N.leb_gt; lia).

(** What a valid code point was decoded from is what it is encoded to. *)
Lemma EncodeRune_Decode c s :
  invalid_rune (String c s) = false →
  EncodeRune (fst (DecodeRune (String c s))) = stake (snd (DecodeRune (String c s))) (String c s).
Proof.
  unfold invalid_rune. rewrite bool_decide_eq_false. unfold DecodeRune.
  repeat (split_match; try done); simpl; intros _; utf8_bounds; unfold EncodeRune, tail_bits;
    try (exfalso; lia).
  1: rewrite (proj2 (N.ltb_lt _ _)) by lia; by rewrite byte_at_of.
  1: destruct (byte_N c 192) as (t0 & E0 & B0 & ->); [lia|];
    destruct (byte_N a 128) as (t1 & E1 & B1 & ->); [lia|];
    destruct (base64_2 t0 t1) as [-> ->]; [lia|]; utf8_bytes; by rewrite B0, B1.
  1-3: destruct (byte_N c 224) as (t0 & E0 & B0 & ->); [lia|];
    destruct (byte_N a 128) as (t1 & E1 & B1 & ->); [lia|];
    destruct (byte_N a0 128) as (t2 & E2 & B2 & ->); [lia|];
    destruct (base64_3 t0 t1 t2) as (Ea & Eb & Ec); [lia|lia|]; cbn zeta in *;
    rewrite Ea, Eb, Ec, B0, B1, B2; utf8_bytes; by not_surrogate.
  all: destruct (byte_N c 240) as (t0 & E0 & B0 & ->); [lia|];
    destruct (byte_N a 128) as (t1 & E1 & B1 & ->); [lia|];
    destruct (byte_N a0 128) as (t2 & E2 & B2 & ->); [lia|];
    destruct (byte_N a1 128) as (t3 & E3 & B3 & ->); [lia|];
    destruct (base64_4 t0 t1 t2 t3) as (Ea & Eb & Ec & Ed); [lia|lia|lia|]; cbn zeta in *;
    rewrite Ea, Eb, Ec, Ed, B0, B1, B2, B3; utf8_bytes; by not_surrogate.
Qed.

#[global] Arguments DecodeRune : simpl never.
#[global] Arguments EncodeRune : simpl never.
