(* ===== verification/GoJSON.v ===== *)
(** * JSON as Go reads and writes it (package encoding/json)

    The text form of the values the store keeps in TEXT columns: string maps
    (host tags), string lists (accounts, addresses, relay URLs) and the
    objects of the audit log.  [print] is json.Marshal's compact encoder with
    HTML escaping; [parse] its scanner and decoder, including the escapes,
    surrogate pairs and the replacement of invalid UTF-8.  What is encoded is
    decoded again, for every value whose strings are valid UTF-8. *)

From S2P Require Export Prelude GoStrings.

Inductive json :=
  | JNull
  | JBool (b : bool)
  | JNum (text : string)
  | JStr (s : string)
  | JArr (l : list json)
  | JObj (l : list (string * json)).

(** ** Strings *)

Definition backslash : ascii := chr 92.
Definition dquote : ascii := chr 34.

Definition hex_char (n : N) : ascii :=
  if (n <? 10)%N then byte_at (48 + n) else byte_at (87 + n).

Definition hex_value (c : ascii) : option N :=
  if between "0" "9" c then Some (byte_of c - 48)%N
  else if between "a" "f" c then Some (byte_of c - 87)%N
  else if between "A" "F" c then Some (byte_of c - 55)%N
  else None.

(** htmlSafeSet: the ASCII bytes written as they are. *)
Definition html_safe (c : ascii) : bool :=
  in_range 32 127 (byte_of c) &&
  negb (char_eqb c dquote || char_eqb c backslash || char_eqb c "&" || char_eqb c "<" || char_eqb c ">").

Definition escape_ascii (c : ascii) : string :=
  let x := byte_of c in
  if html_safe c then String c ""
  else if char_eqb c dquote || char_eqb c backslash then String backslash (String c "")
  else if (x =? 8)%N then String backslash "b"
  else if (x =? 12)%N then String backslash "f"
  else if (x =? 10)%N then String backslash "n"
  else if (x =? 13)%N then String backslash "r"
  else if (x =? 9)%N then String backslash "t"
  else String backslash ("u00" +:+ String (hex_char (x / 16)) (String (hex_char (x mod 16)) "")).

(** The encoding of the first code point of a nonempty string. *)
Definition quote_piece (s : string) : string :=
  match s with
  | EmptyString => ""
  | String c _ =>
    if (byte_of c <? 128)%N then escape_ascii c
    else
      let '(r, n) := DecodeRune s in
      if invalid_rune s then String backslash "ufffd"
      else if (r =? 8232)%N || (r =? 8233)%N then String backslash ("u202" +:+ String (hex_char (r mod 16)) "")
      else stake n s
  end.

Fixpoint quote_go (skip : nat) (s : string) : string :=
  match s with
  | EmptyString => ""
  | String _ s' =>
    match skip with
    | S k => quote_go k s'
    | O => quote_piece s +:+ quote_go (pred (snd (DecodeRune s))) s'
    end
  end.

Definition quote (s : string) : string := String dquote (quote_go 0 s +:+ String dquote "").

(** Four hexadecimal digits. *)
Definition getu4 (s : string) : option N :=
  match s with
  | String a (String b (String c (String d _))) =>
      a' ← hex_value a; b' ← hex_value b; c' ← hex_value c; d' ← hex_value d;
      Some (a' * 4096 + b' * 256 + c' * 16 + d')%N
  | _ => None
  end.

(** utf16.DecodeRune. *)
Definition surrogate_pair (r1 r2 : N) : option N :=
  if in_range 55296 56319 r1 && in_range 56320 57343 r2
  then Some ((r1 - 55296) * 1024 + (r2 - 56320) + 65536)%N else None.

(** The escape after a backslash: its text and its width with the backslash. *)
Definition unescape_after (s : string) : option (string * nat) :=
  match s with
  | EmptyString => None
  | String e s2 =>
    if char_eqb e dquote || char_eqb e backslash || char_eqb e "/" then Some (String e "", 2)
    else if char_eqb e "b" then Some (bytes [8], 2)
    else if char_eqb e "f" then Some (bytes [12], 2)
    else if char_eqb e "n" then Some (bytes [10], 2)
    else if char_eqb e "r" then Some (bytes [13], 2)
    else if char_eqb e "t" then Some (bytes [9], 2)
    else if char_eqb e "u" then
      r ← getu4 s2;
      if in_range 55296 57343 r then
        let low := if strings.HasPrefix (sdrop 4 s2) (String backslash "u") then getu4 (sdrop 6 s2) else None in
        match low ≫= surrogate_pair r with
        | Some p => Some (EncodeRune p, 12)
        | None => Some (EncodeRune RuneError, 6)
        end
      else Some (EncodeRune r, 6)
    else None
  end.

(** The first element of a string literal: its text and its width. *)
Definition unquote_piece (s : string) : option (string * nat) :=
  match s with
  | EmptyString => None
  | String c s1 =>
    if char_eqb c backslash then unescape_after s1
    else if (byte_of c <? 32)%N then None
    else let '(r, n) := DecodeRune s in Some (EncodeRune r, n)
  end.

(** The literal after its opening quote: its value and what follows it. *)
Fixpoint unquote_go (skip : nat) (s : string) : option (string * string) :=
  match s with
  | EmptyString => None
  | String c s' =>
    match skip with
    | S k => unquote_go k s'
    | O =>
      if char_eqb c dquote then Some ("", s')
      else
        '(text, n) ← unquote_piece s;
        '(more, rest) ← unquote_go (pred n) s';
        Some (text +:+ more, rest)
    end
  end.

(** ** Numbers *)

Fixpoint take_digits (s : string) : string * string :=
  match s with
  | EmptyString => ("", "")
  | String c s' => if is_digit c then let '(d, r) := take_digits s' in (String c d, r) else ("", s)
  end.

Definition digits1 (s : string) : option (string * string) :=
  match take_digits s with (EmptyString, _) => None | dr => Some dr end.

Definition int_part (s : string) : option (string * string) :=
  match s with
  | String c s' => if char_eqb c "0" then Some ("0", s') else digits1 s
  | EmptyString => None
  end.

Definition frac_part (s : string) : option (string * string) :=
  match s with
  | String c s' => if char_eqb c "." then '(d, r) ← digits1 s'; Some (String c d, r) else Some ("", s)
  | EmptyString => Some ("", s)
  end.

Definition exp_part (s : string) : option (string * string) :=
  match s with
  | String c s' =>
    if char_eqb c "e" || char_eqb c "E" then
      let '(sign, s2) :=
        match s' with
        | String x s3 => if char_eqb x "+" || char_eqb x "-" then (String x "", s3) else ("", s')
        | EmptyString => ("", s')
        end in
      '(d, r) ← digits1 s2; Some (String c sign +:+ d, r)
    else Some ("", s)
  | EmptyString => Some ("", s)
  end.

Definition parse_number (s : string) : option (string * string) :=
  let '(sign, s1) :=
    match s with
    | String c s' => if char_eqb c "-" then ("-", s') else ("", s)
    | EmptyString => ("", s)
    end in
  '(i, s2) ← int_part s1;
  '(f, s3) ← frac_part s2;
  '(e, s4) ← exp_part s3;
  Some (sign +:+ i +:+ f +:+ e, s4).

(** ** Values *)

Definition is_ws (c : ascii) : bool :=
  char_eqb c " " || char_eqb c (chr 9) || char_eqb c (chr 10) || char_eqb c (chr 13).

Fixpoint skip_ws (s : string) : string :=
  match s with
  | String c s' => if is_ws c then skip_ws s' else s
  | EmptyString => s
  end.

Definition literal (s word : string) (j : json) : option (json * string) :=
  if strings.HasPrefix s word then Some (j, sdrop (String.length word) s) else None.

(** What follows an element of an array or object that [close] ends. *)
Inductive follow := More (rest : string) | Done (rest : string).

Definition next_element (close : ascii) (s : string) : option follow :=
  match skip_ws s with
  | String c rest =>
      if char_eqb c "," then Some (More rest)
      else if char_eqb c close then Some (Done rest) else None
  | EmptyString => None
  end.

Definition object_key (s : string) : option (string * string) :=
  match skip_ws s with
  | String c s' =>
    if char_eqb c dquote then
      '(k, s1) ← unquote_go 0 s';
      match skip_ws s1 with
      | String c1 s2 => if char_eqb c1 ":" then Some (k, s2) else None
      | EmptyString => None
      end
    else None
  | EmptyString => None
  end.

Definition starts_with (c : ascii) (s : string) : option string :=
  match skip_ws s with String d r => if char_eqb d c then Some r else None | EmptyString => None end.

Definition max_depth : N := 10000.

(** [n] is fuel: twice the length of the text is enough.  [depth] counts the
    enclosing arrays and objects, as the scanner does. *)
Fixpoint parse_value (n : nat) (depth : N) (s : string) : option (json * string) :=
  match n with
  | O => None
  | S n =>
    match skip_ws s with
    | EmptyString => None
    | String c s1 =>
      if char_eqb c dquote then '(t, r) ← unquote_go 0 s1; Some (JStr t, r)
      else if char_eqb c "{" then
        if (max_depth <=? depth)%N then None else
        match starts_with "}" s1 with
        | Some r => Some (JObj [], r)
        | None => '(l, r) ← parse_members n (depth + 1)%N s1; Some (JObj l, r)
        end
      else if char_eqb c "[" then
        if (max_depth <=? depth)%N then None else
        match starts_with "]" s1 with
        | Some r => Some (JArr [], r)
        | None => '(l, r) ← parse_elements n (depth + 1)%N s1; Some (JArr l, r)
        end
      else if char_eqb c "t" then literal (String c s1) "true" (JBool true)
      else if char_eqb c "f" then literal (String c s1) "false" (JBool false)
      else if char_eqb c "n" then literal (String c s1) "null" JNull
      else '(t, r) ← parse_number (String c s1); Some (JNum t, r)
    end
  end
with parse_elements (n : nat) (depth : N) (s : string) : option (list json * string) :=
  match n with
  | O => None
  | S n =>
    '(j, r) ← parse_value n depth s;
    f ← next_element "]" r;
    match f with
    | Done r' => Some ([j], r')
    | More r' => '(l, r2) ← parse_elements n depth r'; Some (j :: l, r2)
    end
  end
with parse_members (n : nat) (depth : N) (s : string) : option (list (string * json) * string) :=
  match n with
  | O => None
  | S n =>
    '(k, s1) ← object_key s;
    '(j, r) ← parse_value n depth s1;
    f ← next_element "}" r;
    match f with
    | Done r' => Some ([(k, j)], r')
    | More r' => '(l, r2) ← parse_members n depth r'; Some ((k, j) :: l, r2)
    end
  end.

Definition parse (s : string) : option json :=
  '(j, r) ← parse_value (2 * String.length s + 2) 0 s;
  match skip_ws r with EmptyString => Some j | _ => None end.

Fixpoint print (j : json) : string :=
  match j with
  | JNull => "null"
  | JBool true => "true"
  | JBool false => "false"
  | JNum t => t
  | JStr s => quote s
  | JArr l => "[" +:+ strings.Join (print <$> l) "," +:+ "]"
  | JObj l => "{" +:+ strings.Join ((λ kv, quote kv.1 +:+ ":" +:+ print kv.2) <$> l) "," +:+ "}"
  end.

(** ** Go values *)

Definition key_le (a b : string) : Prop := String.leb a b = true.
#[export] Instance key_le_dec a b : Decision (key_le a b) := decide (String.leb a b = true).

Definition entry_le {A} (a b : string * A) : Prop := key_le a.1 b.1.
#[export] Instance entry_le_dec {A} (a b : string * A) : Decision (entry_le a b) := key_le_dec a.1 b.1.

(** A map is written with its keys in byte order. *)
Definition sort_keys {A} (l : list (string * A)) : list (string * A) := merge_sort entry_le l.

(** json.Marshal of a map[string]any, given its entries. *)
Definition Marshal_object (l : list (string * json)) : string := print (JObj (sort_keys l)).

(** json.Marshal of a map[string]string; [None] is the nil map. *)
Definition Marshal_map (m : option (gmap string string)) : string :=
  match m with
  | None => print JNull
  | Some m => Marshal_object (prod_map id JStr <$> map_to_list m)
  end.

(** json.Marshal of a []string; [None] is the nil slice. *)
Definition Marshal_list (l : option (list string)) : string :=
  match l with
  | None => print JNull
  | Some l => print (JArr (JStr <$> l))
  end.

(** A value stored into a string: [null] and values of another type leave it
    empty (for the latter, json.Unmarshal also reports an error). *)
Definition as_string (j : json) : string := match j with JStr s => s | _ => "" end.

(** json.Unmarshal into a nil map[string]string or []string whose error the
    caller discards: the variable afterwards. *)
Definition Unmarshal_map (s : string) : option (gmap string string) :=
  match parse s with
  | Some (JObj l) => Some (foldl (λ m kv, <[kv.1 := as_string kv.2]> m) ∅ l)
  | _ => None
  end.

Definition Unmarshal_list (s : string) : option (list string) :=
  match parse s with
  | Some (JArr l) => Some (as_string <$> l)
  | _ => None
  end.

Example marshal_escapes :
  Marshal_map (Some {[ "b" := bytes [60; 34; 10; 255]; "a" := bytes [226; 128; 168; 195; 169] ]}) =
    bytes [123;34;97;34;58;34;92;117;50;48;50;56;195;169;34;44;34;98;34;58;34;92;117;48;48;51;99;92;34;92;110;92;117;102;102;102;100;34;125].
Proof. vm_compute. reflexivity. Qed.

Example unmarshal_pair :
  Unmarshal_list (bytes [32; 91; 34; 92; 117; 68; 56; 51; 68; 92; 117; 68; 69; 48; 48; 34; 44; 110; 117; 108; 108; 93; 10])
    = Some [bytes [240; 159; 152; 128]; ""].
Proof. vm_compute. reflexivity. Qed.
