(* ===== verification/GoPath.v ===== *)
(** * Paths and URL escapes (packages path, path/filepath and net/url)

    The lexical operations on slash-separated paths, which filepath shares on
    Unix, and url.PathEscape and url.QueryEscape. *)

From S2P Require Export Prelude GoStrings GoJSON.

Definition slash : ascii := "/"%char.

Module path.

Definition IsAbs (s : string) : bool := strings.HasPrefix s "/".

(** One element of the path, with those kept so far, the last one first. *)
Definition clean_step (rooted : bool) (kept : list string) (e : string) : list string :=
  if bool_decide (e = "") || bool_decide (e = ".") then kept
  else if bool_decide (e = "..") then
    match kept with
    | top :: rest => if bool_decide (top = "..") then e :: kept else rest
    | [] => if rooted then [] else [e]
    end
  else e :: kept.

Definition Clean (s : string) : string :=
  let rooted := IsAbs s in
  let kept := foldl (clean_step rooted) [] (strings.Split s slash) in
  let out := (if rooted then "/" else "") +:+ strings.Join (reverse kept) "/" in
  if bool_decide (out = "") then "." else out.

Definition Join (l : list string) : string :=
  match filter (λ e, e ≠ "") l with
  | [] => ""
  | l' => Clean (strings.Join l' "/")
  end.

(** What precedes the last slash, with it, and what follows it. *)
Definition split_last (s : string) : string * string :=
  match strings.LastIndexByte s slash with
  | Some i => (stake (S i) s, sdrop (S i) s)
  | None => ("", s)
  end.

Definition Dir (s : string) : string := Clean (fst (split_last s)).

Fixpoint trim_slashes (s : string) : string :=
  match s with
  | EmptyString => ""
  | String c s' =>
    match trim_slashes s' with
    | EmptyString => if char_eqb c slash then "" else String c ""
    | t => String c t
    end
  end.

Definition Base (s : string) : string :=
  if bool_decide (s = "") then "." else
  let t := trim_slashes s in
  if bool_decide (t = "") then "/" else snd (split_last t).

End path.

Example clean_dots : path.Clean "/../a/./b//../c/" = "/a/c".
Proof. reflexivity. Qed.
Example clean_up : path.Clean "a/../../b" = "../b".
Proof. reflexivity. Qed.
Example join_local : path.Join ["pre/"; "c1"; "local/v1"] = "pre/c1/local/v1".
Proof. reflexivity. Qed.
Example dir_base : (path.Dir "/a/b/", path.Dir "f", path.Base "/a/b/") = ("/a/b", ".", "b").
Proof. reflexivity. Qed.

(** ** Percent escapes *)

Definition upper_hex (n : N) : ascii := if (n <? 10)%N then byte_at (48 + n) else byte_at (55 + n).

Definition percent (c : ascii) : string :=
  String "%" (String (upper_hex (byte_of c / 16)) (String (upper_hex (byte_of c mod 16)) "")).

Definition unreserved (c : ascii) : bool :=
  between "a" "z" c || between "A" "Z" c || between "0" "9" c ||
  char_eqb c "-" || char_eqb c "_" || char_eqb c "." || char_eqb c "~".

(** [shouldEscape] in a path segment leaves the sub-delimiters that have no
    meaning there. *)
Definition segment_safe (c : ascii) : bool :=
  unreserved c || char_eqb c "$" || char_eqb c "&" || char_eqb c "+" || char_eqb c "=" || char_eqb c ":" || char_eqb c "@".

Module url.

Fixpoint PathEscape (s : string) : string :=
  match s with
  | EmptyString => ""
  | String c s => (if segment_safe c then String c "" else percent c) +:+ PathEscape s
  end.

Fixpoint QueryEscape (s : string) : string :=
  match s with
  | EmptyString => ""
  | String c s =>
    (if unreserved c then String c "" else if char_eqb c " " then "+" else percent c) +:+ QueryEscape s
  end.

End url.

Example escapes : (url.PathEscape "a/b c&d", url.QueryEscape "a/b c&d") = ("a%2Fb%20c&d", "a%2Fb+c%26d").
Proof. reflexivity. Qed.

(** ** Facts *)

Lemma PathEscape_plain s : str_forallb segment_safe s = true → url.PathEscape s = s.
Proof.
  induction s as [|c s IH]; [done|]. simpl. intros [Hc Hs]%andb_true_iff. by rewrite Hc, app_cons_s, app_nil_s, IH.
Qed.

Definition not_slash (c : ascii) : bool := negb (char_eqb c slash).

(** An escaped segment stays one segment. *)
Lemma PathEscape_one_segment s : str_forallb not_slash (url.PathEscape s) = true.
Proof.
  induction s as [|c s IH]; [done|]. simpl. rewrite str_forallb_app, IH, andb_true_r.
  destruct c as [[] [] [] [] [] [] [] []]; reflexivity.
Qed.
