(* ===== verification/GoJSONFacts.v ===== *)
(** * What encoding/json writes, it reads back

    Round trips of the model of GoJSON.v: a string literal, a number, a value,
    and the Go maps and slices the store keeps. *)

From S2P Require Export GoJSON.

(** ** Strings *)

Lemma DecodeRune_local c s x :
  invalid_rune (String c s) = false →
  DecodeRune (stake (snd (DecodeRune (String c s))) (String c s) +:+ x) = DecodeRune (String c s).
Proof.
  unfold invalid_rune. rewrite bool_decide_eq_false.
  destruct (DecodeRune (String c s)) as [r n] eqn:E. intros Hv. revert E. unfold DecodeRune at 1.
  repeat (split_match; try done); intros [= <- <-]; try done; subst; cbn [snd stake];
    rewrite !app_cons_s; unfold DecodeRune;
    repeat match goal with H : ?b = _ |- context [?b] => rewrite H end; done.
Qed.

Lemma quote_go_skip k s : quote_go k s = quote_go 0 (sdrop k s).
Proof. revert k. induction s as [|c s IH]; intros [|k]; try done. apply IH. Qed.

Lemma valid_go_skip k s : valid_go k s = valid_go 0 (sdrop k s).
Proof. revert k. induction s as [|c s IH]; intros [|k]; try done. apply IH. Qed.

Lemma unquote_go_skip p x : unquote_go (String.length p) (p +:+ x) = unquote_go 0 x.
Proof. induction p as [|c p IH]; [done|]. rewrite app_cons_s. simpl. exact IH. Qed.

Lemma escape_ascii_read c x :
  (byte_of c <? 128)%N = true →
  unquote_piece (escape_ascii c +:+ x) = Some (String c "", String.length (escape_ascii c)) ∧
  ∃ c' p, escape_ascii c = String c' p ∧ char_eqb c' dquote = false.
Proof.
  destruct c as [[] [] [] [] [] [] [] []]; intros H; try discriminate H; clear H;
    (split; [reflexivity|eexists _, _; split; reflexivity]).
Qed.

(** An encoded code point is read back as itself, and never ends a literal. *)
Lemma quote_piece_read c s x :
  invalid_rune (String c s) = false →
  unquote_piece (quote_piece (String c s) +:+ x) =
    Some (stake (snd (DecodeRune (String c s))) (String c s), String.length (quote_piece (String c s))) ∧
  ∃ c' p, quote_piece (String c s) = String c' p ∧ char_eqb c' dquote = false.
Proof.
  intros Hv. unfold quote_piece. destruct (byte_of c <? 128)%N eqn:Ha.
  { rewrite (DecodeRune_ascii c s) by done. by apply escape_ascii_read. }
  rewrite Hv. pose proof (EncodeRune_Decode c s Hv) as He. pose proof (DecodeRune_local c s x Hv) as Hl.
  destruct (DecodeRune_width c s) as (w & Hw & Hle).
  destruct (DecodeRune (String c s)) as [r n] eqn:E. cbn [fst snd] in *. subst n.
  destruct (r =? 8232)%N eqn:E1; [apply N.eqb_eq in E1 as ->; split; [|eexists _, _; split; reflexivity]; by rewrite <- He|].
  destruct (r =? 8233)%N eqn:E2; [apply N.eqb_eq in E2 as ->; split; [|eexists _, _; split; reflexivity]; by rewrite <- He|].
  cbn [orb stake]. split; [|eexists _, _; split; [reflexivity|]; destruct c as [[] [] [] [] [] [] [] []]; done].
  cbn [stake] in *. rewrite app_cons_s in *. unfold unquote_piece.
  replace (char_eqb c backslash) with false by (by destruct c as [[] [] [] [] [] [] [] []]).
  replace (byte_of c <? 32)%N with false by (symmetry; apply N.ltb_ge; apply N.ltb_ge in Ha; lia).
  rewrite Hl, He. simpl. rewrite length_stake. by rewrite Nat.min_l.
Qed.

Lemma unquote_quote s rest :
  ValidString s = true → unquote_go 0 (quote_go 0 s +:+ String dquote rest) = Some (s, rest).
Proof.
  unfold ValidString. remember (String.length s) as m eqn:Hm. revert s Hm.
  induction m as [m IH] using lt_wf_ind. intros [|c s] ->; [done|]. intros Hv. simpl in Hv.
  apply andb_true_iff in Hv as [Hi Hv]. apply negb_true_iff in Hi.
  destruct (DecodeRune_width c s) as (w & Hw & Hle). cbn [quote_go].
  rewrite valid_go_skip in Hv. rewrite quote_go_skip, app_assoc_s. rewrite Hw in *. cbn [pred] in *.
  set (t := quote_go 0 (sdrop w s) +:+ String dquote rest).
  destruct (quote_piece_read c s t Hi) as (Hp & c' & p & Ep & Hq). rewrite Hw in Hp. rewrite Ep in *.
  rewrite app_cons_s in *. cbn [unquote_go]. rewrite Hq, Hp. cbn [mbind option_bind].
  cbn [String.length pred]. rewrite unquote_go_skip. unfold t.
  rewrite (IH (String.length (sdrop w s))); [|rewrite length_sdrop; simpl; lia|done|done].
  cbn [mbind option_bind stake]. by rewrite app_cons_s, stake_sdrop.
Qed.

(** ** Numbers *)

Definition no_digit (s : string) : bool :=
  match s with
  | EmptyString => true
  | String c _ => negb (is_digit c || char_eqb c "." || char_eqb c "e" || char_eqb c "E")
  end.

Lemma take_digits_app d s :
  str_forallb is_digit d = true → no_digit s = true → take_digits (d +:+ s) = (d, s).
Proof.
  intros Hd Hs. induction d as [|c d IH].
  - rewrite app_nil_s. destruct s as [|c s]; [done|]. simpl in *. destruct (is_digit c); done.
  - apply andb_true_iff in Hd as [Hc Hd]. rewrite app_cons_s. simpl. by rewrite Hc, IH.
Qed.

Lemma pretty_N_go_first n s :
  (0 < n)%N → ∃ c d, pretty_N_go n s = String c d ∧ char_eqb c "0" = false ∧ is_digit c = true.
Proof.
  revert s. induction n as [n IH] using (well_founded_induction N.lt_wf_0). intros s Hn.
  rewrite pretty_N_go_step by done. destruct (decide (n / 10 = 0)%N) as [E|E].
  - rewrite E, pretty_N_go_0. assert (Hlt : (n < 10)%N) by (apply N.div_small_iff in E; lia).
    rewrite N.mod_small by done. eexists _, _. split; [reflexivity|].
    assert (n = 1 ∨ n = 2 ∨ n = 3 ∨ n = 4 ∨ n = 5 ∨ n = 6 ∨ n = 7 ∨ n = 8 ∨ n = 9)%N as Hc by lia.
    by repeat destruct Hc as [->|Hc]; [..|subst].
  - apply IH; [apply N.div_lt; lia|by apply N.neq_0_lt_0].
Qed.

Lemma int_part_pretty (n : N) s : no_digit s = true → int_part (pretty n +:+ s) = Some (pretty n, s).
Proof.
  intros Hs. unfold pretty, pretty_N. destruct (decide (n = 0%N)) as [->|Hn]; [done|].
  destruct (pretty_N_go_first n "") as (c & d & E & Hc & Hd); [lia|].
  assert (Hall : str_forallb is_digit (String c d) = true).
  { rewrite <- E. pose proof (pretty_N_digits n) as H. unfold pretty, pretty_N in H.
    by rewrite decide_False in H. }
  rewrite E, app_cons_s. unfold int_part. rewrite Hc. unfold digits1.
  rewrite <- app_cons_s, take_digits_app by done. done.
Qed.

Lemma no_digit_parts s :
  no_digit s = true → frac_part s = Some ("", s) ∧ exp_part s = Some ("", s).
Proof.
  destruct s as [|c s]; [done|]. simpl. intros H. apply negb_true_iff in H.
  rewrite !orb_false_iff in H. destruct H as [[[_ H1] H2] H3]. by rewrite H1, H2, H3.
Qed.

Lemma parse_number_FormatInt z s :
  no_digit s = true → parse_number (strconv.FormatInt z +:+ s) = Some (strconv.FormatInt z, s).
Proof.
  intros Hs. destruct (no_digit_parts s Hs) as [Hf He].
  assert (Hpos : ∀ n, parse_number (pretty (n : N) +:+ s) = Some (pretty n, s)).
  { intros n. destruct (pretty n) as [|c d] eqn:E; [by apply pretty_N_ne in E|].
    pose proof (pretty_N_digits n) as Hd. rewrite E in Hd. simpl in Hd. apply andb_true_iff in Hd as [Hc _].
    unfold parse_number. rewrite app_cons_s. replace (char_eqb c "-") with false.
    2:{ symmetry. apply char_eqb_ne. intros ->. discriminate Hc. }
    rewrite <- app_cons_s, <- E, int_part_pretty by done. cbn [mbind option_bind].
    rewrite Hf. cbn [mbind option_bind]. rewrite He. cbn [mbind option_bind]. f_equal. f_equal. by str_simpl. }
  destruct z as [|p|p]; [apply (Hpos 0%N)|apply (Hpos (N.pos p))|].
  pose proof (int_part_pretty (N.pos p) s Hs) as Hi.
  change (strconv.FormatInt (Z.neg p)) with (String "-" (pretty (N.pos p))).
  unfold parse_number. rewrite app_cons_s, char_eqb_refl, Hi. cbn [mbind option_bind].
  rewrite Hf. cbn [mbind option_bind]. rewrite He.
  cbn [mbind option_bind]. f_equal. f_equal. by str_simpl.
Qed.

(** ** Values *)

(** The values [print] is meant for: valid strings, integers, bounded nesting. *)
Fixpoint printable (d : N) (j : json) : Prop :=
  match j with
  | JNull | JBool _ => True
  | JNum t => ∃ z, t = strconv.FormatInt z
  | JStr s => ValidString s = true
  | JArr l => (d < max_depth)%N ∧ foldr (λ j P, printable (d + 1) j ∧ P) True l
  | JObj l => (d < max_depth)%N ∧
      foldr (λ kv P, (ValidString kv.1 = true ∧ printable (d + 1) kv.2) ∧ P) True l
  end.

Lemma json_nested_ind (P : json → Prop) :
  P JNull → (∀ b, P (JBool b)) → (∀ t, P (JNum t)) → (∀ s, P (JStr s)) →
  (∀ l, Forall P l → P (JArr l)) → (∀ l, Forall (λ kv, P kv.2) l → P (JObj l)) → ∀ j, P j.
Proof.
  intros H1 H2 H3 H4 H5 H6. fix IH 1. intros [|b|t|s|l|l]; [done|done|done|done| |].
  - apply H5. induction l as [|j l IHl]; constructor; [apply IH|exact IHl].
  - apply H6. induction l as [|[k j] l IHl]; constructor; [apply IH|exact IHl].
Qed.

(** The fuel that reading a printed value takes. *)
Fixpoint need (j : json) : nat :=
  match j with
  | JArr l => S (foldr (λ j n, S (need j + n)) 0 l)
  | JObj l => S (foldr (λ kv n, S (need kv.2 + n)) 0 l)
  | _ => 1
  end.

Definition needs (l : list json) : nat := foldr (λ j n, S (need j + n)) 0 l.
Definition members_need (l : list (string * json)) : nat := foldr (λ kv n, S (need kv.2 + n)) 0 l.

Definition print_member (kv : string * json) : string := quote kv.1 +:+ ":" +:+ print kv.2.

Lemma FormatInt_first z : ∃ c s, strconv.FormatInt z = String c s ∧ (is_digit c = true ∨ c = "-"%char).
Proof.
  destruct z as [|p|p]; [by eexists _, _; split; [reflexivity|left]| |by eexists _, _; split; [reflexivity|right]].
  change (strconv.FormatInt (Z.pos p)) with (pretty (N.pos p)).
  pose proof (pretty_N_digits (N.pos p)) as Hd. pose proof (pretty_N_ne (N.pos p)).
  destruct (pretty (N.pos p)) as [|c s]; [done|]. simpl in Hd. apply andb_true_iff in Hd as [Hc _].
  exists c, s. by split; [|left].
Qed.

(** The first byte of a printed value decides how it is read. *)
Definition opens (c : ascii) (j : json) : Prop :=
  match j with
  | JNull => c = "n"%char
  | JBool b => c = (if b then "t" else "f")%char
  | JNum _ => is_digit c = true ∨ c = "-"%char
  | JStr _ => c = dquote
  | JArr _ => c = "["%char
  | JObj _ => c = "{"%char
  end.

Lemma print_first d j : printable d j → ∃ c s, print j = String c s ∧ opens c j.
Proof.
  destruct j as [|[]|t|s|l|l]; simpl; intros H; try (by eexists _, _; split).
  destruct H as [z ->]. apply FormatInt_first.
Qed.

Lemma opens_visible c j : opens c j →
  is_ws c = false ∧ char_eqb c "]" = false ∧ char_eqb c "}" = false.
Proof.
  destruct j as [|[]|t|s|l|l]; simpl; intros H; try (by subst).
  destruct H as [H| ->]; [|done]. split_and!; revert H; by_byte c.
Qed.

Lemma skip_visible c s : is_ws c = false → skip_ws (String c s) = String c s.
Proof. intros H. simpl. by rewrite H. Qed.

Lemma length_print_pos d j : printable d j → 1 ≤ String.length (print j).
Proof. intros H. destruct (print_first d j H) as (c & s & -> & _). simpl. lia. Qed.

Lemma length_Join_cons x l sep :
  l ≠ [] → String.length (strings.Join (x :: l) sep) =
    String.length x + String.length sep + String.length (strings.Join l sep).
Proof. destruct l; [done|]. intros _. simpl. rewrite !length_app_s. lia. Qed.

Lemma need_le j d : printable d j → need j ≤ 2 * String.length (print j).
Proof.
  revert d. induction j as [|b|t|s|l IH|l IH] using json_nested_ind; intros d Hp;
    pose proof (length_print_pos d _ Hp) as Hpos; try (cbn [need]; lia).
  - cbn [need print] in *. rewrite !length_app_s. simpl in Hp. destruct Hp as [_ Hp].
    enough (l ≠ [] → foldr (λ j n, S (need j + n)) 0 l ≤ 2 * String.length (strings.Join (print <$> l) ",") + 2).
    { destruct l; [simpl; lia|]. specialize (H ltac:(done)). simpl (String.length "["). simpl (String.length "]"). lia. }
    intros _. clear Hpos. revert Hp. induction IH as [|j l Hj _ IHl]; [simpl; lia|]. intros [Hp1 Hp2].
    specialize (Hj _ Hp1). specialize (IHl Hp2). cbn [foldr fmap list_fmap].
    destruct l as [|j' l]; [simpl in *; lia|].
    rewrite length_Join_cons by done. change (String.length ",") with 1. cbn [fmap list_fmap] in *. lia.
  - cbn [need print] in *. rewrite !length_app_s. simpl in Hp. destruct Hp as [_ Hp].
    set (f := λ kv : string * json, quote kv.1 +:+ ":" +:+ print kv.2) in *.
    enough (l ≠ [] → foldr (λ kv n, S (need kv.2 + n)) 0 l ≤ 2 * String.length (strings.Join (f <$> l) ",") + 2).
    { destruct l; [simpl; lia|]. specialize (H ltac:(done)). simpl (String.length "{"). simpl (String.length "}"). lia. }
    intros _. clear Hpos. revert Hp. induction IH as [|[k j] l Hj _ IHl]; [simpl; lia|]. intros [[_ Hp1] Hp2].
    specialize (Hj _ Hp1). specialize (IHl Hp2). cbn [foldr fmap list_fmap snd] in *.
    assert (Hf : String.length (print j) ≤ String.length (f (k, j))).
    { unfold f. rewrite !length_app_s. simpl (snd _). lia. }
    destruct l as [|j' l]; [simpl in *; lia|].
    rewrite length_Join_cons by done. change (String.length ",") with 1. cbn [fmap list_fmap snd] in *. lia.
Qed.

Section elements.
Context (n : nat) (d : N).

Definition reads (j : json) : Prop :=
  ∀ m rest, need j ≤ m → no_digit rest = true → parse_value m d (print j +:+ rest) = Some (j, rest).

Lemma parse_elements_print l rest :
  l ≠ [] → Forall reads l → needs l ≤ n →
  parse_elements n d (strings.Join (print <$> l) "," +:+ "]" +:+ rest) = Some (l, rest).
Proof.
  revert n. induction l as [|j l IH]; [done|]. intros m _ Hl Hm. apply Forall_cons in Hl as [Hj Hl].
  simpl in Hm. destruct m as [|m]; [lia|]. destruct l as [|j' l].
  - cbn. rewrite Hj by (done || lia). done.
  - cbn [fmap list_fmap strings.Join parse_elements]. rewrite !app_assoc_s.
    rewrite Hj by (done || lia). cbn [mbind option_bind].
    change (("," : string) +:+ ?x) with (String "," x). unfold next_element.
    rewrite (skip_visible ",") by done. rewrite char_eqb_refl. cbn [mbind option_bind].
    cbn [fmap list_fmap] in IH. by rewrite IH by (done || cbn [foldr needs] in *; lia).
Qed.

Lemma object_key_print k x :
  ValidString k = true → object_key (quote k +:+ ":" +:+ x) = Some (k, x).
Proof.
  intros Hk. unfold object_key, quote. rewrite app_cons_s, skip_visible, char_eqb_refl by done.
  rewrite app_assoc_s, app_cons_s, app_nil_s, unquote_quote by done. done.
Qed.

Lemma parse_members_print l rest :
  l ≠ [] → Forall (λ kv, ValidString kv.1 = true ∧ reads kv.2) l → members_need l ≤ n →
  parse_members n d (strings.Join (print_member <$> l) "," +:+ "}" +:+ rest) = Some (l, rest).
Proof.
  revert n. induction l as [|[k j] l IH]; [done|]. intros m _ Hl Hm. apply Forall_cons in Hl as [[Hk Hj] Hl].
  simpl in Hm. destruct m as [|m]; [lia|]. destruct l as [|j' l].
  - cbn [fmap list_fmap strings.Join parse_members print_member fst snd]. unfold print_member. cbn [fst snd] in *.
    rewrite !app_assoc_s, object_key_print by done. cbn [mbind option_bind].
    rewrite Hj by (done || lia). done.
  - cbn [fmap list_fmap strings.Join parse_members]. unfold print_member at 1. cbn [fst snd] in *.
    rewrite !app_assoc_s, object_key_print by done. cbn [mbind option_bind].
    rewrite Hj by (done || lia). cbn [mbind option_bind].
    change (("," : string) +:+ ?x) with (String "," x). unfold next_element.
    rewrite (skip_visible ",") by done. rewrite char_eqb_refl. cbn [mbind option_bind].
    cbn [fmap list_fmap] in IH. by rewrite IH by (done || cbn [foldr members_need] in *; lia).
Qed.

End elements.

Lemma printable_elements d l :
  foldr (λ j P, printable d j ∧ P) True l → Forall (printable d) l.
Proof. induction l as [|j l IH]; [done|]. intros [? ?]. constructor; auto. Qed.

Lemma printable_members d l :
  foldr (λ kv P, (ValidString kv.1 = true ∧ printable d kv.2) ∧ P) True l →
  Forall (λ kv, ValidString kv.1 = true ∧ printable d kv.2) l.
Proof. induction l as [|j l IH]; [done|]. intros [? ?]. constructor; auto. Qed.

Lemma starts_with_no c c' s : is_ws c' = false → char_eqb c' c = false → starts_with c (String c' s) = None.
Proof. intros H1 H2. unfold starts_with. by rewrite skip_visible, H2. Qed.

Lemma literal_app word rest j : literal (word +:+ rest) word j = Some (j, rest).
Proof. unfold literal. by rewrite HasPrefix_app, sdrop_app_len. Qed.

Lemma Join_first_starts {A} (f : A → string) (x : A) l close rest :
  (∃ c s, f x = String c s ∧ is_ws c = false ∧ char_eqb c close = false) →
  starts_with close (strings.Join (f <$> x :: l) "," +:+ rest) = None.
Proof.
  intros (c & s & E & H1 & H2). destruct l; cbn [fmap list_fmap strings.Join]; rewrite E, ?app_assoc_s, app_cons_s;
    by apply starts_with_no.
Qed.

Lemma parse_value_print j d m rest :
  printable d j → need j ≤ m → no_digit rest = true →
  parse_value m d (print j +:+ rest) = Some (j, rest).
Proof.
  revert d m rest. induction j as [|b|t|s|l IH|l IH] using json_nested_ind; intros d [|m] rest Hp Hm Hr;
    try (simpl in Hm; lia).
  - exact (literal_app "null" rest JNull).
  - destruct b; [exact (literal_app "true" rest (JBool true))|exact (literal_app "false" rest (JBool false))].
  - destruct Hp as [z ->]. destruct (FormatInt_first z) as (c & s & E & Hc).
    pose proof (parse_number_FormatInt z rest Hr) as Hn. cbn [print]. rewrite E, app_cons_s in *.
    destruct (opens_visible c (JNum "") Hc) as (Hw & _ & _). cbn [parse_value]. rewrite skip_visible by done.
    assert (Hno : ∀ x, char_eqb c x = true → is_digit x || char_eqb x "-" = true).
    { intros x Hx. unfold char_eqb in Hx. apply bool_decide_eq_true in Hx as <-.
      destruct Hc as [-> | ->]; [done|by rewrite orb_true_r]. }
    repeat match goal with |- context [char_eqb c ?x] =>
      destruct (char_eqb c x) eqn:?; [by apply Hno in Heqb|clear Heqb] end.
    rewrite Hn. done.
  - cbn [print]. unfold quote. rewrite app_cons_s, app_assoc_s, app_cons_s, app_nil_s. cbn [parse_value].
    rewrite skip_visible, char_eqb_refl, unquote_quote by done. done.
  - simpl in Hp. destruct Hp as [Hd Hp]. apply printable_elements in Hp.
    cbn [print]. rewrite !app_assoc_s. change (("[" : string) +:+ ?x) with (String "[" x). cbn [parse_value].
    rewrite skip_visible by done. cbn [char_eqb].
    replace (max_depth <=? d)%N with false by (symmetry; apply N.leb_gt; lia).
    destruct l as [|j0 l0] eqn:El; [done|]. rewrite <- El in *.
    change (char_eqb "[" dquote) with false. change (char_eqb "[" "{") with false.
    change (char_eqb "[" "[") with true. cbn iota. rewrite El, Join_first_starts, <- El.
    2:{ rewrite El in Hp. apply Forall_cons in Hp as [Hp0 _]. destruct (print_first _ _ Hp0) as (c & s & Ec & Ho).
        destruct (opens_visible c j0 Ho) as (? & ? & _). eauto. }
    rewrite parse_elements_print; [done|by subst| |cbn [need] in Hm; unfold needs; lia].
    rewrite Forall_forall in IH, Hp |- *. intros j Hj m' rest' Hm' Hr'. by apply IH; [|apply Hp| |].
  - simpl in Hp. destruct Hp as [Hd Hp]. apply printable_members in Hp.
    cbn [print]. rewrite !app_assoc_s. change (("{" : string) +:+ ?x) with (String "{" x). cbn [parse_value].
    rewrite skip_visible by done. fold print_member.
    replace (max_depth <=? d)%N with false by (symmetry; apply N.leb_gt; lia).
    destruct l as [|j0 l0] eqn:El; [done|]. rewrite <- El in *.
    change (char_eqb "{" dquote) with false. change (char_eqb "{" "{") with true.
    cbn iota. rewrite El, (Join_first_starts print_member), <- El by (eexists _, _; split; [reflexivity|done]).
    rewrite parse_members_print; [done|by subst| |cbn [need] in Hm; unfold members_need; lia].
    rewrite Forall_forall in IH, Hp |- *. intros kv Hj. destruct (Hp kv Hj) as [Hk Hpv]. split; [done|].
    intros m' rest' Hm' Hr'. by apply IH.
Qed.

(** ** The round trips *)

Theorem parse_print j : printable 0 j → parse (print j) = Some j.
Proof.
  intros Hp. unfold parse. rewrite <- (app_nil_r_s (print j)) at 2.
  pose proof (need_le j 0 Hp). rewrite parse_value_print by (done || lia). done.
Qed.

(** Valid UTF-8 in every key and value. *)
Definition valid_map (m : gmap string string) : Prop :=
  map_Forall (λ k v, ValidString k = true ∧ ValidString v = true) m.

Definition valid_list (l : list string) : Prop := Forall (λ s, ValidString s = true) l.

Lemma keys_prod_map {A B} (f : A → B) (l : list (string * A)) : (prod_map id f <$> l).*1 = l.*1.
Proof. induction l as [|[k a] l IH]; [done|]. csimpl. by rewrite IH. Qed.

Lemma foldl_insert_map (l : list (string * json)) (m0 : gmap string string) :
  NoDup l.*1 →
  foldl (λ m kv, <[kv.1 := as_string kv.2]> m) m0 l = list_to_map (prod_map id as_string <$> l) ∪ m0.
Proof.
  revert m0. induction l as [|[k v] l IH]; intros m0; simpl; [by rewrite map_empty_union|].
  intros Hnd. apply NoDup_cons in Hnd as [Hk Hnd]. rewrite IH by done.
  rewrite <- insert_union_r, insert_union_l; [done|]. apply not_elem_of_list_to_map_1.
  by rewrite keys_prod_map.
Qed.

Lemma sort_keys_perm {A} (l : list (string * A)) : sort_keys l ≡ₚ l.
Proof. apply merge_sort_Permutation. Qed.

Lemma printable_object l :
  Forall (λ kv, ValidString kv.1 = true ∧ printable 1 kv.2) l → printable 0 (JObj l).
Proof. intros H. simpl. split; [done|]. by induction H. Qed.

Lemma parse_Marshal_object l :
  Forall (λ kv, ValidString kv.1 = true ∧ printable 1 kv.2) l →
  parse (Marshal_object l) = Some (JObj (sort_keys l)).
Proof.
  intros H. apply parse_print, printable_object. by rewrite sort_keys_perm.
Qed.

Lemma Unmarshal_Marshal_map m : valid_map m → Unmarshal_map (Marshal_map (Some m)) = Some m.
Proof.
  intros Hm. unfold Unmarshal_map, Marshal_map. rewrite parse_Marshal_object.
  2:{ apply Forall_fmap, Forall_forall. intros [k v] Hkv. simpl.
      apply elem_of_map_to_list in Hkv. apply (Hm _ _ Hkv). }
  set (l := prod_map id JStr <$> map_to_list m). f_equal.
  assert (Hkeys : l.*1 = (map_to_list m).*1).
  { apply keys_prod_map. }
  assert (Hnd : NoDup l.*1) by (rewrite Hkeys; apply NoDup_fst_map_to_list).
  rewrite foldl_insert_map by (by rewrite sort_keys_perm). rewrite map_union_empty.
  assert (Hl : prod_map id as_string <$> l = map_to_list m).
  { unfold l. rewrite <- list_fmap_compose. rewrite <- (list_fmap_id (map_to_list m)) at 2.
    apply list_fmap_ext. by intros ? [k v]. }
  rewrite <- (list_to_map_to_list m), <- Hl. apply list_to_map_proper; [|by rewrite sort_keys_perm].
  by rewrite keys_prod_map, sort_keys_perm.
Qed.

Lemma Unmarshal_Marshal_list l : valid_list l → Unmarshal_list (Marshal_list (Some l)) = Some l.
Proof.
  intros Hl. unfold Unmarshal_list, Marshal_list. rewrite parse_print.
  - f_equal. rewrite <- list_fmap_compose. rewrite <- (list_fmap_id l) at 2. by apply list_fmap_ext.
  - simpl. split; [done|]. by induction Hl.
Qed.
