(* ===== verification/GoDecode.v ===== *)
(** * encoding/json into Go structs

    json.Unmarshal and Decoder.Decode into the struct types of the program.
    A decoder takes the variable as it is and a JSON value, and gives the
    variable afterwards, or [None] when the value has the wrong type, for which
    Go reports an error once the rest is decoded.  Members of an object are
    stored in the order they come, under the field whose name they match
    exactly or else up to case; unknown members are skipped. *)

From S2P Require Export Prelude GoStrings GoJSON GoJSONFacts.

(** ** Field names *)

Definition upper_char (c : ascii) : ascii := if between "a" "z" c then byte_at (byte_of c - 32) else c.

(** foldName: ASCII letters in upper case; the long s and the Kelvin sign are
    the two other runes that fold to ASCII. *)
Fixpoint foldName (s : string) : string :=
  match s with
  | EmptyString => ""
  | String a s1 =>
    match s1 with
    | String b s2 =>
      if (byte_of a =? 197)%N && (byte_of b =? 191)%N then String "S" (foldName s2)
      else
        match s2 with
        | String c s3 =>
          if (byte_of a =? 226)%N && (byte_of b =? 132)%N && (byte_of c =? 170)%N then String "K" (foldName s3)
          else String (upper_char a) (foldName s1)
        | EmptyString => String (upper_char a) (foldName s1)
        end
    | EmptyString => String (upper_char a) ""
    end
  end.

Definition decoder (A : Type) : Type := A → json → option A.

(** A field of the struct [S]: its name and how a value is stored in it. *)
Definition struct_field (S : Type) : Type := string * decoder S.

Definition find_field {S} (fields : list (struct_field S)) (key : string) : option (struct_field S) :=
  match List.find (λ f, bool_decide (f.1 = key)) fields with
  | Some f => Some f
  | None => List.find (λ f, bool_decide (foldName f.1 = foldName key)) fields
  end.

Definition decode_member {S} (fields : list (struct_field S)) (s : S) (kv : string * json) : option S :=
  match find_field fields kv.1 with Some f => f.2 s kv.2 | None => Some s end.

Fixpoint decode_members {S} (fields : list (struct_field S)) (s : S) (l : list (string * json)) : option S :=
  match l with
  | [] => Some s
  | kv :: l => s ← decode_member fields s kv; decode_members fields s l
  end.

Definition decode_struct {S} (fields : list (struct_field S)) : decoder S := λ s j,
  match j with
  | JNull => Some s
  | JObj l => decode_members fields s l
  | _ => None
  end.

(** A field read with [get], written with [set] and decoded with [d]. *)
Definition at_field {S A} (name : string) (get : S → A) (set : A → S → S) (d : decoder A) : struct_field S :=
  (name, λ s j, a ← d (get s) j; Some (set a s)).

(** ** Basic types *)

Definition decode_string : decoder string := λ s j,
  match j with JNull => Some s | JStr t => Some t | _ => None end.

Definition decode_bool : decoder bool := λ b j,
  match j with JNull => Some b | JBool c => Some c | _ => None end.

Definition decode_int64 : decoder Z := λ z j,
  match j with JNull => Some z | JNum t => strconv.ParseInt t | _ => None end.

Definition decode_uint16 : decoder Z := λ z j,
  match j with JNull => Some z | JNum t => strconv.ParseUint t 16 | _ => None end.

(** A pointer: [null] resets it, another value is stored in a new variable
    or in the one it points to. *)
Definition decode_pointer {A} (zero : A) (d : decoder A) : decoder (option A) := λ o j,
  match j with
  | JNull => Some None
  | _ => a ← d (default zero o) j; Some (Some a)
  end.

(** A []string with what its array holds beyond its length; [None] is nil. *)
Definition slice : Type := option (list string * list string).

Definition elements (s : slice) : option (list string) := fst <$> s.

Fixpoint decode_elements (old : list string) (l : list json) : option (list string) :=
  match l with
  | [] => Some []
  | j :: l =>
    x ← decode_string (hd "" old) j;
    more ← decode_elements (tl old) l;
    Some (x :: more)
  end.

(** The elements of an array are stored over what the array held. *)
Definition decode_slice : decoder slice := λ s j,
  match j with
  | JNull => Some None
  | JArr [] => Some (Some ([], []))
  | JArr l =>
    let old := match s with Some (a, b) => a ++ b | None => [] end in
    xs ← decode_elements old l;
    Some (Some (xs, drop (length l) old))
  | _ => None
  end.

(** A map with string keys: [null] resets it, an object adds its members to
    it, each decoded on its own.  [None] is the nil map. *)
Fixpoint decode_entries {A} (zero : A) (d : decoder A) (m : gmap string A) (l : list (string * json)) :
    option (gmap string A) :=
  match l with
  | [] => Some m
  | kv :: l => a ← d zero kv.2; decode_entries zero d (<[kv.1 := a]> m) l
  end.

Definition decode_map {A} (zero : A) (d : decoder A) : decoder (option (gmap string A)) := λ o j,
  match j with
  | JNull => Some None
  | JObj l => m ← decode_entries zero d (default ∅ o) l; Some (Some m)
  | _ => None
  end.

(** ** Entry points *)

(** json.Unmarshal into a zero variable. *)
Definition Unmarshal {A} (d : decoder A) (zero : A) (s : string) : option A :=
  j ← parse s; d zero j.

(** json.NewDecoder(http.MaxBytesReader(w, body, limit)).Decode: the first
    value of the body, which must end within the limit. *)
Definition Decode {A} (limit : nat) (d : decoder A) (zero : A) (body : string) : option A :=
  let s := stake limit body in
  jr ← parse_value (2 * String.length s + 2) 0 s; d zero (fst jr).

(** ** Facts *)

Lemma find_field_exact {S} (fields : list (struct_field S)) f :
  f ∈ fields → NoDup (fst <$> fields) → find_field fields f.1 = Some f.
Proof.
  intros Hf Hd. unfold find_field. assert (List.find (λ g, bool_decide (g.1 = f.1)) fields = Some f) as ->; [|done].
  induction fields as [|g fields IH]; [by apply elem_of_nil in Hf|]. csimpl in Hd. apply NoDup_cons in Hd as [Hg Hd].
  simpl. case_bool_decide as E.
  - apply elem_of_cons in Hf as [->|Hf]; [done|]. exfalso. apply Hg. rewrite E. by apply list_elem_of_fmap_2.
  - apply elem_of_cons in Hf as [->|Hf]; [done|]. by apply IH.
Qed.

Lemma decode_elements_strings old l : decode_elements old (JStr <$> l) = Some l.
Proof. revert old. induction l as [|x l IH]; intros old; [done|]. simpl. by rewrite IH. Qed.

(** json.Marshal of a []string, as a value. *)
Definition json_of_list (l : option (list string)) : json :=
  match l with None => JNull | Some l => JArr (JStr <$> l) end.

Lemma decode_slice_list l : elements <$> decode_slice None (json_of_list l) = Some l.
Proof. destruct l as [[|x l]|]; [done| |done]. simpl. by rewrite decode_elements_strings. Qed.

Lemma printable_members_intro d (l : list (string * json)) :
  Forall (λ kv, ValidString kv.1 = true ∧ printable (d + 1) kv.2) l → (d < max_depth)%N → printable d (JObj l).
Proof. intros H Hd. split; [done|]. by induction H. Qed.

Ltac members := repeat (apply Forall_cons; split); try (apply Forall_nil; exact I).

Lemma decode_members_app {S} (fields : list (struct_field S)) s l1 l2 :
  decode_members fields s (l1 ++ l2) = (s ← decode_members fields s l1; decode_members fields s l2).
Proof.
  revert s. induction l1 as [|kv l1 IH]; intros s; [done|]. simpl.
  destruct (decode_member fields s kv) as [s'|]; [|done]. simpl. apply IH.
Qed.

Lemma decode_member_at {S A} (fields : list (struct_field S)) name get set (d : decoder A) s j a :
  find_field fields name = Some (at_field name get set d) → d (get s) j = Some a →
  decode_member fields s (name, j) = Some (set a s).
Proof. intros Hf Hd. unfold decode_member. simpl. rewrite Hf. simpl. by rewrite Hd. Qed.

Lemma decode_entries_all {A} (zero : A) (d : decoder A) (f : json → A) m l :
  (∀ kv, kv ∈ l → d zero kv.2 = Some (f kv.2)) → NoDup l.*1 →
  decode_entries zero d m l = Some (list_to_map (prod_map id f <$> l) ∪ m).
Proof.
  revert m. induction l as [|[k j] l IH]; intros m Hd; [intros _; csimpl; by rewrite map_empty_union|]. csimpl. intros [Hk Hl]%NoDup_cons.
  cbn [decode_entries fst snd]. pose proof (Hd (k, j) (list_elem_of_here _ _)) as E. simpl in E. rewrite E. simpl. rewrite IH; [|intros; apply Hd; by apply list_elem_of_further|done].
  f_equal. rewrite <- insert_union_r, insert_union_l; [done|]. apply not_elem_of_list_to_map_1. by rewrite keys_prod_map.
Qed.

(** A map written with its keys in order is read back. *)
Lemma decode_map_sorted {A} (zero : A) (d : decoder A) (g : A → json) (f : json → A) (m : gmap string A) :
  map_Forall (λ _ a, d zero (g a) = Some a ∧ f (g a) = a) m →
  decode_map zero d None (JObj (sort_keys (map_to_list (g <$> m)))) = Some (Some m).
Proof.
  intros Hm. unfold decode_map. set (l := map_to_list (g <$> m)).
  assert (Hval : ∀ kv, kv ∈ sort_keys l → ∃ a, kv.2 = g a ∧ m !! kv.1 = Some a).
  { intros [k j] Hkv. rewrite sort_keys_perm in Hkv. apply elem_of_map_to_list in Hkv.
    rewrite lookup_fmap in Hkv. apply fmap_Some in Hkv as (a & Ha & ->). by exists a. }
  assert (Hn : NoDup (sort_keys l).*1) by (rewrite sort_keys_perm; apply NoDup_fst_map_to_list).
  rewrite (decode_entries_all zero d f); [|intros kv Hkv; destruct (Hval kv Hkv) as (a & -> & Ha); destruct (Hm _ _ Ha) as [H ->]; exact H|done].
  simpl. rewrite map_union_empty. do 2 f_equal. apply map_eq. intros k. apply option_eq. intros a.
  rewrite <- elem_of_list_to_map; [|by rewrite keys_prod_map]. rewrite list_elem_of_fmap. split.
  - intros ([k' j] & [= -> ->] & Hkv). destruct (Hval _ Hkv) as (a & Hj & Ha). simpl in *. rewrite Hj.
    by destruct (Hm _ _ Ha) as [_ ->].
  - intros Ha. exists (k, g a). simpl. destruct (Hm _ _ Ha) as [_ ->]. split; [done|]. rewrite sort_keys_perm.
    apply elem_of_map_to_list. by rewrite lookup_fmap, Ha.
Qed.
