(* ===== verification/GoCrypto.v ===== *)
(** * Digests and text encodings of bytes (crypto/sha256, encoding/hex,
    encoding/base64)

    SHA-256 as FIPS 180-4 defines it, executable; hex.EncodeToString;
    base64.RawURLEncoding.EncodeToString.  The store keeps bearer tokens and
    session cookies only as [hashSecret] of them, and names a published
    snapshot by the digest of its body. *)

From S2P Require Export Prelude GoStrings GoJSON.

(** ** Words of 32 bits *)

Definition w32 (n : N) : N := N.land n 4294967295.
Definition add32 (a b : N) : N := w32 (a + b).
Definition not32 (a : N) : N := N.lxor a 4294967295.
Definition rotr (k a : N) : N := N.lor (N.shiftr a k) (w32 (N.shiftl a (32 - k))).

Definition Ch (x y z : N) : N := N.lxor (N.land x y) (N.land (not32 x) z).
Definition Maj (x y z : N) : N := N.lxor (N.land x y) (N.lxor (N.land x z) (N.land y z)).
Definition Sigma0 (x : N) : N := N.lxor (rotr 2 x) (N.lxor (rotr 13 x) (rotr 22 x)).
Definition Sigma1 (x : N) : N := N.lxor (rotr 6 x) (N.lxor (rotr 11 x) (rotr 25 x)).
Definition sigma0 (x : N) : N := N.lxor (rotr 7 x) (N.lxor (rotr 18 x) (N.shiftr x 3)).
Definition sigma1 (x : N) : N := N.lxor (rotr 17 x) (N.lxor (rotr 19 x) (N.shiftr x 10)).

Definition sha_k : list N :=
  [1116352408; 1899447441; 3049323471; 3921009573; 961987163; 1508970993; 2453635748; 2870763221;
   3624381080; 310598401; 607225278; 1426881987; 1925078388; 2162078206; 2614888103; 3248222580;
   3835390401; 4022224774; 264347078; 604807628; 770255983; 1249150122; 1555081692; 1996064986;
   2554220882; 2821834349; 2952996808; 3210313671; 3336571891; 3584528711; 113926993; 338241895;
   666307205; 773529912; 1294757372; 1396182291; 1695183700; 1986661051; 2177026350; 2456956037;
   2730485921; 2820302411; 3259730800; 3345764771; 3516065817; 3600352804; 4094571909; 275423344;
   430227734; 506948616; 659060556; 883997877; 958139571; 1322822218; 1537002063; 1747873779;
   1955562222; 2024104815; 2227730452; 2361852424; 2428436474; 2756734187; 3204031479; 3329325298]%N.

Definition sha_init : list N :=
  [1779033703; 3144134277; 1013904242; 2773480762; 1359893119; 2600822924; 528734635; 1541459225]%N.

(** ** Padding *)

Definition big_endian (k : nat) (n : N) : list N :=
  (λ i, N.land (N.shiftr n (8 * N.of_nat i)) 255) <$> reverse (seq 0 k).

Definition pad (m : list N) : list N :=
  let zeros := (55 + 64 - length m mod 64) mod 64 in
  m ++ [128%N] ++ replicate zeros 0%N ++ big_endian 8 (8 * N.of_nat (length m)).

Definition word_of (l : list N) : N := foldl (λ a b, a * 256 + b)%N 0%N l.

Fixpoint chunks {A} (n k : nat) (l : list A) : list (list A) :=
  match n with
  | O => []
  | S n => take k l :: chunks n k (drop k l)
  end.

(** ** Compression *)

(** The message schedule, newest word first. *)
Fixpoint schedule (n : nat) (w : list N) : list N :=
  match n with
  | O => w
  | S n =>
    let at_ i := nth i w 0%N in
    schedule n (add32 (add32 (sigma1 (at_ 1)) (at_ 6)) (add32 (sigma0 (at_ 14)) (at_ 15)) :: w)
  end.

Definition round (st : list N) (kw : N * N) : list N :=
  match st with
  | [a; b; c; d; e; f; g; h] =>
    let t1 := add32 (add32 h (Sigma1 e)) (add32 (Ch e f g) (add32 kw.1 kw.2)) in
    let t2 := add32 (Sigma0 a) (Maj a b c) in
    [add32 t1 t2; a; b; c; add32 d t1; e; f; g]
  | _ => st
  end.

Definition compress (st : list N) (block : list N) : list N :=
  let w := reverse (schedule 48 (reverse (word_of <$> chunks 16 4 block))) in
  zip_with add32 st (foldl round st (zip sha_k w)).

(** sha256.Sum256. *)
Definition Sum256 (s : string) : string :=
  let m := pad (byte_of <$> String.list_ascii_of_string s) in
  let final := foldl compress sha_init (chunks (length m / 64) 64 m) in
  String.string_of_list_ascii (byte_at <$> (final ≫= big_endian 4)).

(** ** Text encodings *)

Fixpoint hex_encode (s : string) : string :=
  match s with
  | EmptyString => ""
  | String c s' => String (hex_char (byte_of c / 16)) (String (hex_char (byte_of c mod 16)) (hex_encode s'))
  end.

Definition base64_char (n : N) : ascii :=
  if (n <? 26)%N then byte_at (65 + n)
  else if (n <? 52)%N then byte_at (71 + n)
  else if (n <? 62)%N then byte_at (n - 4)
  else if (n =? 62)%N then "-"%char else "_"%char.

(** The unpadded URL alphabet. *)
Fixpoint base64_encode (s : string) : string :=
  match s with
  | String a (String b (String c s')) =>
    let n := (byte_of a * 65536 + byte_of b * 256 + byte_of c)%N in
    String (base64_char (n / 262144)) (String (base64_char ((n / 4096) mod 64))
      (String (base64_char ((n / 64) mod 64)) (String (base64_char (n mod 64)) (base64_encode s'))))
  | String a (String b EmptyString) =>
    let n := (byte_of a * 1024 + byte_of b * 4)%N in
    String (base64_char (n / 4096)) (String (base64_char ((n / 64) mod 64)) (String (base64_char (n mod 64)) ""))
  | String a EmptyString =>
    let n := (byte_of a * 16)%N in
    String (base64_char (n / 64)) (String (base64_char (n mod 64)) "")
  | EmptyString => ""
  end.

(** store.go: hashSecret. *)
Definition hashSecret (value : string) : string := hex_encode (Sum256 value).

Example sha256_abc :
  hashSecret "abc" = "ba7816bf8f01cfea414140de5dae2223b00361a396177a9cb410ff61f20015ad".
Proof. vm_compute. reflexivity. Qed.

Example sha256_two_blocks :
  hashSecret "abcdbcdecdefdefgefghfghighijhijkijkljklmklmnlmnomnopnopq" =
    "248d6a61d20638b8e5c026930c3e6039a33ce45964ff2167f6ecedd419db06c1".
Proof. vm_compute. reflexivity. Qed.

Example base64_url : base64_encode (bytes [251; 255; 1; 2]) = "-_8BAg".
Proof. vm_compute. reflexivity. Qed.

(** ** Lengths *)

Lemma length_hex_encode s : String.length (hex_encode s) = 2 * String.length s.
Proof. induction s as [|c s IH]; [done|]. simpl. rewrite IH. lia. Qed.

Lemma hex_encode_inj s t : hex_encode s = hex_encode t → s = t.
Proof.
  revert t. induction s as [|c s IH]; intros [|d t]; simpl; try done. intros [= H1 H2 H3].
  f_equal; [|by apply IH]. clear -H1 H2.
  assert (∀ n m, (n < 16 → m < 16 → hex_char n = hex_char m → n = m)%N) as Hinj.
  { intros n m Hn Hm. unfold hex_char, byte_at.
    destruct (n <? 10)%N eqn:E1, (m <? 10)%N eqn:E2; utf8_bounds; intros H;
      apply (f_equal N_of_ascii) in H; rewrite !N_ascii_embedding in H by lia; lia. }
  assert (∀ x, (byte_of x < 256)%N) as Hb by (intros x; apply N_ascii_bounded).
  rewrite <- (byte_at_of c), <- (byte_at_of d). f_equal.
  apply Hinj in H1; [|apply N.Div0.div_lt_upper_bound; specialize (Hb c); lia|apply N.Div0.div_lt_upper_bound; specialize (Hb d); lia].
  apply Hinj in H2; [|apply N.mod_lt; lia|apply N.mod_lt; lia].
  rewrite (N.div_mod' (byte_of c) 16), (N.div_mod' (byte_of d) 16). congruence.
Qed.

Lemma length_round st kw : length st = 8 → length (round st kw) = 8.
Proof. by do 9 (destruct st as [|? st]; try done). Qed.

Lemma length_compress st block : length st = 8 → length (compress st block) = 8.
Proof.
  intros H. unfold compress. rewrite length_zip_with. rewrite H.
  assert (E : ∀ l st, length st = 8 → length (foldl round st l) = 8).
  { induction l as [|kw l IH]; intros s Hs; [done|]. simpl. by apply IH, length_round. }
  by rewrite E.
Qed.

Lemma length_Sum256 s : String.length (Sum256 s) = 32.
Proof.
  unfold Sum256. cbv zeta.
  assert (E : ∀ bs st, length st = 8 → length (foldl compress st bs) = 8).
  { induction bs as [|b bs IH]; intros st Hs; [done|]. simpl. by apply IH, length_compress. }
  set (l := foldl _ _ _). assert (Hl : length l = 8) by (by apply E).
  clearbody l.
  do 9 (destruct l as [|? l]; try done).
Qed.

Lemma length_hashSecret s : String.length (hashSecret s) = 64.
Proof. unfold hashSecret. by rewrite length_hex_encode, length_Sum256. Qed.

(** ** Decoding base64, and HMAC-SHA-256 (encoding/base64, crypto/hmac)

    DecodeString of base64.RawURLEncoding and base64.StdEncoding, with the
    line breaks it skips and the padding it insists on; EncodeToString of
    StdEncoding; hmac.New(sha256.New, key). *)

(** ** base64 *)

Definition base64_value (c62 c63 c : ascii) : option N :=
  if between "A" "Z" c then Some (byte_of c - 65)%N
  else if between "a" "z" c then Some (byte_of c - 71)%N
  else if between "0" "9" c then Some (byte_of c + 4)%N
  else if char_eqb c c62 then Some 62%N
  else if char_eqb c c63 then Some 63%N
  else None.

Fixpoint strip_newlines (s : string) : string :=
  match s with
  | EmptyString => ""
  | String c s => if char_eqb c (chr 10) || char_eqb c (chr 13) then strip_newlines s else String c (strip_newlines s)
  end.

Definition is_pad (padded : bool) (c : ascii) : bool := padded && char_eqb c "=".

(** One byte, two or three, from the values of a group. *)
Definition decode1 (a b : N) : string := String (byte_at (a * 4 + b / 16)) "".
Definition decode2 (a b c : N) : string :=
  String (byte_at (a * 4 + b / 16)) (String (byte_at ((b mod 16) * 16 + c / 4)) "").
Definition decode3 (a b c d : N) : string :=
  String (byte_at (a * 4 + b / 16)) (String (byte_at ((b mod 16) * 16 + c / 4))
    (String (byte_at ((c mod 4) * 64 + d)) "")).

Fixpoint decode_groups (value : ascii → option N) (padded : bool) (s : string) : option string :=
  match s with
  | EmptyString => Some ""
  | String x1 EmptyString => None
  | String x1 (String x2 EmptyString) =>
      a ← value x1; b ← value x2; if padded then None else Some (decode1 a b)
  | String x1 (String x2 (String x3 EmptyString)) =>
      a ← value x1; b ← value x2; c ← value x3; if padded then None else Some (decode2 a b c)
  | String x1 (String x2 (String x3 (String x4 s'))) =>
      a ← value x1; b ← value x2;
      match value x3, value x4 with
      | Some c, Some d => more ← decode_groups value padded s'; Some (decode3 a b c d +:+ more)
      | Some c, None => if is_pad padded x4 && bool_decide (s' = "") then Some (decode2 a b c) else None
      | None, _ => if is_pad padded x3 && is_pad padded x4 && bool_decide (s' = "") then Some (decode1 a b) else None
      end
  end.

Module RawURLEncoding.
Definition EncodeToString : string → string := base64_encode.
Definition DecodeString (s : string) : option string :=
  decode_groups (base64_value "-" "_") false (strip_newlines s).
End RawURLEncoding.

Definition std_char (c : ascii) : ascii :=
  if char_eqb c "-" then "+"%char else if char_eqb c "_" then "/"%char else c.

Fixpoint map_chars (f : ascii → ascii) (s : string) : string :=
  match s with EmptyString => "" | String c s => String (f c) (map_chars f s) end.

Module StdEncoding.
Definition EncodeToString (s : string) : string :=
  map_chars std_char (base64_encode s) +:+
  match String.length s mod 3 with 1 => "==" | 2 => "=" | _ => "" end.
Definition DecodeString (s : string) : option string :=
  decode_groups (base64_value "+" "/") true (strip_newlines s).
End StdEncoding.

Example std_padding : StdEncoding.EncodeToString "light work" = "bGlnaHQgd29yaw==".
Proof. vm_compute. reflexivity. Qed.

Example std_decode : StdEncoding.DecodeString ("bGlnaHQg" +:+ String (chr 10) "d29yaw==") = Some "light work".
Proof. vm_compute. reflexivity. Qed.

(** ** HMAC *)

Definition xor_bytes (k : N) (s : string) : string := map_chars (λ c, byte_at (N.lxor k (byte_of c))) s.

Fixpoint zero_bytes (n : nat) : string := match n with O => "" | S n => String (chr 0) (zero_bytes n) end.

Definition hmac_sha256 (key message : string) : string :=
  let key := if (64 <? String.length key)%nat then Sum256 key else key in
  let block := key +:+ zero_bytes (64 - String.length key) in
  Sum256 (xor_bytes 92 block +:+ Sum256 (xor_bytes 54 block +:+ message)).

Example hmac_fox :
  hex_encode (hmac_sha256 "key" "The quick brown fox jumps over the lazy dog") =
    "f7bc83f430538424b13298e6aa6fb143ef4d59a14946175997479dbc2d1a3cd8".
Proof. vm_compute. reflexivity. Qed.

(** ** What is encoded is decoded *)

Lemma byte_lt (c : ascii) : (byte_of c < 256)%N.
Proof. apply N_ascii_bounded. Qed.

Lemma base64_char_value n : (n < 64)%N → base64_value "-" "_" (base64_char n) = Some n.
Proof.
  intros H. assert (E : ∀ m, m < 64 → base64_value "-" "_" (base64_char (N.of_nat m)) = Some (N.of_nat m)).
  { intros m Hm. do 64 (destruct m as [|m]; [reflexivity|]). lia. }
  rewrite <- (N2Nat.id n). apply E. lia.
Qed.

Lemma base64_char_std n : (n < 64)%N → base64_value "+" "/" (std_char (base64_char n)) = Some n.
Proof.
  intros H. assert (E : ∀ m, m < 64 → base64_value "+" "/" (std_char (base64_char (N.of_nat m))) = Some (N.of_nat m)).
  { intros m Hm. do 64 (destruct m as [|m]; [reflexivity|]). lia. }
  rewrite <- (N2Nat.id n). apply E. lia.
Qed.

Definition no_newline (c : ascii) : bool := negb (char_eqb c (chr 10) || char_eqb c (chr 13)).

Lemma base64_char_plain n : (n < 64)%N → no_newline (base64_char n) = true ∧ no_newline (std_char (base64_char n)) = true.
Proof.
  intros H. assert (E : ∀ m, m < 64 → no_newline (base64_char (N.of_nat m)) = true ∧
                                      no_newline (std_char (base64_char (N.of_nat m))) = true).
  { intros m Hm. do 64 (destruct m as [|m]; [split; reflexivity|]). lia. }
  rewrite <- (N2Nat.id n). apply E. lia.
Qed.

Lemma string_ind3 (P : string → Prop) :
  P "" → (∀ a, P (String a "")) → (∀ a b, P (String a (String b ""))) →
  (∀ a b c s, P s → P (String a (String b (String c s)))) → ∀ s, P s.
Proof.
  intros H0 H1 H2 H3. fix F 1. intros [|a [|b [|c s]]]; [exact H0|apply H1|apply H2|apply H3, F].
Qed.

Lemma byte_at_is m (a : ascii) : m = byte_of a → byte_at m = a.
Proof. intros ->. apply byte_at_of. Qed.

(** The values of the characters of a group, and the group again. *)
Lemma group3 a b c :
  let n := (byte_of a * 65536 + byte_of b * 256 + byte_of c)%N in
  decode3 (n / 262144) ((n / 4096) mod 64) ((n / 64) mod 64) (n mod 64) = String a (String b (String c "")) ∧
  (n / 262144 < 64)%N.
Proof.
  intros n. pose proof (byte_lt a). pose proof (byte_lt b). pose proof (byte_lt c). split.
  - unfold decode3. f_equal; [|f_equal; [|f_equal]]; apply byte_at_is; subst n; zify; Z.to_euclidean_division_equations; lia.
  - apply N.Div0.div_lt_upper_bound. unfold n. lia.
Qed.

Lemma group2 a b :
  let n := (byte_of a * 1024 + byte_of b * 4)%N in
  decode2 (n / 4096) ((n / 64) mod 64) (n mod 64) = String a (String b "") ∧ (n / 4096 < 64)%N.
Proof.
  intros n. pose proof (byte_lt a). pose proof (byte_lt b). split.
  - unfold decode2. f_equal; [|f_equal]; apply byte_at_is; subst n; zify; Z.to_euclidean_division_equations; lia.
  - apply N.Div0.div_lt_upper_bound. unfold n. lia.
Qed.

Lemma group1 a :
  let n := (byte_of a * 16)%N in decode1 (n / 64) (n mod 64) = String a "" ∧ (n / 64 < 64)%N.
Proof.
  intros n. pose proof (byte_lt a). split.
  - unfold decode1. f_equal. apply byte_at_is. subst n. zify. Z.to_euclidean_division_equations. lia.
  - apply N.Div0.div_lt_upper_bound. unfold n. lia.
Qed.

Lemma mod64_lt n : (n mod 64 < 64)%N.
Proof. by apply N.mod_lt. Qed.
#[export] Hint Resolve mod64_lt : core.

Lemma strip_plain c s : no_newline c = true → strip_newlines (String c s) = String c (strip_newlines s).
Proof. unfold no_newline. intros H%negb_true_iff. simpl. by rewrite H. Qed.

Theorem raw_decode_encode s : RawURLEncoding.DecodeString (RawURLEncoding.EncodeToString s) = Some s.
Proof.
  unfold RawURLEncoding.DecodeString, RawURLEncoding.EncodeToString.
  induction s as [|a|a b|a b c s IH] using string_ind3; [done|..].
  - destruct (group1 a) as [E H]. cbn [base64_encode]. rewrite !strip_plain by (by apply base64_char_plain).
    simpl. rewrite !base64_char_value by auto. simpl. by rewrite E.
  - destruct (group2 a b) as [E H]. cbn [base64_encode]. rewrite !strip_plain by (by apply base64_char_plain).
    simpl. rewrite !base64_char_value by auto. simpl. by rewrite E.
  - destruct (group3 a b c) as [E H]. cbn [base64_encode]. cbv zeta. rewrite !strip_plain by (by apply base64_char_plain).
    cbn [decode_groups]. rewrite !base64_char_value by auto. simpl. simpl in IH. rewrite IH. simpl. by rewrite E.
Qed.

Theorem std_decode_encode s : StdEncoding.DecodeString (StdEncoding.EncodeToString s) = Some s.
Proof.
  unfold StdEncoding.DecodeString, StdEncoding.EncodeToString.
  induction s as [|a|a b|a b c s IH] using string_ind3; [done|..].
  - destruct (group1 a) as [E H]. cbn [base64_encode map_chars]. cbv zeta. simpl (_ mod 3).
    rewrite !app_cons_s. rewrite !strip_plain by (by apply base64_char_plain).
    simpl. rewrite !base64_char_std by auto. simpl. by rewrite E.
  - destruct (group2 a b) as [E H]. cbn [base64_encode map_chars]. cbv zeta. simpl (_ mod 3).
    rewrite !app_cons_s. rewrite !strip_plain by (by apply base64_char_plain).
    simpl. rewrite !base64_char_std by auto. simpl. by rewrite E.
  - destruct (group3 a b c) as [E H]. replace (String.length (String a (String b (String c s))) mod 3) with (String.length s mod 3)
      by (simpl String.length; rewrite <- (Nat.Div0.mod_add (String.length s) 1 3); f_equal; lia).
    set (padding := match String.length s mod 3 with 1 => "==" | 2 => "=" | _ => "" end) in *. clearbody padding.
    cbn [base64_encode map_chars]. cbv zeta. rewrite !app_cons_s. rewrite !strip_plain by (by apply base64_char_plain).
    cbn [decode_groups]. rewrite !base64_char_std by auto. simpl. rewrite IH. simpl. by rewrite E.
Qed.
