(* ===== verification/GoTime.v ===== *)
(** * Timestamps and padded numbers (packages time and fmt)

    time.Unix(t, 0).UTC().Format with the layout the authorized_keys lines
    use, and fmt's zero-padded decimals.  [days_from_civil] is the calendar
    itself, the specification the formatted date is checked against. *)

From S2P Require Export Prelude GoStrings.
Local Open Scope Z_scope.

(** ** Padded decimals *)

Fixpoint zeros (n : nat) : string := match n with O => "" | S n => String "0" (zeros n) end.

(** fmt's verb for a decimal padded with zeros to [width], the sign counted. *)
Definition pad_int (width : nat) (z : Z) : string :=
  if z <? 0 then
    let d := strconv.FormatInt (- z) in "-" +:+ zeros (pred width - String.length d)%nat +:+ d
  else
    let d := strconv.FormatInt z in zeros (width - String.length d)%nat +:+ d.

(** ** The proleptic Gregorian calendar *)

(** Days from 1970-01-01 to the given date. *)
Definition days_from_civil (y m d : Z) : Z :=
  let y' := if m <=? 2 then y - 1 else y in
  let era := y' / 400 in
  let yoe := y' mod 400 in
  let doy := (153 * (if 2 <? m then m - 3 else m + 9) + 2) / 5 + d - 1 in
  let doe := yoe * 365 + yoe / 4 - yoe / 100 + doy in
  era * 146097 + doe - 719468.

(** Year, month and day of a number of days, within a 400-year era that starts
    on the first of March: the year of the era counts March to February. *)
Definition era_date (doe : Z) : Z * Z * Z :=
  let yoe := (doe - doe / 1460 + doe / 36524 - doe / 146096) / 365 in
  let doy := doe - (365 * yoe + yoe / 4 - yoe / 100) in
  let mp := (5 * doy + 2) / 153 in
  (yoe, if mp <? 10 then mp + 3 else mp - 9, doy - (153 * mp + 2) / 5 + 1).

Definition civil_from_days (days : Z) : Z * Z * Z :=
  let z := days + 719468 in
  let '(yoe, m, d) := era_date (z mod 146097) in
  (yoe + z / 146097 * 400 + (if m <=? 2 then 1 else 0), m, d).

(** time.Unix(t, 0).UTC().Format("20060102150405Z"). *)
Definition format_utc (t : Z) : string :=
  let '(y, m, d) := civil_from_days (t / 86400) in
  let s := t mod 86400 in
  pad_int 4 y +:+ pad_int 2 m +:+ pad_int 2 d +:+
  pad_int 2 (s / 3600) +:+ pad_int 2 (s / 60 mod 60) +:+ pad_int 2 (s mod 60) +:+ "Z".

Example format_epoch : format_utc 1785456000 = "20260731000000Z".
Proof. vm_compute. reflexivity. Qed.

(** The time a formatted timestamp denotes: its fields at fixed positions. *)
Definition field (i n : nat) (s : string) : option Z :=
  Z.of_N <$> strconv.parse_digits 0 (stake n (sdrop i s)).

Definition parse_utc (s : string) : option Z :=
  if negb (bool_decide (String.length s = 15%nat)) || negb (bool_decide (sdrop 14 s = "Z")) then None else
  y ← field 0 4 s; m ← field 4 2 s; d ← field 6 2 s;
  h ← field 8 2 s; mi ← field 10 2 s; sec ← field 12 2 s;
  Some (days_from_civil y m d * 86400 + h * 3600 + mi * 60 + sec).

(** ** Padded decimals are read back *)

Lemma length_zeros n : String.length (zeros n) = n.
Proof. induction n; simpl; congruence. Qed.

Lemma parse_digits_zeros n s : strconv.parse_digits 0 (zeros n +:+ s) = strconv.parse_digits 0 s.
Proof. induction n as [|n IH]; [done|]. cbn [zeros]. rewrite app_cons_s. exact IH. Qed.

Lemma length_pretty_go w (n : N) s :
  (n < 10 ^ N.of_nat w)%N → (String.length (pretty_N_go n s) ≤ w + String.length s)%nat.
Proof.
  revert n s. induction w as [|w IH]; intros n s Hn.
  - assert (n = 0)%N as -> by (change (10 ^ N.of_nat 0)%N with 1%N in Hn; lia). by rewrite pretty_N_go_0.
  - destruct (decide (n = 0%N)) as [->|]; [rewrite pretty_N_go_0; lia|].
    rewrite pretty_N_go_step by lia. etrans; [apply IH|simpl; lia].
    apply N.Div0.div_lt_upper_bound. rewrite Nat2N.inj_succ, N.pow_succ_r' in Hn. done.
Qed.

Lemma length_pretty w (n : N) : (0 < w)%nat → (n < 10 ^ N.of_nat w)%N → (String.length (pretty n) ≤ w)%nat.
Proof.
  intros Hw Hn. unfold pretty, pretty_N. case_decide; [simpl; lia|].
  etrans; [by apply length_pretty_go|simpl; lia].
Qed.

Lemma FormatInt_N z : 0 ≤ z → strconv.FormatInt z = pretty (Z.to_N z).
Proof. destruct z; [done|done|lia]. Qed.

Lemma pad_int_spec w z : (0 < w)%nat → 0 ≤ z < 10 ^ Z.of_nat w →
  String.length (pad_int w z) = w ∧ strconv.parse_digits 0 (pad_int w z) = Some (Z.to_N z) ∧
  str_forallb is_digit (pad_int w z) = true.
Proof.
  intros Hw [H0 H]. unfold pad_int. rewrite (proj2 (Z.ltb_ge _ _)) by lia. rewrite FormatInt_N by done.
  assert (Hl : (String.length (pretty (Z.to_N z)) ≤ w)%nat).
  { apply length_pretty; [done|]. apply N2Z.inj_lt. rewrite Z2N.id, N2Z.inj_pow, nat_N_Z by done. done. }
  split_and!.
  - rewrite length_app_s, length_zeros. lia.
  - by rewrite parse_digits_zeros, parse_digits_pretty.
  - rewrite str_forallb_app, pretty_N_digits, andb_true_r. by induction (w - _)%nat.
Qed.

Lemma field_skip i n a s :
  (String.length a ≤ i)%nat → field i n (a +:+ s) = field (i - String.length a) n s.
Proof.
  revert i. induction a as [|c a IH]; intros i Hi; [by rewrite Nat.sub_0_r|].
  simpl in Hi. destruct i as [|i]; [lia|]. rewrite app_cons_s. simpl. apply IH. lia.
Qed.

Lemma field_here w z s : (0 < w)%nat → 0 ≤ z < 10 ^ Z.of_nat w → field 0 w (pad_int w z +:+ s) = Some z.
Proof.
  intros Hw Hz. destruct (pad_int_spec w z Hw Hz) as (Hl & Hp & _). unfold field. cbn [sdrop].
  rewrite <- Hl at 1. rewrite stake_app_len, Hp. simpl. f_equal. lia.
Qed.

(** ** The calendar *)

Definition era_date_ok (doe : Z) : bool :=
  let '(yoe, m, d) := era_date doe in
  (0 <=? yoe) && (yoe <? 400) && (1 <=? m) && (m <=? 12) && (1 <=? d) && (d <=? 31) &&
  (yoe * 365 + yoe / 4 - yoe / 100 + ((153 * (if 2 <? m then m - 3 else m + 9) + 2) / 5 + d - 1) =? doe) &&
  ((146036 <? doe) || (yoe + (if m <=? 2 then 1 else 0) <=? 399)).

Fixpoint all_from (p : Z → bool) (n : nat) (z : Z) : bool :=
  match n with O => true | S n => p z && all_from p n (z + 1) end.

Lemma all_from_spec p n z x : all_from p n z = true → z ≤ x < z + Z.of_nat n → p x = true.
Proof.
  revert z. induction n as [|n IH]; intros z; simpl; [lia|]. rewrite andb_true_iff. intros [H1 H2] Hx.
  destruct (decide (x = z)) as [->|]; [done|]. apply (IH (z + 1)); [done|lia].
Qed.

Lemma era_dates : all_from era_date_ok (Z.to_nat 146097) 0 = true.
Proof. vm_compute. reflexivity. Qed.

(** Every day has the date the calendar gives it. *)
Lemma civil_from_days_spec days :
  let '(y, m, d) := civil_from_days days in
  1 ≤ m ≤ 12 ∧ 1 ≤ d ≤ 31 ∧ days_from_civil y m d = days ∧
  (0 ≤ days < 2932897 → 0 ≤ y ≤ 9999).
Proof.
  unfold civil_from_days. set (z := days + 719468).
  pose proof (Z.mod_pos_bound z 146097 ltac:(lia)) as Hb.
  assert (Hok : era_date_ok (z mod 146097) = true).
  { apply (all_from_spec _ _ _ _ era_dates). rewrite Z2Nat.id; lia. }
  unfold era_date_ok in Hok. destruct (era_date (z mod 146097)) as [[yoe m] d].
  rewrite !andb_true_iff, !Z.leb_le, !Z.ltb_lt, Z.eqb_eq in Hok.
  destruct Hok as [[[[[[[H1 H2] H3] H4] H5] H6] H7] H8].
  pose proof (Z.div_mod z 146097 ltac:(lia)) as Hz.
  split_and!; [done|done|done|done| |].
  - unfold days_from_civil.
    set (y' := if m <=? 2 then _ - 1 else _).
    assert (Hy : y' = yoe + z / 146097 * 400) by (subst y'; destruct (m <=? 2); lia).
    rewrite Hy, Z.div_add, Z.mod_add, Z.div_small, (Z.mod_small yoe) by lia.
    replace (153 * (if 2 <? m then m - 3 else m + 9) + 2) with (153 * (if 2 <? m then m - 3 else m + 9) + 2) by done.
    lia.
  - intros Hd. assert (Hera : 4 ≤ z / 146097 ≤ 24).
    { split; [apply Z.div_le_lower_bound; lia|]. apply Z.lt_succ_r, Z.div_lt_upper_bound; lia. }
    split; [destruct (m <=? 2); lia|].
    apply orb_true_iff in H8. rewrite Z.ltb_lt, Z.leb_le in H8.
    destruct (decide (z / 146097 = 24)); [|destruct (m <=? 2); lia].
    destruct H8 as [H8|H8]; destruct (m <=? 2); lia.
Qed.

Lemma pad2 z : 0 ≤ z < 100 →
  String.length (pad_int 2 z) = 2%nat ∧ strconv.parse_digits 0 (pad_int 2 z) = Some (Z.to_N z) ∧
  str_forallb is_digit (pad_int 2 z) = true.
Proof. exact (pad_int_spec 2 z ltac:(lia)). Qed.

Lemma pad4 z : 0 ≤ z < 10000 →
  String.length (pad_int 4 z) = 4%nat ∧ strconv.parse_digits 0 (pad_int 4 z) = Some (Z.to_N z) ∧
  str_forallb is_digit (pad_int 4 z) = true.
Proof. exact (pad_int_spec 4 z ltac:(lia)). Qed.

(** The fields of a timestamp are read back one by one. *)
Lemma parse_utc_fields y m d h mi s :
  0 ≤ y < 10000 → 0 ≤ m < 100 → 0 ≤ d < 100 → 0 ≤ h < 100 → 0 ≤ mi < 100 → 0 ≤ s < 100 →
  let text := pad_int 4 y +:+ pad_int 2 m +:+ pad_int 2 d +:+ pad_int 2 h +:+ pad_int 2 mi +:+ pad_int 2 s in
  parse_utc (text +:+ "Z") = Some (days_from_civil y m d * 86400 + h * 3600 + mi * 60 + s) ∧
  str_forallb is_digit text = true.
Proof.
  intros H1 H2 H3 H4 H5 H6 text. subst text.
  destruct (pad4 y H1) as (L1 & P1 & D1), (pad2 m H2) as (L2 & P2 & D2), (pad2 d H3) as (L3 & P3 & D3),
    (pad2 h H4) as (L4 & P4 & D4), (pad2 mi H5) as (L5 & P5 & D5), (pad2 s H6) as (L6 & P6 & D6).
  split; [|by rewrite !str_forallb_app, D1, D2, D3, D4, D5, D6].
  unfold parse_utc, field.
  destruct (pad_int 4 y) as [|? [|? [|? [|? [|]]]]]; try discriminate L1.
  destruct (pad_int 2 m) as [|? [|? [|]]]; try discriminate L2.
  destruct (pad_int 2 d) as [|? [|? [|]]]; try discriminate L3.
  destruct (pad_int 2 h) as [|? [|? [|]]]; try discriminate L4.
  destruct (pad_int 2 mi) as [|? [|? [|]]]; try discriminate L5.
  destruct (pad_int 2 s) as [|? [|? [|]]]; try discriminate L6.
  rewrite !app_assoc_s. repeat rewrite ?app_nil_s, app_cons_s. rewrite app_nil_s. cbn [sdrop stake String.length]. rewrite P1, P2, P3, P4, P5, P6.
  cbn [fmap option_fmap option_map mbind option_bind].
  rewrite !bool_decide_eq_true_2 by done. cbn [negb orb]. f_equal. rewrite !Z2N.id by lia. done.
Qed.

(** A formatted timestamp consists of 14 digits and the final Z, and denotes
    the time it was made from. *)
Lemma format_utc_spec t :
  0 ≤ t < 253402300800 →
  parse_utc (format_utc t) = Some t ∧ ∃ s, format_utc t = s +:+ "Z" ∧ str_forallb is_digit s = true.
Proof.
  intros Ht. unfold format_utc.
  assert (Hday : 0 ≤ t / 86400 < 2932897).
  { split; [apply Z.div_pos; lia|]. apply Z.div_lt_upper_bound; lia. }
  pose proof (Z.div_mod t 86400 ltac:(lia)) as Hdiv.
  pose proof (Z.mod_pos_bound t 86400 ltac:(lia)) as Hs.
  set (days := t / 86400) in *. set (s := t mod 86400) in *. clearbody days s.
  pose proof (civil_from_days_spec days) as Hc.
  destruct (civil_from_days days) as [[y m] d]. destruct Hc as (Hm & Hd & Hdays & Hy). specialize (Hy Hday).
  assert (Hh : 0 ≤ s / 3600 < 24).
  { split; [apply Z.div_pos; lia|]. apply Z.div_lt_upper_bound; lia. }
  pose proof (Z.mod_pos_bound (s / 60) 60 ltac:(lia)) as Hmi.
  pose proof (Z.mod_pos_bound s 60 ltac:(lia)) as Hsec.
  pose proof (Z.div_mod s 60 ltac:(lia)) as E1. pose proof (Z.div_mod (s / 60) 60 ltac:(lia)) as E2.
  rewrite Z.div_div in E2 by lia. change (60 * 60) with 3600 in E2.
  destruct (parse_utc_fields y m d (s / 3600) (s / 60 mod 60) (s mod 60)) as [Hp Ha]; try lia.
  split; [|eexists; split; [|exact Ha]; by rewrite !app_assoc_s].
  rewrite !app_assoc_s in Hp. rewrite Hp, Hdays. f_equal. lia.
Qed.

(** ** Reading timestamps back (package time)

    time.Parse with the layout of fourteen digits that the expiry options of
    authorized_keys use: fixed fields, each in its range, and a day that its
    month has.  Every timestamp [format_utc] writes is accepted. *)

Definition is_leap (y : Z) : bool := (y mod 4 =? 0) && (negb (y mod 100 =? 0) || (y mod 400 =? 0)).

Definition days_in (m y : Z) : Z :=
  if m =? 2 then (if is_leap y then 29 else 28)
  else if (m =? 4) || (m =? 6) || (m =? 9) || (m =? 11) then 30 else 31.

(** The date and time a text of fourteen digits denotes. *)
Definition parse_compact (s : string) : option Z :=
  if negb (bool_decide (String.length s = 14%nat)) || negb (str_forallb is_digit s) then None else
  y ← field 0 4 s; m ← field 4 2 s; d ← field 6 2 s; h ← field 8 2 s; mi ← field 10 2 s; sec ← field 12 2 s;
  if (1 <=? m) && (m <=? 12) && (1 <=? d) && (d <=? days_in m y) && (h <? 24) && (mi <? 60) && (sec <? 60)
  then Some (days_from_civil y m d * 86400 + h * 3600 + mi * 60 + sec) else None.

Example parse_leap_day : parse_compact "20240229235959" = Some 1709251199.
Proof. vm_compute. reflexivity. Qed.
Example parse_no_leap_day : parse_compact "20230229000000" = None.
Proof. vm_compute. reflexivity. Qed.

(** ** Dates have days that their months have *)

Definition era_day_ok (doe : Z) : bool :=
  let '(yoe, m, d) := era_date doe in d <=? days_in m (yoe + (if m <=? 2 then 1 else 0)).

Lemma era_days : all_from era_day_ok (Z.to_nat 146097) 0 = true.
Proof. vm_compute. reflexivity. Qed.

Lemma is_leap_era y k : is_leap (y + k * 400) = is_leap y.
Proof.
  unfold is_leap. replace (k * 400) with (k * 100 * 4) at 1 by lia. rewrite Z.mod_add by lia.
  replace (k * 400) with (k * 4 * 100) at 1 by lia. rewrite Z.mod_add by lia. by rewrite Z.mod_add by lia.
Qed.

Lemma civil_day_in_month days :
  let '(y, m, d) := civil_from_days days in d ≤ days_in m y.
Proof.
  unfold civil_from_days. set (z := days + 719468). pose proof (Z.mod_pos_bound z 146097 ltac:(lia)) as Hb.
  assert (Hok : era_day_ok (z mod 146097) = true).
  { apply (all_from_spec _ _ _ _ era_days). rewrite Z2Nat.id; lia. }
  unfold era_day_ok in Hok. destruct (era_date (z mod 146097)) as [[yoe m] d]. apply Z.leb_le in Hok.
  replace (yoe + z / 146097 * 400 + (if m <=? 2 then 1 else 0)) with (yoe + (if m <=? 2 then 1 else 0) + z / 146097 * 400) by lia.
  unfold days_in in *. by rewrite is_leap_era.
Qed.

(** Fields of fixed width, one after another. *)
Lemma parse_compact_fields y m d h mi s :
  0 ≤ y < 10000 → 1 ≤ m ≤ 12 → 1 ≤ d ≤ days_in m y → 0 ≤ h < 24 → 0 ≤ mi < 60 → 0 ≤ s < 60 →
  parse_compact (pad_int 4 y +:+ pad_int 2 m +:+ pad_int 2 d +:+ pad_int 2 h +:+ pad_int 2 mi +:+ pad_int 2 s) =
  Some (days_from_civil y m d * 86400 + h * 3600 + mi * 60 + s).
Proof.
  intros H1 H2 H3 H4 H5 H6. assert (Hd : d < 100) by (unfold days_in in H3; repeat case_match; lia).
  destruct (pad4 y H1) as (L1 & P1 & D1), (pad2 m ltac:(lia)) as (L2 & P2 & D2), (pad2 d ltac:(lia)) as (L3 & P3 & D3),
    (pad2 h ltac:(lia)) as (L4 & P4 & D4), (pad2 mi ltac:(lia)) as (L5 & P5 & D5), (pad2 s ltac:(lia)) as (L6 & P6 & D6).
  unfold parse_compact. rewrite !str_forallb_app, D1, D2, D3, D4, D5, D6.
  unfold field.
  destruct (pad_int 4 y) as [|? [|? [|? [|? [|]]]]]; try discriminate L1.
  destruct (pad_int 2 m) as [|? [|? [|]]]; try discriminate L2.
  destruct (pad_int 2 d) as [|? [|? [|]]]; try discriminate L3.
  destruct (pad_int 2 h) as [|? [|? [|]]]; try discriminate L4.
  destruct (pad_int 2 mi) as [|? [|? [|]]]; try discriminate L5.
  destruct (pad_int 2 s) as [|? [|? [|]]]; try discriminate L6.
  repeat rewrite ?app_nil_s, app_cons_s. rewrite app_nil_s. cbn [sdrop stake String.length]. rewrite P1, P2, P3, P4, P5, P6.
  rewrite bool_decide_eq_true_2 by done. cbn [negb orb fmap option_fmap option_map mbind option_bind].
  rewrite !Z2N.id by lia. by rewrite (proj2 (Z.leb_le 1 m)), (proj2 (Z.leb_le m 12)), (proj2 (Z.leb_le 1 d)),
    (proj2 (Z.leb_le d _)), (proj2 (Z.ltb_lt h 24)), (proj2 (Z.ltb_lt mi 60)), (proj2 (Z.ltb_lt s 60)) by lia.
Qed.

(** A formatted timestamp is fourteen digits that are accepted, and a Z. *)
Lemma format_utc_compact t : 0 ≤ t < 253402300800 → ∃ s, format_utc t = s +:+ "Z" ∧ parse_compact s = Some t.
Proof.
  intros Ht. unfold format_utc.
  assert (Hday : 0 ≤ t / 86400 < 2932897).
  { split; [apply Z.div_pos; lia|]. apply Z.div_lt_upper_bound; lia. }
  pose proof (Z.div_mod t 86400 ltac:(lia)) as Hdiv. pose proof (Z.mod_pos_bound t 86400 ltac:(lia)) as Hs.
  set (days := t / 86400) in *. set (s := t mod 86400) in *. clearbody days s.
  pose proof (civil_from_days_spec days) as Hc. pose proof (civil_day_in_month days) as Hin.
  destruct (civil_from_days days) as [[y m] d]. destruct Hc as (Hm & Hd & Hdays & Hy). specialize (Hy Hday).
  assert (Hh : 0 ≤ s / 3600 < 24).
  { split; [apply Z.div_pos; lia|]. apply Z.div_lt_upper_bound; lia. }
  pose proof (Z.mod_pos_bound (s / 60) 60 ltac:(lia)) as Hmi. pose proof (Z.mod_pos_bound s 60 ltac:(lia)) as Hsec.
  pose proof (Z.div_mod s 60 ltac:(lia)) as E1. pose proof (Z.div_mod (s / 60) 60 ltac:(lia)) as E2.
  rewrite Z.div_div in E2 by lia. change (60 * 60) with 3600 in E2.
  exists (pad_int 4 y +:+ pad_int 2 m +:+ pad_int 2 d +:+ pad_int 2 (s / 3600) +:+ pad_int 2 (s / 60 mod 60) +:+ pad_int 2 (s mod 60)).
  split; [by rewrite !app_assoc_s|].
  assert (Hy' : 0 ≤ y < 10000) by (clear -Hy; lia). assert (Hd' : 1 ≤ d ≤ days_in m y) by (clear -Hd Hin; lia).
  rewrite (parse_compact_fields y m d (s / 3600) (s / 60 mod 60) (s mod 60) Hy' Hm Hd' Hh Hmi Hsec).
  f_equal. rewrite Hdays. clear -E1 E2 Hdiv. lia.
Qed.
