(* ===== verification/GoNet.v ===== *)
(** The functions of Go's [net] package that core.go uses to accept a literal
    direct address: [SplitHostPort], [ParseIP] (by way of netip.ParseAddr, with
    its IPv4 and IPv6 parsers) and the two classification methods of [IP]. *)

From S2P Require Import Prelude GoStrings.

Module net.

(** An IP address in its 16-byte form; an IPv4 address is mapped. *)
Definition IP : Type := list N.

Definition no_byte (c : ascii) (s : string) : bool :=
  match strings.IndexByte s c with Some _ => false | None => true end.

(** net.SplitHostPort; every error is the same [None]. *)
Definition SplitHostPort (hostport : string) : option (string * string) :=
  match strings.LastIndexByte hostport ":" with
  | None => None
  | Some i =>
      let port := sdrop (S i) hostport in
      match hostport with
      | String "[" _ =>
          match strings.IndexByte hostport "]" with
          | None => None
          | Some e =>
              (* the first ']' stands just before the last ':' *)
              if (S e =? String.length hostport)%nat then None
              else if (S e =? i)%nat then
                if no_byte "[" (sdrop 1 hostport) && no_byte "]" (sdrop (S e) hostport)
                then Some (stake (e - 1) (sdrop 1 hostport), port)
                else None
              else None
          end
      | _ =>
          let host := stake i hostport in
          if no_byte ":" host && no_byte "[" hostport && no_byte "]" hostport
          then Some (host, port)
          else None
      end
  end.

(** netip's parseIPv4Fields: [fields] are the octets completed so far (in
    order), [val] and [digLen] those of the octet being read, [prevdot] is
    whether the byte before was a dot and [first] whether there was none. *)
Fixpoint parseIPv4Fields (s : string) (first prevdot : bool) (val : N)
    (digLen : nat) (fields : list N) : option (list N) :=
  match s with
  | EmptyString =>
      if (length fields <? 3)%nat then None else Some (fields ++ [val])
  | String c s' =>
      match strconv.digit_val c with
      | Some d =>
          if (digLen =? 1)%nat && (val =? 0)%N then None
          else let v := (val * 10 + d)%N in
               if (255 <? v)%N then None
               else parseIPv4Fields s' false false v (S digLen) fields
      | None =>
          if char_eqb c "." then
            if first || bool_decide (s' = "") || prevdot then None
            else if (length fields =? 3)%nat then None
            else parseIPv4Fields s' false true 0 0 (fields ++ [val])
          else None
      end
  end.

Definition parseIPv4 (s : string) : option (list N) :=
  parseIPv4Fields s true false 0 0 [].

Definition hex_val (c : ascii) : option N :=
  if between "0" "9" c then Some (byte_of c - 48)%N
  else if between "a" "f" c then Some (byte_of c - 87)%N
  else if between "A" "F" c then Some (byte_of c - 55)%N
  else None.

(** One hexadecimal group: its value, its number of digits and the rest;
    [None] when it has more than four digits. *)
Fixpoint hex_group (s : string) (acc : N) (off : nat) : option (N * nat * string) :=
  match s with
  | EmptyString => Some (acc, off, s)
  | String c s' =>
      match hex_val c with
      | Some d => if (3 <? off)%nat then None else hex_group s' (acc * 16 + d)%N (S off)
      | None => Some (acc, off, s)
      end
  end.

(** The end of parseIPv6: the whole string was used; an ellipsis at position
    [e] stands for the missing bytes, of which there must be some. *)
Definition ipv6_finish (ip : list N) (ellipsis : option nat) (s : string) : option IP :=
  if negb (bool_decide (s = "")) then None
  else if (length ip <? 16)%nat then
    match ellipsis with
    | None => None
    | Some e => Some (take e ip ++ repeat 0%N (16 - length ip) ++ drop e ip)
    end
  else match ellipsis with
       | Some _ => None
       | None => Some ip
       end.

(** The loop of parseIPv6; [ip] holds the bytes written so far, so the
    index [i] of the code is [length ip].  An iteration that goes on writes
    two bytes, so eight units of fuel reach the bound 16. *)
Fixpoint ipv6_loop (fuel : nat) (ip : list N) (ellipsis : option nat) (s : string)
    : option IP :=
  match fuel with
  | O => ipv6_finish ip ellipsis s
  | S f =>
      match hex_group s 0 0 with
      | None => None
      | Some (acc, off, rest) =>
          if (off =? 0)%nat then None
          else match rest with
          | String "." _ =>
              if bool_decide (ellipsis = None) && negb (length ip =? 12)%nat then None
              else if (16 <? length ip + 4)%nat then None
              else match parseIPv4 s with
                   | None => None
                   | Some v4 => ipv6_finish (ip ++ v4) ellipsis ""
                   end
          | _ =>
              let ip := ip ++ [acc / 256; acc mod 256]%N in
              match rest with
              | EmptyString => ipv6_finish ip ellipsis ""
              | String ":" EmptyString => None
              | String ":" (String ":" more) =>
                  match ellipsis with
                  | Some _ => None
                  | None =>
                      match more with
                      | EmptyString => ipv6_finish ip (Some (length ip)) ""
                      | _ => ipv6_loop f ip (Some (length ip)) more
                      end
                  end
              | String ":" more => ipv6_loop f ip ellipsis more
              | _ => None
              end
          end
      end
  end.

Definition parseIPv6 (s : string) : option IP :=
  match s with
  | String ":" (String ":" EmptyString) => Some (repeat 0%N 16)
  | String ":" (String ":" rest) => ipv6_loop 8 [] (Some 0) rest
  | _ => ipv6_loop 8 [] None s
  end.

(** The first '.', ':' or '%' of netip.ParseAddr's scan *)
Fixpoint addr_kind (s : string) : option ascii :=
  match s with
  | EmptyString => None
  | String c s' =>
      if char_eqb c "." || char_eqb c ":" || char_eqb c "%" then Some c else addr_kind s'
  end.

Definition mapped (v4 : list N) : IP := repeat 0%N 10 ++ [255; 255]%N ++ v4.

(** net.ParseIP: a zone makes the result nil. *)
Definition ParseIP (s : string) : option IP :=
  if negb (no_byte "%" s) then None
  else match addr_kind s with
       | Some "."%char => mapped <$> parseIPv4 s
       | Some ":"%char => parseIPv6 s
       | _ => None
       end.

Definition To4 (ip : IP) : option (list N) :=
  if bool_decide (take 12 ip = mapped []) then Some (drop 12 ip) else None.

Definition IsUnspecified (ip : IP) : bool :=
  bool_decide (ip = mapped [0; 0; 0; 0]%N) || bool_decide (ip = repeat 0%N 16).

Definition IsMulticast (ip : IP) : bool :=
  match To4 ip with
  | Some (a :: _) => (N.land a 240 =? 224)%N
  | Some [] => false
  | None => match ip with a :: _ => (a =? 255)%N | [] => false end
  end.

End net.

Example split_v6 : net.SplitHostPort "[2001:db8::1]:443" = Some ("2001:db8::1", "443").
Proof. reflexivity. Qed.
Example split_many : net.SplitHostPort "a:b:c" = None.
Proof. reflexivity. Qed.
Example parse_v4 : net.ParseIP "10.0.0.255" = Some (net.mapped [10; 0; 0; 255]%N).
Proof. reflexivity. Qed.
Example parse_v4_zero : net.ParseIP "10.0.00.5" = None.
Proof. reflexivity. Qed.
Example parse_v6 :
  net.ParseIP "2001:db8::1" =
  Some [32; 1; 13; 184; 0; 0; 0; 0; 0; 0; 0; 0; 0; 0; 0; 1]%N.
Proof. reflexivity. Qed.
Example parse_v6_embedded :
  net.ParseIP "::ffff:1.2.3.4" = net.ParseIP "1.2.3.4".
Proof. reflexivity. Qed.
Example parse_v6_two_ellipses : net.ParseIP "1::2::3" = None.
Proof. reflexivity. Qed.

(** ** Characters of accepted addresses *)

(** The bytes that can occur in an accepted IP literal *)
Definition ip_char (c : ascii) : bool :=
  between "0" "9" c || between "a" "f" c || between "A" "F" c ||
  char_eqb c "." || char_eqb c ":".

Lemma IndexByte_None s c :
  strings.IndexByte s c = None → str_forallb (λ d, negb (char_eqb d c)) s = true.
Proof.
  induction s as [|d s IH]; [done|]. simpl.
  destruct (char_eqb d c); [done|]. destruct (strings.IndexByte s c); naive_solver.
Qed.

Lemma parseIPv4Fields_chars s first prevdot val n fields out :
  net.parseIPv4Fields s first prevdot val n fields = Some out →
  str_forallb ip_char s = true.
Proof.
  revert first prevdot val n fields.
  induction s as [|c s IH]; intros first prevdot val n fields; [done|]. simpl.
  destruct (strconv.digit_val c) as [d|] eqn:Hd.
  - assert (is_digit c = true) as Hc by (apply is_digit_digit_val; eauto).
    unfold ip_char at 1. unfold is_digit in Hc. rewrite Hc. simpl.
    repeat case_match; try done. eauto.
  - destruct (char_eqb c ".") eqn:Hdot; [|done].
    unfold ip_char at 1. rewrite Hdot. rewrite !orb_true_r. simpl.
    repeat case_match; try done. eauto.
Qed.

Lemma hex_val_ip_char c d : net.hex_val c = Some d → ip_char c = true.
Proof.
  unfold net.hex_val, ip_char.
  destruct (between "0" "9" c); [done|].
  destruct (between "a" "f" c); [done|].
  by destruct (between "A" "F" c).
Qed.

Lemma hex_group_chars s acc off acc' off' rest :
  net.hex_group s acc off = Some (acc', off', rest) →
  str_forallb ip_char rest = true → str_forallb ip_char s = true.
Proof.
  revert acc off. induction s as [|c s IH]; intros acc off; simpl.
  - by intros [= <- <- <-].
  - destruct (net.hex_val c) as [d|] eqn:Hd.
    + destruct (3 <? off)%nat; [done|]. intros H Hr.
      rewrite (hex_val_ip_char _ _ Hd). simpl. eauto.
    + by intros [= <- <- <-].
Qed.

Lemma ipv6_finish_empty ip e s out : net.ipv6_finish ip e s = Some out → s = "".
Proof.
  unfold net.ipv6_finish. case_bool_decide as Hs; [by intros|done].
Qed.

Lemma ipv6_loop_chars fuel ip e s out :
  net.ipv6_loop fuel ip e s = Some out → str_forallb ip_char s = true.
Proof.
  revert ip e s. induction fuel as [|f IH]; intros ip e s; cbn [net.ipv6_loop].
  - intros H. by rewrite (ipv6_finish_empty _ _ _ _ H).
  - destruct (net.hex_group s 0 0) as [[[acc off] rest]|] eqn:Hg; [|done].
    destruct (off =? 0)%nat; [done|].
    intros H.
    assert (rest = "" ∨ (∃ v, net.parseIPv4 s = Some v) ∨
            str_forallb ip_char rest = true) as [->|[[v Hv]|Hr]].
    { revert H. repeat case_match; intros Hl; try done; subst; eauto.
      all: right; right; apply IH in Hl; simpl in *; exact Hl. }
    + by eapply hex_group_chars.
    + by eapply parseIPv4Fields_chars.
    + by eapply hex_group_chars.
Qed.

Lemma ParseIP_chars s ip : net.ParseIP s = Some ip → str_forallb ip_char s = true.
Proof.
  unfold net.ParseIP. destruct (negb (net.no_byte "%" s)); [done|].
  destruct (net.addr_kind s) as [k|]; [|done].
  assert (mapped_ok : (∃ v, net.parseIPv4 s = Some v) → str_forallb ip_char s = true).
  { intros [v Hv]. by eapply parseIPv4Fields_chars. }
  assert (v6_ok : net.parseIPv6 s = Some ip → str_forallb ip_char s = true).
  { unfold net.parseIPv6. repeat case_match; subst; try by intros.
    all: intros Hl; apply ipv6_loop_chars in Hl; simpl in *; exact Hl. }
  intros H. destruct k as [[] [] [] [] [] [] [] []]; try discriminate H.
  - apply mapped_ok. destruct (net.parseIPv4 s); [eauto|discriminate].
  - apply v6_ok, H.
Qed.
