(* ===== verification/Core.v ===== *)
(** internal/core/core.go: the policy engine (which principal may see and reach
    which host), the SSH command and ProxyCommand builders, and the validators
    that decide which names, addresses and URLs may enter a command line. *)

From S2P Require Import Prelude GoStrings GoNet.

(** ** Data (core.go, lines 11-46) *)

Record Host : Type := mkHost {
  Host_ID : string;
  Host_Name : string;
  Host_EndpointID : string;
  Host_SSHUser : string;
  Host_Tags : gmap string string;
  Host_SSHPort : Z;
  Host_Status : string;
  Host_Owner : string;
  Host_LastSeen : option Z;
}.

Record Policy : Type := mkPolicy {
  Policy_ID : string;
  Policy_Name : string;
  Policy_Principal : string;
  Policy_HostSelector : string;
  Policy_SSHUsers : list string;
  Policy_ExpiresAt : option Z;
}.

Record UserClaims : Type := mkUserClaims {
  Claims_Subject : string;
  Claims_Groups : list string;
  Claims_CustomClaims : gmap string (list string);
}.

Record SshCommand : Type := mkSshCommand {
  Cmd_Program : string;
  Cmd_Args : list string;
}.

Record RelayConfig : Type := mkRelayConfig {
  Relay_URLs : list string;
  Relay_ExtraURLs : list string;
}.

(** ** Errors (core.go, lines 57-68) *)

Definition ErrInvalidEndpointID : error :=
  CommandError "INVALID_ENDPOINT_ID" "invalid pigeons endpoint id".
Definition ErrInvalidSSHUser : error :=
  CommandError "INVALID_SSH_USER" "invalid ssh user".
Definition ErrInvalidSSHPort : error :=
  CommandError "INVALID_SSH_PORT" "invalid ssh port".
Definition ErrInvalidRelayURL : error :=
  CommandError "INVALID_RELAY_URL" "invalid pigeons relay url".
Definition ErrInvalidDirectAddress : error :=
  CommandError "INVALID_DIRECT_ADDRESS" "invalid pigeons direct address".
Definition ErrInvalidProxyCommand : error :=
  CommandError "INVALID_PROXY_COMMAND" "invalid ssh proxy command".
Definition ErrInvalidHostReference : error :=
  CommandError "INVALID_HOST_REFERENCE" "invalid host reference".
Definition ErrInvalidHostKey : error :=
  CommandError "INVALID_HOST_KEY" "invalid SSH host-key fingerprint".
Definition ErrInvalidCTLPath : error :=
  CommandError "INVALID_CTL_PATH" "invalid ternalctl executable path".
Definition ErrMissingRoute : error :=
  CommandError "MISSING_ENDPOINT_ROUTE"
    "remote endpoint requires at least one relay or direct address".

(** ** Character classes and validators *)

Definition isAlphanumeric (b : ascii) : bool :=
  between "a" "z" b || between "A" "Z" b || between "0" "9" b.

Definition validEndpointID (value : string) : bool :=
  (String.length value =? 64)%nat &&
  str_forallb (λ b, between "a" "f" b || between "A" "F" b || between "0" "9" b) value.

Definition first_is_dash (value : string) : bool :=
  match value with String c _ => char_eqb c "-" | EmptyString => false end.

Definition validHostReference (value : string) : bool :=
  negb ((String.length value <? 1)%nat || (128 <? String.length value)%nat) &&
  negb (first_is_dash value) &&
  str_forallb (λ b, isAlphanumeric b || char_eqb b "-" || char_eqb b "_" || char_eqb b ".") value.

Definition ValidHostName (value : string) : bool := validHostReference value.

Definition validSSHUser (value : string) : bool :=
  negb ((String.length value <? 1)%nat || (64 <? String.length value)%nat) &&
  negb (first_is_dash value) &&
  str_forallb (λ b, isAlphanumeric b || char_eqb b "_" || char_eqb b "-" || char_eqb b ".") value.

Definition ValidSSHUser (value : string) : bool := validSSHUser value.

Definition validRelayURL (value : string) : bool :=
  negb ((String.length value <? 8)%nat || (512 <? String.length value)%nat) &&
  (strings.HasPrefix value "http://" || strings.HasPrefix value "https://") &&
  str_forallb (λ b, isAlphanumeric b || char_eqb b ":" || char_eqb b "/" ||
                    char_eqb b "." || char_eqb b "_" || char_eqb b "-") value.

Definition validDirectAddress (value : string) : bool :=
  if (String.length value =? 0)%nat || (64 <? String.length value)%nat then false
  else if strings.Contains value "%" then false
  else match net.SplitHostPort value with
  | None => false
  | Some (host, portStr) =>
      match strconv.Atoi portStr with
      | None => false
      | Some port =>
          if ((port <=? 0) || (65535 <? port))%Z then false
          else match net.ParseIP host with
               | None => false
               | Some ip => negb (net.IsUnspecified ip) && negb (net.IsMulticast ip)
               end
      end
  end.

Definition ValidHostKeyFingerprint (value : string) : bool :=
  if negb (strings.HasPrefix value "SHA256:") then false
  else
    let digest := strings.TrimPrefix value "SHA256:" in
    if (String.length digest <? 40)%nat || (44 <? String.length digest)%nat then false
    else str_forallb (λ b, isAlphanumeric b || char_eqb b "+" || char_eqb b "/" ||
                           char_eqb b "_" || char_eqb b "-" || char_eqb b "=") digest.

(** ** Policies *)

(** The loop of wildcardMatches over [parts], from index [i]; [star] is whether
    the pattern starts with a star.  [None] is the early [return false]. *)
Fixpoint wildcard_loop (star : bool) (i : nat) (parts : list string) (rest : string)
    : option string :=
  match parts with
  | [] => Some rest
  | part :: parts' =>
      if bool_decide (part = "") then wildcard_loop star (S i) parts' rest
      else if (i =? 0)%nat && negb star then
        if negb (strings.HasPrefix rest part) then None
        else wildcard_loop star (S i) parts' (sdrop (String.length part) rest)
      else
        match strings.Index rest part with
        | None => None
        | Some idx => wildcard_loop star (S i) parts' (sdrop (idx + String.length part) rest)
        end
  end.

Definition wildcardMatches (pattern value : string) : bool :=
  if bool_decide (pattern = "*") then true
  else if negb (strings.Contains pattern "*") then bool_decide (pattern = value)
  else
    let parts := strings.Split pattern "*" in
    match wildcard_loop (strings.HasPrefix pattern "*") 0 parts value with
    | None => false
    | Some _ =>
        strings.HasSuffix pattern "*" || strings.HasSuffix value (List.last parts "")
    end.

Definition hostSelectorMatches (selector : string) (host : Host) : bool :=
  if strings.HasPrefix selector "tag:" then
    match strings.SplitN2 (strings.TrimPrefix selector "tag:") "=" with
    | [k; v] =>
        let key := strings.TrimSpace k in
        let value := strings.TrimSpace v in
        if bool_decide (key = "") || bool_decide (value = "") then false
        else match Host_Tags host !! key with
             | Some tag => bool_decide (tag = value)
             | None => false
             end
    | _ => false
    end
  else wildcardMatches selector (Host_Name host).

Definition policyPrincipalMatches (claims : UserClaims) (principal : string) : bool :=
  match strings.IndexByte principal "=" with
  | Some idx =>
      let claim := strings.TrimSpace (stake idx principal) in
      let value := strings.TrimSpace (sdrop (S idx) principal) in
      if bool_decide (claim = "") || bool_decide (value = "") then false
      else if bool_decide (claim = "groups") then
        existsb (λ group, bool_decide (group = value)) (Claims_Groups claims)
      else match Claims_CustomClaims claims !! claim with
           | None => false
           | Some values => existsb (λ v, bool_decide (v = value)) values
           end
  | None => existsb (λ group, bool_decide (group = principal)) (Claims_Groups claims)
  end.

(** [now] is the reading of the clock, in Unix seconds. *)
Definition PolicyAllows (now : Z) (claims : UserClaims) (host : Host) (policy : Policy) : bool :=
  policyPrincipalMatches claims (Policy_Principal policy) &&
  hostSelectorMatches (Policy_HostSelector policy) host &&
  match Policy_ExpiresAt policy with
  | None => true
  | Some expires => (now <? expires)%Z
  end.

Fixpoint FilterVisibleHosts (now : Z) (claims : UserClaims) (hosts : list Host)
    (policies : list Policy) : list Host :=
  match hosts with
  | [] => []
  | host :: hosts' =>
      if existsb (PolicyAllows now claims host) policies
      then host :: FilterVisibleHosts now claims hosts' policies
      else FilterVisibleHosts now claims hosts' policies
  end.

Definition PolicyAllowsSSHUser (now : Z) (claims : UserClaims) (host : Host)
    (policy : Policy) (sshUser : string) : bool :=
  if negb (PolicyAllows now claims host policy) then false
  else existsb (λ user, bool_decide (user = sshUser)) (Policy_SSHUsers policy).

(** ** Shell quoting *)

Definition quote : string := "'".
Definition quoted_quote : string := "'\''".

(** The characters shellQuote looks for: blank, tab, single quote, backslash,
    double quote (byte 34) and the glob characters. *)
Definition shell_meta : string :=
  " " +:+ bytes [9] +:+ "'" +:+ "\" +:+ bytes [34] +:+ "[]*?".

Definition shellQuote (value : string) : string :=
  if negb (strings.ContainsAny value shell_meta) then value
  else "'" +:+ strings.ReplaceAll value "'" "'\''" +:+ "'".

Definition unquoteShellArg (value : string) : option string :=
  if negb (strings.HasPrefix value "'") then Some value
  else if negb (strings.HasSuffix value "'") || (String.length value <? 2)%nat then None
  else
    let inner := stake (String.length value - 2) (sdrop 1 value) in
    if strings.ContainsAny inner ("'" +:+ bytes [34]) && negb (strings.Contains inner "'\''")
    then None
    else Some (strings.ReplaceAll inner "'\''" "'").

(** ** Command builders; [None] for an error is Go's nil *)

Definition RelayConfig_Validate (c : RelayConfig) : option error :=
  if forallb validRelayURL (Relay_URLs c ++ Relay_ExtraURLs c) then None
  else Some ErrInvalidRelayURL.

Fixpoint append_addresses (command : string) (directAddresses : list string) : result string :=
  match directAddresses with
  | [] => Ok command
  | addr :: rest =>
      if negb (validDirectAddress addr) then Err ErrInvalidDirectAddress
      else append_addresses (command +:+ " --direct-address " +:+ shellQuote addr) rest
  end.

Fixpoint append_urls (command : string) (urls : list string) : string :=
  match urls with
  | [] => command
  | url :: rest => append_urls (command +:+ " --relay-url " +:+ url) rest
  end.

Definition appendRouteArgs (command : string) (relayConfig : RelayConfig)
    (directAddresses : list string) : result string :=
  match RelayConfig_Validate relayConfig with
  | Some err => Err err
  | None =>
      match directAddresses, Relay_URLs relayConfig, Relay_ExtraURLs relayConfig with
      | [], [], [] => Err ErrMissingRoute
      | _, _, _ =>
          command ← append_addresses command directAddresses;
          Ok (append_urls (append_urls command (Relay_URLs relayConfig))
                          (Relay_ExtraURLs relayConfig))
      end
  end.

Definition buildProxyCommandWithRoutes (relayConfig : RelayConfig)
    (directAddresses : list string) : result string :=
  appendRouteArgs "pigeons fly --stdio %h" relayConfig directAddresses.

Definition BuildProxyCommand (relayConfig : RelayConfig) : result string :=
  buildProxyCommandWithRoutes relayConfig [].

Definition buildGrantAwareProxyCommand (hostRef : string) (relayConfig : RelayConfig)
    (directAddresses : list string) : result string :=
  if negb (validHostReference hostRef) then Err ErrInvalidHostReference
  else appendRouteArgs ("ternalctl proxy " +:+ hostRef +:+ " %h:%p") relayConfig directAddresses.

Definition ssh_args (proxyCmd endpointID sshUser : string) (sshPort : Z) : list string :=
  ["-p"; strconv.FormatInt sshPort;
   "-o"; "ProxyCommand=" +:+ proxyCmd;
   sshUser +:+ "@" +:+ endpointID].

Definition BuildSSHCommandWithRoutes (endpointID sshUser : string) (sshPort : Z)
    (relayConfig : RelayConfig) (directAddresses : list string) : result SshCommand :=
  if negb (validEndpointID endpointID) then Err ErrInvalidEndpointID
  else if negb (validSSHUser sshUser) then Err ErrInvalidSSHUser
  else if (sshPort =? 0)%Z then Err ErrInvalidSSHPort
  else match RelayConfig_Validate relayConfig with
  | Some err => Err err
  | None =>
      proxyCmd ← buildProxyCommandWithRoutes relayConfig directAddresses;
      Ok (mkSshCommand "ssh" (ssh_args proxyCmd endpointID sshUser sshPort))
  end.

Definition BuildSSHCommandWithRelays (endpointID sshUser : string) (sshPort : Z)
    (relayConfig : RelayConfig) : result SshCommand :=
  BuildSSHCommandWithRoutes endpointID sshUser sshPort relayConfig [].

Definition BuildSSHCommand (endpointID sshUser : string) (sshPort : Z) : result SshCommand :=
  BuildSSHCommandWithRelays endpointID sshUser sshPort (mkRelayConfig [] []).

Definition BuildGrantAwareSSHCommand (hostRef endpointID sshUser : string) (sshPort : Z)
    (relayConfig : RelayConfig) (directAddresses : list string) : result SshCommand :=
  if negb (validHostReference hostRef) then Err ErrInvalidHostReference
  else if negb (validEndpointID endpointID) then Err ErrInvalidEndpointID
  else if negb (validSSHUser sshUser) then Err ErrInvalidSSHUser
  else if (sshPort =? 0)%Z then Err ErrInvalidSSHPort
  else
    proxyCmd ← buildGrantAwareProxyCommand hostRef relayConfig directAddresses;
    Ok (mkSshCommand "ssh" (ssh_args proxyCmd endpointID sshUser sshPort)).

Definition strict_options (ctlPath fingerprint : string) : list string :=
  ["-o"; "UserKnownHostsFile=none";
   "-o"; "GlobalKnownHostsFile=none";
   "-o"; "StrictHostKeyChecking=yes";
   "-o"; "CheckHostIP=no";
   "-o"; "UpdateHostKeys=no";
   "-o"; "KnownHostsCommand=" +:+ shellQuote ctlPath +:+ " known-host-key " +:+
         fingerprint +:+ " %I %f %t %K"].

Definition BuildStrictGrantAwareSSHCommand (ctlPath hostRef endpointID sshUser : string)
    (sshPort : Z) (fingerprint : string) (relayConfig : RelayConfig)
    (directAddresses : list string) : result SshCommand :=
  cmd ← BuildGrantAwareSSHCommand hostRef endpointID sshUser sshPort relayConfig directAddresses;
  if bool_decide (ctlPath = "") || strings.ContainsAny ctlPath (bytes [0; 13; 10])
  then Err ErrInvalidCTLPath
  else if negb (ValidHostKeyFingerprint fingerprint) then Err ErrInvalidHostKey
  else
    let n := length (Cmd_Args cmd) - 1 in
    Ok (mkSshCommand (Cmd_Program cmd)
          (take n (Cmd_Args cmd) ++
           (strict_options ctlPath fingerprint ++ drop n (Cmd_Args cmd)))).

(** ** Validation of a ProxyCommand and of a proxy invocation *)

Fixpoint validateRouteArgs (parts : list string) : option error :=
  match parts with
  | [] => None
  | [_] => Some ErrInvalidProxyCommand
  | flag :: arg :: rest =>
      match unquoteShellArg arg with
      | None => Some ErrInvalidProxyCommand
      | Some value =>
          if bool_decide (flag = "--direct-address") then
            if validDirectAddress value then validateRouteArgs rest
            else Some ErrInvalidDirectAddress
          else if bool_decide (flag = "--relay-url") then
            if validRelayURL value then validateRouteArgs rest
            else Some ErrInvalidRelayURL
          else Some ErrInvalidProxyCommand
      end
  end.

Definition ValidateProxyCommand (value : string) : option error :=
  let proxy := strings.TrimPrefix value "ProxyCommand=" in
  if bool_decide (proxy = value) then Some ErrInvalidProxyCommand
  else match strings.Fields proxy with
  | p0 :: p1 :: p2 :: p3 :: routeArgs =>
      if (bool_decide (p0 = "pigeons") && bool_decide (p1 = "fly") &&
          bool_decide (p2 = "--stdio") && bool_decide (p3 = "%h")) ||
         (bool_decide (p0 = "ternalctl") && bool_decide (p1 = "proxy") &&
          validHostReference p2 && bool_decide (p3 = "%h:%p"))
      then validateRouteArgs routeArgs
      else Some ErrInvalidProxyCommand
  | _ => Some ErrInvalidProxyCommand
  end.

Definition ValidateProxyInvocation (hostRef endpointPort : string) (routeArgs : list string)
    : option error :=
  if negb (validHostReference hostRef) then Some ErrInvalidHostReference
  else match strings.LastIndexByte endpointPort ":" with
  | None => Some ErrInvalidProxyCommand
  | Some idx =>
      let endpointID := stake idx endpointPort in
      let port := sdrop (S idx) endpointPort in
      if negb (validEndpointID endpointID) then Some ErrInvalidEndpointID
      else match strconv.ParseUint port 16 with
      | None => Some ErrInvalidSSHPort
      | Some portNum =>
          if (portNum =? 0)%Z then Some ErrInvalidSSHPort
          else validateRouteArgs routeArgs
      end
  end.
