(* ===== verification/CorePolicy.v ===== *)
(** What the policy engine of core.go decides: wildcard patterns are exactly
    glob patterns, a host is visible exactly when some live policy names it and
    one of the caller's claims, and nothing is visible without a policy. *)

From S2P Require Import Prelude GoStrings GoNet Core.

(** ** The specification: glob patterns whose only special character is a star *)

Inductive glob : string → string → Prop :=
  | glob_nil : glob "" ""
  | glob_char c p v : c ≠ "*"%char → glob p v → glob (String c p) (String c v)
  | glob_star p v w : glob p v → glob (String "*" p) (w +:+ v).

(** The same on the pieces between the stars: [anchored] must start with its
    first piece, [floating] may skip bytes before it. *)
Fixpoint floating (parts : list string) (v : string) : Prop :=
  match parts with
  | [] => v = ""
  | p :: ps => ∃ w r, v = w +:+ p +:+ r ∧ (match ps with [] => r = "" | _ => floating ps r end)
  end.

Definition anchored (parts : list string) (v : string) : Prop :=
  match parts with
  | [] => False
  | p :: ps => ∃ r, v = p +:+ r ∧ match ps with [] => r = "" | _ => floating ps r end
  end.

Lemma floating_anchored p ps v :
  floating (p :: ps) v ↔ ∃ w r, v = w +:+ r ∧ anchored (p :: ps) r.
Proof.
  simpl. split.
  - intros (w & r & -> & H). exists w, (p +:+ r). eauto.
  - intros (w & r & -> & r' & -> & H). eauto.
Qed.

(** A floating sequence also matches after any prefix. *)
Lemma floating_prefix p ps w v : floating (p :: ps) v → floating (p :: ps) (w +:+ v).
Proof.
  intros (u & r & -> & H). exists (w +:+ u), r. split; [by rewrite app_assoc_s|done].
Qed.

Lemma glob_anchored p v : glob p v ↔ anchored (strings.Split p "*") v.
Proof.
  revert v. induction p as [|c p IH]; intros v.
  - simpl. split.
    + inversion 1; subst. by exists "".
    + intros (r & -> & ->). constructor.
  - destruct (decide (c = "*"%char)) as [->|Hne].
    + rewrite Split_cons_sep. pose proof (Split_not_nil p "*").
      destruct (strings.Split p "*") as [|q qs] eqn:Hs; [done|]. split.
      * inversion 1; subst; [done|]. exists (w +:+ v0). split; [done|].
        apply floating_anchored. eexists w, v0. split; [done|]. by apply IH.
      * intros (r & -> & Hf). rewrite app_nil_s.
        apply floating_anchored in Hf as (w & r' & -> & Ha).
        constructor. by apply IH.
    + destruct (Split_cons_ne p "*" c Hne) as (w & ws & H1 & H2).
      rewrite H2. rewrite H1 in IH. split.
      * inversion 1; subst; [|done].
        match goal with Hg : glob p _ |- _ => apply IH in Hg as (r & -> & Hr) end.
        exists r. by rewrite app_cons_s.
      * intros (r & -> & Hr). rewrite app_cons_s. constructor; [done|].
        apply IH. exists r. done.
Qed.

(** ** The greedy loop decides [floating] *)

(** Taking the leftmost occurrence of a piece never loses a match. *)
Lemma floating_greedy p q qs v :
  floating (p :: q :: qs) v ↔
  ∃ i, strings.Index v p = Some i ∧
       floating (q :: qs) (sdrop (i + String.length p) v).
Proof.
  split.
  - intros (w & r & -> & Hf).
    destruct (Index_leftmost w p r) as (i & Hi & Hle). exists i. split; [done|].
    set (v := w +:+ p +:+ r) in *.
    assert (∃ u, sdrop (i + String.length p) v = u +:+ r) as [u ->];
      [|by apply floating_prefix].
    exists (stake (String.length w - i) (sdrop (i + String.length p) v)).
    rewrite <- (stake_sdrop (String.length w - i) (sdrop (i + String.length p) v)) at 1.
    f_equal.
    assert (∀ n m s, sdrop n (sdrop m s) = sdrop (m + n) s) as Hdd.
    { intros n m. revert n. induction m as [|m IHm]; intros n s; [done|].
      destruct s; [by destruct n|]. apply IHm. }
    rewrite Hdd.
    replace (i + String.length p + (String.length w - i))
      with (String.length (w +:+ p)) by (rewrite length_app_s; lia).
    unfold v. rewrite <- app_assoc_s. apply sdrop_app_len.
  - intros (i & Hi & Hf). apply Index_Some in Hi. rewrite Hi. eexists _, _. split; [done|].
    exact Hf.
Qed.

Definition loop_ok (star : bool) (i : nat) (parts : list string) (rest : string) : bool :=
  match wildcard_loop star i parts rest with Some _ => true | None => false end.

Lemma loop_floating_step star i part parts rest :
  (star = true ∨ i ≠ 0) →
  wildcard_loop star i (part :: parts) rest =
  match strings.Index rest part with
  | None => None
  | Some idx => wildcard_loop star (S i) parts (sdrop (idx + String.length part) rest)
  end.
Proof.
  intros Hs. cbn [wildcard_loop]. case_bool_decide as Hp.
  - subst. rewrite Index_nil. done.
  - destruct Hs as [->|Hi]; [by rewrite andb_false_r|].
    destruct i; [done|]. done.
Qed.

(** On floating pieces, the loop succeeds and the value ends as the last piece
    says, exactly when the pieces match. *)
Lemma loop_floating parts star i pre rest :
  parts ≠ [] → (star = true ∨ i ≠ 0) →
  loop_ok star i parts rest = true ∧
    (List.last parts "" = "" ∨ ∃ u, pre +:+ rest = u +:+ List.last parts "") ↔
  floating parts rest.
Proof.
  revert star i pre rest. induction parts as [|p ps IH]; intros star i pre rest Hne Hs; [done|].
  unfold loop_ok. rewrite loop_floating_step by done.
  destruct ps as [|q qs].
  - cbn [List.last wildcard_loop floating]. split.
    + intros [Hl Hsuf]. destruct (strings.Index rest p) as [j|] eqn:Hj; [|done].
      apply Index_Some in Hj.
      destruct Hsuf as [->|[u Hu]]; [exists rest, ""; by rewrite !app_nil_r_s|].
      exists (stake (String.length rest - String.length p) rest), "".
      rewrite app_nil_r_s. split; [|done].
      rewrite <- (stake_sdrop (String.length rest - String.length p) rest) at 1. f_equal.
      apply (app_inj_tail_len
        (pre +:+ stake (String.length rest - String.length p) rest) u).
      * rewrite length_sdrop. rewrite Hj, !length_app_s. lia.
      * by rewrite app_assoc_s, stake_sdrop.
    + intros (w & r & -> & ->). rewrite !app_nil_r_s.
      destruct (Index_leftmost w p "") as (j & Hj & _). rewrite app_nil_r_s in Hj. rewrite Hj.
      split; [done|]. right. exists (pre +:+ w). by rewrite app_assoc_s.
  - rewrite floating_greedy. destruct (strings.Index rest p) as [j|] eqn:Hj.
    + specialize (IH star (S i) (pre +:+ stake (j + String.length p) rest)
        (sdrop (j + String.length p) rest) ltac:(done) ltac:(right; lia)).
      rewrite app_assoc_s, stake_sdrop in IH. unfold loop_ok in IH.
      change (List.last (p :: q :: qs) "") with (List.last (q :: qs) "").
      rewrite IH. split; [eauto|]. intros (i' & [= <-] & Hf). done.
    + split; [by intros []|]. by intros (i' & ? & _).
Qed.

(** For a pattern with a star, ending with a star is having an empty last piece. *)
Lemma Split_last_suffix p :
  strings.Contains p "*" = true →
  strings.HasSuffix p "*" = true ↔ List.last (strings.Split p "*") "" = "".
Proof.
  intros Hc. rewrite HasSuffix_iff. split.
  - intros [r ->]. rewrite Split_app. apply List.last_last.
  - intros Hl. apply Contains_iff in Hc as (a & b & Hab).
    assert (strings.Split p "*" = strings.Split a "*" ++ strings.Split b "*") as Hs.
    { rewrite Hab. apply Split_app. }
    pose proof (List.app_removelast_last "" (Split_not_nil p "*")) as Hrl.
    rewrite Hl in Hrl. exists (strings.Join (List.removelast (strings.Split p "*")) "*").
    rewrite <- (Join_Split p "*") at 1. rewrite Hrl at 1.
    rewrite Join_snoc; [by rewrite app_nil_r_s|].
    rewrite Hs. pose proof (Split_not_nil a "*"). pose proof (Split_not_nil b "*").
    destruct (strings.Split a "*") as [|x [|y l]]; [done| |done].
    by destruct (strings.Split b "*").
Qed.

Lemma glob_no_star p v : strings.Contains p "*" = false → glob p v ↔ p = v.
Proof.
  intros Hc. split.
  - intros Hg. revert Hc. induction Hg as [|c p v Hne Hg IH|p v w Hg IH]; intros Hc; [done| |].
    + f_equal. apply IH. destruct (strings.Contains p "*") eqn:Hp; [|done].
      apply Contains_iff in Hp as (a & b & ->).
      assert (strings.Contains (String c (a +:+ "*" +:+ b)) "*" = true); [|congruence].
      apply Contains_iff. by exists (String c a), b.
    + assert (strings.Contains (String "*" p) "*" = true); [|congruence].
      apply Contains_iff. by exists "", p.
  - intros <-. induction p as [|c p IH]; [constructor|].
    constructor.
    + intros ->. assert (strings.Contains (String "*" p) "*" = true); [|congruence].
      apply Contains_iff. by exists "", p.
    + apply IH. destruct (strings.Contains p "*") eqn:Hp; [|done].
      apply Contains_iff in Hp as (a & b & ->).
      assert (strings.Contains (String c (a +:+ "*" +:+ b)) "*" = true); [|congruence].
      apply Contains_iff. by exists (String c a), b.
Qed.

Lemma wildcard_loop_value p v :
  strings.Contains p "*" = true →
  (loop_ok (strings.HasPrefix p "*") 0 (strings.Split p "*") v = true ∧
     (List.last (strings.Split p "*") "" = "" ∨
      ∃ u, v = u +:+ List.last (strings.Split p "*") "")) ↔
  anchored (strings.Split p "*") v.
Proof.
  intros Hc.
  destruct p as [|c p]; [done|]. destruct (decide (c = "*"%char)) as [->|Hne].
  - rewrite Split_cons_sep. pose proof (Split_not_nil p "*") as Hnn.
    replace (strings.HasPrefix (String "*" p) "*") with true by (by destruct p).
    unfold loop_ok. cbn [wildcard_loop]. rewrite bool_decide_eq_true_2 by done.
    fold (loop_ok true 1 (strings.Split p "*") v).
    assert (List.last ("" :: strings.Split p "*") "" = List.last (strings.Split p "*") "")
      as -> by (by destruct (strings.Split p "*")).
    pose proof (loop_floating (strings.Split p "*") true 1 "" v Hnn ltac:(by left)) as Hf.
    rewrite app_nil_s in Hf. rewrite Hf.
    unfold anchored. destruct (strings.Split p "*"); [done|]. split; [eauto|].
    by intros (r & -> & Hr).
  - destruct (Split_cons_ne p "*" c Hne) as (w & ws & H1 & H2). rewrite H2.
    assert (strings.HasPrefix (String c p) "*" = false) as ->.
    { unfold strings.HasPrefix. cbn [String.prefix]. by destruct (ascii_dec _ _). }
    destruct ws as [|w' ws'].
    { exfalso. apply Contains_iff in Hc as (a & b & Hab).
      pose proof (Split_app a b "*") as Hs. change (String "*" b) with ("*" +:+ b) in Hs.
      rewrite <- Hab, H2 in Hs.
      pose proof (Split_not_nil a "*"). pose proof (Split_not_nil b "*").
      destruct (strings.Split a "*") as [|x [|]]; [done| |done].
      by destruct (strings.Split b "*"). }
    unfold loop_ok. cbn [wildcard_loop]. rewrite bool_decide_eq_false_2 by done.
    cbn [Nat.eqb negb andb].
    destruct (strings.HasPrefix v (String c w)) eqn:Hp; cbn [negb].
    + apply HasPrefix_iff in Hp as [r ->].
      rewrite sdrop_app_len.
      fold (loop_ok false 1 (w' :: ws') r).
      pose proof (loop_floating (w' :: ws') false 1 (String c w) r ltac:(done)
                    ltac:(by right)) as Hf.
      change (List.last (String c w :: w' :: ws') "") with (List.last (w' :: ws') "").
      rewrite Hf. unfold anchored. split; [eauto|].
      intros (r' & He & Hr). by apply app_inj_l_s in He as ->.
    + split; [by intros []|]. intros (r & -> & _). by rewrite HasPrefix_app in Hp.
Qed.

(** The wildcard matcher decides the glob relation. *)
Lemma wildcardMatches_glob p v : wildcardMatches p v = true ↔ glob p v.
Proof.
  unfold wildcardMatches. case_bool_decide as Hstar.
  { subst. split; [|done]. intros _. rewrite <- (app_nil_r_s v). repeat constructor. }
  destruct (strings.Contains p "*") eqn:Hc; cbn [negb].
  2:{ rewrite bool_decide_eq_true. by rewrite glob_no_star. }
  rewrite glob_anchored, <- wildcard_loop_value by done. unfold loop_ok.
  destruct (wildcard_loop _ _ _ _); [|naive_solver].
  rewrite orb_true_iff, Split_last_suffix, HasSuffix_iff by done. naive_solver.
Qed.

(** ** The specification of an access decision *)

Definition no_eq (s : string) : Prop := strings.IndexByte s "=" = None.

(** Who a principal names: a group, or a value of a claim. *)
Inductive principal_granted (claims : UserClaims) : string → Prop :=
  | pg_group g :
      no_eq g → g ∈ Claims_Groups claims → principal_granted claims g
  | pg_groups_claim c v :
      no_eq c → strings.TrimSpace c = "groups" → strings.TrimSpace v ≠ "" →
      strings.TrimSpace v ∈ Claims_Groups claims →
      principal_granted claims (c +:+ "=" +:+ v)
  | pg_custom_claim c v values :
      no_eq c → strings.TrimSpace c ≠ "" → strings.TrimSpace c ≠ "groups" →
      strings.TrimSpace v ≠ "" →
      Claims_CustomClaims claims !! strings.TrimSpace c = Some values →
      strings.TrimSpace v ∈ values →
      principal_granted claims (c +:+ "=" +:+ v).

(** Which hosts a selector names: those with a tag, or those whose name
    matches a glob pattern. *)
Inductive host_selected (host : Host) : string → Prop :=
  | hs_tag k v :
      no_eq k → strings.TrimSpace k ≠ "" → strings.TrimSpace v ≠ "" →
      Host_Tags host !! strings.TrimSpace k = Some (strings.TrimSpace v) →
      host_selected host ("tag:" +:+ k +:+ "=" +:+ v)
  | hs_name s :
      strings.HasPrefix s "tag:" = false → glob s (Host_Name host) →
      host_selected host s.

Definition policy_live (now : Z) (policy : Policy) : Prop :=
  ∀ t, Policy_ExpiresAt policy = Some t → (now < t)%Z.

Definition grants (now : Z) (claims : UserClaims) (host : Host) (policy : Policy) : Prop :=
  principal_granted claims (Policy_Principal policy) ∧
  host_selected host (Policy_HostSelector policy) ∧
  policy_live now policy.

Lemma existsb_elem (x : string) l :
  existsb (λ y, bool_decide (y = x)) l = true ↔ x ∈ l.
Proof.
  rewrite List.existsb_exists. split.
  - intros (y & Hy & He). apply bool_decide_eq_true in He as ->. by apply list_elem_of_In.
  - intros H. exists x. split; [by apply list_elem_of_In|]. by apply bool_decide_eq_true.
Qed.

Lemma IndexByte_app s t : no_eq s → strings.IndexByte (s +:+ "=" +:+ t) "=" = Some (String.length s).
Proof.
  unfold no_eq. induction s as [|c s IH]; [done|]. rewrite app_cons_s. simpl.
  destruct (char_eqb c "="); [done|]. intros H. rewrite IH; [done|].
  by destruct (strings.IndexByte s "=").
Qed.

(** Splitting a text at its first equals sign *)
Lemma IndexByte_cut s i :
  strings.IndexByte s "=" = Some i →
  no_eq (stake i s) ∧ s = stake i s +:+ "=" +:+ sdrop (S i) s.
Proof.
  unfold no_eq. revert i. induction s as [|c s IH]; intros i; [done|]. simpl.
  destruct (char_eqb c "=") eqn:Hc.
  - intros [= <-]. apply bool_decide_eq_true in Hc as ->. done.
  - destruct (strings.IndexByte s "=") as [j|]; [|done]. intros [= <-].
    destruct (IH j eq_refl) as [Hn Hs]. simpl. rewrite Hc, Hn. split; [done|].
    rewrite app_cons_s. f_equal. exact Hs.
Qed.

Lemma principal_spec claims principal :
  policyPrincipalMatches claims principal = true ↔ principal_granted claims principal.
Proof.
  unfold policyPrincipalMatches.
  destruct (strings.IndexByte principal "=") as [i|] eqn:Hi.
  - destruct (IndexByte_cut _ _ Hi) as [Hne Hs].
    set (c := stake i principal) in *. set (v := sdrop (S i) principal) in *. split.
    + intros H. rewrite Hs. revert H.
      case_bool_decide; [done|]. case_bool_decide; [done|]. cbn [orb].
      case_bool_decide as Hg.
      * rewrite existsb_elem. by constructor.
      * destruct (Claims_CustomClaims claims !! strings.TrimSpace c) as [values|] eqn:Hv; [|done].
        rewrite existsb_elem. by econstructor.
    + assert (∀ c' v', no_eq c' → principal = c' +:+ "=" +:+ v' → c' = c ∧ v' = v) as Huniq.
      { intros c' v' Hc' ->. rewrite IndexByte_app in Hi by done. injection Hi as <-.
        unfold c, v. rewrite stake_app_len. split; [done|].
        replace (S (String.length c')) with (String.length (c' +:+ "="))
          by (rewrite length_app_s; simpl; lia).
        rewrite <- app_assoc_s. by rewrite sdrop_app_len. }
      intros H. inversion H as [g Hg Hin Heq|c' v' Hc' Ht Hv' Hin Heq|c' v' vs Hc' Ht Hg Hv' Hl Hin Heq].
      * unfold no_eq in Hg. congruence.
      * destruct (Huniq c' v' Hc' (eq_sym Heq)) as [-> ->]. rewrite Ht.
        rewrite (bool_decide_eq_false_2 ("groups" = "")) by done.
        rewrite (bool_decide_eq_false_2 (strings.TrimSpace v = "")) by done.
        rewrite bool_decide_eq_true_2 by done. cbn [orb]. by rewrite existsb_elem.
      * destruct (Huniq c' v' Hc' (eq_sym Heq)) as [-> ->].
        rewrite !bool_decide_eq_false_2 by done. cbn [orb]. rewrite Hl. by rewrite existsb_elem.
  - rewrite existsb_elem. split; [by constructor|].
    intros H. inversion H; subst; [done|rewrite IndexByte_app in Hi by done; done..].
Qed.

Lemma selector_spec selector host :
  hostSelectorMatches selector host = true ↔ host_selected host selector.
Proof.
  unfold hostSelectorMatches. destruct (strings.HasPrefix selector "tag:") eqn:Hp.
  - apply HasPrefix_iff in Hp as [r ->]. rewrite TrimPrefix_app.
    unfold strings.SplitN2. destruct (strings.IndexByte r "=") as [i|] eqn:Hi.
    + destruct (IndexByte_cut _ _ Hi) as [Hne Hs].
      set (k := stake i r) in *. set (v := sdrop (S i) r) in *. split.
      * intros H. rewrite Hs. revert H.
        case_bool_decide; [done|]. case_bool_decide; [done|]. cbn [orb].
        destruct (Host_Tags host !! strings.TrimSpace k) as [tag|] eqn:Ht; [|done].
        rewrite bool_decide_eq_true. intros ->. by constructor.
      * intros H. inversion H as [k' v' Hk' Hk Hv Ht Heq|s Hs' _]; [|by rewrite HasPrefix_app in Hs'].
        apply app_inj_l_s in Heq. clear Hs Hne. subst k v. subst r.
        rewrite IndexByte_app in Hi by done.
        injection Hi as <-. rewrite stake_app_len.
        replace (S (String.length k')) with (String.length (k' +:+ "="))
          by (rewrite length_app_s; simpl; lia).
        rewrite <- app_assoc_s, sdrop_app_len.
        rewrite !bool_decide_eq_false_2 by done. cbn [orb]. rewrite Ht.
        by rewrite bool_decide_eq_true.
    + split; [done|]. intros H.
      inversion H as [k' v' Hk' Hk Hv Ht Heq|s Hs' _]; [|by rewrite HasPrefix_app in Hs'].
      apply app_inj_l_s in Heq. subst r. by rewrite IndexByte_app in Hi.
  - rewrite wildcardMatches_glob. split; [by constructor|].
    intros H. inversion H as [k' v' Hk' Hk Hv Ht Heq|]; [|done].
    rewrite <- Heq in Hp. by rewrite HasPrefix_app in Hp.
Qed.

Lemma PolicyAllows_grants now claims host policy :
  PolicyAllows now claims host policy = true ↔ grants now claims host policy.
Proof.
  unfold PolicyAllows, grants, policy_live.
  rewrite !andb_true_iff, principal_spec, selector_spec.
  destruct (Policy_ExpiresAt policy) as [t|]; [rewrite Z.ltb_lt|]; naive_solver.
Qed.

#[export] Instance grants_dec now claims host policy : Decision (grants now claims host policy).
Proof.
  refine (cast_if (decide (PolicyAllows now claims host policy = true)));
    by rewrite <- PolicyAllows_grants.
Defined.

Lemma existsb_grants now claims host policies :
  existsb (PolicyAllows now claims host) policies = true ↔
  Exists (grants now claims host) policies.
Proof.
  rewrite List.existsb_exists, Exists_exists. setoid_rewrite PolicyAllows_grants.
  setoid_rewrite list_elem_of_In. naive_solver.
Qed.

(** ** Properties *)

(** A wildcard pattern matches a name exactly when the name is in the
    language of the pattern, the star standing for any sequence of bytes: the
    greedy leftmost search of wildcardMatches loses no match and adds none. *)
Theorem wildcard_is_glob pattern value :
  wildcardMatches pattern value = true ↔ glob pattern value.
Proof. apply wildcardMatches_glob. Qed.

(** The hosts a user sees are exactly those that some policy grants: the
    result is the given list, in its order, restricted to the hosts for which a
    live policy names one of the caller's groups or claims and selects the host
    by tag or by name pattern.  Without such a policy a host stays hidden. *)
Lemma FilterVisibleHosts_spec now claims hosts policies :
  FilterVisibleHosts now claims hosts policies =
  filter (λ host, Exists (grants now claims host) policies) hosts.
Proof.
  induction hosts as [|h hosts IH]; [done|]. cbn [FilterVisibleHosts].
  rewrite filter_cons, <- IH.
  destruct (existsb _ _) eqn:He; case_decide as Hd; try done.
  - by apply existsb_grants in He.
  - apply existsb_grants in Hd. congruence.
Qed.

(** [C25] An account is granted only by a policy that lists it, and a policy's
    grant never outlives its expiry: the decision for an account at one time is
    the grant at that time plus membership in the policy's accounts, and a
    grant that holds at some time held at every earlier time. *)
Theorem account_grants now claims host policy sshUser :
  (PolicyAllowsSSHUser now claims host policy sshUser = true ↔
   grants now claims host policy ∧ sshUser ∈ Policy_SSHUsers policy) ∧
  (∀ t earlier, Policy_ExpiresAt policy = Some t → (t ≤ now)%Z →
     PolicyAllowsSSHUser now claims host policy sshUser = false ∧
     ((earlier < t)%Z → principal_granted claims (Policy_Principal policy) →
      host_selected host (Policy_HostSelector policy) →
      PolicyAllows earlier claims host policy = true)).
Proof.
  assert (∀ n, PolicyAllowsSSHUser n claims host policy sshUser = true ↔
          grants n claims host policy ∧ sshUser ∈ Policy_SSHUsers policy) as Hiff.
  { intros n. unfold PolicyAllowsSSHUser. rewrite <- PolicyAllows_grants, <- existsb_elem.
    destruct (PolicyAllows n claims host policy); cbn [negb]; naive_solver. }
  split; [apply Hiff|]. intros t earlier Ht Hle. split.
  - apply not_true_iff_false. rewrite Hiff. intros [(_ & _ & Hl) _].
    specialize (Hl t Ht). lia.
  - intros Hlt Hp Hs. apply PolicyAllows_grants. split; [done|]. split; [done|].
    intros t' Ht'. congruence.
Qed.

Definition example_host : Host :=
  mkHost "h1" "edge-01" "e" "ops" {["env" := "prod"]} 22 "healthy" "team" None.
Definition example_policy : Policy :=
  mkPolicy "p1" "prod" "dept = eng" "tag:env=prod" ["ops"] (Some 200%Z).
Definition example_claims : UserClaims :=
  mkUserClaims "alice" ["staff"] {["dept" := ["eng"]]}.

Lemma account_grants_witness :
  PolicyAllowsSSHUser 200 example_claims example_host example_policy "ops" = false ∧
  PolicyAllows 100 example_claims example_host example_policy = true.
Proof.
  pose proof (account_grants 200 example_claims example_host example_policy "ops") as [_ H].
  destruct (H 200%Z 100%Z eq_refl ltac:(lia)) as [H1 H2]. split; [exact H1|].
  apply H2; [lia| |].
  - apply principal_spec. vm_compute. reflexivity.
  - apply selector_spec. vm_compute. reflexivity.
Defined.
