(* ===== verification/CoreCommands.v ===== *)
(** The command builders of core.go: what the shell that runs a ProxyCommand
    sees, which commands the validators accept back, and which options a strict
    SSH command carries. *)

From S2P Require Import Prelude GoStrings GoNet Core.

(** ** Single-quote quoting *)

Definition has_char (c : ascii) (s : string) : bool := str_existsb (char_eqb c) s.
Definition dquote : ascii := chr 34.

Fixpoint enc_quotes (s : string) : string :=
  match s with
  | EmptyString => EmptyString
  | String c s' =>
      if char_eqb c "'" then quoted_quote +:+ enc_quotes s' else String c (enc_quotes s')
  end.

Lemma ReplaceAll_enc s : strings.ReplaceAll s "'" "'\''" = enc_quotes s.
Proof.
  unfold strings.ReplaceAll. induction s as [|c s IH]; [done|].
  cbn [strings.replace_go enc_quotes String.prefix].
  unfold char_eqb. destruct (ascii_dec "'" c) as [<-|Hne].
  - replace (String.prefix "" s) with true by (by destruct s).
    rewrite bool_decide_eq_true_2 by done. cbn [String.length Nat.sub]. by rewrite IH.
  - rewrite bool_decide_eq_false_2 by congruence. by rewrite IH.
Qed.

Lemma ReplaceAll_dec s : strings.ReplaceAll (enc_quotes s) "'\''" "'" = s.
Proof.
  unfold strings.ReplaceAll. induction s as [|c s IH]; [done|].
  cbn [enc_quotes]. unfold char_eqb. case_bool_decide as Hc.
  - subst c. unfold quoted_quote.
    change ("'\''" +:+ enc_quotes s) with
      (String "'" (String "\" (String "'" (String "'" (enc_quotes s))))).
    cbn [strings.replace_go].
    assert (String.prefix "'\''" (String "'" (String "\" (String "'" (String "'" (enc_quotes s)))))
            = true) as -> by (apply (prefix_app "'\''" (enc_quotes s))).
    cbn [String.length Nat.sub]. by rewrite IH.
  - cbn [strings.replace_go String.prefix].
    destruct (ascii_dec "'" c); [congruence|]. by rewrite IH.
Qed.

Lemma enc_quotes_id s : has_char "'" s = false → enc_quotes s = s.
Proof.
  unfold has_char. induction s as [|c s IH]; [done|]. simpl.
  rewrite orb_false_iff. intros [Hc Hs]. rewrite IH by done.
  unfold char_eqb in *. apply bool_decide_eq_false in Hc.
  rewrite bool_decide_eq_false_2 by congruence. done.
Qed.

Lemma enc_quotes_contains s :
  has_char "'" s = true → strings.Contains (enc_quotes s) "'\''" = true.
Proof.
  unfold has_char. induction s as [|c s IH]; [done|]. simpl. intros H.
  apply Contains_iff. destruct (char_eqb c "'") eqn:Hc.
  - by exists "", (enc_quotes s).
  - assert (char_eqb "'" c = false) as Hc'.
    { unfold char_eqb in *. apply bool_decide_eq_false in Hc.
      apply bool_decide_eq_false. congruence. }
    rewrite Hc' in H. simpl in H. apply IH, Contains_iff in H as (a & b & Hab).
    exists (String c a), b. by rewrite app_cons_s, Hab.
Qed.

Lemma ContainsAny_quotes s :
  strings.ContainsAny s ("'" +:+ bytes [34]) = has_char "'" s || has_char dquote s.
Proof.
  unfold strings.ContainsAny, has_char, dquote.
  change ("'" +:+ bytes [34]) with (String "'" (String (chr 34) "")).
  assert (∀ c d, char_eqb c d = char_eqb d c) as Hsym.
  { intros c d. unfold char_eqb. by apply bool_decide_ext. }
  induction s as [|c s IH]; [done|]. cbn [str_existsb] in IH |- *. rewrite IH.
  rewrite orb_false_r, (Hsym c "'"%char), (Hsym c (chr 34)).
  by destruct (char_eqb "'" c), (char_eqb (chr 34) c), (str_existsb (char_eqb "'") s).
Qed.

(** [inner] of unquoteShellArg on a quoted string *)
Lemma unquote_quoted w :
  unquoteShellArg ("'" +:+ w +:+ "'") =
  if strings.ContainsAny w ("'" +:+ bytes [34]) && negb (strings.Contains w "'\''")
  then None else Some (strings.ReplaceAll w "'\''" "'").
Proof.
  unfold unquoteShellArg. rewrite HasPrefix_app. cbn [negb].
  assert (strings.HasSuffix ("'" +:+ w +:+ "'") "'" = true) as ->.
  { apply HasSuffix_iff. exists ("'" +:+ w). by rewrite app_assoc_s. }
  assert (String.length ("'" +:+ w +:+ "'") = String.length w + 2) as Hlen
    by (rewrite !length_app_s; simpl; lia).
  rewrite Hlen. destruct (Nat.ltb_spec (String.length w + 2) 2); [lia|]. cbn [negb orb].
  replace (String.length w + 2 - 2) with (String.length w) by lia.
  change (sdrop 1 ("'" +:+ w +:+ "'")) with (w +:+ "'").
  by rewrite stake_app_len.
Qed.

Lemma meta_no_quote v :
  strings.ContainsAny v shell_meta = false → has_char "'" v = false ∧ has_char dquote v = false.
Proof.
  unfold strings.ContainsAny, has_char, dquote.
  induction v as [|c v IH]; [done|]. simpl.
  rewrite orb_false_iff. intros [Hc Hv]. destruct (IH Hv) as [-> ->].
  rewrite !orb_false_r.
  destruct c as [[] [] [] [] [] [] [] []]; first [discriminate Hc | done].
Qed.

(** What [unquoteShellArg] makes of [shellQuote]'s output. *)
Lemma unquote_shellQuote v :
  unquoteShellArg (shellQuote v) =
  if has_char dquote v && negb (has_char "'" v) then None else Some v.
Proof.
  unfold shellQuote. destruct (strings.ContainsAny v shell_meta) eqn:Hm; cbn [negb].
  - rewrite unquote_quoted, ReplaceAll_enc, ReplaceAll_dec, ContainsAny_quotes.
    destruct (has_char "'" v) eqn:Hq; simpl.
    + rewrite enc_quotes_contains, andb_false_r by done. by rewrite andb_false_r.
    + rewrite enc_quotes_id, Hq by done. simpl. rewrite andb_true_r.
      destruct (has_char dquote v); simpl; [|done].
      destruct (strings.Contains v "'\''") eqn:Hc; [|done]. exfalso.
      apply Contains_iff in Hc as (a & b & ->). unfold has_char in Hq.
      rewrite !str_existsb_app in Hq. simpl in Hq. by rewrite orb_true_r in Hq.
  - destruct (meta_no_quote v Hm) as [Hq ->]. simpl.
    unfold unquoteShellArg. destruct (strings.HasPrefix v "'") eqn:Hp; [|done]. exfalso.
    apply HasPrefix_iff in Hp as [r ->]. unfold has_char in Hq.
    by rewrite str_existsb_app in Hq.
Qed.

(** ** Characters of accepted direct addresses, URLs and references *)

Definition addr_char (c : ascii) : bool :=
  ip_char c || char_eqb c "[" || char_eqb c "]" || char_eqb c "+" || char_eqb c "-".

Lemma LastIndexByte_Some s c i :
  strings.LastIndexByte s c = Some i → s = stake i s +:+ String c (sdrop (S i) s).
Proof.
  revert i. induction s as [|d s IH]; intros i; [done|]. simpl.
  destruct (strings.LastIndexByte s c) as [j|].
  - intros [= <-]. specialize (IH j eq_refl). simpl. rewrite app_cons_s.
    f_equal. exact IH.
  - destruct (char_eqb d c) eqn:Hd; [|done]. intros [= <-].
    apply bool_decide_eq_true in Hd as ->. done.
Qed.

Lemma IndexByte_Some s c i :
  strings.IndexByte s c = Some i → s = stake i s +:+ String c (sdrop (S i) s).
Proof.
  revert i. induction s as [|d s IH]; intros i; [done|]. simpl.
  destruct (char_eqb d c) eqn:Hd.
  - intros [= <-]. apply bool_decide_eq_true in Hd as ->. done.
  - destruct (strings.IndexByte s c) as [j|]; [|done].
    intros [= <-]. specialize (IH j eq_refl). simpl. rewrite app_cons_s.
    f_equal. exact IH.
Qed.

Lemma SplitHostPort_chars p s host port :
  p ":"%char = true → p "["%char = true → p "]"%char = true →
  net.SplitHostPort s = Some (host, port) →
  str_forallb p host = true → str_forallb p port = true → str_forallb p s = true.
Proof.
  intros Hcolon Hopen Hclose. unfold net.SplitHostPort.
  destruct (strings.LastIndexByte s ":") as [i|] eqn:Hi; [|done].
  pose proof (LastIndexByte_Some _ _ _ Hi) as Hs.
  assert ((∃ s', s = String "[" s') ∨ ¬ ∃ s', s = String "[" s') as [[s' ->]|Hn].
  { destruct (strings.HasPrefix s "[") eqn:Hp; [left; by apply HasPrefix_iff in Hp|right].
    intros [s' ->]. by destruct s'. }
  - destruct (strings.IndexByte (String "[" s') "]") as [e|] eqn:He; [|done].
    destruct (S e =? String.length (String "[" s'))%nat; [done|].
    destruct (Nat.eqb_spec (S e) i) as [<-|]; [|done].
    destruct (_ && _); [|done]. intros [= Hhost Hport] Hh Hp.
    pose proof (IndexByte_Some _ _ _ He) as Hs2.
    rewrite Hs, str_forallb_app. cbn [str_forallb].
    replace (sdrop (S (S e)) (String "[" s')) with port by (symmetry; exact Hport).
    rewrite Hcolon, Hp, !andb_true_r.
    destruct e as [|e].
    { exfalso. revert He. cbn. by destruct (strings.IndexByte s' "]"). }
    rewrite Nat.sub_succ, Nat.sub_0_r in Hhost. rewrite <- Hhost in Hh.
    change (stake (S (S e)) (String "[" s')) with (String "[" (stake (S e) s')).
    cbn [str_forallb]. rewrite Hopen. cbn [andb].
    cbn [stake sdrop] in Hs2. rewrite app_cons_s in Hs2. injection Hs2 as Hs2.
    assert (String.length (stake e s') = e) as Hle.
    { apply (f_equal String.length) in Hs2. rewrite length_app_s, length_stake in Hs2.
      simpl in Hs2. rewrite length_stake. lia. }
    assert (stake (S e) s' = stake e s' +:+ "]") as ->.
    { assert (s' = stake e s' +:+ String "]" (sdrop (S e) s')) as Hs3 by exact Hs2.
      clear Hs2. revert Hs3 Hle. generalize (stake e s') (sdrop (S e) s'). intros a b -> Hle.
      replace (a +:+ String "]" b) with ((a +:+ "]") +:+ b) by (by rewrite app_assoc_s).
      replace (S e) with (String.length (a +:+ "]")) by (rewrite length_app_s; simpl; lia).
      exact (stake_app_len (a +:+ "]") b). }
    rewrite str_forallb_app, Hh. simpl. by rewrite Hclose.
  - intros H Hh Hp.
    assert (host = stake i s ∧ port = sdrop (S i) s) as [-> ->].
    { revert H. destruct s as [|c s0]; [by destruct i|].
      destruct c as [[] [] [] [] [] [] [] []];
        try (by exfalso; apply Hn; eauto); destruct (_ && _ && _); try done; by intros [= <- <-]. }
    rewrite Hs, str_forallb_app. cbn [str_forallb]. by rewrite Hh, Hcolon, Hp.
Qed.

Lemma ParseInt_chars s z :
  strconv.ParseInt s = Some z →
  str_forallb (λ c, is_digit c || char_eqb c "+" || char_eqb c "-") s = true.
Proof.
  unfold strconv.ParseInt.
  assert (∀ acc b n, strconv.parse_digits acc b = Some n →
    str_forallb (λ c, is_digit c || char_eqb c "+" || char_eqb c "-") b = true) as Hd.
  { intros acc b n Hb. apply parse_digits_all in Hb.
    eapply str_forallb_mono; [|exact Hb]. intros c ->. done. }
  destruct (match s with
    | String "-" s' => (true, s') | String "+" s' => (false, s') | _ => (false, s) end)
    as [neg body] eqn:Hb. intros H.
  assert (∃ n, strconv.parse_digits 0 body = Some n) as [n Hn].
  { destruct body; [done|]. destruct (strconv.parse_digits 0 _); [eauto|done]. }
  apply Hd in Hn.
  destruct s as [|c s]; [done|].
  destruct c as [[] [] [] [] [] [] [] []]; injection Hb as <- <-; first [exact Hn | simpl; exact Hn].
Qed.

Lemma validDirectAddress_chars v :
  validDirectAddress v = true → str_forallb addr_char v = true.
Proof.
  unfold validDirectAddress. destruct (_ || _); [done|].
  destruct (strings.Contains v "%"); [done|].
  destruct (net.SplitHostPort v) as [[host portStr]|] eqn:Hsp; [|done].
  destruct (strconv.Atoi portStr) as [port|] eqn:Hport; [|done].
  destruct (_ || _); [done|].
  destruct (net.ParseIP host) as [ip|] eqn:Hip; [|done]. intros _.
  eapply SplitHostPort_chars; [done|done|done|exact Hsp| |].
  - eapply str_forallb_mono; [|by eapply ParseIP_chars].
    intros c Hc. unfold addr_char. by rewrite Hc.
  - eapply str_forallb_mono; [|by eapply ParseInt_chars].
    intros c. unfold addr_char, ip_char, is_digit. simpl. intros H.
    repeat (apply orb_true_iff in H as [H|H]); rewrite H;
      rewrite ?orb_true_r, ?orb_true_l; done.
Qed.

(** ** The shell's reading of a command line *)

(** Characters a POSIX shell takes literally outside quotes: neither an
    operator, nor an expansion, a glob, a quote, an escape or a comment. *)
Definition sh_plain (c : ascii) : bool :=
  isAlphanumeric c || has_char c "-_./:%+@=,".

Definition sh_add (c : ascii) (cur : option string) : option string :=
  Some (default "" cur +:+ String c "").

(** The words of a command line made of literal and single-quoted text; [None]
    when the shell would interpret a character of it, or a quote is open. *)
Fixpoint sh_go (inq : bool) (cur : option string) (s : string) : option (list string) :=
  match s with
  | EmptyString => if inq then None else Some (match cur with None => [] | Some w => [w] end)
  | String c s' =>
      if inq then
        if char_eqb c "'" then sh_go false cur s' else sh_go true (sh_add c cur) s'
      else if char_eqb c " " then
        match cur with
        | None => sh_go false None s'
        | Some w => cons w <$> sh_go false None s'
        end
      else if char_eqb c "'" then sh_go true (Some (default "" cur)) s'
      else if sh_plain c then sh_go false (sh_add c cur) s'
      else None
  end.
Definition sh_words (s : string) : option (list string) := sh_go false None s.

(** [word_enc e w]: the text [e] is one field for strings.Fields, the shell reads
    it as the word [w], and unquoteShellArg gives [w] back. *)
Record word_enc (e w : string) : Prop := {
  enc_field : plain_word e = true;
  enc_shell : ∀ s, sh_go false None (e +:+ s) = sh_go false (Some w) s;
  enc_unquote : unquoteShellArg e = Some w;
}.

Lemma sh_go_plain w cur s :
  str_forallb sh_plain w = true → w ≠ "" →
  sh_go false cur (w +:+ s) = sh_go false (Some (default "" cur +:+ w)) s.
Proof.
  revert cur. induction w as [|c w IH]; [done|]. intros cur Hw _.
  simpl in Hw. apply andb_true_iff in Hw as [Hc Hw]. rewrite app_cons_s. cbn [sh_go].
  assert (char_eqb c " " = false) as ->.
  { apply char_eqb_ne. intros ->. discriminate Hc. }
  assert (char_eqb c "'" = false) as ->.
  { apply char_eqb_ne. intros ->. discriminate Hc. }
  rewrite Hc. unfold sh_add. destruct (decide (w = "")) as [->|Hne].
  - by rewrite app_nil_s.
  - rewrite IH by done. cbn [from_option]. unfold id. by rewrite app_assoc_s, app_cons_s, app_nil_s.
Qed.

Lemma sh_go_quoted w cur s :
  has_char "'" w = false →
  sh_go true (Some cur) (w +:+ "'" +:+ s) = sh_go false (Some (cur +:+ w)) s.
Proof.
  revert cur. induction w as [|c w IH]; intros cur Hw.
  - rewrite app_nil_s, app_nil_r_s. change ("'" +:+ s) with (String "'" s). done.
  - unfold has_char in Hw. simpl in Hw. apply orb_false_iff in Hw as [Hc Hw].
    rewrite app_cons_s. cbn [sh_go].
    assert (char_eqb c "'" = false) as ->.
    { unfold char_eqb in *. apply bool_decide_eq_false in Hc.
      apply bool_decide_eq_false. congruence. }
    unfold sh_add. cbn [from_option]. unfold id. rewrite IH by done.
    by rewrite app_assoc_s, app_cons_s, app_nil_s.
Qed.

Lemma plain_not_quote w : str_forallb sh_plain w = true → strings.HasPrefix w "'" = false.
Proof.
  destruct w as [|c w]; [done|]. cbn [str_forallb]. intros H.
  apply andb_true_iff in H as [Hc _]. unfold strings.HasPrefix. cbn [String.prefix].
  destruct (ascii_dec "'" c) as [<-|]; [discriminate Hc|done].
Qed.

Lemma sh_plain_nonspace c : sh_plain c = true → ascii_nonspace c = true.
Proof. by_byte c. Qed.

(** A non-empty literal word stands for itself. *)
Lemma word_enc_plain w : str_forallb sh_plain w = true → w ≠ "" → word_enc w w.
Proof.
  intros Hw Hne. split.
  - unfold plain_word. rewrite (str_forallb_mono _ _ _ sh_plain_nonspace Hw).
    by rewrite bool_decide_eq_false_2.
  - intros s. by rewrite sh_go_plain.
  - unfold unquoteShellArg. by rewrite plain_not_quote.
Qed.

(** A direct address, quoted or not. *)
Lemma word_enc_address v : validDirectAddress v = true → word_enc (shellQuote v) v.
Proof.
  intros Hv. pose proof (validDirectAddress_chars v Hv) as Hc.
  assert (v ≠ "") as Hne by (by intros ->).
  assert (has_char "'" v = false ∧ has_char dquote v = false) as [Hq Hd].
  { split; unfold has_char; apply str_existsb_false; eapply str_forallb_mono; try exact Hc;
      intros c; by_byte c. }
  assert (unquoteShellArg (shellQuote v) = Some v) as Hun.
  { by rewrite unquote_shellQuote, Hd. }
  unfold shellQuote in *. destruct (strings.ContainsAny v shell_meta) eqn:Hm; cbn [negb] in *.
  - rewrite ReplaceAll_enc, enc_quotes_id in * by done. split; [| |done].
    + apply (plain_word_app "'"); [done|]. rewrite str_forallb_app.
      rewrite (str_forallb_mono addr_char ascii_nonspace v); [done| |done].
      intros c; by_byte c.
    + intros s. rewrite !app_assoc_s. change ("'" +:+ v +:+ "'" +:+ s) with
        (String "'" (v +:+ "'" +:+ s)). cbn [sh_go].
      change (char_eqb "'" " ") with false. change (char_eqb "'" "'") with true.
      cbn [from_option]. rewrite sh_go_quoted by done. by rewrite app_nil_s.
  - apply word_enc_plain; [|done].
    assert (str_forallb (λ c, addr_char c && negb (str_existsb (char_eqb c) shell_meta)) v = true)
      as Hall.
    { clear -Hc Hm. induction v as [|c v IH]; [done|]. cbn [str_forallb] in Hc |- *.
      apply andb_true_iff in Hc as [Hc Hv].
      unfold strings.ContainsAny in Hm. cbn [str_existsb] in Hm.
      apply orb_false_iff in Hm as [Hm1 Hm2].
      rewrite Hc, Hm1. cbn [negb andb]. by apply IH. }
    eapply str_forallb_mono; [|exact Hall].
    intros c; by_byte c.
Qed.

Lemma word_enc_url u : validRelayURL u = true → word_enc u u.
Proof.
  unfold validRelayURL. intros H. bool_prop. apply word_enc_plain.
  - eapply str_forallb_mono; [|eassumption].
    intros c; by_byte c.
  - by intros ->.
Qed.

Lemma word_enc_ref r : validHostReference r = true → word_enc r r.
Proof.
  unfold validHostReference. intros H. bool_prop. apply word_enc_plain.
  - eapply str_forallb_mono; [|eassumption].
    intros c; by_byte c.
  - by intros ->.
Qed.

(** *** Sentences: encoded words joined by blanks *)

Lemma sh_words_Join es ws :
  Forall2 word_enc es ws → sh_words (strings.Join es " ") = Some ws.
Proof.
  unfold sh_words. induction 1 as [|e w es ws He Hes IH]; [done|].
  destruct es as [|e' es'].
  - inversion Hes; subst. cbn [strings.Join].
    rewrite <- (app_nil_r_s e). rewrite (enc_shell _ _ He). done.
  - change (strings.Join (e :: e' :: es') " ") with (e +:+ " " +:+ strings.Join (e' :: es') " ").
    rewrite (enc_shell _ _ He).
    change (" " +:+ strings.Join (e' :: es') " ") with (String " " (strings.Join (e' :: es') " ")).
    cbn [sh_go]. change (char_eqb " " " ") with true. cbn iota. by rewrite IH.
Qed.

Lemma Fields_Join es : Forall (λ e, plain_word e = true) es → strings.Fields (strings.Join es " ") = es.
Proof.
  induction 1 as [|e es He Hes IH]; [done|]. destruct es as [|e' es'].
  - by apply Fields_one.
  - change (strings.Join (e :: e' :: es') " ") with (e +:+ " " +:+ strings.Join (e' :: es') " ").
    by rewrite Fields_cons, IH.
Qed.

(** The route arguments the builders append, as encoded words and as values *)
Definition route_encs (addrs urls : list string) : list string :=
  (concat ((λ a, ["--direct-address"; shellQuote a]) <$> addrs) ++
   concat ((λ u, ["--relay-url"; u]) <$> urls))%list.
Definition route_words (addrs urls : list string) : list string :=
  (concat ((λ a, ["--direct-address"; a]) <$> addrs) ++
   concat ((λ u, ["--relay-url"; u]) <$> urls))%list.

Lemma append_addresses_Ok command addrs out :
  append_addresses command addrs = Ok out →
  Forall (λ a, validDirectAddress a = true) addrs ∧
  ∀ es, command = strings.Join es " " → es ≠ [] →
        out = strings.Join (es ++ route_encs addrs []) " ".
Proof.
  revert command. induction addrs as [|a addrs IH]; intros command; cbn [append_addresses].
  - intros [= <-]. split; [constructor|]. intros es -> _. by rewrite app_nil_r.
  - destruct (validDirectAddress a) eqn:Ha; [|done]. cbn [negb]. intros H.
    apply IH in H as [Hall Hout]. split; [by constructor|]. intros es -> Hne.
    rewrite (Hout (es ++ ["--direct-address"; shellQuote a])).
    + unfold route_encs. cbn. by rewrite <- app_assoc.
    + change ["--direct-address"; shellQuote a] with (["--direct-address"] ++ [shellQuote a])%list.
      rewrite app_assoc, !Join_snoc by (try done; by destruct es).
      by rewrite !app_assoc_s.
    + by destruct es.
Qed.

Lemma append_urls_Join command urls es :
  command = strings.Join es " " → es ≠ [] →
  append_urls command urls = strings.Join (es ++ route_encs [] urls) " ".
Proof.
  revert command es. induction urls as [|u urls IH]; intros command es -> Hne; cbn [append_urls].
  - by rewrite app_nil_r.
  - rewrite (IH _ (es ++ ["--relay-url"; u])).
    + unfold route_encs. cbn. by rewrite <- app_assoc.
    + change ["--relay-url"; u] with (["--relay-url"] ++ [u])%list.
      rewrite app_assoc, !Join_snoc by (try done; by destruct es).
      by rewrite !app_assoc_s.
    + by destruct es.
Qed.

Lemma appendRouteArgs_Ok command cfg addrs out es :
  appendRouteArgs command cfg addrs = Ok out →
  command = strings.Join es " " → es ≠ [] →
  Forall (λ a, validDirectAddress a = true) addrs ∧
  Forall (λ u, validRelayURL u = true) (Relay_URLs cfg ++ Relay_ExtraURLs cfg) ∧
  out = strings.Join (es ++ route_encs addrs (Relay_URLs cfg ++ Relay_ExtraURLs cfg)) " ".
Proof.
  unfold appendRouteArgs, RelayConfig_Validate. intros H Hes Hne.
  destruct (forallb validRelayURL _) eqn:Hv; [|done].
  assert (∃ c, append_addresses command addrs = Ok c ∧
    out = append_urls (append_urls c (Relay_URLs cfg)) (Relay_ExtraURLs cfg)) as (c & Hc & ->).
  { destruct (append_addresses command addrs) as [c|e].
    - exists c. split; [done|]. destruct addrs, (Relay_URLs cfg), (Relay_ExtraURLs cfg);
        first [discriminate H | by injection H as <-].
    - destruct addrs, (Relay_URLs cfg), (Relay_ExtraURLs cfg); done. }
  apply append_addresses_Ok in Hc as [Hall Hout]. split; [done|]. split.
  { rewrite List.forallb_forall in Hv. apply Forall_forall. intros x Hx.
    apply Hv. by apply list_elem_of_In. }
  specialize (Hout es Hes Hne).
  rewrite (append_urls_Join _ _ (es ++ route_encs addrs [])) with (1 := Hout)
    by (by destruct es).
  rewrite (append_urls_Join _ _ _ eq_refl) by (by destruct es).
  unfold route_encs. cbn. rewrite fmap_app, concat_app, app_nil_r. by rewrite <- !app_assoc.
Qed.

Lemma route_encs_word_enc addrs urls :
  Forall (λ a, validDirectAddress a = true) addrs →
  Forall (λ u, validRelayURL u = true) urls →
  Forall2 word_enc (route_encs addrs urls) (route_words addrs urls).
Proof.
  intros Ha Hu. unfold route_encs, route_words. apply Forall2_app.
  - induction Ha; cbn; [constructor|].
    constructor; [by apply word_enc_plain|]. constructor; [by apply word_enc_address|done].
  - induction Hu; cbn; [constructor|].
    constructor; [by apply word_enc_plain|]. constructor; [by apply word_enc_url|done].
Qed.

Lemma validateRouteArgs_encs addrs urls :
  Forall (λ a, validDirectAddress a = true) addrs →
  Forall (λ u, validRelayURL u = true) urls →
  validateRouteArgs (route_encs addrs urls) = None.
Proof.
  intros Ha Hu. unfold route_encs. induction Ha as [|a addrs Ha _ IH]; cbn -[bool_decide].
  - induction Hu as [|u urls Hu _ IH]; cbn -[bool_decide]; [done|].
    rewrite (enc_unquote _ _ (word_enc_url u Hu)).
    rewrite bool_decide_eq_false_2 by done. rewrite bool_decide_eq_true_2 by done.
    by rewrite Hu.
  - rewrite (enc_unquote _ _ (word_enc_address a Ha)).
    rewrite bool_decide_eq_true_2 by done. by rewrite Ha.
Qed.

(** ** Properties of the builders *)

Lemma direct_proxy_Ok cfg addrs cmd :
  buildProxyCommandWithRoutes cfg addrs = Ok cmd →
  Forall (λ a, validDirectAddress a = true) addrs ∧
  Forall (λ u, validRelayURL u = true) (Relay_URLs cfg ++ Relay_ExtraURLs cfg) ∧
  cmd = strings.Join (["pigeons"; "fly"; "--stdio"; "%h"] ++
                      route_encs addrs (Relay_URLs cfg ++ Relay_ExtraURLs cfg)) " ".
Proof. intros H. by eapply appendRouteArgs_Ok. Qed.

Lemma grant_proxy_Ok hostRef cfg addrs cmd :
  buildGrantAwareProxyCommand hostRef cfg addrs = Ok cmd →
  validHostReference hostRef = true ∧
  Forall (λ a, validDirectAddress a = true) addrs ∧
  Forall (λ u, validRelayURL u = true) (Relay_URLs cfg ++ Relay_ExtraURLs cfg) ∧
  cmd = strings.Join (["ternalctl"; "proxy"; hostRef; "%h:%p"] ++
                      route_encs addrs (Relay_URLs cfg ++ Relay_ExtraURLs cfg)) " ".
Proof.
  unfold buildGrantAwareProxyCommand.
  destruct (validHostReference hostRef); [|done]. intros H. split; [done|].
  eapply appendRouteArgs_Ok; [exact H| |done].
  simpl. by rewrite !app_cons_s, !app_nil_s.
Qed.

Lemma Forall2_plain es ws :
  Forall2 word_enc es ws → Forall (λ e, plain_word e = true) es.
Proof. induction 1 as [|e w es ws He _ IH]; constructor; [apply (enc_field _ _ He)|done]. Qed.

Lemma direct_prefix_enc :
  Forall2 word_enc ["pigeons"; "fly"; "--stdio"; "%h"] ["pigeons"; "fly"; "--stdio"; "%h"].
Proof. repeat (constructor; [by apply word_enc_plain|]). constructor. Qed.

Lemma grant_prefix_enc hostRef :
  validHostReference hostRef = true →
  Forall2 word_enc ["ternalctl"; "proxy"; hostRef; "%h:%p"] ["ternalctl"; "proxy"; hostRef; "%h:%p"].
Proof.
  intros H. constructor; [by apply word_enc_plain|]. constructor; [by apply word_enc_plain|].
  constructor; [by apply word_enc_ref|]. constructor; [by apply word_enc_plain|]. constructor.
Qed.

Lemma validateRouteArgs_words addrs urls :
  Forall (λ a, validDirectAddress a = true) addrs →
  Forall (λ u, validRelayURL u = true) urls →
  validateRouteArgs (route_words addrs urls) = None.
Proof.
  assert (∀ v, validDirectAddress v = true → unquoteShellArg v = Some v) as Hun.
  { intros v Hv. apply validDirectAddress_chars in Hv. unfold unquoteShellArg.
    destruct v as [|c v]; [done|]. cbn [str_forallb] in Hv.
    apply andb_true_iff in Hv as [Hc _]. unfold strings.HasPrefix. cbn [String.prefix].
    destruct (ascii_dec "'" c) as [<-|]; [discriminate Hc|done]. }
  intros Ha Hu. unfold route_words. induction Ha as [|a addrs Ha _ IH]; cbn -[bool_decide].
  - induction Hu as [|u urls Hu _ IH]; cbn -[bool_decide]; [done|].
    rewrite (enc_unquote _ _ (word_enc_url u Hu)).
    rewrite bool_decide_eq_false_2 by done. rewrite bool_decide_eq_true_2 by done.
    by rewrite Hu.
  - rewrite (Hun a Ha).
    rewrite bool_decide_eq_true_2 by done. by rewrite Ha.
Qed.

(** The shell that runs a built ProxyCommand sees exactly the intended
    argument vector: the helper's fixed words, then each direct address and each
    relay URL as one literal word.  No input that passes the builders'
    validation can add a word, an operator, an expansion or a glob. *)
Theorem proxy_command_words hostRef cfg addrs cmd :
  (buildProxyCommandWithRoutes cfg addrs = Ok cmd →
   sh_words cmd = Some (["pigeons"; "fly"; "--stdio"; "%h"] ++
                        route_words addrs (Relay_URLs cfg ++ Relay_ExtraURLs cfg))) ∧
  (buildGrantAwareProxyCommand hostRef cfg addrs = Ok cmd →
   sh_words cmd = Some (["ternalctl"; "proxy"; hostRef; "%h:%p"] ++
                        route_words addrs (Relay_URLs cfg ++ Relay_ExtraURLs cfg))).
Proof.
  split.
  - intros H. apply direct_proxy_Ok in H as (Ha & Hu & ->). apply sh_words_Join.
    apply Forall2_app; [apply direct_prefix_enc|by apply route_encs_word_enc].
  - intros H. apply grant_proxy_Ok in H as (Hr & Ha & Hu & ->). apply sh_words_Join.
    apply Forall2_app; [by apply grant_prefix_enc|by apply route_encs_word_enc].
Qed.

Definition example_relays : RelayConfig := mkRelayConfig ["https://relay.example"] [].
Definition example_proxy : string :=
  "pigeons fly --stdio %h --direct-address '[2001:db8::1]:443' --relay-url https://relay.example".

Lemma proxy_command_words_witness :
  sh_words example_proxy =
  Some ["pigeons"; "fly"; "--stdio"; "%h"; "--direct-address"; "[2001:db8::1]:443";
        "--relay-url"; "https://relay.example"].
Proof.
  exact (proj1 (proxy_command_words "" example_relays ["[2001:db8::1]:443"] example_proxy)
               ltac:(vm_compute; reflexivity)).
Defined.

(** The validator accepts what the builders emit: for every configuration
    from which a ProxyCommand can be built, ValidateProxyCommand returns nil on
    the option that carries it. *)
Theorem built_proxy_command_validates hostRef cfg addrs cmd :
  buildProxyCommandWithRoutes cfg addrs = Ok cmd ∨
  buildGrantAwareProxyCommand hostRef cfg addrs = Ok cmd →
  ValidateProxyCommand ("ProxyCommand=" +:+ cmd) = None.
Proof.
  intros H. unfold ValidateProxyCommand. rewrite TrimPrefix_app.
  rewrite bool_decide_eq_false_2.
  2:{ intros He. apply (f_equal String.length) in He. rewrite length_app_s in He.
      simpl in He. lia. }
  destruct H as [H|H].
  - apply direct_proxy_Ok in H as (Ha & Hu & ->).
    rewrite Fields_Join by (eapply Forall2_plain, Forall2_app;
      [apply direct_prefix_enc|by apply route_encs_word_enc]).
    cbn [app]. rewrite !bool_decide_eq_true_2 by done. cbn [andb orb].
    by apply validateRouteArgs_encs.
  - apply grant_proxy_Ok in H as (Hr & Ha & Hu & ->).
    rewrite Fields_Join by (eapply Forall2_plain, Forall2_app;
      [by apply grant_prefix_enc|by apply route_encs_word_enc]).
    cbn [app]. rewrite (bool_decide_eq_false_2 ("ternalctl" = "pigeons")) by done.
    cbn [andb orb]. rewrite Hr, !bool_decide_eq_true_2 by done. cbn [andb].
    by apply validateRouteArgs_encs.
Qed.

Lemma built_proxy_command_validates_witness :
  ValidateProxyCommand ("ProxyCommand=" +:+ example_proxy) = None.
Proof.
  exact (built_proxy_command_validates "" example_relays ["[2001:db8::1]:443"] example_proxy
           ltac:(left; vm_compute; reflexivity)).
Defined.

(** End to end: when ssh runs the ProxyCommand of a grant-aware command, it
    replaces %h:%p by the endpoint and the port, and the shell passes the words
    on; the helper's ValidateProxyInvocation then accepts the invocation, for
    every host reference, endpoint, account, port and route that
    BuildGrantAwareSSHCommand accepts. *)
Theorem grant_aware_invocation_accepted hostRef endpointID sshUser sshPort cfg addrs cmd :
  (0 ≤ sshPort < 2 ^ 16)%Z →
  BuildGrantAwareSSHCommand hostRef endpointID sshUser sshPort cfg addrs = Ok cmd →
  ∃ proxy routeArgs,
    "ProxyCommand=" +:+ proxy ∈ Cmd_Args cmd ∧
    sh_words proxy = Some (["ternalctl"; "proxy"; hostRef; "%h:%p"] ++ routeArgs) ∧
    ValidateProxyInvocation hostRef (endpointID +:+ ":" +:+ strconv.FormatInt sshPort) routeArgs
      = None.
Proof.
  intros Hport. unfold BuildGrantAwareSSHCommand.
  destruct (validHostReference hostRef) eqn:Hr; [|done].
  destruct (validEndpointID endpointID) eqn:He; [|done].
  destruct (validSSHUser sshUser); [|done].
  destruct (Z.eqb_spec sshPort 0) as [|Hp0]; [done|]. cbn [negb].
  destruct (buildGrantAwareProxyCommand hostRef cfg addrs) as [proxy|] eqn:Hb; [|done].
  intros [= <-]. exists proxy.
  apply grant_proxy_Ok in Hb as (_ & Ha & Hu & Hproxy).
  exists (route_words addrs (Relay_URLs cfg ++ Relay_ExtraURLs cfg)). split; [|split].
  - cbn. set_solver.
  - rewrite Hproxy. apply sh_words_Join.
    apply Forall2_app; [by apply grant_prefix_enc|by apply route_encs_word_enc].
  - unfold ValidateProxyInvocation. rewrite Hr. cbn [negb].
    assert (strings.LastIndexByte (endpointID +:+ ":" +:+ strconv.FormatInt sshPort) ":"
            = Some (String.length endpointID)) as ->.
    { assert (strings.LastIndexByte (strconv.FormatInt sshPort) ":" = None) as Hnone.
      { assert (∃ n : N, strconv.FormatInt sshPort = pretty n) as [n ->].
        { exists (Z.to_N sshPort). destruct sshPort; [done|done|lia]. }
        pose proof (pretty_N_digits n) as Hd. revert Hd. generalize (pretty n). clear.
        induction s as [|c s IH]; [done|]. cbn [str_forallb strings.LastIndexByte].
        rewrite andb_true_iff. intros [Hc Hs]. rewrite IH by done.
        rewrite char_eqb_ne; [done|]. intros ->. discriminate Hc. }
      clear -Hnone. induction endpointID as [|c s IH].
      - rewrite app_nil_s. change (":" +:+ ?x) with (String ":" x). cbn. by rewrite Hnone.
      - rewrite app_cons_s. cbn [strings.LastIndexByte]. by rewrite IH. }
    rewrite stake_app_len, He. cbn [negb].
    replace (S (String.length endpointID)) with (String.length (endpointID +:+ ":"))
      by (rewrite length_app_s; simpl; lia).
    rewrite <- app_assoc_s, sdrop_app_len, ParseUint_FormatInt by done.
    destruct (Z.eqb_spec sshPort 0); [done|]. by apply validateRouteArgs_words.
Qed.

Definition example_endpoint : string :=
  "0123456789abcdef0123456789abcdef0123456789abcdef0123456789abcdef".

Lemma grant_aware_invocation_accepted_witness :
  ∃ cmd proxy routeArgs,
    "ProxyCommand=" +:+ proxy ∈ Cmd_Args cmd ∧
    sh_words proxy = Some (["ternalctl"; "proxy"; "h1"; "%h:%p"] ++ routeArgs) ∧
    ValidateProxyInvocation "h1" (example_endpoint +:+ ":" +:+ strconv.FormatInt 22) routeArgs = None.
Proof.
  eexists. eapply (grant_aware_invocation_accepted "h1" example_endpoint "ops" 22
    example_relays ["10.0.0.1:22"]); [lia|]. vm_compute. reflexivity.
Defined.

(** What a strict command is: when BuildStrictGrantAwareSSHCommand succeeds,
    its arguments are the port, the validated ProxyCommand, then the options
    that disable every known-hosts file, require strict host-key checking and
    name the pinned fingerprint through KnownHostsCommand, and last the
    destination, which cannot be read as an option; and every input has passed
    its validator. *)
Theorem strict_command_shape ctlPath hostRef endpointID sshUser sshPort fingerprint cfg addrs cmd :
  BuildStrictGrantAwareSSHCommand ctlPath hostRef endpointID sshUser sshPort fingerprint cfg addrs
    = Ok cmd →
  (∃ proxy,
     buildGrantAwareProxyCommand hostRef cfg addrs = Ok proxy ∧
     Cmd_Program cmd = "ssh" ∧
     Cmd_Args cmd =
       (["-p"; strconv.FormatInt sshPort; "-o"; "ProxyCommand=" +:+ proxy] ++
        ["-o"; "UserKnownHostsFile=none"; "-o"; "GlobalKnownHostsFile=none";
         "-o"; "StrictHostKeyChecking=yes"; "-o"; "CheckHostIP=no"; "-o"; "UpdateHostKeys=no";
         "-o"; "KnownHostsCommand=" +:+ shellQuote ctlPath +:+ " known-host-key " +:+
               fingerprint +:+ " %I %f %t %K"] ++
        [sshUser +:+ "@" +:+ endpointID])%list) ∧
  strings.HasPrefix (sshUser +:+ "@" +:+ endpointID) "-" = false ∧
  validHostReference hostRef = true ∧ validEndpointID endpointID = true ∧
  validSSHUser sshUser = true ∧ sshPort ≠ 0%Z ∧ ctlPath ≠ "" ∧
  strings.ContainsAny ctlPath (bytes [0; 13; 10]) = false ∧
  ValidHostKeyFingerprint fingerprint = true.
Proof.
  unfold BuildStrictGrantAwareSSHCommand, BuildGrantAwareSSHCommand.
  destruct (validHostReference hostRef) eqn:Hr; [|done].
  destruct (validEndpointID endpointID) eqn:He; [|done].
  destruct (validSSHUser sshUser) eqn:Hu; [|done].
  destruct (Z.eqb_spec sshPort 0) as [|Hp0]; [done|]. cbn [negb].
  destruct (buildGrantAwareProxyCommand hostRef cfg addrs) as [proxy|] eqn:Hb; [|done].
  unfold mbind, result_bind. cbn iota beta zeta.
  case_bool_decide as Hctl; [done|]. cbn [orb].
  destruct (strings.ContainsAny ctlPath (bytes [0; 13; 10])) eqn:Hany; [done|].
  destruct (ValidHostKeyFingerprint fingerprint) eqn:Hf; [|done]. cbn [negb].
  intros [= <-]. split; [|split; [|by repeat split]].
  - exists proxy. repeat split.
  - unfold validSSHUser in Hu. bool_prop. destruct sshUser as [|c s]; [done|].
    rewrite app_cons_s. unfold strings.HasPrefix. cbn [String.prefix].
    cbn [first_is_dash] in *.
    destruct (ascii_dec "-" c) as [<-|]; [discriminate|done].
Qed.

Lemma strict_command_shape_witness :
  ∃ cmd, BuildStrictGrantAwareSSHCommand "/opt/my ctl" "h1" example_endpoint "ops" 22
           "SHA256:AAAAAAAAAAAAAAAAAAAAAAAAAAAAAAAAAAAAAAAAAAA" example_relays [] = Ok cmd ∧
         Cmd_Program cmd = "ssh".
Proof.
  eexists. split; [vm_compute; reflexivity|].
  destruct (strict_command_shape "/opt/my ctl" "h1" example_endpoint "ops" 22
    "SHA256:AAAAAAAAAAAAAAAAAAAAAAAAAAAAAAAAAAAAAAAAAAA" example_relays [] _
    ltac:(vm_compute; reflexivity)) as [(proxy & _ & Hp & _) _].
  exact Hp.
Defined.

(** unquoteShellArg undoes shellQuote except on one class of texts: a text
    with a double quote and no single quote is quoted by shellQuote and then
    refused by unquoteShellArg; on every other text the value comes back. *)
Theorem unquote_undoes_shellQuote v :
  (unquoteShellArg (shellQuote v) = Some v ↔
   ¬ (has_char dquote v = true ∧ has_char "'" v = false)) ∧
  (unquoteShellArg (shellQuote v) = None ↔ has_char dquote v = true ∧ has_char "'" v = false).
Proof.
  rewrite unquote_shellQuote.
  destruct (has_char dquote v), (has_char "'" v); cbn [negb andb]; naive_solver.
Qed.
