(* ===== verification/CtxRWMutex.v ===== *)
(** * The cancellable reader/writer lock of internal/store/ctxrwmutex.go

    The lock's fields are a record; the channel [notify] is the identity of a
    channel in a little heap ([fresh] is the next identity, [closed] the closed
    ones), so that closing and replacing it is modelled as the code does it and
    closing a nil or closed channel panics.  Each critical section of [mu] is
    one function.  A pool of threads runs the four methods; between two
    critical sections a thread waits in its [select], where any of its two
    cases may fire, so every interleaving and every cancellation is a path of
    [step]. *)

From S2P Require Export Prelude.

Record ctxRWMutex := Mutex {
  readers : Z;
  writer : bool;
  wwaiting : Z;
  notify : option nat;
  fresh : nat;
  closed : gset nat;
}.

Definition zero_mutex : ctxRWMutex := Mutex 0 false 0 None 0 ∅.

(** [make(chan struct{})]. *)
Definition make_notify (m : ctxRWMutex) : ctxRWMutex :=
  Mutex (readers m) (writer m) (wwaiting m) (Some (fresh m)) (S (fresh m)) (closed m).

(** [None] is the panic of [close] on a nil or a closed channel. *)
Definition broadcast (m : ctxRWMutex) : option ctxRWMutex :=
  match notify m with
  | None => None
  | Some ch =>
    if bool_decide (ch ∈ closed m) then None else
    Some (make_notify (Mutex (readers m) (writer m) (wwaiting m) (notify m)
                             (fresh m) ({[ch]} ∪ closed m)))
  end.

Definition ensure_notify (m : ctxRWMutex) : ctxRWMutex :=
  match notify m with None => make_notify m | Some _ => m end.

(** What a critical section that tries to acquire the lock leaves behind. *)
Inductive attempt := Acquired | Parked (ch : nat).

Definition current (m : ctxRWMutex) : nat := default 0 (notify m).

(** One turn of the loop of [RLock]. *)
Definition RLock_try (m : ctxRWMutex) : ctxRWMutex * attempt :=
  let m := ensure_notify m in
  if negb (writer m) && bool_decide (wwaiting m = 0%Z)
  then (Mutex (readers m + 1) (writer m) (wwaiting m) (notify m) (fresh m) (closed m), Acquired)
  else (m, Parked (current m)).

Definition RUnlock (m : ctxRWMutex) : option ctxRWMutex :=
  let m := Mutex (readers m - 1) (writer m) (wwaiting m) (notify m) (fresh m) (closed m) in
  if bool_decide (readers m = 0%Z) then broadcast m else Some m.

(** The first critical section of [Lock]. *)
Definition Lock_enter (m : ctxRWMutex) : ctxRWMutex * attempt :=
  let m := ensure_notify m in
  if negb (writer m) && bool_decide (readers m = 0%Z)
  then (Mutex (readers m) true (wwaiting m) (notify m) (fresh m) (closed m), Acquired)
  else (Mutex (readers m) (writer m) (wwaiting m + 1) (notify m) (fresh m) (closed m),
        Parked (current m)).

(** The critical section after a wake-up, up to the next [select]. *)
Definition Lock_retry (m : ctxRWMutex) : ctxRWMutex * attempt :=
  if negb (writer m) && bool_decide (readers m = 0%Z)
  then (Mutex (readers m) true (wwaiting m - 1) (notify m) (fresh m) (closed m), Acquired)
  else (m, Parked (current m)).

(** The critical section after [ctx.Done()]. *)
Definition Lock_cancel (m : ctxRWMutex) : option ctxRWMutex :=
  let m := Mutex (readers m) (writer m) (wwaiting m - 1) (notify m) (fresh m) (closed m) in
  if bool_decide (wwaiting m = 0%Z) then broadcast m else Some m.

Definition Unlock (m : ctxRWMutex) : option ctxRWMutex :=
  broadcast (Mutex (readers m) false (wwaiting m) (notify m) (fresh m) (closed m)).

(** ** Threads *)

(** Where a thread is: outside the lock, in the [select] of [RLock] on a
    channel, at the head of its loop after a wake-up, holding the lock for
    reading; and the same for [Lock], with [WCancel] between [ctx.Done()] and
    the critical section that follows it. *)
Inductive pc :=
  | Idle
  | RWait (ch : nat) | RWoken | Reading
  | WWait (ch : nat) | WWoken | WCancel | Writing.

#[export] Instance pc_eq_dec : EqDecision pc.
Proof. solve_decision. Defined.

Definition after_read (a : attempt) : pc :=
  match a with Acquired => Reading | Parked ch => RWait ch end.
Definition after_write (a : attempt) : pc :=
  match a with Acquired => Writing | Parked ch => WWait ch end.

(** The steps a thread takes without its caller: waking up, trying again and
    finishing a cancellation.  [None] is a panic. *)
Definition internal_move (m : ctxRWMutex) (p : pc) : option (option (ctxRWMutex * pc)) :=
  match p with
  | RWait ch => if bool_decide (ch ∈ closed m) then Some (Some (m, RWoken)) else None
  | RWoken => Some (Some (prod_map id after_read (RLock_try m)))
  | WWait ch => if bool_decide (ch ∈ closed m) then Some (Some (m, WWoken)) else None
  | WWoken => Some (Some (prod_map id after_write (Lock_retry m)))
  | WCancel => Some ((λ m', (m', Idle)) <$> Lock_cancel m)
  | _ => None
  end.

(** The steps the caller or its context decides. *)
Inductive request := CallRLock | CallLock | CallRUnlock | CallUnlock | CtxDone.

Definition external_move (m : ctxRWMutex) (p : pc) (r : request) : option (option (ctxRWMutex * pc)) :=
  match r, p with
  | CallRLock, Idle => Some (Some (prod_map id after_read (RLock_try m)))
  | CallLock, Idle => Some (Some (prod_map id after_write (Lock_enter m)))
  | CallRUnlock, Reading => Some ((λ m', (m', Idle)) <$> RUnlock m)
  | CallUnlock, Writing => Some ((λ m', (m', Idle)) <$> Unlock m)
  | CtxDone, RWait _ => Some (Some (m, Idle))
  | CtxDone, WWait _ => Some (Some (m, WCancel))
  | _, _ => None
  end.

Record pool := Pool { mutex : ctxRWMutex; threads : list pc }.

(** [fires s t mv] with [mv] the outcome of thread [t]'s move: [None] when it panics. *)
Inductive outcome (s : pool) (t : nat) : option (option (ctxRWMutex * pc)) → option pool → Prop :=
  | outcome_step m p : outcome s t (Some (Some (m, p))) (Some (Pool m (<[t:=p]> (threads s))))
  | outcome_panic : outcome s t (Some None) None.

Inductive internal_step (s : pool) : option pool → Prop :=
  | internal_at t p o : threads s !! t = Some p →
      outcome s t (internal_move (mutex s) p) o → internal_step s o.

Inductive step (s : pool) : option pool → Prop :=
  | step_internal o : internal_step s o → step s o
  | step_external t p r o : threads s !! t = Some p →
      outcome s t (external_move (mutex s) p r) o → step s o.

(** Any number of threads, none of which has called the lock yet. *)
Inductive reachable : pool → Prop :=
  | reachable_init n : reachable (Pool zero_mutex (replicate n Idle))
  | reachable_step s s' : reachable s → step s (Some s') → reachable s'.

Inductive internal_steps : pool → pool → Prop :=
  | internal_refl s : internal_steps s s
  | internal_trans s s' s'' :
      internal_step s (Some s') → internal_steps s' s'' → internal_steps s s''.

(** ** Counting threads *)

Definition is_reading (p : pc) : Z := if decide (p = Reading) then 1 else 0.
Definition is_writing (p : pc) : Z := if decide (p = Writing) then 1 else 0.
Definition is_wwaiting (p : pc) : Z :=
  match p with WWait _ | WWoken | WCancel => 1 | _ => 0 end.

Definition count (f : pc → Z) (l : list pc) : Z := foldr (λ p n, f p + n)%Z 0%Z l.

Lemma count_insert f l t p q : l !! t = Some p → (count f (<[t:=q]> l) = count f l - f p + f q)%Z.
Proof.
  revert t. induction l as [|x l IH]; intros [|t]; simpl; try done.
  - intros [= ->]. lia.
  - intros H. rewrite (IH _ H). lia.
Qed.

Lemma count_replicate_idle f n : f Idle = 0%Z → count f (replicate n Idle) = 0%Z.
Proof. intros H. induction n as [|n IH]; simpl; lia. Qed.

Lemma count_nonneg f l : (∀ p, 0 ≤ f p)%Z → (0 ≤ count f l)%Z.
Proof. intros H. induction l as [|x l IH]; simpl; [lia|]. specialize (H x). lia. Qed.

Lemma count_le f l t p : (∀ p, 0 ≤ f p)%Z → l !! t = Some p → (f p ≤ count f l)%Z.
Proof.
  intros Hf. revert t. induction l as [|x l IH]; intros [|t]; simpl; try done.
  - intros [= ->]. pose proof (count_nonneg f l Hf). lia.
  - intros H. specialize (IH _ H). specialize (Hf x). lia.
Qed.

Lemma count_pos f l : (0 < count f l)%Z → ∃ t p, l !! t = Some p ∧ (0 < f p)%Z.
Proof.
  induction l as [|x l IH]; simpl; [lia|]. intros H.
  destruct (decide (0 < f x)%Z); [by exists 0, x|].
  destruct IH as (t & p & ? & ?); [lia|]. by exists (S t), p.
Qed.

Lemma is_reading_nonneg p : (0 ≤ is_reading p)%Z.
Proof. unfold is_reading. case_decide; lia. Qed.
Lemma is_writing_nonneg p : (0 ≤ is_writing p)%Z.
Proof. unfold is_writing. case_decide; lia. Qed.
Lemma is_wwaiting_nonneg p : (0 ≤ is_wwaiting p)%Z.
Proof. destruct p; simpl; lia. Qed.

(** ** The invariant *)

(** A thread waiting on a channel nobody has closed yet has a reason to wait:
    for a reader a writer that holds or wants the lock, for a writer an owner. *)
Definition justified (m : ctxRWMutex) (p : pc) : Prop :=
  match p with
  | RWait ch => ch ∉ closed m → notify m = Some ch ∧ (writer m = true ∨ (0 < wwaiting m)%Z)
  | WWait ch => ch ∉ closed m → notify m = Some ch ∧ (writer m = true ∨ (0 < readers m)%Z)
  | _ => True
  end.

Definition b2z (b : bool) : Z := if b then 1 else 0.

Definition channels_ok (m : ctxRWMutex) (l : list pc) : Prop :=
  (∀ ch, ch ∈ closed m → ch < fresh m) ∧
  match notify m with
  | Some ch => ch < fresh m ∧ ch ∉ closed m
  | None => Forall (λ p, p = Idle) l
  end.

Record Inv (s : pool) : Prop := {
  inv_readers : readers (mutex s) = count is_reading (threads s);
  inv_writer : b2z (writer (mutex s)) = count is_writing (threads s);
  inv_wwaiting : wwaiting (mutex s) = count is_wwaiting (threads s);
  inv_exclusive : writer (mutex s) = true → readers (mutex s) = 0%Z;
  inv_justified : Forall (justified (mutex s)) (threads s);
  inv_channels : channels_ok (mutex s) (threads s);
}.

Lemma inv_move s t p m' q :
  Inv s → threads s !! t = Some p →
  readers m' = (readers (mutex s) - is_reading p + is_reading q)%Z →
  b2z (writer m') = (b2z (writer (mutex s)) - is_writing p + is_writing q)%Z →
  wwaiting m' = (wwaiting (mutex s) - is_wwaiting p + is_wwaiting q)%Z →
  (writer m' = true → readers m' = 0%Z) →
  Forall (justified m') (threads s) → justified m' q →
  channels_ok m' (<[t:=q]> (threads s)) →
  Inv (Pool m' (<[t:=q]> (threads s))).
Proof.
  intros [Hr Hw Hww _ _ _] Ht ???????. split; simpl; try done.
  - rewrite (count_insert _ _ _ p) by done. lia.
  - rewrite (count_insert _ _ _ p) by done. lia.
  - rewrite (count_insert _ _ _ p) by done. lia.
  - by apply Forall_insert.
Qed.

(** Which channel a waiting thread waits on is all that matters for its
    justification after a broadcast. *)
Definition on_current (m : ctxRWMutex) (p : pc) : Prop :=
  match p with
  | RWait ch | WWait ch => ch ∉ closed m → notify m = Some ch
  | _ => True
  end.

Lemma justified_on_current m p : justified m p → on_current m p.
Proof. destruct p; simpl; try done; intros Hj Hc; by destruct (Hj Hc). Qed.

Lemma broadcast_spec m ch :
  notify m = Some ch → ch ∉ closed m →
  broadcast m = Some (Mutex (readers m) (writer m) (wwaiting m) (Some (fresh m))
                            (S (fresh m)) ({[ch]} ∪ closed m)).
Proof. intros Hn Hc. unfold broadcast. rewrite Hn, bool_decide_eq_false_2 by done. done. Qed.

(** After a broadcast every waiting thread is on a closed channel. *)
Lemma broadcast_wakes m m' p :
  broadcast m = Some m' → on_current m p →
  match p with RWait ch | WWait ch => ch ∈ closed m' | _ => True end.
Proof.
  unfold broadcast. destruct (notify m) as [ch|] eqn:Hn; [|done].
  case_bool_decide; [done|]. intros [= <-]. simpl.
  destruct p; simpl; try done; intros Hp;
    (destruct (decide (ch0 ∈ closed m)) as [|Hnc]; [set_solver|]);
    specialize (Hp Hnc); simplify_eq; set_solver.
Qed.

Lemma broadcast_justified m m' p : broadcast m = Some m' → on_current m p → justified m' p.
Proof.
  intros Hb Hp. pose proof (broadcast_wakes _ _ _ Hb Hp). destruct p; simpl in *; done.
Qed.

Lemma broadcast_channels m m' l l' :
  broadcast m = Some m' → channels_ok m l → channels_ok m' l'.
Proof.
  unfold broadcast, channels_ok. destruct (notify m) as [ch|] eqn:Hn; [|done].
  case_bool_decide; [done|]. intros [= <-] [Hc [Hf _]]. simpl. split; [|split; [lia|]].
  - intros c. rewrite elem_of_union, elem_of_singleton. intros [->|?%Hc]; lia.
  - rewrite elem_of_union, elem_of_singleton. intros [Hx|?%Hc]; lia.
Qed.

Lemma notify_live s t p :
  Inv s → threads s !! t = Some p → p ≠ Idle →
  ∃ ch, notify (mutex s) = Some ch ∧ ch ∉ closed (mutex s) ∧ ch < fresh (mutex s).
Proof.
  intros [_ _ _ _ _ [_ Hch]] Ht Hp. destruct (notify (mutex s)) as [ch|]; [naive_solver|].
  rewrite Forall_lookup in Hch. naive_solver.
Qed.

(** [ensure_notify] only creates the first channel, when nobody waits. *)
Lemma ensure_inv s : Inv s → Inv (Pool (ensure_notify (mutex s)) (threads s)).
Proof.
  unfold ensure_notify. destruct (notify (mutex s)) eqn:Hn.
  - destruct s; done.
  - intros [Hr Hw Hww He Hj [Hc Hch]]. rewrite Hn in Hch.
    split; simpl; try done.
    + eapply Forall_impl; [exact Hch|]. by intros ? ->.
    + split; simpl; [intros c ?%Hc; lia|]. split; [lia|]. intros ?%Hc. lia.
Qed.

Lemma ensure_live m : ∃ ch, notify (ensure_notify m) = Some ch.
Proof. unfold ensure_notify. destruct (notify m) eqn:E; simpl; eauto. Qed.

Lemma ensure_id m : notify m ≠ None → ensure_notify m = m.
Proof. unfold ensure_notify. by destruct (notify m). Qed.

(** Dropping the reason threads wait for is only allowed with a broadcast;
    keeping or strengthening it keeps every justification. *)
Lemma justified_mono m m' p :
  closed m' = closed m → notify m' = notify m →
  (writer m = true ∨ (0 < wwaiting m)%Z → writer m' = true ∨ (0 < wwaiting m')%Z) →
  (writer m = true ∨ (0 < readers m)%Z → writer m' = true ∨ (0 < readers m')%Z) →
  justified m p → justified m' p.
Proof. intros Hc Hn H1 H2. destruct p; simpl; rewrite ?Hc, ?Hn; naive_solver. Qed.

Lemma channels_keep m m' l t q ch :
  notify m = Some ch → closed m' = closed m → notify m' = notify m → fresh m' = fresh m →
  channels_ok m l → channels_ok m' (<[t:=q]> l).
Proof. unfold channels_ok. intros Hn Hc Hn' Hf [H1 H2]. rewrite Hc, Hn', Hf, Hn in *. done. Qed.

Lemma inv_bounds s t p :
  Inv s → threads s !! t = Some p →
  (is_reading p ≤ readers (mutex s))%Z ∧ (is_writing p ≤ b2z (writer (mutex s)))%Z ∧
  (is_wwaiting p ≤ wwaiting (mutex s))%Z ∧
  (0 ≤ readers (mutex s))%Z ∧ (0 ≤ wwaiting (mutex s))%Z.
Proof.
  intros [-> -> -> _ _ _] Ht.
  pose proof (count_nonneg is_reading (threads s) is_reading_nonneg).
  pose proof (count_nonneg is_wwaiting (threads s) is_wwaiting_nonneg).
  split_and!; eauto using count_le, is_reading_nonneg, is_writing_nonneg, is_wwaiting_nonneg.
Qed.

(** A move that goes through a broadcast: the numbers are right before it. *)
Lemma inv_broadcast s t p q m0 m' :
  Inv s → threads s !! t = Some p → p ≠ Idle → justified m' q →
  notify m0 = notify (mutex s) → closed m0 = closed (mutex s) → fresh m0 = fresh (mutex s) →
  broadcast m0 = Some m' →
  readers m0 = (readers (mutex s) - is_reading p + is_reading q)%Z →
  b2z (writer m0) = (b2z (writer (mutex s)) - is_writing p + is_writing q)%Z →
  wwaiting m0 = (wwaiting (mutex s) - is_wwaiting p + is_wwaiting q)%Z →
  (writer m0 = true → readers m0 = 0%Z) →
  Inv (Pool m' (<[t:=q]> (threads s))).
Proof.
  intros Hinv Ht Hp Hq Hn Hc Hf Hb Hr Hw Hww He.
  destruct (notify_live _ _ _ Hinv Ht Hp) as (ch & Hn' & Hnc & _).
  assert (Hb' := Hb). rewrite (broadcast_spec m0 ch) in Hb' by congruence.
  injection Hb' as Hb'. eapply inv_move; rewrite <- ?Hb'; simpl; eauto.
  - rewrite Hb'. eapply Forall_impl; [apply (inv_justified _ Hinv)|].
    intros x Hx. eapply broadcast_justified; [exact Hb|].
    apply justified_on_current in Hx. unfold on_current in *. by rewrite Hc, Hn.
  - rewrite Hb'. exact Hq.
  - rewrite Hb'. eapply broadcast_channels; [exact Hb|].
    unfold channels_ok. rewrite Hn, Hc, Hf. apply (inv_channels _ Hinv).
Qed.

Lemma ensure_idem m : ensure_notify (ensure_notify m) = ensure_notify m.
Proof. apply ensure_id. destruct (ensure_live m) as [? ->]. done. Qed.

Ltac numbers := unfold is_reading, is_writing in *; simpl in *; lia.

(** The obligations of [inv_move] for a move that closes no channel. *)
Ltac quiet_move s t p :=
  apply (inv_move s t p); simpl; try done;
  try (eapply (channels_keep (mutex s)); try apply inv_channels; done).

(** The same for a move that ends in a broadcast on the live channel [ch]. *)
Ltac loud_move s t p ch :=
  match goal with
  | |- ∃ m', broadcast ?m0 = Some m' ∧ _ =>
    let Hb := fresh "Hb" in
    assert (Hb : broadcast m0 = Some _) by (apply (broadcast_spec m0 ch); done);
    eexists; split; [exact Hb|];
    apply (inv_broadcast s t p Idle m0); try done; simpl
  end.

Lemma RLock_inv_live s t p :
  Inv s → notify (mutex s) ≠ None → threads s !! t = Some p → p = Idle ∨ p = RWoken →
  Inv (Pool (RLock_try (mutex s)).1 (<[t:=after_read (RLock_try (mutex s)).2]> (threads s))).
Proof.
  intros Hinv Hn Ht Hp. pose proof (inv_bounds _ _ _ Hinv Ht) as B.
  unfold RLock_try. rewrite ensure_id by done.
  destruct (notify (mutex s)) as [ch|] eqn:Hch; [clear Hn|done].
  assert (is_reading p = 0 ∧ is_writing p = 0 ∧ is_wwaiting p = 0)%Z as (?&?&?)
    by (destruct Hp; by subst p).
  destruct (writer (mutex s)) eqn:Hw; simpl; [|case_bool_decide as Hww; simpl]; quiet_move s t p.
  all: try numbers.
  all: try solve [rewrite ?Hw; numbers].
  all: try solve [intros; apply (inv_exclusive _ Hinv); congruence].
  all: try solve [apply (inv_justified _ Hinv)].
  - unfold current. rewrite ?Hch. auto.
  - eapply Forall_impl; [apply (inv_justified _ Hinv)|]. intros x.
    apply justified_mono; simpl; try done; rewrite ?Hw; naive_solver lia.
  - unfold current. rewrite ?Hch. simpl. intros _. split; [done|]. right. lia.
Qed.

Lemma RLock_inv s t p :
  Inv s → threads s !! t = Some p → p = Idle ∨ p = RWoken →
  Inv (Pool (RLock_try (mutex s)).1 (<[t:=after_read (RLock_try (mutex s)).2]> (threads s))).
Proof.
  intros Hinv Ht Hp. pose proof (RLock_inv_live _ t p (ensure_inv _ Hinv)) as H.
  unfold RLock_try in *. simpl in H. rewrite ensure_idem in H. apply H; try done.
  destruct (ensure_live (mutex s)) as [? ->]. done.
Qed.

Lemma Lock_enter_inv_live s t :
  Inv s → notify (mutex s) ≠ None → threads s !! t = Some Idle →
  Inv (Pool (Lock_enter (mutex s)).1 (<[t:=after_write (Lock_enter (mutex s)).2]> (threads s))).
Proof.
  intros Hinv Hn Ht. pose proof (inv_bounds _ _ _ Hinv Ht) as B.
  unfold Lock_enter. rewrite ensure_id by done.
  destruct (notify (mutex s)) as [ch|] eqn:Hch; [clear Hn|done].
  destruct (writer (mutex s)) eqn:Hw; simpl; [|case_bool_decide as Hr; simpl]; quiet_move s t Idle.
  all: try solve [rewrite ?Hw; numbers].
  all: try solve [intros; apply (inv_exclusive _ Hinv); congruence].
  all: try (eapply Forall_impl; [apply (inv_justified _ Hinv)|]; intros x;
            apply justified_mono; simpl; try done; rewrite ?Hw; intros [?|?]; auto; right; lia).
  - unfold current. rewrite ?Hch. simpl. auto.
  - unfold current. rewrite ?Hch. simpl. intros _. split; [done|]. right. lia.
Qed.

Lemma Lock_enter_inv s t :
  Inv s → threads s !! t = Some Idle →
  Inv (Pool (Lock_enter (mutex s)).1 (<[t:=after_write (Lock_enter (mutex s)).2]> (threads s))).
Proof.
  intros Hinv Ht. pose proof (Lock_enter_inv_live _ t (ensure_inv _ Hinv)) as H.
  unfold Lock_enter in *. simpl in H. rewrite ensure_idem in H. apply H; try done.
  destruct (ensure_live (mutex s)) as [? ->]. done.
Qed.

Lemma Lock_retry_inv s t :
  Inv s → threads s !! t = Some WWoken →
  Inv (Pool (Lock_retry (mutex s)).1 (<[t:=after_write (Lock_retry (mutex s)).2]> (threads s))).
Proof.
  intros Hinv Ht. pose proof (inv_bounds _ _ _ Hinv Ht) as B.
  destruct (notify_live _ _ _ Hinv Ht ltac:(done)) as (ch & Hch & _).
  unfold Lock_retry.
  destruct (writer (mutex s)) eqn:Hw; simpl; [|case_bool_decide as Hr; simpl]; quiet_move s t WWoken.
  all: try solve [rewrite ?Hw; numbers].
  all: try solve [intros; apply (inv_exclusive _ Hinv); congruence].
  all: try solve [apply (inv_justified _ Hinv)].
  - unfold current. rewrite ?Hch. simpl. auto.
  - eapply Forall_impl; [apply (inv_justified _ Hinv)|]. intros x.
    apply justified_mono; simpl; try done; auto.
  - unfold current. rewrite ?Hch. simpl. intros _. split; [done|]. right. lia.
Qed.

Lemma Lock_cancel_inv s t :
  Inv s → threads s !! t = Some WCancel →
  ∃ m', Lock_cancel (mutex s) = Some m' ∧ Inv (Pool m' (<[t:=Idle]> (threads s))).
Proof.
  intros Hinv Ht. pose proof (inv_bounds _ _ _ Hinv Ht) as B.
  destruct (notify_live _ _ _ Hinv Ht ltac:(done)) as (ch & Hch & Hnc & _).
  unfold Lock_cancel. simpl. case_bool_decide as Hz.
  - loud_move s t WCancel ch; try numbers. apply (inv_exclusive _ Hinv).
  - eexists. split; [done|]. quiet_move s t WCancel; try numbers; [apply (inv_exclusive _ Hinv)|].
    eapply Forall_impl; [apply (inv_justified _ Hinv)|]. intros x.
    apply justified_mono; simpl; try done. intros [?|?]; [by left|right; numbers].
Qed.

Lemma RUnlock_inv s t :
  Inv s → threads s !! t = Some Reading →
  ∃ m', RUnlock (mutex s) = Some m' ∧ Inv (Pool m' (<[t:=Idle]> (threads s))).
Proof.
  intros Hinv Ht. pose proof (inv_bounds _ _ _ Hinv Ht) as B.
  destruct (notify_live _ _ _ Hinv Ht ltac:(done)) as (ch & Hch & Hnc & _).
  pose proof (inv_exclusive _ Hinv) as E.
  unfold RUnlock. simpl. case_bool_decide as Hz.
  - loud_move s t Reading ch; numbers.
  - eexists. split; [done|]. quiet_move s t Reading; try numbers.
    + intros Hw. specialize (E Hw). numbers.
    + eapply Forall_impl; [apply (inv_justified _ Hinv)|]. intros x.
      apply justified_mono; simpl; try done. intros [?|?]; [by left|right; numbers].
Qed.

Lemma Unlock_inv s t :
  Inv s → threads s !! t = Some Writing →
  ∃ m', Unlock (mutex s) = Some m' ∧ Inv (Pool m' (<[t:=Idle]> (threads s))).
Proof.
  intros Hinv Ht. pose proof (inv_bounds _ _ _ Hinv Ht) as B.
  destruct (notify_live _ _ _ Hinv Ht ltac:(done)) as (ch & Hch & Hnc & _).
  destruct (writer (mutex s)) eqn:Hw; [|numbers].
  unfold Unlock. loud_move s t Writing ch; rewrite ?Hw; numbers.
Qed.

Lemma inv_init n : Inv (Pool zero_mutex (replicate n Idle)).
Proof.
  split; simpl; rewrite ?count_replicate_idle by done; try done.
  - apply Forall_replicate. done.
  - split; simpl; [set_solver|]. by apply Forall_replicate.
Qed.

Lemma set_inv s t p q :
  Inv s → threads s !! t = Some p →
  is_reading p = is_reading q → is_writing p = is_writing q → is_wwaiting p = is_wwaiting q →
  justified (mutex s) q → p ≠ Idle →
  Inv (Pool (mutex s) (<[t:=q]> (threads s))).
Proof.
  intros Hinv Ht ?????. destruct (notify_live _ _ _ Hinv Ht ltac:(done)) as (ch & Hch & _).
  apply (inv_move s t p); try done; try lia; try apply Hinv.
  eapply channels_keep; try apply (inv_channels _ Hinv); done.
Qed.

Lemma internal_inv s o : Inv s → internal_step s o → ∃ s', o = Some s' ∧ Inv s'.
Proof.
  intros Hinv [t p o' Ht Ho]. destruct p; simpl in Ho; try (inversion Ho; fail).
  - case_bool_decide; inversion Ho; subst. eexists. split; [done|]. by apply (set_inv s t (RWait ch)).
  - inversion Ho; subst. eexists. split; [done|]. apply (RLock_inv s t RWoken); auto.
  - case_bool_decide; inversion Ho; subst. eexists. split; [done|]. by apply (set_inv s t (WWait ch)).
  - inversion Ho; subst. eexists. split; [done|]. by apply Lock_retry_inv.
  - destruct (Lock_cancel_inv s t Hinv Ht) as (m' & Hm & ?). rewrite Hm in Ho.
    inversion Ho; subst. eauto.
Qed.

Lemma step_inv s o : Inv s → step s o → ∃ s', o = Some s' ∧ Inv s'.
Proof.
  intros Hinv [o' Hs|t p r o' Ht Ho]; [by eapply internal_inv|].
  destruct r, p; simpl in Ho; try (inversion Ho; fail).
  - inversion Ho; subst. eexists. split; [done|]. apply (RLock_inv s t Idle); auto.
  - inversion Ho; subst. eexists. split; [done|]. by apply Lock_enter_inv.
  - destruct (RUnlock_inv s t Hinv Ht) as (m' & Hm & ?). rewrite Hm in Ho. inversion Ho; subst. eauto.
  - destruct (Unlock_inv s t Hinv Ht) as (m' & Hm & ?). rewrite Hm in Ho. inversion Ho; subst. eauto.
  - inversion Ho; subst. eexists. split; [done|].
    apply (inv_move s t (RWait ch)); try done; try apply Hinv; try numbers.
    destruct (notify_live _ _ _ Hinv Ht ltac:(done)) as (ch' & Hch & _).
    eapply channels_keep; try apply (inv_channels _ Hinv); done.
  - inversion Ho; subst. eexists. split; [done|]. by apply (set_inv s t (WWait ch)).
Qed.

Lemma reachable_inv s : reachable s → Inv s.
Proof.
  induction 1 as [n|s s' _ IH Hs]; [apply inv_init|].
  destruct (step_inv _ _ IH Hs) as (s'' & [= ->] & ?). done.
Qed.

(** ** Progress *)

Definition owner (s : pool) : Prop :=
  ∃ t p, threads s !! t = Some p ∧ (p = Reading ∨ p = Writing).

Definition waiting (p : pc) : Prop :=
  match p with RWait _ | RWoken | WWait _ | WWoken => True | _ => False end.

Lemma no_owner_free s :
  Inv s → ¬ owner s → readers (mutex s) = 0%Z ∧ writer (mutex s) = false.
Proof.
  intros Hinv Hno. split.
  - destruct (decide (0 < readers (mutex s))%Z) as [Hr|Hr].
    + rewrite (inv_readers _ Hinv) in Hr. apply count_pos in Hr as (t & p & Ht & Hp).
      unfold is_reading in Hp. case_decide; [|lia]. destruct Hno. exists t, p. auto.
    + rewrite (inv_readers _ Hinv) in *.
      pose proof (count_nonneg is_reading (threads s) is_reading_nonneg). lia.
  - destruct (writer (mutex s)) eqn:Hw; [|done].
    assert (Hc : (0 < count is_writing (threads s))%Z) by (rewrite <- (inv_writer _ Hinv), Hw; simpl; lia).
    apply count_pos in Hc as (t & p & Ht & Hp).
    unfold is_writing in Hp. case_decide; [|lia]. destruct Hno. exists t, p. auto.
Qed.

Lemma internal_move_step s t p m q :
  threads s !! t = Some p → internal_move (mutex s) p = Some (Some (m, q)) →
  internal_step s (Some (Pool m (<[t:=q]> (threads s)))).
Proof. intros Ht Hm. eapply internal_at; [exact Ht|]. rewrite Hm. constructor. Qed.

Lemma owner_insert m l t q : t < length l → q = Reading ∨ q = Writing → owner (Pool m (<[t:=q]> l)).
Proof. intros Ht Hq. exists t, q. simpl. by rewrite list_lookup_insert_eq. Qed.

Lemma writer_takes s t p :
  Inv s → ¬ owner s → threads s !! t = Some p → p = WWoken ∨ (∃ ch, p = WWait ch) →
  ∃ s', internal_steps s s' ∧ owner s'.
Proof.
  intros Hinv Hno Ht Hp. destruct (no_owner_free s Hinv Hno) as [Hr Hw].
  assert (Hlt := lookup_lt_Some _ _ _ Ht).
  assert (Hacq : ∀ s', mutex s' = mutex s → length (threads s') = length (threads s) →
            threads s' !! t = Some WWoken → ∃ s'', internal_steps s' s'' ∧ owner s'').
  { intros s' Hm Hl Ht'. eexists. split.
    - eapply internal_trans; [|apply internal_refl].
      eapply internal_move_step; [exact Ht'|]. simpl. unfold Lock_retry.
      rewrite Hm, Hw, bool_decide_eq_true_2 by done. reflexivity.
    - apply owner_insert; [lia|auto]. }
  destruct Hp as [->|[ch ->]]; [by apply Hacq|].
  assert (Hc : ch ∈ closed (mutex s)).
  { destruct (decide (ch ∈ closed (mutex s))) as [|Hc]; [done|].
    pose proof (inv_justified _ Hinv) as Hj. rewrite Forall_lookup in Hj.
    destruct (Hj _ _ Ht Hc) as [_ [?|?]]; [congruence|lia]. }
  destruct (Hacq (Pool (mutex s) (<[t:=WWoken]> (threads s)))) as (s'' & Hs & Ho);
    [done|by simpl; rewrite length_insert|by simpl; rewrite list_lookup_insert_eq|].
  exists s''. split; [|done]. eapply internal_trans; [|exact Hs].
  eapply internal_move_step; [exact Ht|]. simpl. by rewrite bool_decide_eq_true_2.
Qed.

Lemma reader_takes s t p :
  Inv s → ¬ owner s → wwaiting (mutex s) = 0%Z →
  threads s !! t = Some p → p = RWoken ∨ (∃ ch, p = RWait ch) →
  ∃ s', internal_steps s s' ∧ owner s'.
Proof.
  intros Hinv Hno Hww Ht Hp. destruct (no_owner_free s Hinv Hno) as [Hr Hw].
  assert (Hlt := lookup_lt_Some _ _ _ Ht).
  assert (Hacq : ∀ s', mutex s' = mutex s → length (threads s') = length (threads s) →
            threads s' !! t = Some RWoken → ∃ s'', internal_steps s' s'' ∧ owner s'').
  { intros s' Hm Hl Ht'. eexists. split.
    - eapply internal_trans; [|apply internal_refl].
      eapply (internal_move_step _ _ _ (RLock_try (mutex s)).1 Reading); [exact Ht'|].
      rewrite Hm. simpl. unfold RLock_try, ensure_notify.
      destruct (notify (mutex s)); simpl; by rewrite Hw, Hww.
    - apply owner_insert; [lia|auto]. }
  destruct Hp as [->|[ch ->]]; [by apply Hacq|].
  assert (Hc : ch ∈ closed (mutex s)).
  { destruct (decide (ch ∈ closed (mutex s))) as [|Hc]; [done|].
    pose proof (inv_justified _ Hinv) as Hj. rewrite Forall_lookup in Hj.
    destruct (Hj _ _ Ht Hc) as [_ [?|?]]; [congruence|lia]. }
  destruct (Hacq (Pool (mutex s) (<[t:=RWoken]> (threads s)))) as (s'' & Hs & Ho);
    [done|by simpl; rewrite length_insert|by simpl; rewrite list_lookup_insert_eq|].
  exists s''. split; [|done]. eapply internal_trans; [|exact Hs].
  eapply internal_move_step; [exact Ht|]. simpl. by rewrite bool_decide_eq_true_2.
Qed.

(** With nobody owning the lock and only cancelled writers in a reader's way,
    finishing the cancellations lets the reader in. *)
Lemma cancels_finish n s t p :
  (count is_wwaiting (threads s) ≤ Z.of_nat n)%Z →
  Inv s → ¬ owner s → threads s !! t = Some p → p = RWoken ∨ (∃ ch, p = RWait ch) →
  (∀ t' q, threads s !! t' = Some q → q ≠ WWoken ∧ ∀ ch, q ≠ WWait ch) →
  ∃ s', internal_steps s s' ∧ owner s'.
Proof.
  revert s. induction n as [|n IH]; intros s Hn Hinv Hno Ht Hp Hall.
  { eapply reader_takes; eauto. rewrite (inv_wwaiting _ Hinv).
    pose proof (count_nonneg is_wwaiting (threads s) is_wwaiting_nonneg). lia. }
  destruct (decide (0 < count is_wwaiting (threads s))%Z) as [Hc|Hc].
  2: { eapply reader_takes; eauto. rewrite (inv_wwaiting _ Hinv).
       pose proof (count_nonneg is_wwaiting (threads s) is_wwaiting_nonneg). lia. }
  apply count_pos in Hc as (t' & q & Ht' & Hq).
  destruct (Hall _ _ Ht') as [? Hq'].
  assert (q = WCancel) as -> by (destruct q; simpl in Hq; try lia; [by destruct (Hq' ch)|done|done]).
  destruct (Lock_cancel_inv s t' Hinv Ht') as (m' & Hm & Hinv').
  assert (t ≠ t') by (intros ->; rewrite Ht in Ht'; destruct Hp as [->|[? ->]]; congruence).
  destruct (IH (Pool m' (<[t':=Idle]> (threads s)))) as (s' & Hs & Ho); simpl; try done.
  - rewrite (count_insert _ _ _ WCancel) by done. simpl. lia.
  - intros (t0 & p0 & Hq0 & Hp0). simpl in Hq0. apply Hno.
    apply list_lookup_insert_Some in Hq0 as [(? & <- & _)|[_ Hq0]];
      [destruct Hp0; congruence|]. exists t0, p0. auto.
  - by rewrite list_lookup_insert_ne.
  - intros t0 p0 Hq0. apply list_lookup_insert_Some in Hq0 as [(? & <- & _)|[_ Hq0]]; [done|eauto].
  - exists s'. split; [|done]. eapply internal_trans; [|exact Hs].
    eapply internal_move_step; [exact Ht'|]. simpl. by rewrite Hm.
Qed.

Definition is_writer_waiting (p : pc) : bool :=
  match p with WWait _ | WWoken => true | _ => false end.

Lemma no_writer_waiting l :
  existsb is_writer_waiting l = false →
  ∀ t q, l !! t = Some q → q ≠ WWoken ∧ ∀ ch, q ≠ WWait ch.
Proof.
  intros Hb t q Hq. apply list_elem_of_lookup_2 in Hq.
  rewrite <- not_true_iff_false, existsb_exists in Hb.
  split; [intros ->|intros ch ->]; apply Hb; eexists; (split; [by apply list_elem_of_In|done]).
Qed.

(** * Properties *)

(** [C32] Mutual exclusion: in every state any number of threads can reach,
    under any interleaving and any cancellations, no step panics (no channel
    is closed twice), and while one thread holds the lock for writing no other
    thread holds it at all. *)
Theorem lock_is_exclusive s :
  reachable s →
  (∀ o, step s o → o ≠ None) ∧
  (∀ t t' p, threads s !! t = Some Writing → threads s !! t' = Some p →
     p = Reading ∨ p = Writing → t' = t).
Proof.
  intros Hinv%reachable_inv. split.
  { intros o Hs. destruct (step_inv _ _ Hinv Hs) as (s' & -> & _). done. }
  intros t t' p Ht Ht' Hp. destruct (inv_bounds _ _ _ Hinv Ht) as (_ & Hw & _).
  destruct (inv_bounds _ _ _ Hinv Ht') as (Hr & _). pose proof (inv_exclusive _ Hinv) as He.
  destruct (writer (mutex s)) eqn:Hwr; [|numbers].
  destruct (decide (t' = t)) as [|Hne]; [done|exfalso].
  destruct Hp as [-> | ->]; [specialize (He eq_refl); numbers|].
  pose proof (inv_writer _ Hinv) as Hc. rewrite Hwr in Hc.
  pose proof (count_insert is_writing (threads s) t Writing Idle Ht) as Hd.
  pose proof (count_le is_writing (<[t:=Idle]> (threads s)) t' Writing is_writing_nonneg) as Hl.
  rewrite list_lookup_insert_ne in Hl by done. specialize (Hl Ht'). numbers.
Qed.

(** [C33] No lost wake-up: in every reachable state where nobody holds the lock
    and some thread waits for it, the threads already inside the lock's
    methods bring one of them to own it by their own steps; no wake-up is
    lost to a cancelled waiter and no new caller is needed. *)
Theorem lock_makes_progress s t p :
  reachable s → ¬ owner s → threads s !! t = Some p → waiting p →
  ∃ s', internal_steps s s' ∧ owner s'.
Proof.
  intros Hinv%reachable_inv Hno Ht Hp.
  destruct (existsb is_writer_waiting (threads s)) eqn:Hb.
  - apply existsb_exists in Hb as (q & Hq & Hw). apply list_elem_of_In, list_elem_of_lookup in Hq as [t' Hq].
    apply (writer_takes s t' q); try done. destruct q; simpl in Hw; try done; eauto.
  - pose proof (no_writer_waiting _ Hb) as Hall.
    apply (cancels_finish (Z.to_nat (count is_wwaiting (threads s))) s t p); try done; [lia|].
    destruct (Hall _ _ Ht) as [Hp1 Hp2]. destruct p; simpl in Hp; try done; eauto.
    by destruct (Hp2 ch).
Qed.

(** Writers come first, and a cancelled wait is harmless: while any writer
    waits, a reader's attempt parks it and leaves the lock's counters alone;
    a cancelled reader leaves the lock as it was, and a cancelled writer only
    gives up its place in the queue. *)
Theorem waiting_writers_block_readers s t w :
  reachable s → threads s !! t = Some w → (w = WWoken ∨ w = WCancel ∨ ∃ ch, w = WWait ch) →
  RLock_try (mutex s) = (mutex s, Parked (current (mutex s))) ∧
  (∀ ch, external_move (mutex s) (RWait ch) CtxDone = Some (Some (mutex s, Idle))) ∧
  (w = WCancel → ∃ m', Lock_cancel (mutex s) = Some m' ∧ readers m' = readers (mutex s) ∧
     writer m' = writer (mutex s) ∧ (wwaiting m' = wwaiting (mutex s) - 1)%Z).
Proof.
  intros Hinv%reachable_inv Ht Hw.
  destruct (inv_bounds _ _ _ Hinv Ht) as (_ & _ & B & _).
  destruct (notify_live _ _ _ Hinv Ht) as (ch & Hch & Hnc & _);
    [destruct Hw as [->|[->|[? ->]]]; done|].
  assert (is_wwaiting w = 1%Z) by (destruct Hw as [->|[->|[? ->]]]; done). split_and!.
  - unfold RLock_try. rewrite ensure_id by congruence.
    rewrite (bool_decide_eq_false_2 (_ = _)) by lia. by rewrite andb_false_r.
  - done.
  - intros _. unfold Lock_cancel. simpl. case_bool_decide; [|eauto].
    rewrite (broadcast_spec _ ch) by done. eauto.
Qed.

(** * Witnesses *)

(** Runs a sequence of callers' requests. *)
Definition request_at (s : pool) (t : nat) (r : request) : option pool :=
  match threads s !! t with
  | Some p =>
    match external_move (mutex s) p r with
    | Some (Some (m, q)) => Some (Pool m (<[t:=q]> (threads s)))
    | _ => None
    end
  | None => None
  end.

Fixpoint requests (s : pool) (l : list (nat * request)) : option pool :=
  match l with
  | [] => Some s
  | (t, r) :: l' => match request_at s t r with Some s' => requests s' l' | None => None end
  end.

Lemma requests_reachable s l s' : reachable s → requests s l = Some s' → reachable s'.
Proof.
  revert s. induction l as [|[t r] l IH]; simpl; intros s Hs H; [congruence|].
  unfold request_at in H. destruct (threads s !! t) as [p|] eqn:Ht; [|done].
  destruct (external_move (mutex s) p r) as [[[m q]|]|] eqn:Hm; try done.
  eapply IH; [|exact H]. eapply reachable_step; [exact Hs|].
  eapply step_external; [exact Ht|]. rewrite Hm. constructor.
Qed.

Definition example_pool (l : list (nat * request)) : pool :=
  default (Pool zero_mutex []) (requests (Pool zero_mutex (replicate 3 Idle)) l).

Lemma example_reachable l :
  is_Some (requests (Pool zero_mutex (replicate 3 Idle)) l) → reachable (example_pool l).
Proof.
  intros [s Hs]. unfold example_pool. rewrite Hs. simpl.
  eapply requests_reachable; [apply (reachable_init 3)|exact Hs].
Qed.

Lemma lock_is_exclusive_witness :
  let s := example_pool [(0, CallLock); (1, CallLock); (2, CallRLock)] in
  threads s !! 0 = Some Writing ∧ ∀ o, step s o → o ≠ None.
Proof.
  intros s. split; [reflexivity|]. apply (lock_is_exclusive s).
  apply example_reachable. eexists. vm_compute. reflexivity.
Defined.

Lemma lock_makes_progress_witness :
  let s := example_pool [(0, CallLock); (1, CallLock); (2, CallRLock); (0, CallUnlock)] in
  ∃ s', internal_steps s s' ∧ owner s'.
Proof.
  intros s. apply (lock_makes_progress s 1 (WWait 0)).
  - apply example_reachable. eexists. vm_compute. reflexivity.
  - intros (t & p & Ht & Hp). change (threads s) with [Idle; WWait 0; RWait 0] in Ht.
    destruct t as [|[|[|t]]]; cbv in Ht; destruct Hp; congruence.
  - reflexivity.
  - exact I.
Defined.

Lemma waiting_writers_block_readers_witness :
  let s := example_pool [(0, CallRLock); (1, CallLock)] in
  RLock_try (mutex s) = (mutex s, Parked 0) ∧ readers (mutex s) = 1%Z.
Proof.
  intros s. split; [|reflexivity].
  apply (waiting_writers_block_readers s 1 (WWait 0)); [|reflexivity|eauto].
  apply example_reachable. eexists. vm_compute. reflexivity.
Defined.
