(* ===== verification/Effects.v ===== *)
(** * Effectful Go code as programs

    Code that talks to the outside (the replicated database, the external
    trust anchor, the clock, the uuid generator, the process's locks) is a
    value of [prog E A]: it either returns, or performs one call of the
    signature [E] and continues with the answer.  The same program then has
    several meanings: [run] executes it against a handler (sequential
    semantics, executable), [interp] compiles it to another signature, and
    TrustSafety.v interleaves many programs over shared services. *)

From S2P Require Export Prelude.

Inductive prog (E : Type → Type) (A : Type) : Type :=
  | Ret (a : A)
  | Call {X : Type} (e : E X) (k : X → prog E A).
Arguments Ret {E A} a.
Arguments Call {E A X} e k.

Fixpoint prog_bind {E A B} (p : prog E A) (f : A → prog E B) : prog E B :=
  match p with
  | Ret a => f a
  | Call e k => Call e (λ x, prog_bind (k x) f)
  end.

#[export] Instance prog_ret {E} : MRet (prog E) := λ A, Ret.
#[export] Instance prog_mbind {E} : MBind (prog E) := λ A B f p, prog_bind p f.

Definition call {E X} (e : E X) : prog E X := Call e Ret.

(** ** Go's error idioms *)

(** [x ←? m; k]: continue with the value, or return the error at once. *)
Definition try_bind {E A B} (p : prog E (result A)) (f : A → prog E (result B)) : prog E (result B) :=
  prog_bind p (λ r, match r with Ok a => f a | Err e => Ret (Err e) end).

(** [if err := m; err != nil { return err }; k]. *)
Definition check_bind {E} (p : prog E (option error)) (k : prog E (option error)) : prog E (option error) :=
  prog_bind p (λ o, match o with Some e => Ret (Some e) | None => k end).

(** The same in a function that also returns a value. *)
Definition guard_bind {E B} (p : prog E (option error)) (k : prog E (result B)) : prog E (result B) :=
  prog_bind p (λ o, match o with Some e => Ret (Err e) | None => k end).

(** The same, for a value-returning call inside an error-only function. *)
Definition need_bind {E A} (p : prog E (result A)) (f : A → prog E (option error)) : prog E (option error) :=
  prog_bind p (λ r, match r with Ok a => f a | Err e => Ret (Some e) end).

Declare Scope go_scope.
Delimit Scope go_scope with go.
Notation "x ←? p ; k" := (try_bind p (λ x, k))
  (at level 20, p at level 100, k at level 200, only parsing) : go_scope.
Notation "x ←! p ; k" := (need_bind p (λ x, k))
  (at level 20, p at level 100, k at level 200, only parsing) : go_scope.
Notation "'must' p ; k" := (check_bind p k)
  (at level 20, p at level 100, k at level 200, only parsing) : go_scope.
Notation "'ensure' p ; k" := (guard_bind p k)
  (at level 20, p at level 100, k at level 200, only parsing) : go_scope.
Notation "'let!' x := p 'in' k" := (prog_bind p (λ x, k))
  (at level 20, x name, p at level 100, k at level 200, only parsing) : go_scope.

(** ** Sequential semantics *)

Definition handler (E : Type → Type) (W : Type) : Type := ∀ X, E X → W → X * W.

Fixpoint run {E W} (h : handler E W) {A} (p : prog E A) (w : W) : A * W :=
  match p with
  | Ret a => (a, w)
  | Call e k => let (x, w') := h _ e w in run h (k x) w'
  end.

Lemma run_bind {E W} (h : handler E W) {A B} (p : prog E A) (f : A → prog E B) w :
  run h (prog_bind p f) w = let (a, w') := run h p w in run h (f a) w'.
Proof.
  revert w. induction p as [a|X e k IH]; intros w; simpl; [done|].
  destruct (h X e w) as [x w']. apply IH.
Qed.

Lemma run_call {E W} (h : handler E W) {X} (e : E X) w : run h (call e) w = h X e w.
Proof. unfold call. simpl. by destruct (h X e w). Qed.

Lemma run_try_bind {E W} (h : handler E W) {A B} (p : prog E (result A)) (f : A → prog E (result B)) w :
  run h (try_bind p f) w =
    match run h p w with (Ok a, w') => run h (f a) w' | (Err e, w') => (Err e, w') end.
Proof. unfold try_bind. rewrite run_bind. by destruct (run h p w) as [[a|e] w']. Qed.

Lemma run_need_bind {E W} (h : handler E W) {A} (p : prog E (result A)) (f : A → prog E (option error)) w :
  run h (need_bind p f) w =
    match run h p w with (Ok a, w') => run h (f a) w' | (Err e, w') => (Some e, w') end.
Proof. unfold need_bind. rewrite run_bind. by destruct (run h p w) as [[a|e] w']. Qed.

Lemma run_check_bind {E W} (h : handler E W) (p k : prog E (option error)) w :
  run h (check_bind p k) w =
    match run h p w with (None, w') => run h k w' | (Some e, w') => (Some e, w') end.
Proof. unfold check_bind. rewrite run_bind. by destruct (run h p w) as [[e|] w']. Qed.

Lemma run_guard_bind {E W} (h : handler E W) {B} (p : prog E (option error)) (k : prog E (result B)) w :
  run h (guard_bind p k) w =
    match run h p w with (None, w') => run h k w' | (Some e, w') => (Err e, w') end.
Proof. unfold guard_bind. rewrite run_bind. by destruct (run h p w) as [[e|] w']. Qed.

Create HintDb run discriminated.
#[export] Hint Rewrite @run_bind @run_call @run_try_bind @run_need_bind @run_check_bind
  @run_guard_bind : run.

(** ** Compilation of one signature to another *)

Fixpoint interp {E F} (t : ∀ X, E X → prog F X) {A} (p : prog E A) : prog F A :=
  match p with
  | Ret a => Ret a
  | Call e k => prog_bind (t _ e) (λ x, interp t (k x))
  end.

(** A handler of the compiled signature that agrees, call by call, with a
    handler of the source signature through a view of the state agrees on
    every program. *)
Lemma run_interp {E F W V} (hE : handler E V) (hF : handler F W) (t : ∀ X, E X → prog F X)
    (view : W → V) (I : W → Prop) {A} (p : prog E A) w :
  (∀ X (e : E X) w, I w →
     let (x, w') := run hF (t X e) w in I w' ∧ hE X e (view w) = (x, view w')) →
  I w →
  let (a, w') := run hF (interp t p) w in I w' ∧ run hE p (view w) = (a, view w').
Proof.
  intros Hsim. revert w. induction p as [a|X e k IH]; intros w Hw; simpl; [done|].
  rewrite run_bind. specialize (Hsim X e w Hw). destruct (run hF (t X e) w) as [x w1].
  destruct Hsim as [Hw1 ->]. exact (IH x w1 Hw1).
Qed.

(** An invariant of every call is an invariant of every program. *)
Lemma run_invariant {E W} (h : handler E W) (I : W → Prop) {A} (p : prog E A) w :
  (∀ X (e : E X) w, I w → I (h X e w).2) → I w → I (run h p w).2.
Proof.
  intros Hh. revert w. induction p as [a|X e k IH]; intros w Hw; simpl; [done|].
  specialize (Hh X e w Hw). destruct (h X e w) as [x w']. by apply IH.
Qed.

(** Proofs step through programs with the lemmas above. *)
#[global] Arguments prog_bind : simpl never.
#[global] Arguments try_bind : simpl never.
#[global] Arguments need_bind : simpl never.
#[global] Arguments check_bind : simpl never.
#[global] Arguments guard_bind : simpl never.
#[global] Arguments call : simpl never.
