(* ===== verification/Schema.v ===== *)
(** * The replicated database: tables, statements and requests

    The tables of Store.migrate (internal/store/store.go) are lists of rows in
    an arbitrary scan order; a row type has the columns of its CREATE TABLE.  A
    SQL statement is the function its text denotes on the database: [None] is
    an SQL error (a violated constraint, a missing table).  A request is the
    value the code hands to the replicated data node: a list of statements with
    the row counts the caller insists on, applied all or nothing. *)

From S2P Require Export Prelude GoStrings.

(** ** Rows (CREATE TABLE statements of Store.migrate) *)

Record hosts_row := HostRow {
  h_id : string; h_name : string; h_endpoint_id : string; h_ssh_user : string;
  h_tags : string; h_ssh_port : Z; h_status : string; h_owner : string;
  h_last_seen : option Z; h_created_at : Z; h_updated_at : Z }.

Record policies_row := PolicyRow {
  p_id : string; p_name : string; p_principal : string; p_host_selector : string;
  p_ssh_users : string; p_expires_at : option Z; p_created_at : Z; p_updated_at : Z }.

Record ssh_keys_row := SshKeyRow {
  k_id : string; k_user_id : string; k_public_key : string; k_fingerprint : string;
  k_created_at : Z }.

Record access_requests_row := AccessRequestRow {
  q_id : string; q_user_id : string; q_host_id : string; q_ssh_user : string;
  q_status : string; q_created_at : Z }.

Record access_grants_row := AccessGrantRow {
  g_id : string; g_request_id : string; g_user_id : string; g_host_id : string;
  g_ssh_user : string; g_expires_at : Z; g_ephemeral_key : option string;
  g_key_installed : Z; g_created_at : Z }.

Record revoked_sessions_row := RevokedSessionRow {
  s_cookie_hash : string; s_expires_at : Z }.

Record audit_events_row := AuditEventRow {
  a_id : string; a_action : string; a_resource : string; a_resource_id : string;
  a_user_id : option string; a_before_json : option string; a_after_json : option string;
  a_created_at : Z }.

Record manufacturing_tokens_row := ManufacturingTokenRow {
  t_id : string; t_token_hash : string; t_batch_id : option string;
  t_expires_at : option Z; t_created_at : Z }.

Record manufacturing_batches_row := ManufacturingBatchRow {
  b_id : string; b_name : string; b_serial_prefix : string; b_token_hash : string;
  b_status : string; b_expires_at : Z; b_max_devices : Z; b_used_count : Z;
  b_closed_at : option Z; b_created_at : Z }.

Record devices_row := DeviceRow {
  d_id : string; d_host_id : string; d_endpoint_id : string;
  d_ssh_host_key_fingerprint : string; d_device_public_key : string; d_state : string;
  d_serial_number : option string; d_model : option string; d_enrolled_at : Z;
  d_last_seen_at : option Z }.

Record endpoint_discovery_row := EndpointDiscoveryRow {
  e_host_id : string; e_direct_addresses : string; e_relay_urls : string; e_updated_at : Z }.

Record relay_access_grants_row := RelayAccessGrantRow {
  r_id : string; r_host_id : string; r_client_endpoint_id : string; r_expires_at : Z;
  r_created_at : Z }.

Record authorized_keys_snapshots_row := SnapshotRow {
  n_host_id : string; n_ssh_user : string; n_generation : Z; n_digest : string }.

Record authorized_keys_snapshot_grants_row := SnapshotGrantRow {
  m_host_id : string; m_ssh_user : string; m_grant_id : string }.

#[export] Instance hosts_row_eq_dec : EqDecision hosts_row. Proof. solve_decision. Defined.
#[export] Instance policies_row_eq_dec : EqDecision policies_row. Proof. solve_decision. Defined.
#[export] Instance ssh_keys_row_eq_dec : EqDecision ssh_keys_row. Proof. solve_decision. Defined.
#[export] Instance access_requests_row_eq_dec : EqDecision access_requests_row. Proof. solve_decision. Defined.
#[export] Instance access_grants_row_eq_dec : EqDecision access_grants_row. Proof. solve_decision. Defined.
#[export] Instance audit_events_row_eq_dec : EqDecision audit_events_row. Proof. solve_decision. Defined.
#[export] Instance devices_row_eq_dec : EqDecision devices_row. Proof. solve_decision. Defined.

(** The application tables.  A table that does not exist is empty. *)
Record tables := Tables {
  hosts : list hosts_row;
  policies : list policies_row;
  ssh_keys : list ssh_keys_row;
  access_requests : list access_requests_row;
  access_grants : list access_grants_row;
  revoked_sessions : list revoked_sessions_row;
  audit_events : list audit_events_row;
  manufacturing_tokens : list manufacturing_tokens_row;
  manufacturing_batches : list manufacturing_batches_row;
  devices : list devices_row;
  endpoint_discovery : list endpoint_discovery_row;
  relay_access_grants : list relay_access_grants_row;
  authorized_keys_snapshots : list authorized_keys_snapshots_row;
  authorized_keys_snapshot_grants : list authorized_keys_snapshot_grants_row;
}.

Definition empty_tables : tables := Tables [] [] [] [] [] [] [] [] [] [] [] [] [] [].

(** The whole database: the names of the tables that exist, the one row of
    [trust_state], the rows of [ternal_schema] and the application tables. *)
Record database := Database {
  sqlite_master : gset string;
  trust_state : option (Z * string);
  ternal_schema : list Z;
  data : tables;
}.

Definition empty_database : database := Database ∅ None [] empty_tables.

Definition table_exists (name : string) (db : database) : bool :=
  bool_decide (name ∈ sqlite_master db).

(** ** Statements and requests (the types of the data node's API) *)

Record StatementResult := mkStatementResult {
  sr_RowsAffected : Z; sr_LastInsertID : Z; sr_Returned : Z }.

Record SQLStatement := mkSQLStatement {
  SQL : database → option (database * StatementResult);
  WantRows : bool;
  ExpectedRowsAffected : option Z;
  ExpectedReturnedRows : option Z;
}.

Inductive MutationStatus := MutationCommitted | MutationRejected | MutationNone.

#[export] Instance MutationStatus_eq_dec : EqDecision MutationStatus.
Proof. solve_decision. Defined.

(** [req_SQL] is the single-statement form of a request. *)
Record ExecuteRequest := mkExecuteRequest {
  RequestID : string;
  req_SQL : option SQLStatement;
  req_Statements : list SQLStatement;
  req_WantRows : bool;
}.

Record ExecuteResponse := mkExecuteResponse {
  Status : MutationStatus;
  ErrorCode : string;
  RowsAffected : Z;
  LastInsertID : Z;
  resp_Statements : list StatementResult;
}.

Definition zero_response : ExecuteResponse := mkExecuteResponse MutationNone "" 0 0 [].

(** A statement whose row counts are not what the request insists on fails. *)
Definition run_statement (st : SQLStatement) (db : database) : option (database * StatementResult) :=
  match SQL st db with
  | None => None
  | Some (db', r) =>
    if match ExpectedRowsAffected st with
       | Some n => bool_decide (sr_RowsAffected r = n) | None => true end &&
       match ExpectedReturnedRows st with
       | Some n => bool_decide (sr_Returned r = n) | None => true end
    then Some (db', r) else None
  end.

(** All statements in order, or none of them. *)
Fixpoint run_statements (l : list SQLStatement) (db : database) : option (database * list StatementResult) :=
  match l with
  | [] => Some (db, [])
  | st :: l' =>
    match run_statement st db with
    | None => None
    | Some (db1, r) =>
      match run_statements l' db1 with
      | None => None
      | Some (db2, rs) => Some (db2, r :: rs)
      end
    end
  end.

Definition all_statements (req : ExecuteRequest) : list SQLStatement :=
  match req_SQL req with Some st => [st] | None => req_Statements req end.

Definition sum_rows (rs : list StatementResult) : Z :=
  foldr (λ r n, sr_RowsAffected r + n)%Z 0%Z rs.

Lemma run_statements_app l1 l2 db :
  run_statements (l1 ++ l2) db =
    match run_statements l1 db with
    | None => None
    | Some (db1, rs1) =>
      match run_statements l2 db1 with
      | None => None
      | Some (db2, rs2) => Some (db2, rs1 ++ rs2)
      end
    end.
Proof.
  revert db. induction l1 as [|st l1 IH]; intros db; simpl.
  { by destruct (run_statements l2 db) as [[? ?]|]. }
  destruct (run_statement st db) as [[db1 r]|]; [|done]. rewrite IH.
  destruct (run_statements l1 db1) as [[db2 rs1]|]; [|done].
  by destruct (run_statements l2 db2) as [[db3 rs2]|].
Qed.

Lemma run_statements_length l db db' rs :
  run_statements l db = Some (db', rs) → length rs = length l.
Proof.
  revert db rs. induction l as [|st l IH]; simpl; intros db rs H; [by simplify_eq|].
  destruct (run_statement st db) as [[db1 r]|]; [|done].
  destruct (run_statements l db1) as [[db2 rs1]|] eqn:E; [|done].
  simplify_eq. simpl. f_equal. by eapply IH.
Qed.

Lemma sum_rows_app rs1 rs2 : sum_rows (rs1 ++ rs2) = (sum_rows rs1 + sum_rows rs2)%Z.
Proof. unfold sum_rows. induction rs1 as [|r rs IH]; simpl; lia. Qed.

(** A property every statement of a list preserves is preserved by the list. *)
Lemma run_statements_invariant (P : database → Prop) l db db' rs :
  Forall (λ st, ∀ db db' r, SQL st db = Some (db', r) → P db → P db') l →
  run_statements l db = Some (db', rs) → P db → P db'.
Proof.
  intros Hl. revert db rs. induction Hl as [|st l Hst _ IH]; simpl; intros db rs H HP; [by simplify_eq|].
  unfold run_statement in H. destruct (SQL st db) as [[db1 r]|] eqn:E; [|done].
  destruct (_ && _); [|done].
  destruct (run_statements l db1) as [[db2 rs1]|] eqn:E2; [|done]. simplify_eq. eauto.
Qed.
