(* ===== verification/SQL.v ===== *)
(** * The SQL of the store: tables, statements and result values

    A [table] of the schema knows its rows, and which two rows its PRIMARY KEY
    and UNIQUE constraints forbid together.  The statement forms the store
    uses (INSERT ... VALUES, INSERT ... SELECT, upsert, UPDATE, DELETE) are
    functions on the tables with SQLite's row counts; a violated constraint or
    a missing table is an error.  No statement of the store reads or moves
    [last_insert_rowid], so the receipts carry 0 there.

    Result values reach Go variables through [assignReflect] (rhiza_sql.go),
    modelled for the storage classes the schema has: NULL, INTEGER, TEXT. *)

From S2P Require Export Prelude GoStrings Schema.
Local Open Scope Z_scope.

(** ** Tables *)

Record table (A : Type) := Table {
  table_name : string;
  rows : tables → list A;
  with_rows : list A → tables → tables;
  clash : A → A → bool;
}.
Arguments Table {A} _ _ _ _.
Arguments table_name {A} _.
Arguments rows {A} _ _.
Arguments with_rows {A} _ _ _.
Arguments clash {A} _ _ _.

Definition same (x y : string) : bool := bool_decide (x = y).

(** Equality of nullable columns under UNIQUE: NULLs are distinct. *)
Definition same_not_null (x y : option string) : bool :=
  match x, y with Some a, Some b => same a b | _, _ => false end.

(** The whole content of one table replaced. *)
Definition Hosts : table hosts_row := Table "hosts" hosts
  (λ l t, Tables l (policies t) (ssh_keys t) (access_requests t) (access_grants t) (revoked_sessions t)
     (audit_events t) (manufacturing_tokens t) (manufacturing_batches t) (devices t) (endpoint_discovery t)
     (relay_access_grants t) (authorized_keys_snapshots t) (authorized_keys_snapshot_grants t))
  (λ a b, same (h_id a) (h_id b) || same (h_name a) (h_name b)).

Definition Policies : table policies_row := Table "policies" policies
  (λ l t, Tables (hosts t) l (ssh_keys t) (access_requests t) (access_grants t) (revoked_sessions t)
     (audit_events t) (manufacturing_tokens t) (manufacturing_batches t) (devices t) (endpoint_discovery t)
     (relay_access_grants t) (authorized_keys_snapshots t) (authorized_keys_snapshot_grants t))
  (λ a b, same (p_id a) (p_id b)).

Definition SshKeys : table ssh_keys_row := Table "ssh_keys" ssh_keys
  (λ l t, Tables (hosts t) (policies t) l (access_requests t) (access_grants t) (revoked_sessions t)
     (audit_events t) (manufacturing_tokens t) (manufacturing_batches t) (devices t) (endpoint_discovery t)
     (relay_access_grants t) (authorized_keys_snapshots t) (authorized_keys_snapshot_grants t))
  (λ a b, same (k_id a) (k_id b)).

Definition AccessRequests : table access_requests_row := Table "access_requests" access_requests
  (λ l t, Tables (hosts t) (policies t) (ssh_keys t) l (access_grants t) (revoked_sessions t)
     (audit_events t) (manufacturing_tokens t) (manufacturing_batches t) (devices t) (endpoint_discovery t)
     (relay_access_grants t) (authorized_keys_snapshots t) (authorized_keys_snapshot_grants t))
  (λ a b, same (q_id a) (q_id b)).

Definition AccessGrants : table access_grants_row := Table "access_grants" access_grants
  (λ l t, Tables (hosts t) (policies t) (ssh_keys t) (access_requests t) l (revoked_sessions t)
     (audit_events t) (manufacturing_tokens t) (manufacturing_batches t) (devices t) (endpoint_discovery t)
     (relay_access_grants t) (authorized_keys_snapshots t) (authorized_keys_snapshot_grants t))
  (λ a b, same (g_id a) (g_id b)).

Definition RevokedSessions : table revoked_sessions_row := Table "revoked_sessions" revoked_sessions
  (λ l t, Tables (hosts t) (policies t) (ssh_keys t) (access_requests t) (access_grants t) l
     (audit_events t) (manufacturing_tokens t) (manufacturing_batches t) (devices t) (endpoint_discovery t)
     (relay_access_grants t) (authorized_keys_snapshots t) (authorized_keys_snapshot_grants t))
  (λ a b, same (s_cookie_hash a) (s_cookie_hash b)).

Definition AuditEvents : table audit_events_row := Table "audit_events" audit_events
  (λ l t, Tables (hosts t) (policies t) (ssh_keys t) (access_requests t) (access_grants t)
     (revoked_sessions t) l (manufacturing_tokens t) (manufacturing_batches t) (devices t)
     (endpoint_discovery t) (relay_access_grants t) (authorized_keys_snapshots t)
     (authorized_keys_snapshot_grants t))
  (λ a b, same (a_id a) (a_id b)).

Definition ManufacturingTokens : table manufacturing_tokens_row := Table "manufacturing_tokens" manufacturing_tokens
  (λ l t, Tables (hosts t) (policies t) (ssh_keys t) (access_requests t) (access_grants t)
     (revoked_sessions t) (audit_events t) l (manufacturing_batches t) (devices t)
     (endpoint_discovery t) (relay_access_grants t) (authorized_keys_snapshots t)
     (authorized_keys_snapshot_grants t))
  (λ a b, same (t_id a) (t_id b) || same (t_token_hash a) (t_token_hash b)).

Definition ManufacturingBatches : table manufacturing_batches_row := Table "manufacturing_batches" manufacturing_batches
  (λ l t, Tables (hosts t) (policies t) (ssh_keys t) (access_requests t) (access_grants t)
     (revoked_sessions t) (audit_events t) (manufacturing_tokens t) l (devices t)
     (endpoint_discovery t) (relay_access_grants t) (authorized_keys_snapshots t)
     (authorized_keys_snapshot_grants t))
  (λ a b, same (b_id a) (b_id b) || same (b_name a) (b_name b) || same (b_token_hash a) (b_token_hash b)).

Definition Devices : table devices_row := Table "devices" devices
  (λ l t, Tables (hosts t) (policies t) (ssh_keys t) (access_requests t) (access_grants t)
     (revoked_sessions t) (audit_events t) (manufacturing_tokens t) (manufacturing_batches t) l
     (endpoint_discovery t) (relay_access_grants t) (authorized_keys_snapshots t)
     (authorized_keys_snapshot_grants t))
  (λ a b, same (d_id a) (d_id b) || same (d_device_public_key a) (d_device_public_key b) ||
          same_not_null (d_serial_number a) (d_serial_number b)).

Definition EndpointDiscoveries : table endpoint_discovery_row := Table "endpoint_discovery" endpoint_discovery
  (λ l t, Tables (hosts t) (policies t) (ssh_keys t) (access_requests t) (access_grants t)
     (revoked_sessions t) (audit_events t) (manufacturing_tokens t) (manufacturing_batches t) (devices t)
     l (relay_access_grants t) (authorized_keys_snapshots t) (authorized_keys_snapshot_grants t))
  (λ a b, same (e_host_id a) (e_host_id b)).

Definition RelayAccessGrants : table relay_access_grants_row := Table "relay_access_grants" relay_access_grants
  (λ l t, Tables (hosts t) (policies t) (ssh_keys t) (access_requests t) (access_grants t)
     (revoked_sessions t) (audit_events t) (manufacturing_tokens t) (manufacturing_batches t) (devices t)
     (endpoint_discovery t) l (authorized_keys_snapshots t) (authorized_keys_snapshot_grants t))
  (λ a b, same (r_id a) (r_id b)).

Definition Snapshots : table authorized_keys_snapshots_row := Table "authorized_keys_snapshots" authorized_keys_snapshots
  (λ l t, Tables (hosts t) (policies t) (ssh_keys t) (access_requests t) (access_grants t)
     (revoked_sessions t) (audit_events t) (manufacturing_tokens t) (manufacturing_batches t) (devices t)
     (endpoint_discovery t) (relay_access_grants t) l (authorized_keys_snapshot_grants t))
  (λ a b, same (n_host_id a) (n_host_id b) && same (n_ssh_user a) (n_ssh_user b)).

Definition SnapshotGrants : table authorized_keys_snapshot_grants_row :=
  Table "authorized_keys_snapshot_grants" authorized_keys_snapshot_grants
  (λ l t, Tables (hosts t) (policies t) (ssh_keys t) (access_requests t) (access_grants t)
     (revoked_sessions t) (audit_events t) (manufacturing_tokens t) (manufacturing_batches t) (devices t)
     (endpoint_discovery t) (relay_access_grants t) (authorized_keys_snapshots t) l)
  (λ a b, same (m_host_id a) (m_host_id b) && same (m_ssh_user a) (m_ssh_user b) &&
          same (m_grant_id a) (m_grant_id b)).

(** ** Statements *)

(** A statement over the named tables; the count is its RowsAffected. *)
Definition on_tables (names : list string) (f : tables → option (tables * Z)) : SQLStatement :=
  mkSQLStatement (λ db,
    if forallb (λ n, table_exists n db) names then
      match f (data db) with
      | Some (t, n) => Some (Database (sqlite_master db) (trust_state db) (ternal_schema db) t,
                             mkStatementResult n 0 0)
      | None => None
      end
    else None) false None None.

(** The statement with an ExpectedRowsAffected. *)
Definition expecting (n : Z) (st : SQLStatement) : SQLStatement :=
  mkSQLStatement (SQL st) (WantRows st) (Some n) (ExpectedReturnedRows st).

Section statements.
Context {A : Type} (T : table A).

Fixpoint insert_all (new old : list A) : option (list A) :=
  match new with
  | [] => Some old
  | r :: new => if existsb (clash T r) old then None else insert_all new (old ++ [r])
  end.

(** INSERT INTO T ... SELECT: the rows [f] selects, with the tables read. *)
Definition insert_select (reads : list string) (f : tables → list A) : SQLStatement :=
  on_tables (table_name T :: reads) (λ t,
    l ← insert_all (f t) (rows T t); Some (with_rows T l t, Z.of_nat (length (f t)))).

(** INSERT INTO T ... VALUES. *)
Definition insert_values (r : A) : SQLStatement := insert_select [] (λ _, [r]).

(** INSERT INTO T ... SELECT ... WHERE cond, of one row. *)
Definition insert_where (reads : list string) (cond : tables → bool) (r : A) : SQLStatement :=
  insert_select reads (λ t, if cond t then [r] else []).

Fixpoint no_clash (l : list A) : bool :=
  match l with [] => true | r :: l => negb (existsb (clash T r) l) && no_clash l end.

Definition count (p : A → bool) (l : list A) : Z := Z.of_nat (length (filter (λ r, p r = true) l)).

(** UPDATE T SET ... WHERE.  The statements that write a key column select one
    row at most, so checking the result is checking the update. *)
Definition update_where (reads : list string) (p : tables → A → bool) (g : A → A) : SQLStatement :=
  on_tables (table_name T :: reads) (λ t,
    let l := (λ r, if p t r then g r else r) <$> rows T t in
    if no_clash l then Some (with_rows T l t, count (p t) (rows T t)) else None).

Definition delete_where (reads : list string) (p : tables → A → bool) : SQLStatement :=
  on_tables (table_name T :: reads) (λ t,
    Some (with_rows T (filter (λ r, p t r = false) (rows T t)) t, count (p t) (rows T t))).

(** INSERT INTO T ... ON CONFLICT (key) DO UPDATE SET ..., where [clash T] is
    that key; [g] sees the tables before, the old row and the excluded one. *)
Definition upsert (reads : list string) (cond : tables → bool) (r : A) (g : tables → A → A → A) : SQLStatement :=
  on_tables (table_name T :: reads) (λ t,
    if negb (cond t) then Some (t, 0)
    else if existsb (clash T r) (rows T t)
    then Some (with_rows T ((λ old, if clash T r old then g t old r else old) <$> rows T t) t, 1)
    else Some (with_rows T (rows T t ++ [r]) t, 1)).

(** INSERT OR REPLACE INTO T ... VALUES: rows in the way are removed first,
    which SQLite does not count. *)
Definition insert_or_replace (r : A) : SQLStatement :=
  on_tables [table_name T] (λ t,
    Some (with_rows T (filter (λ old, clash T r old = false) (rows T t) ++ [r]) t, 1)).

End statements.

(** ** Expressions *)

(** [a IS NOT b] on a nullable column. *)
Definition is_not {A} `{EqDecision A} (a b : A) : bool := negb (bool_decide (a = b)).

(** [x > y] where x may be NULL, which makes the comparison not true. *)
Definition gt_null (x : option Z) (y : Z) : bool :=
  match x with Some v => y <? v | None => false end.

(** [LIKE 'prefix%'], which ignores the case of ASCII letters. *)
Definition like_prefix (prefix s : string) : bool :=
  strings.HasPrefix (strings.ToLowerASCII s) (strings.ToLowerASCII prefix).

(** ORDER BY, rows with equal keys in any order. *)
Definition before {A} (le : A → A → bool) (a b : A) : Prop := le a b = true.
#[global] Typeclasses Opaque before.
#[export] Instance before_dec {A} (le : A → A → bool) a b : Decision (before le a b) :=
  decide (le a b = true).
Definition order_by {A} (le : A → A → bool) (l : list A) : list A := merge_sort (before le) l.

Definition newest {A} (f : A → Z) (a b : A) : bool := f b <=? f a.
Definition by_text {A} (f : A → string) (a b : A) : bool := String.leb (f a) (f b).

(** ** Result values *)

Inductive value := VNull | VInt (z : Z) | VText (s : string).

Definition opt_int (o : option Z) : value := match o with Some z => VInt z | None => VNull end.
Definition opt_text (o : option string) : value := match o with Some s => VText s | None => VNull end.

(** fmt.Sprint of a result value. *)
Definition sprint (v : value) : string :=
  match v with VNull => "<nil>" | VInt z => strconv.FormatInt z | VText s => s end.

(** The Go types of the variables the store scans into. *)
Inductive go_type := TString | TBool | TInt | TUint16 | TPointer (t : go_type).

Inductive go_value := GString (s : string) | GBool (b : bool) | GInt (z : Z) | GNil | GPointer (v : go_value).

Fixpoint zero_value (t : go_type) : go_value :=
  match t with
  | TString => GString "" | TBool => GBool false | TInt | TUint16 => GInt 0 | TPointer _ => GNil
  end.

(** strconv.ParseBool. *)
Definition ParseBool (s : string) : option bool :=
  if bool_decide (s ∈ ["1"; "t"; "T"; "TRUE"; "true"; "True"]) then Some true
  else if bool_decide (s ∈ ["0"; "f"; "F"; "FALSE"; "false"; "False"]) then Some false
  else None.

(** [assignReflect]: an INTEGER is an int64 and a TEXT a string.  int64
    converts to every integer type, by truncation, and to string, as the code
    point; it does not convert to bool. *)
Fixpoint assignReflect (t : go_type) (v : value) : result go_value :=
  match v with
  | VNull => Ok (zero_value t)
  | _ =>
    match t with
    | TPointer t' => r ← assignReflect t' v; Ok (GPointer r)
    | TString =>
      match v with
      | VInt z => Ok (GString (EncodeRune (if (0 <=? z) && (z <=? 1114111) then Z.to_N z else RuneError)))
      | _ => Ok (GString (sprint v))
      end
    | TBool =>
      match strconv.ParseInt (sprint v) with
      | Some n => Ok (GBool (negb (n =? 0)))
      | None =>
        match ParseBool (sprint v) with
        | Some b => Ok (GBool b)
        | None => Err (Errorf "strconv.ParseBool: invalid syntax")
        end
      end
    | TInt =>
      match v with
      | VInt z => Ok (GInt z)
      | _ => match strconv.ParseInt (sprint v) with
             | Some n => Ok (GInt n) | None => Err (Errorf "strconv.ParseInt") end
      end
    | TUint16 =>
      match v with
      | VInt z => Ok (GInt (z mod 65536))
      | _ => match strconv.ParseUint (sprint v) 16 with
             | Some n => Ok (GInt n) | None => Err (Errorf "strconv.ParseUint") end
      end
    end
  end.

(** [scanValues]: as many variables as columns, assigned in order. *)
Fixpoint scan_each (vs : list value) (ts : list go_type) : result (list go_value) :=
  match vs, ts with
  | v :: vs, t :: ts =>
    match assignReflect t v with
    | Err e => Err (ErrorWrap "scan column" e)
    | Ok g => l ← scan_each vs ts; Ok (g :: l)
    end
  | _, _ => Ok []
  end.

Definition scanValues (vs : list value) (ts : list go_type) : result (list go_value) :=
  if negb (bool_decide (length vs = length ts))
  then Err (Errorf "scan destination count does not match column count")
  else scan_each vs ts.

(** Reading the variables back as plain data. *)
Definition to_text (g : go_value) : string := match g with GString s => s | _ => "" end.
Definition to_int (g : go_value) : Z := match g with GInt z => z | _ => 0 end.
Definition to_bool (g : go_value) : bool := match g with GBool b => b | _ => false end.
Definition to_opt_int (g : go_value) : option Z :=
  match g with GPointer (GInt z) => Some z | _ => None end.
