(* ===== verification/StoreBase.v ===== *)
(** * What the store's operations are made of (internal/store/store.go)

    An operation takes the store's lock, mints identifiers, reads the clock,
    and runs queries and transactions.  [storeE] is that signature.  It has
    two meanings: [store_handler], a sequential run against the tables with
    every answer chosen by an oracle (faults included); and [store_step], the
    interleaving of any number of operations, of this node and of others. *)

From S2P Require Export Prelude Effects Schema SQL GoJSON GoCrypto Core.
Open Scope go_scope.

Inductive storeE : Type → Type :=
  | AcquireRead : storeE bool
  | AcquireWrite : storeE bool
  | ReleaseRead : storeE unit
  | ReleaseWrite : storeE unit
  | NewID : storeE string
  | NowUnix : storeE Z
  | RandRead (n : nat) : storeE (result string)
  | Query (names : list string) (q : tables → list (list value)) : storeE (result (list (list value)))
  | Exec (st : SQLStatement) : storeE (ExecuteResponse * option error)
  | Transaction (sts : list SQLStatement) : storeE (ExecuteResponse * option error).

(** ** Shared shapes of the operations *)

(** [unlock, ok := s.acquireWrite(ctx); if !ok { return onfail }; defer unlock()]. *)
Definition write_locked {A} (onfail : A) (body : prog storeE A) : prog storeE A :=
  let! ok := (call AcquireWrite : prog storeE bool) in
  if ok then
    let! r := body in
    let! _ := call ReleaseWrite in
    Ret r
  else Ret onfail.

Definition read_locked {A} (onfail : A) (body : prog storeE A) : prog storeE A :=
  let! ok := (call AcquireRead : prog storeE bool) in
  if ok then
    let! r := body in
    let! _ := call ReleaseRead in
    Ret r
  else Ret onfail.

Definition newID : prog storeE string := call NewID.
Definition nowUnix : prog storeE Z := call NowUnix.

(** ExecContext and ExecTransactionResult with the error checked first. *)
Definition exec (st : SQLStatement) : prog storeE (result ExecuteResponse) :=
  let! r := call (Exec st) in
  Ret (match snd r with None => Ok (fst r) | Some e => Err e end).

Definition transaction (sts : list SQLStatement) : prog storeE (result ExecuteResponse) :=
  let! r := call (Transaction sts) in
  Ret (match snd r with None => Ok (fst r) | Some e => Err e end).

(** The same where only the error is kept. *)
Definition exec_err (st : SQLStatement) : prog storeE (option error) :=
  let! r := call (Exec st) in Ret (snd r).

Definition transaction_err (sts : list SQLStatement) : prog storeE (option error) :=
  let! r := call (Transaction sts) in Ret (snd r).

(** One scanned row: variables of the given types, read back by [read]. *)
Definition scan_row {A} (ts : list go_type) (read : list go_value → A) (vs : list value) : result A :=
  gs ← scanValues vs ts; Ok (read gs).

(** [for rows.Next() { rows.Scan(...); append }], giving up at the first error. *)
Fixpoint scan_rows {A} (ts : list go_type) (read : list go_value → A) (l : list (list value)) : result (list A) :=
  match l with
  | [] => Ok []
  | vs :: l => a ← scan_row ts read vs; more ← scan_rows ts read l; Ok (a :: more)
  end.

Definition query_rows {A} (names : list string) (q : tables → list (list value)) (ts : list go_type)
    (read : list go_value → A) : prog storeE (result (list A)) :=
  rows ←? call (Query names q);
  Ret (scan_rows ts read rows).

(** QueryRowContext(...).Scan(...): the first row, or ErrNoRows. *)
Definition query_row {A} (names : list string) (q : tables → list (list value)) (ts : list go_type)
    (read : list go_value → A) : prog storeE (result A) :=
  rows ←? call (Query names q);
  Ret (match rows with [] => Err ErrNoRows | vs :: _ => scan_row ts read vs end).

(** The same in a getter: no row is no error. *)
Definition optional {A} (r : result A) : result (option A) :=
  match r with
  | Ok a => Ok (Some a)
  | Err e => if bool_decide (e = ErrNoRows) then Ok None else Err e
  end.

Definition query_optional {A} (names : list string) (q : tables → list (list value)) (ts : list go_type)
    (read : list go_value → A) : prog storeE (result (option A)) :=
  let! r := query_row names q ts read in Ret (optional r).

(** ** Sequential runs *)

(** How a call on the database is dealt with: served, refused without effect,
    or performed with the answer lost. *)
Inductive fault := Served | Refused (e : error) | Lost (e : error).

Record oracle := Oracle {
  o_id : nat → string;
  o_now : nat → Z;
  o_rand : nat → nat → result string;
  o_fault : nat → fault;
}.

Record store_world := StoreWorld {
  sw_db : database;
  sw_calls : nat;
  sw_readers : Z;
  sw_writers : Z;
}.

Definition query_db (names : list string) (q : tables → list (list value)) (db : database) :
    option (list (list value)) :=
  if forallb (λ n, table_exists n db) names then Some (q (data db)) else None.

(** A receipt without the trust tail; see [plain_receipt] of TrustProps.v. *)
Definition committed (sts : list SQLStatement) (rs : list StatementResult) : ExecuteResponse :=
  mkExecuteResponse MutationCommitted "" (sum_rows rs)
    (match last rs with Some r => sr_LastInsertID r | None => 0%Z end)
    (if existsb WantRows sts then rs else []).

Definition rejected : ExecuteResponse * option error :=
  (mkExecuteResponse MutationRejected "rejected" 0 0 [],
   Some (Errorf "SQL mutation was rejected: rejected")).

Definition execute_db (sts : list SQLStatement) (db : database) :
    (ExecuteResponse * option error) * database :=
  match run_statements sts db with
  | Some (db', rs) => ((committed sts rs, None), db')
  | None => (rejected, db)
  end.

Definition faulty_execute (f : fault) (sts : list SQLStatement) (db : database) :
    (ExecuteResponse * option error) * database :=
  match f with
  | Served => execute_db sts db
  | Refused e => ((zero_response, Some e), db)
  | Lost e => ((zero_response, Some e), snd (execute_db sts db))
  end.

(** ExecContext takes the statement alone; a transaction needs one at least. *)
Definition bare (st : SQLStatement) : SQLStatement := mkSQLStatement (SQL st) false None None.

Definition served (f : fault) : bool := match f with Served => true | _ => false end.

Definition store_call (o : oracle) (n : nat) {X} (e : storeE X) : database → X * database :=
  match e in storeE X return database → X * database with
  | AcquireRead | AcquireWrite => λ db, (served (o_fault o n), db)
  | ReleaseRead | ReleaseWrite => λ db, (tt, db)
  | NewID => λ db, (o_id o n, db)
  | NowUnix => λ db, (o_now o n, db)
  | RandRead k => λ db, (o_rand o n k, db)
  | Query names q => λ db,
      (match o_fault o n with
       | Served => match query_db names q db with
                   | Some rows => Ok rows | None => Err (Errorf "SQL query failed") end
       | Refused e | Lost e => Err e
       end, db)
  | Exec st => faulty_execute (o_fault o n) [bare st]
  | Transaction sts => λ db,
      match sts with
      | [] => ((zero_response, Some (Errorf "transaction requires at least one statement")), db)
      | _ => faulty_execute (o_fault o n) sts db
      end
  end.

Definition lock_change {X} (e : storeE X) (x : X) : Z * Z :=
  match e in storeE X return X → Z * Z with
  | AcquireRead => λ ok, if ok : bool then (1, 0)%Z else (0, 0)%Z
  | AcquireWrite => λ ok, if ok : bool then (0, 1)%Z else (0, 0)%Z
  | ReleaseRead => λ _, (-1, 0)%Z
  | ReleaseWrite => λ _, (0, -1)%Z
  | _ => λ _, (0, 0)%Z
  end x.

Definition store_handler (o : oracle) : handler storeE store_world := λ X e w,
  let (x, db') := store_call o (sw_calls w) e (sw_db w) in
  let (r, wr) := lock_change e x in
  (x, StoreWorld db' (S (sw_calls w)) (sw_readers w + r) (sw_writers w + wr)).

Definition store_run (o : oracle) {A} (p : prog storeE A) (w : store_world) : A * store_world :=
  run (store_handler o) p w.

(** Everything is served: the runs of a working node. *)
Definition working (o : oracle) : Prop := ∀ n, o_fault o n = Served.

(** ** Interleaved runs

    Operations of several nodes over one database: each step is one call of
    one of them, dealt with in any way. *)
Definition store_pool : Type := database * list (prog storeE unit).

Section interleaving.
Context (operation : prog storeE unit → Prop).

Inductive store_step : store_pool → store_pool → Prop :=
  | store_starts db ts p : operation p → store_step (db, ts) (db, ts ++ [p])
  | store_calls db ts i X (e : storeE X) k o n x db' :
      ts !! i = Some (Call e k) → store_call o n e db = (x, db') →
      store_step (db, ts) (db', <[i := k x]> ts).

Inductive store_steps : store_pool → store_pool → Prop :=
  | store_refl s : store_steps s s
  | store_more s s' s'' : store_steps s s' → store_step s' s'' → store_steps s s''.

End interleaving.

(** ** Transactions of a program *)

(** [P] holds of every list of statements the program can submit. *)
Fixpoint submits (P : list SQLStatement → Prop) {A} (p : prog storeE A) : Prop :=
  match p with
  | Ret _ => True
  | @Call _ _ X e k =>
      match e with
      | Exec st => P [bare st]
      | Transaction sts => P sts
      | _ => True
      end ∧ ∀ x, submits P (k x)
  end.

Lemma submits_bind P {A B} (p : prog storeE A) (f : A → prog storeE B) :
  submits P p → (∀ a, submits P (f a)) → submits P (prog_bind p f).
Proof.
  intros Hp Hf. unfold prog_bind. induction p as [a|X e k IH]; [apply Hf|].
  destruct Hp as [He Hk]. split; [done|]. intros x. by apply IH.
Qed.

(** A relation between databases that every submitted transaction respects
    holds from the start to the end of every interleaving. *)
Section evolution.
Context (operation : prog storeE unit → Prop) (R : database → database → Prop) `{!PreOrder R}.

Definition respects (sts : list SQLStatement) : Prop :=
  ∀ db db' rs, run_statements sts db = Some (db', rs) → R db db'.

Context (Hop : ∀ p, operation p → submits respects p).

Lemma execute_db_evolves sts db : respects sts → R db (snd (execute_db sts db)).
Proof. intros H. unfold execute_db. destruct (run_statements sts db) as [[db' rs]|] eqn:E; simpl; [by eapply H|reflexivity]. Qed.

Lemma faulty_execute_evolves f sts db : respects sts → R db (snd (faulty_execute f sts db)).
Proof. intros H. destruct f; simpl; [by apply execute_db_evolves|reflexivity|by apply execute_db_evolves]. Qed.

Lemma store_call_evolves o n {X} (e : storeE X) db :
  match e with Exec st => respects [bare st] | Transaction sts => respects sts | _ => True end →
  R db (snd (store_call o n e db)).
Proof.
  destruct e; simpl; intros H; try reflexivity; [by apply faulty_execute_evolves|].
  destruct sts; simpl; [reflexivity|by apply faulty_execute_evolves].
Qed.

Lemma store_step_evolves s s' :
  Forall (submits respects) s.2 → store_step operation s s' →
  R s.1 s'.1 ∧ Forall (submits respects) s'.2.
Proof.
  intros Hs. destruct 1 as [db ts p Hp|db ts i X e k o n x db' Hi Hc]; simpl in *.
  - split; [reflexivity|]. apply Forall_app. auto.
  - rewrite Forall_forall in Hs. assert (Hk := Hs _ (list_elem_of_lookup_2 _ _ _ Hi)). destruct Hk as [He Hk].
    split.
    + change db' with (snd (x, db')). rewrite <- Hc. by apply store_call_evolves.
    + apply Forall_insert; [by apply Forall_forall|apply Hk].
Qed.

Lemma store_steps_evolve s s' :
  Forall (submits respects) s.2 → store_steps operation s s' →
  R s.1 s'.1 ∧ Forall (submits respects) s'.2.
Proof.
  intros Hs. induction 1 as [|s s1 s2 _ IH H]; [by split; [reflexivity|]|].
  destruct (IH Hs) as [H1 H2]. destruct (store_step_evolves _ _ H2 H) as [H3 H4].
  split; [by etrans|done].
Qed.

(** The same for a sequential run. *)
Lemma store_run_evolves o {A} (p : prog storeE A) w :
  submits respects p → R (sw_db w) (sw_db (snd (store_run o p w))).
Proof.
  unfold store_run. revert w. induction p as [a|X e k IH]; intros w; simpl; [reflexivity|]. intros [He Hk].
  unfold store_handler at 1. pose proof (store_call_evolves o (sw_calls w) e (sw_db w) He) as Hc.
  destruct (store_call o (sw_calls w) e (sw_db w)) as [x db']. destruct (lock_change e x) as [r wr].
  simpl in Hc. etrans; [exact Hc|]. exact (IH x (StoreWorld db' _ _ _) (Hk x)).
Qed.

End evolution.
