(* ===== verification/StoreHosts.v ===== *)
(** * Sessions, hosts and policies (internal/store/store.go, lines 860-1121)

    Every operation is the program of its Go method; SQL texts are the
    statements of SQL.v they denote, with the bound arguments filled in. *)

From S2P Require Export StoreBase.
Open Scope go_scope.

(** ** Revoked sessions *)

Definition sessionRevocationCleanupCutoff (now : Z) : Z := wrap64 (now - 600).

Definition insert_revoked (hash : string) (expiresAt : Z) : SQLStatement :=
  insert_or_replace RevokedSessions (RevokedSessionRow hash expiresAt).

(** The inner SELECT: the oldest hundred of the rows past the cutoff. *)
Definition expired_sessions (cutoff : Z) (t : tables) : list string :=
  s_cookie_hash <$> take 100 (order_by (λ a b, (s_expires_at a <=? s_expires_at b)%Z)
    (filter (λ s, (s_expires_at s <=? cutoff)%Z = true) (revoked_sessions t))).

Definition delete_expired_sessions (cutoff : Z) : SQLStatement :=
  delete_where RevokedSessions [] (λ t s, bool_decide (s_cookie_hash s ∈ expired_sessions cutoff t)).

Definition RevokeSession (cookie : string) (expiresAt : Z) : prog storeE (option error) :=
  let! invalid :=
    if bool_decide (cookie = "") then Ret true
    else let! now := nowUnix in Ret (expiresAt <=? now)%Z in
  if invalid : bool then Ret (Some (Errorf "invalid session revocation")) else
  write_locked (Some ErrContext)
    (must exec_err (insert_revoked (hashSecret cookie) expiresAt);
     let! now := nowUnix in
     let! _ := call (Exec (delete_expired_sessions (sessionRevocationCleanupCutoff now))) in
     Ret None).

Definition count_revoked (hash : string) (now : Z) (t : tables) : list (list value) :=
  [[VInt (count (λ s, same (s_cookie_hash s) hash && (now <? s_expires_at s)%Z) (revoked_sessions t))]].

(** A bool and an error, as the method returns them. *)
Definition SessionRevoked (cookie : string) : prog storeE (bool * option error) :=
  if bool_decide (cookie = "") then Ret (false, None) else
  let! now := nowUnix in
  let! r := query_row ["revoked_sessions"] (count_revoked (hashSecret cookie) now) [TInt] (λ gs, to_int (hd GNil gs)) in
  Ret (match r with
       | Ok n => (bool_decide (n = 1%Z), None)
       | Err e => (false, Some e)
       end).

(** ** Audit rows *)

(** The columns an administrative action records; the others stay NULL. *)
Definition audit (id action resource resource_id user_id : string) (at_ : Z) : audit_events_row :=
  AuditEventRow id action resource resource_id (Some user_id) None None at_.

Definition insert_audit (r : audit_events_row) : SQLStatement := insert_values AuditEvents r.

(** INSERT INTO audit_events ... SELECT ... FROM T WHERE p: one row for each
    row of T that satisfies p. *)
Definition insert_audit_for {A} (T : table A) (p : A → bool) (r : audit_events_row) : SQLStatement :=
  insert_select AuditEvents [table_name T] (λ t, const r <$> filter (λ x, p x = true) (rows T t)).

Definition actor_required : error := Errorf "audit actor is required".

(** ** Hosts *)

Record NewHost := mkNewHost {
  NewHost_Name : string;
  NewHost_EndpointID : string;
  NewHost_SSHUser : string;
  NewHost_Tags : option (gmap string string);
  NewHost_SSHPort : Z;
  NewHost_Status : string;
  NewHost_Owner : string;
  NewHost_LastSeen : option Z;
}.

Definition insert_host (id : string) (h : NewHost) (now : Z) : SQLStatement :=
  insert_values Hosts (HostRow id (NewHost_Name h) (NewHost_EndpointID h) (NewHost_SSHUser h)
    (Marshal_map (NewHost_Tags h)) (NewHost_SSHPort h) (NewHost_Status h) (NewHost_Owner h)
    (NewHost_LastSeen h) now now).

(** The defaults CreateHost fills in. *)
Definition with_defaults (h : NewHost) : NewHost :=
  mkNewHost (NewHost_Name h) (NewHost_EndpointID h)
    (if bool_decide (NewHost_SSHUser h = "") then "root" else NewHost_SSHUser h)
    (NewHost_Tags h)
    (if bool_decide (NewHost_SSHPort h = 0%Z) then 22%Z else NewHost_SSHPort h)
    (if bool_decide (NewHost_Status h = "") then "unknown" else NewHost_Status h)
    (NewHost_Owner h) (NewHost_LastSeen h).

(** core.Host of the new host; a nil map of tags is the empty one. *)
Definition host_of (id : string) (h : NewHost) : Host :=
  mkHost id (NewHost_Name h) (NewHost_EndpointID h) (NewHost_SSHUser h) (default ∅ (NewHost_Tags h))
    (NewHost_SSHPort h) (NewHost_Status h) (NewHost_Owner h) (NewHost_LastSeen h).

Definition CreateHost (h : NewHost) (actor : string) : prog storeE (result Host) :=
  write_locked (Err ErrContext)
    (if bool_decide (actor = "") then Ret (Err actor_required) else
     let! id := newID in
     let! now := nowUnix in
     let h := with_defaults h in
     if negb (ValidHostName (NewHost_Name h)) then Ret (Err (Errorf "invalid host name")) else
     if negb (ValidSSHUser (NewHost_SSHUser h)) then Ret (Err (Errorf "invalid ssh user")) else
     let! auditID := newID in
     _ ←? transaction [insert_host id h now;
                       insert_audit (audit auditID "host.created" "host" id actor now)];
     Ret (Ok (host_of id h))).

Definition host_columns (h : hosts_row) : list value :=
  [VText (h_id h); VText (h_name h); VText (h_endpoint_id h); VText (h_ssh_user h); VText (h_tags h);
   VInt (h_ssh_port h); VText (h_status h); VText (h_owner h); opt_int (h_last_seen h)].

Definition host_types : list go_type :=
  [TString; TString; TString; TString; TString; TUint16; TString; TString; TPointer TInt].

Definition read_host (gs : list go_value) : Host :=
  match gs with
  | [id; name; endpoint; user; tags; port; status; owner; seen] =>
      mkHost (to_text id) (to_text name) (to_text endpoint) (to_text user)
        (default ∅ (Unmarshal_map (to_text tags))) (to_int port) (to_text status) (to_text owner)
        (to_opt_int seen)
  | _ => mkHost "" "" "" "" ∅ 0 "" "" None
  end.

Definition ListHosts : prog storeE (result (list Host)) :=
  read_locked (Err ErrContext)
    (query_rows ["hosts"] (λ t, host_columns <$> order_by (by_text h_name) (hosts t)) host_types read_host).

Definition GetHost (id : string) : prog storeE (result (option Host)) :=
  read_locked (Err ErrContext)
    (query_optional ["hosts"] (λ t, host_columns <$> filter (λ h, h_id h = id) (hosts t)) host_types read_host).

(** [ WHERE id=? AND (name IS NOT ? OR ...)]. *)
Definition host_changed (id : string) (h : NewHost) (r : hosts_row) : bool :=
  same (h_id r) id &&
  (is_not (h_name r) (NewHost_Name h) || is_not (h_endpoint_id r) (NewHost_EndpointID h) ||
   is_not (h_ssh_user r) (NewHost_SSHUser h) || is_not (h_tags r) (Marshal_map (NewHost_Tags h)) ||
   is_not (h_ssh_port r) (NewHost_SSHPort h) || is_not (h_status r) (NewHost_Status h) ||
   is_not (h_owner r) (NewHost_Owner h) || is_not (h_last_seen r) (NewHost_LastSeen h)).

Definition set_host (h : NewHost) (now : Z) (r : hosts_row) : hosts_row :=
  HostRow (h_id r) (NewHost_Name h) (NewHost_EndpointID h) (NewHost_SSHUser h) (Marshal_map (NewHost_Tags h))
    (NewHost_SSHPort h) (NewHost_Status h) (NewHost_Owner h) (NewHost_LastSeen h) (h_created_at r) now.

Definition UpdateHost (id : string) (h : NewHost) (actor : string) : prog storeE (option error) :=
  write_locked (Some ErrContext)
    (if bool_decide (actor = "") then Ret (Some actor_required) else
     if negb (ValidHostName (NewHost_Name h)) then Ret (Some (Errorf "invalid host name")) else
     if negb (ValidSSHUser (NewHost_SSHUser h)) then Ret (Some (Errorf "invalid ssh user")) else
     let! now := nowUnix in
     let! auditID := newID in
     transaction_err
       [insert_audit_for Hosts (host_changed id h) (audit auditID "host.updated" "host" id actor now);
        update_where Hosts [] (const (host_changed id h)) (set_host h now)]).

Definition delete_host_statements (auditID id actor : string) (now : Z) : list SQLStatement :=
  [insert_audit_for Hosts (λ h, same (h_id h) id) (audit auditID "host.deleted" "host" id actor now);
   delete_where SnapshotGrants [] (λ _ m, same (m_host_id m) id);
   delete_where Snapshots [] (λ _ n, same (n_host_id n) id);
   delete_where AccessGrants [] (λ _ g, same (g_host_id g) id);
   delete_where RelayAccessGrants [] (λ _ r, same (r_host_id r) id);
   delete_where EndpointDiscoveries [] (λ _ e, same (e_host_id e) id);
   delete_where Devices [] (λ _ d, same (d_host_id d) id);
   delete_where Hosts [] (λ _ h, same (h_id h) id)].

Definition DeleteHost (id actor : string) : prog storeE (option error) :=
  write_locked (Some ErrContext)
    (if bool_decide (actor = "") then Ret (Some actor_required) else
     let! auditID := newID in
     let! now := nowUnix in
     transaction_err (delete_host_statements auditID id actor now)).

(** ** Policies *)

Record NewPolicy := mkNewPolicy {
  NewPolicy_Name : string;
  NewPolicy_Principal : string;
  NewPolicy_HostSelector : string;
  NewPolicy_SSHUsers : option (list string);
  NewPolicy_ExpiresAt : option Z;
}.

Definition policy_of (id : string) (p : NewPolicy) : Policy :=
  mkPolicy id (NewPolicy_Name p) (NewPolicy_Principal p) (NewPolicy_HostSelector p)
    (default [] (NewPolicy_SSHUsers p)) (NewPolicy_ExpiresAt p).

Definition insert_policy (id : string) (p : NewPolicy) (now : Z) : SQLStatement :=
  insert_values Policies (PolicyRow id (NewPolicy_Name p) (NewPolicy_Principal p) (NewPolicy_HostSelector p)
    (Marshal_list (NewPolicy_SSHUsers p)) (NewPolicy_ExpiresAt p) now now).

Definition CreatePolicy (p : NewPolicy) (actor : string) : prog storeE (result Policy) :=
  write_locked (Err ErrContext)
    (if bool_decide (actor = "") then Ret (Err actor_required) else
     let! id := newID in
     let! now := nowUnix in
     let! auditID := newID in
     _ ←? transaction [insert_policy id p now;
                       insert_audit (audit auditID "policy.created" "policy" id actor now)];
     Ret (Ok (policy_of id p))).

Definition policy_columns (p : policies_row) : list value :=
  [VText (p_id p); VText (p_name p); VText (p_principal p); VText (p_host_selector p);
   VText (p_ssh_users p); opt_int (p_expires_at p)].

Definition policy_types : list go_type := [TString; TString; TString; TString; TString; TPointer TInt].

Definition read_policy (gs : list go_value) : Policy :=
  match gs with
  | [id; name; principal; selector; users; expires] =>
      mkPolicy (to_text id) (to_text name) (to_text principal) (to_text selector)
        (default [] (Unmarshal_list (to_text users))) (to_opt_int expires)
  | _ => mkPolicy "" "" "" "" [] None
  end.

Definition ListPolicies : prog storeE (result (list Policy)) :=
  read_locked (Err ErrContext)
    (query_rows ["policies"] (λ t, policy_columns <$> order_by (by_text p_name) (policies t))
       policy_types read_policy).

Definition policy_changed (id : string) (p : NewPolicy) (r : policies_row) : bool :=
  same (p_id r) id &&
  (is_not (p_name r) (NewPolicy_Name p) || is_not (p_principal r) (NewPolicy_Principal p) ||
   is_not (p_host_selector r) (NewPolicy_HostSelector p) ||
   is_not (p_ssh_users r) (Marshal_list (NewPolicy_SSHUsers p)) ||
   is_not (p_expires_at r) (NewPolicy_ExpiresAt p)).

Definition set_policy (p : NewPolicy) (now : Z) (r : policies_row) : policies_row :=
  PolicyRow (p_id r) (NewPolicy_Name p) (NewPolicy_Principal p) (NewPolicy_HostSelector p)
    (Marshal_list (NewPolicy_SSHUsers p)) (NewPolicy_ExpiresAt p) (p_created_at r) now.

Definition UpdatePolicy (id : string) (p : NewPolicy) (actor : string) : prog storeE (option error) :=
  write_locked (Some ErrContext)
    (if bool_decide (actor = "") then Ret (Some actor_required) else
     let! now := nowUnix in
     let! auditID := newID in
     transaction_err
       [insert_audit_for Policies (policy_changed id p) (audit auditID "policy.updated" "policy" id actor now);
        update_where Policies [] (const (policy_changed id p)) (set_policy p now)]).

Definition DeletePolicy (id actor : string) : prog storeE (option error) :=
  write_locked (Some ErrContext)
    (if bool_decide (actor = "") then Ret (Some actor_required) else
     let! auditID := newID in
     let! now := nowUnix in
     transaction_err
       [insert_audit_for Policies (λ p, same (p_id p) id) (audit auditID "policy.deleted" "policy" id actor now);
        delete_where Policies [] (λ _ p, same (p_id p) id)]).
