(* ===== verification/StoreAccess.v ===== *)
(** * Keys, access requests, grants, relay access and the audit log
    (internal/store/store.go, lines 1123-1175, 1388-1800) *)

From S2P Require Export StoreBase StoreHosts GoTime.
Open Scope go_scope.

(** EXISTS (SELECT 1 FROM hosts h JOIN devices d ON d.host_id = h.id
    WHERE h.id = ? AND h.status != 'revoked' AND d.state != 'revoked'). *)
Definition live_device (host_id : string) (d : devices_row) : bool :=
  same (d_host_id d) host_id && is_not (d_state d) "revoked".

Definition live_host (id : string) (h : hosts_row) : bool :=
  same (h_id h) id && is_not (h_status h) "revoked".

Definition host_available (id : string) (t : tables) : bool :=
  existsb (λ h, live_host id h && existsb (live_device (h_id h)) (devices t)) (hosts t).

Definition host_tables : list string := ["hosts"; "devices"].

(** ** SSH keys *)

Record SshKey := mkSshKey {
  SshKey_ID : string; SshKey_UserID : string; SshKey_PublicKey : string;
  SshKey_Fingerprint : string; SshKey_CreatedAt : Z }.

Definition CreateSSHKey (userID publicKey fingerprint : string) : prog storeE (result SshKey) :=
  write_locked (Err ErrContext)
    (let! id := newID in
     let! now := nowUnix in
     _ ←? exec (insert_values SshKeys (SshKeyRow id userID publicKey fingerprint now));
     Ret (Ok (mkSshKey id userID publicKey fingerprint now))).

Definition ssh_key_columns (k : ssh_keys_row) : list value :=
  [VText (k_id k); VText (k_user_id k); VText (k_public_key k); VText (k_fingerprint k); VInt (k_created_at k)].

Definition read_ssh_key (gs : list go_value) : SshKey :=
  match gs with
  | [id; user; key; fp; at_] => mkSshKey (to_text id) (to_text user) (to_text key) (to_text fp) (to_int at_)
  | _ => mkSshKey "" "" "" "" 0
  end.

Definition ListSSHKeys (userID : string) : prog storeE (result (list SshKey)) :=
  read_locked (Err ErrContext)
    (query_rows ["ssh_keys"]
       (λ t, ssh_key_columns <$> order_by (newest k_created_at) (filter (λ k, k_user_id k = userID) (ssh_keys t)))
       [TString; TString; TString; TString; TInt] read_ssh_key).

Definition DeleteSSHKey (id : string) : prog storeE (option error) :=
  write_locked (Some ErrContext) (exec_err (delete_where SshKeys [] (λ _ k, same (k_id k) id))).

(** Whether a row was deleted, and the error. *)
Definition DeleteSSHKeyForUser (id userID : string) (admin : bool) : prog storeE (bool * option error) :=
  write_locked (false, Some ErrContext)
    (if admin then
       let! auditID := newID in
       let! now := nowUnix in
       let! r := call (Transaction
         [insert_audit_for SshKeys (λ k, same (k_id k) id) (audit auditID "ssh_key.deleted" "ssh_key" id userID now);
          delete_where SshKeys [] (λ _ k, same (k_id k) id)]) in
       Ret ((1 <=? RowsAffected (fst r))%Z, snd r)
     else
       let! r := call (Exec (delete_where SshKeys [] (λ _ k, same (k_id k) id && same (k_user_id k) userID))) in
       Ret (bool_decide (RowsAffected (fst r) = 1%Z), snd r)).

(** ** The audit log *)

Definition policy_denied_json : string :=
  bytes [123; 34; 114; 101; 97; 115; 111; 110; 34; 58; 34] +:+ "policy_denied" +:+ bytes [34; 125].

Definition RecordPolicyDenied (action resourceID userID : string) : prog storeE (option error) :=
  write_locked (Some ErrContext)
    (if bool_decide (userID = "") then Ret (Some actor_required) else
     let! id := newID in
     let! now := nowUnix in
     exec_err (insert_audit
       (AuditEventRow id action "host" resourceID (Some userID) None (Some policy_denied_json) now))).

(** [before] and [after] are the values json.Marshal is given; nil is no value
    and becomes the empty text. *)
Definition CreateAuditEvent (action resource resourceID userID : string) (before after : option json) :
    prog storeE (option error) :=
  write_locked (Some ErrContext)
    (let! id := newID in
     let! now := nowUnix in
     exec_err (insert_audit
       (AuditEventRow id action resource resourceID (Some userID)
          (Some (default "" (print <$> before))) (Some (default "" (print <$> after))) now))).

Record AuditEvent := mkAuditEvent {
  AuditEvent_ID : string; AuditEvent_Action : string; AuditEvent_Resource : string;
  AuditEvent_ResourceID : string; AuditEvent_UserID : string;
  AuditEvent_Before : option string; AuditEvent_After : option string; AuditEvent_CreatedAt : Z }.

Definition audit_columns (a : audit_events_row) : list value :=
  [VText (a_id a); VText (a_action a); VText (a_resource a); VText (a_resource_id a); opt_text (a_user_id a);
   opt_text (a_before_json a); opt_text (a_after_json a); VInt (a_created_at a)].

(** sql.NullString is scanned as a pointer to a string. *)
Definition to_opt_text (g : go_value) : option string :=
  match g with GPointer (GString s) => Some s | _ => None end.

Definition read_audit (gs : list go_value) : AuditEvent :=
  match gs with
  | [id; action; resource; rid; user; before; after; at_] =>
      mkAuditEvent (to_text id) (to_text action) (to_text resource) (to_text rid) (to_text user)
        (to_opt_text before) (to_opt_text after) (to_int at_)
  | _ => mkAuditEvent "" "" "" "" "" None None 0
  end.

Definition ListAuditEvents (limit : Z) : prog storeE (result (list AuditEvent)) :=
  read_locked (Err ErrContext)
    (let limit := if (limit <=? 0)%Z then 100%Z else limit in
     query_rows ["audit_events"]
       (λ t, audit_columns <$> take (Z.to_nat limit) (order_by (newest a_created_at) (audit_events t)))
       [TString; TString; TString; TString; TString; TPointer TString; TPointer TString; TInt] read_audit).

(** ** Access requests *)

Record AccessRequest := mkAccessRequest {
  AccessRequest_ID : string; AccessRequest_UserID : string; AccessRequest_HostID : string;
  AccessRequest_SSHUser : string; AccessRequest_Status : string; AccessRequest_CreatedAt : Z }.

Definition CreateAccessRequest (userID hostID sshUser : string) : prog storeE (result AccessRequest) :=
  write_locked (Err ErrContext)
    (let! id := newID in
     let! now := nowUnix in
     _ ←? exec (insert_values AccessRequests (AccessRequestRow id userID hostID sshUser "pending" now));
     Ret (Ok (mkAccessRequest id userID hostID sshUser "pending" now))).

Definition ApproveAccessRequest (id : string) : prog storeE (option error) :=
  write_locked (Some ErrContext)
    (response ←! exec (update_where AccessRequests []
        (λ _ q, same (q_id q) id && same (q_status q) "pending")
        (λ q, AccessRequestRow (q_id q) (q_user_id q) (q_host_id q) (q_ssh_user q) "approved" (q_created_at q)));
     if negb (bool_decide (RowsAffected response = 1%Z))
     then Ret (Some (Errorf "access request was not pending")) else Ret None).

Definition request_columns (q : access_requests_row) : list value :=
  [VText (q_id q); VText (q_user_id q); VText (q_host_id q); VText (q_ssh_user q); VText (q_status q);
   VInt (q_created_at q)].

Definition request_types : list go_type := [TString; TString; TString; TString; TString; TInt].

Definition read_request (gs : list go_value) : AccessRequest :=
  match gs with
  | [id; user; host; account; status; at_] =>
      mkAccessRequest (to_text id) (to_text user) (to_text host) (to_text account) (to_text status) (to_int at_)
  | _ => mkAccessRequest "" "" "" "" "" 0
  end.

Definition userHistoryLimit : nat := Z.to_nat 1000.

Definition ListAccessRequests : prog storeE (result (list AccessRequest)) :=
  read_locked (Err ErrContext)
    (query_rows ["access_requests"]
       (λ t, request_columns <$> order_by (newest q_created_at) (access_requests t)) request_types read_request).

Definition ListUserAccessRequests (userID : string) : prog storeE (result (list AccessRequest)) :=
  read_locked (Err ErrContext)
    (query_rows ["access_requests"]
       (λ t, request_columns <$> take userHistoryLimit
          (order_by (newest q_created_at) (filter (λ q, q_user_id q = userID) (access_requests t))))
       request_types read_request).

(** ** Access grants *)

Record AccessGrant := mkAccessGrant {
  AccessGrant_ID : string; AccessGrant_RequestID : string; AccessGrant_UserID : string;
  AccessGrant_HostID : string; AccessGrant_SSHUser : string; AccessGrant_ExpiresAt : Z;
  AccessGrant_EphemeralKey : string; AccessGrant_KeyInstalled : bool; AccessGrant_CreatedAt : Z }.

Definition CreateAccessGrant (requestID userID hostID sshUser : string) (expiresAt : Z) (ephemeralKey : string) :
    prog storeE (result AccessGrant) :=
  write_locked (Err ErrContext)
    (let! id := newID in
     let! now := nowUnix in
     response ←? exec (insert_where AccessGrants host_tables (host_available hostID)
       (AccessGrantRow id requestID userID hostID sshUser expiresAt (Some ephemeralKey) 0 now));
     if negb (bool_decide (RowsAffected response = 1%Z)) then Ret (Err (Errorf "host unavailable"))
     else Ret (Ok (mkAccessGrant id requestID userID hostID sshUser expiresAt ephemeralKey false now))).

(** The after_json of an issued grant, a map[string]any. *)
Definition issue_json (requestID grantID : string) (expiresAt : Z) : string :=
  Marshal_object [("request_id", JStr requestID); ("grant_id", JStr grantID);
                  ("expires_at", JNum (strconv.FormatInt expiresAt))].

Definition issue_statements (requestID grantID auditID userID hostID sshUser : string) (expiresAt now : Z) :
    list SQLStatement :=
  [insert_where AccessRequests host_tables (host_available hostID)
     (AccessRequestRow requestID userID hostID sshUser "approved" now);
   insert_where AccessGrants ["access_requests"] (λ t, existsb (λ q, same (q_id q) requestID) (access_requests t))
     (AccessGrantRow grantID requestID userID hostID sshUser expiresAt (Some "") 0 now);
   insert_where AuditEvents ["access_grants"] (λ t, existsb (λ g, same (g_id g) grantID) (access_grants t))
     (AuditEventRow auditID "access.approved" "host" hostID (Some userID) None
        (Some (issue_json requestID grantID expiresAt)) now)].

Definition IssueSSHAccess (userID hostID sshUser : string) (expiresAt : Z) : prog storeE (result string) :=
  write_locked (Err ErrContext)
    (let! requestID := newID in
     let! grantID := newID in
     let! auditID := newID in
     let! now := nowUnix in
     response ←? transaction (issue_statements requestID grantID auditID userID hostID sshUser expiresAt now);
     if negb (bool_decide (RowsAffected response = 3%Z)) then Ret (Err (Errorf "host unavailable"))
     else Ret (Ok grantID)).

Definition grant_columns (g : access_grants_row) : list value :=
  [VText (g_id g); VText (g_request_id g); VText (g_user_id g); VText (g_host_id g); VText (g_ssh_user g);
   VInt (g_expires_at g); opt_text (g_ephemeral_key g); VInt (g_key_installed g); VInt (g_created_at g)].

Definition grant_types : list go_type :=
  [TString; TString; TString; TString; TString; TInt; TString; TBool; TInt].

Definition read_grant (gs : list go_value) : AccessGrant :=
  match gs with
  | [id; request; user; host; account; expires; key; installed; at_] =>
      mkAccessGrant (to_text id) (to_text request) (to_text user) (to_text host) (to_text account)
        (to_int expires) (to_text key) (to_bool installed) (to_int at_)
  | _ => mkAccessGrant "" "" "" "" "" 0 "" false 0
  end.

Definition GetAccessGrant (id : string) : prog storeE (result (option AccessGrant)) :=
  read_locked (Err ErrContext)
    (query_optional ["access_grants"]
       (λ t, grant_columns <$> filter (λ g, g_id g = id) (access_grants t)) grant_types read_grant).

Definition ListAccessGrants : prog storeE (result (list AccessGrant)) :=
  read_locked (Err ErrContext)
    (query_rows ["access_grants"]
       (λ t, grant_columns <$> order_by (newest g_created_at) (access_grants t)) grant_types read_grant).

Definition ListUserAccessGrants (userID : string) : prog storeE (result (list AccessGrant)) :=
  read_locked (Err ErrContext)
    (query_rows ["access_grants"]
       (λ t, grant_columns <$> take userHistoryLimit
          (order_by (newest g_created_at) (filter (λ g, g_user_id g = userID) (access_grants t))))
       grant_types read_grant).

(** ** Endpoint discovery *)

Record EndpointDiscovery := mkEndpointDiscovery {
  Discovery_HostID : string; Discovery_DirectAddresses : list string;
  Discovery_RelayURLs : list string; Discovery_UpdatedAt : Z }.

(** INSERT ... ON CONFLICT(host_id) DO UPDATE SET the other columns. *)
Definition upsert_discovery (reads : list string) (cond : tables → bool) (r : endpoint_discovery_row) : SQLStatement :=
  upsert EndpointDiscoveries reads cond r (λ _ old excluded,
    EndpointDiscoveryRow (e_host_id old) (e_direct_addresses excluded) (e_relay_urls excluded)
      (e_updated_at excluded)).

Definition UpdateEndpointDiscovery (hostID : string) (directAddresses relayURLs : option (list string)) :
    prog storeE (option error) :=
  write_locked (Some ErrContext)
    (let! now := nowUnix in
     exec_err (upsert_discovery [] (const true)
       (EndpointDiscoveryRow hostID (Marshal_list directAddresses) (Marshal_list relayURLs) now))).

(** The join with a live host and each of its live devices. *)
Definition discovery_rows (hostID : string) (t : tables) : list (list value) :=
  e ← filter (λ e, e_host_id e = hostID) (endpoint_discovery t);
  h ← filter (λ h, live_host (e_host_id e) h = true) (hosts t);
  _ ← filter (λ d, live_device (h_id h) d = true) (devices t);
  [[VText (e_host_id e); VText (e_direct_addresses e); VText (e_relay_urls e); VInt (e_updated_at e)]].

Definition read_discovery (gs : list go_value) : EndpointDiscovery :=
  match gs with
  | [host; addrs; relays; at_] =>
      mkEndpointDiscovery (to_text host) (default [] (Unmarshal_list (to_text addrs)))
        (default [] (Unmarshal_list (to_text relays))) (to_int at_)
  | _ => mkEndpointDiscovery "" [] [] 0
  end.

Definition GetEndpointDiscovery (hostID : string) : prog storeE (result (option EndpointDiscovery)) :=
  read_locked (Err ErrContext)
    (query_optional ["endpoint_discovery"; "hosts"; "devices"] (discovery_rows hostID)
       [TString; TString; TString; TInt] read_discovery).

(** ** Relay access *)

Record RelayAccessGrant := mkRelayAccessGrant {
  Relay_ID : string; Relay_HostID : string; Relay_ClientEndpointID : string;
  Relay_ExpiresAt : Z; Relay_CreatedAt : Z }.

Definition relay_json (id : string) (expiresAt : Z) : string :=
  Marshal_object [("grant_id", JStr id); ("expires_at", JNum (strconv.FormatInt expiresAt))].

(** The audit row a relay grant needs beside it. *)
Definition audit_relay (auditID action hostID userID id : string) (expiresAt now : Z) : SQLStatement :=
  insert_where AuditEvents ["relay_access_grants"] (λ t, existsb (λ r, same (r_id r) id) (relay_access_grants t))
    (AuditEventRow auditID action "host" hostID (Some userID) None (Some (relay_json id expiresAt)) now).

Definition insert_relay (id hostID endpointID : string) (expiresAt now : Z) : SQLStatement :=
  insert_where RelayAccessGrants host_tables (host_available hostID)
    (RelayAccessGrantRow id hostID endpointID expiresAt now).

Definition CreateRelayAccessGrant (hostID clientEndpointID userID : string) (ttlSeconds : Z) :
    prog storeE (result RelayAccessGrant) :=
  write_locked (Err ErrContext)
    (let! id := newID in
     let! auditID := newID in
     let! now := nowUnix in
     let expires := wrap64 (now + ttlSeconds) in
     response ←? transaction
       [insert_relay id hostID clientEndpointID expires now;
        audit_relay auditID "relay.grant.created" hostID userID id expires now];
     if negb (bool_decide (RowsAffected response = 2%Z)) then Ret (Err (Errorf "host unavailable"))
     else Ret (Ok (mkRelayAccessGrant id hostID clientEndpointID expires now))).

Definition RenewRelayAccessGrant (hostID endpointID actorID : string) (ttlSeconds : Z) :
    prog storeE (result RelayAccessGrant) :=
  write_locked (Err ErrContext)
    (let! id := newID in
     let! auditID := newID in
     let! now := nowUnix in
     let expires := wrap64 (now + ttlSeconds) in
     response ←? transaction
       [delete_where RelayAccessGrants host_tables
          (λ t r, same (r_host_id r) hostID && same (r_client_endpoint_id r) endpointID && host_available hostID t);
        insert_relay id hostID endpointID expires now;
        audit_relay auditID "relay.grant.renewed" hostID actorID id expires now];
     if (RowsAffected response <? 2)%Z then Ret (Err (Errorf "host unavailable"))
     else Ret (Ok (mkRelayAccessGrant id hostID endpointID expires now))).

(** SELECT COUNT of the join: one row for each grant, host and device. *)
Definition relay_grants (endpointID : string) (now : Z) (t : tables) : list relay_access_grants_row :=
  r ← filter (λ r, r_client_endpoint_id r = endpointID ∧ (now < r_expires_at r)%Z) (relay_access_grants t);
  h ← filter (λ h, live_host (r_host_id r) h = true) (hosts t);
  _ ← filter (λ d, live_device (h_id h) d = true) (devices t);
  [r].

Definition RelayEndpointAllowed (endpointID : string) : prog storeE (result bool) :=
  read_locked (Err ErrContext)
    (let! now := nowUnix in
     count ←? query_row ["relay_access_grants"; "hosts"; "devices"]
       (λ t, [[VInt (Z.of_nat (length (relay_grants endpointID now t)))]]) [TInt] (λ gs, to_int (hd GNil gs));
     Ret (Ok (0 <? count)%Z)).

(** ** Published authorized_keys snapshots (internal/store/store.go, lines 1160-1386) *)

Definition newline : ascii := chr 10.

Record AuthorizedKeyEntry := mkEntry { Entry_Key : string; Entry_ExpiresAt : Z }.

(** One line of the file: [expiry-time="..." key]. *)
Definition format_entry (e : AuthorizedKeyEntry) : string :=
  "expiry-time=" +:+ String dquote (format_utc (Entry_ExpiresAt e) +:+ String dquote (" " +:+ Entry_Key e)).

Definition FormatAuthorizedKeys (entries : list AuthorizedKeyEntry) : list string := format_entry <$> entries.

Definition MaxAuthorizedKeysBodyBytes : Z := Z.shiftl 1 20.

Definition renderAuthorizedKeysBody (entries : list AuthorizedKeyEntry) : result string :=
  let body := strings.Join (FormatAuthorizedKeys entries) (String newline "") in
  let body := if bool_decide (body = "") then body else body +:+ String newline "" in
  if (MaxAuthorizedKeysBodyBytes <? Z.of_nat (String.length body))%Z
  then Err (Errorf "authorized_keys snapshot exceeds 1048576-byte budget") else Ok body.

(** ** The live keys and grants of a host account *)

Definition live_grant (hostID sshUser : string) (now : Z) (g : access_grants_row) : bool :=
  same (g_host_id g) hostID && same (g_ssh_user g) sshUser && (now <? g_expires_at g)%Z.

(** The key join: one row for each live grant, key of its user, host and device. *)
Definition key_rows (hostID sshUser : string) (now : Z) (t : tables) : list (string * Z) :=
  g ← filter (λ g, live_grant hostID sshUser now g = true) (access_grants t);
  k ← filter (λ k, k_user_id k = g_user_id g) (ssh_keys t);
  h ← filter (λ h, live_host (g_host_id g) h = true) (hosts t);
  _ ← filter (λ d, live_device (h_id h) d = true) (devices t);
  [(k_public_key k, g_expires_at g)].

Definition max_of (l : list Z) : Z := foldr Z.max (hd 0%Z l) l.

(** GROUP BY the key, MAX of the expiry, ORDER BY the key. *)
Definition group_max (l : list (string * Z)) : list (string * Z) :=
  (λ key, (key, max_of (snd <$> filter (λ r, r.1 = key) l))) <$>
    order_by String.leb (remove_dups (fst <$> l)).

(** SELECT DISTINCT g.id ... ORDER BY g.id. *)
Definition grant_rows (hostID sshUser : string) (now : Z) (t : tables) : list string :=
  order_by String.leb (remove_dups
    (g ← filter (λ g, live_grant hostID sshUser now g = true) (access_grants t);
     h ← filter (λ h, live_host (g_host_id g) h = true) (hosts t);
     _ ← filter (λ d, live_device (h_id h) d = true) (devices t);
     [g_id g])).

(** The loop that keeps each grant once. *)
Fixpoint unseen (seen : list string) (l : list string) : list string :=
  match l with
  | [] => []
  | g :: l => if bool_decide (g ∈ seen) then unseen seen l else g :: unseen (g :: seen) l
  end.

Definition read_entry (gs : list go_value) : AuthorizedKeyEntry :=
  match gs with [key; at_] => mkEntry (to_text key) (to_int at_) | _ => mkEntry "" 0 end.

Definition authorizedKeysSnapshotForHost (hostID sshUser : string) :
    prog storeE (result (list AuthorizedKeyEntry * list string)) :=
  let! now := nowUnix in
  entries ←? query_rows ["access_grants"; "ssh_keys"; "hosts"; "devices"]
    (λ t, (λ r, [VText r.1; VInt r.2]) <$> group_max (key_rows hostID sshUser now t)) [TString; TInt] read_entry;
  let! now := nowUnix in
  grants ←? query_rows ["access_grants"; "hosts"; "devices"]
    (λ t, (λ g, [VText g]) <$> grant_rows hostID sshUser now t) [TString] (λ gs, to_text (hd GNil gs));
  Ret (Ok (entries, unseen [] grants)).

Definition AuthorizedKeysForHost (hostID sshUser : string) : prog storeE (result (list AuthorizedKeyEntry)) :=
  read_locked (Err ErrContext)
    (snapshot ←? authorizedKeysSnapshotForHost hostID sshUser; Ret (Ok (fst snapshot))).

Definition AuthorizedKeysSnapshotForHost (hostID sshUser : string) :
    prog storeE (result (list AuthorizedKeyEntry * list string)) :=
  read_locked (Err ErrContext) (authorizedKeysSnapshotForHost hostID sshUser).

(** ** Publication *)

Definition snapshot_marker (grants : list string) : string :=
  "snapshot:" +:+ hashSecret (strings.Join grants (String newline "")).

Definition of_account (hostID sshUser : string) (m : authorized_keys_snapshot_grants_row) : bool :=
  same (m_host_id m) hostID && same (m_ssh_user m) sshUser.

(** The generation moves when the digest or the set of grants does. *)
Definition publish_snapshot (hostID sshUser digest marker : string) : SQLStatement :=
  upsert Snapshots ["authorized_keys_snapshot_grants"] (const true) (SnapshotRow hostID sshUser 1 digest)
    (λ t old excluded,
       SnapshotRow (n_host_id old) (n_ssh_user old)
         (if is_not (n_digest old) (n_digest excluded) ||
             negb (existsb (λ m, of_account hostID sshUser m && same (m_grant_id m) marker)
                     (authorized_keys_snapshot_grants t))
          then (n_generation old + 1)%Z else n_generation old)
         (n_digest excluded)).

Definition insert_snapshot_grant (hostID sshUser grant : string) : SQLStatement :=
  insert_values SnapshotGrants (SnapshotGrantRow hostID sshUser grant).

Definition publish_statements (hostID sshUser digest : string) (grants : list string) : list SQLStatement :=
  [publish_snapshot hostID sshUser digest (snapshot_marker grants);
   delete_where SnapshotGrants [] (λ _ m, of_account hostID sshUser m);
   insert_snapshot_grant hostID sshUser (snapshot_marker grants)] ++
  (insert_snapshot_grant hostID sshUser <$> grants).

Definition publishAuthorizedKeysGeneration (hostID sshUser digest : string) (grants : list string) :
    prog storeE (result Z) :=
  _ ←? transaction (publish_statements hostID sshUser digest grants);
  query_row ["authorized_keys_snapshots"]
    (λ t, (λ n, [VInt (n_generation n)]) <$>
       filter (λ n, n_host_id n = hostID ∧ n_ssh_user n = sshUser ∧ n_digest n = digest)
         (authorized_keys_snapshots t)) [TInt] (λ gs, to_int (hd GNil gs)).

Definition AuthorizedKeysGeneration (hostID sshUser digest : string) (grants : list string) :
    prog storeE (result Z) :=
  write_locked (Err ErrContext) (publishAuthorizedKeysGeneration hostID sshUser digest grants).

(** Body, digest and generation. *)
Definition PublishAuthorizedKeysSnapshot (hostID sshUser : string) : prog storeE (result (string * string * Z)) :=
  write_locked (Err ErrContext)
    (snapshot ←? authorizedKeysSnapshotForHost hostID sshUser;
     match renderAuthorizedKeysBody (fst snapshot) with
     | Err e => Ret (Err e)
     | Ok body =>
       let digest := hex_encode (Sum256 body) in
       generation ←? publishAuthorizedKeysGeneration hostID sshUser digest (snd snapshot);
       Ret (Ok (body, digest, generation))
     end).

(** ** Acknowledgement *)

Definition current_snapshot (hostID sshUser : string) (generation : Z) (digest : string)
    (n : authorized_keys_snapshots_row) : bool :=
  same (n_host_id n) hostID && same (n_ssh_user n) sshUser && (n_generation n =? generation)%Z &&
  same (n_digest n) digest.

Definition acknowledge_statements (hostID sshUser : string) (generation : Z) (digest : string) (now : Z) :
    list SQLStatement :=
  [update_where Snapshots ["authorized_keys_snapshot_grants"]
     (λ t n, current_snapshot hostID sshUser generation digest n &&
        existsb (λ m, of_account hostID sshUser m && like_prefix "snapshot:" (m_grant_id m))
          (authorized_keys_snapshot_grants t))
     (λ n, n);
   update_where AccessGrants ["authorized_keys_snapshot_grants"; "ssh_keys"; "authorized_keys_snapshots"]
     (λ t g,
        existsb (λ m, of_account hostID sshUser m && same (m_grant_id m) (g_id g))
          (authorized_keys_snapshot_grants t) &&
        live_grant hostID sshUser now g &&
        existsb (λ k, same (k_user_id k) (g_user_id g)) (ssh_keys t) &&
        existsb (current_snapshot hostID sshUser generation digest) (authorized_keys_snapshots t))
     (λ g, AccessGrantRow (g_id g) (g_request_id g) (g_user_id g) (g_host_id g) (g_ssh_user g)
        (g_expires_at g) (g_ephemeral_key g) 1 (g_created_at g))].

Definition AcknowledgeAuthorizedKeys (hostID sshUser : string) (generation : Z) (digest : string) :
    prog storeE (option error) :=
  write_locked (Some ErrContext)
    (if (generation <? 1)%Z || negb (bool_decide (String.length digest = 64))
     then Ret (Some (Errorf "invalid authorized_keys acknowledgement")) else
     let! now := nowUnix in
     response ←! transaction (acknowledge_statements hostID sshUser generation digest now);
     if (RowsAffected response <? 1)%Z
     then Ret (Some (Errorf "authorized_keys acknowledgement does not match current snapshot"))
     else Ret None).
