(* ===== verification/StoreDevices.v ===== *)
(** * Manufacturing and devices (internal/store/store.go, lines 1802-2238) *)

From S2P Require Export StoreBase StoreHosts StoreAccess GoTime.
Open Scope go_scope.

(** ** Manufacturing tokens *)

Record ManufacturingToken := mkToken {
  Token_ID : string; Token_Token : string; Token_BatchID : string;
  Token_ExpiresAt : option Z; Token_CreatedAt : Z }.

Definition open_batch (id : string) (now : Z) (b : manufacturing_batches_row) : bool :=
  same (b_id b) id && same (b_status b) "open" && (now <? b_expires_at b)%Z &&
  (b_used_count b <? b_max_devices b)%Z.

Definition insert_token (id hash batchID : string) (expiresAt : option Z) (now : Z) : SQLStatement :=
  let r := ManufacturingTokenRow id hash (Some batchID) expiresAt now in
  if bool_decide (batchID = "") then insert_values ManufacturingTokens r
  else expecting 1 (insert_where ManufacturingTokens ["manufacturing_batches"]
    (λ t, existsb (open_batch batchID now) (manufacturing_batches t)) r).

Definition CreateManufacturingToken (batchID : string) (expiresAt : option Z) (actor : string) :
    prog storeE (result ManufacturingToken) :=
  write_locked (Err ErrContext)
    (if bool_decide (actor = "") then Ret (Err actor_required) else
     let! now := nowUnix in
     if match expiresAt with Some e => (e <=? now)%Z | None => false end
     then Ret (Err (Errorf "manufacturing token expired")) else
     let! id := newID in
     random ←? call (RandRead 32);
     let token := base64_encode random in
     let! auditID := newID in
     _ ←? transaction
       [insert_token id (hashSecret token) batchID expiresAt now;
        insert_audit (audit auditID "manufacturing.token.created" "manufacturing_token" id actor now)];
     Ret (Ok (mkToken id token batchID expiresAt now))).

Definition token_columns (r : manufacturing_tokens_row) : list value :=
  [VText (t_id r); opt_text (t_batch_id r); opt_int (t_expires_at r); VInt (t_created_at r)].

Definition token_types : list go_type := [TString; TString; TPointer TInt; TInt].

Definition read_token (gs : list go_value) : ManufacturingToken :=
  match gs with
  | [id; batch; expires; at_] => mkToken (to_text id) "" (to_text batch) (to_opt_int expires) (to_int at_)
  | _ => mkToken "" "" "" None 0
  end.

Definition ListManufacturingTokens : prog storeE (result (list ManufacturingToken)) :=
  read_locked (Err ErrContext)
    (query_rows ["manufacturing_tokens"]
       (λ t, token_columns <$> order_by (newest t_created_at) (manufacturing_tokens t)) token_types read_token).

Definition getManufacturingTokenByToken (token : string) : prog storeE (result (option ManufacturingToken)) :=
  query_optional ["manufacturing_tokens"]
    (λ t, token_columns <$> filter (λ r, t_token_hash r = hashSecret token) (manufacturing_tokens t))
    token_types read_token.

Definition GetManufacturingToken (token : string) : prog storeE (result (option ManufacturingToken)) :=
  read_locked (Err ErrContext) (getManufacturingTokenByToken token).

(** ** Manufacturing batches *)

Record ManufacturingBatch := mkBatch {
  Batch_ID : string; Batch_Name : string; Batch_SerialPrefix : string; Batch_Status : string;
  Batch_ExpiresAt : Z; Batch_MaxDevices : Z; Batch_UsedCount : Z; Batch_ClosedAt : option Z;
  Batch_CreatedAt : Z }.

Definition CreateManufacturingBatch (name serialPrefix : string) (expiresAt maxDevices : Z) (actor : string) :
    prog storeE (result (ManufacturingBatch * string)) :=
  write_locked (Err ErrContext)
    (if bool_decide (actor = "") then Ret (Err actor_required) else
     let! invalid :=
       if bool_decide (name = "") || bool_decide (serialPrefix = "") then Ret true else
       let! now := nowUnix in
       Ret ((expiresAt <=? now)%Z || (maxDevices <? 1)%Z || (10000 <? maxDevices)%Z) in
     if invalid : bool then Ret (Err (Errorf "invalid manufacturing batch")) else
     if negb (ValidHostName (serialPrefix +:+ "-000001")) then Ret (Err (Errorf "invalid serial prefix")) else
     let! id := newID in
     let! now := nowUnix in
     random ←? call (RandRead 32);
     let token := base64_encode random in
     let! auditID := newID in
     _ ←? transaction
       [insert_values ManufacturingBatches
          (ManufacturingBatchRow id name serialPrefix (hashSecret token) "open" expiresAt maxDevices 0 None now);
        insert_audit (audit auditID "manufacturing.batch.created" "manufacturing_batch" id actor now)];
     Ret (Ok (mkBatch id name serialPrefix "open" expiresAt maxDevices 0 None now, token))).

Definition batch_columns (b : manufacturing_batches_row) : list value :=
  [VText (b_id b); VText (b_name b); VText (b_serial_prefix b); VText (b_status b); VInt (b_expires_at b);
   VInt (b_max_devices b); VInt (b_used_count b); opt_int (b_closed_at b); VInt (b_created_at b)].

Definition batch_types : list go_type :=
  [TString; TString; TString; TString; TInt; TInt; TInt; TPointer TInt; TInt].

Definition read_batch (gs : list go_value) : ManufacturingBatch :=
  match gs with
  | [id; name; prefix; status; expires; max; used; closed; at_] =>
      mkBatch (to_text id) (to_text name) (to_text prefix) (to_text status) (to_int expires) (to_int max)
        (to_int used) (to_opt_int closed) (to_int at_)
  | _ => mkBatch "" "" "" "" 0 0 0 None 0
  end.

Definition ListManufacturingBatches : prog storeE (result (list ManufacturingBatch)) :=
  read_locked (Err ErrContext)
    (query_rows ["manufacturing_batches"]
       (λ t, batch_columns <$> order_by (newest b_created_at) (manufacturing_batches t)) batch_types read_batch).

Definition getManufacturingBatchByToken (token : string) : prog storeE (result (option ManufacturingBatch)) :=
  query_optional ["manufacturing_batches"]
    (λ t, batch_columns <$> filter (λ b, b_token_hash b = hashSecret token) (manufacturing_batches t))
    batch_types read_batch.

Definition getManufacturingBatchByID (id : string) : prog storeE (result (option ManufacturingBatch)) :=
  query_optional ["manufacturing_batches"]
    (λ t, batch_columns <$> filter (λ b, b_id b = id) (manufacturing_batches t)) batch_types read_batch.

Definition set_closed (now : Z) (b : manufacturing_batches_row) : manufacturing_batches_row :=
  ManufacturingBatchRow (b_id b) (b_name b) (b_serial_prefix b) (b_token_hash b) "closed" (b_expires_at b)
    (b_max_devices b) (b_used_count b) (Some now) (b_created_at b).

Definition CloseManufacturingBatch (id actor : string) : prog storeE (option error) :=
  write_locked (Some ErrContext)
    (if bool_decide (actor = "") then Ret (Some actor_required) else
     let! now := nowUnix in
     let! auditID := newID in
     transaction_err
       [insert_audit_for ManufacturingBatches (λ b, same (b_id b) id && same (b_status b) "open")
          (audit auditID "manufacturing.batch.closed" "manufacturing_batch" id actor now);
        update_where ManufacturingBatches [] (λ _ b, same (b_id b) id && same (b_status b) "open")
          (set_closed now)]).

(** ** Devices *)

Record Device := mkDevice {
  Device_ID : string; Device_HostID : string; Device_EndpointID : string;
  Device_SSHHostKeyFingerprint : string; Device_DevicePublicKey : string; Device_State : string;
  Device_SerialNumber : string; Device_Model : string; Device_EnrolledAt : Z;
  Device_LastSeenAt : option Z }.

Definition device_columns (d : devices_row) : list value :=
  [VText (d_id d); VText (d_host_id d); VText (d_endpoint_id d); VText (d_ssh_host_key_fingerprint d);
   VText (d_device_public_key d); VText (d_state d); opt_text (d_serial_number d); opt_text (d_model d);
   VInt (d_enrolled_at d); opt_int (d_last_seen_at d)].

Definition device_types : list go_type :=
  [TString; TString; TString; TString; TString; TString; TString; TString; TInt; TPointer TInt].

Definition read_device (gs : list go_value) : Device :=
  match gs with
  | [id; host; endpoint; fp; key; state; serial; model; at_; seen] =>
      mkDevice (to_text id) (to_text host) (to_text endpoint) (to_text fp) (to_text key) (to_text state)
        (to_text serial) (to_text model) (to_int at_) (to_opt_int seen)
  | _ => mkDevice "" "" "" "" "" "" "" "" 0 None
  end.

Definition query_device (p : devices_row → bool) : prog storeE (result Device) :=
  query_row ["devices"] (λ t, device_columns <$> filter (λ d, p d = true) (devices t)) device_types read_device.

Definition has_serial (serial : string) (d : devices_row) : bool :=
  match d_serial_number d with Some s => same s serial | None => false end.

(** The batch's next device; the last one closes the batch. *)
Definition consume_batch (b : ManufacturingBatch) (now : Z) : SQLStatement :=
  expecting 1 (update_where ManufacturingBatches []
    (λ _ r, same (b_id r) (Batch_ID b) && same (b_status r) "open" && (now <? b_expires_at r)%Z &&
            (b_used_count r =? Batch_UsedCount b)%Z && (b_used_count r <? b_max_devices r)%Z)
    (λ r, let full := (b_max_devices r <=? b_used_count r + 1)%Z in
      ManufacturingBatchRow (b_id r) (b_name r) (b_serial_prefix r) (b_token_hash r)
        (if full then "closed" else b_status r) (b_expires_at r) (b_max_devices r) (b_used_count r + 1)
        (if full then Some now else b_closed_at r) (b_created_at r))).

Definition consume_token (mt : ManufacturingToken) (token : string) (now : Z) : SQLStatement :=
  expecting 1 (delete_where ManufacturingTokens [] (λ _ r,
    same (t_id r) (Token_ID mt) && same (t_token_hash r) (hashSecret token) &&
    match t_expires_at r with None => true | Some e => (now <? e)%Z end)).

Definition enroll_host (hostID serial endpointID sshUser : string) (tags : option (gmap string string))
    (sshPort now : Z) : SQLStatement :=
  expecting 1 (insert_values Hosts
    (HostRow hostID serial endpointID sshUser (Marshal_map tags) sshPort "manufactured" "manufacturing" None now now)).

Definition enroll_device (id hostID endpointID fingerprint key serial model : string) (now : Z) : SQLStatement :=
  expecting 1 (insert_values Devices
    (DeviceRow id hostID endpointID fingerprint key "manufactured" (Some serial) (Some model) now None)).

(** The token, or the batch with that token: what the bearer may consume. *)
Definition enrollment_credit (token : string) :
    prog storeE (result (option ManufacturingToken * option ManufacturingBatch)) :=
  mt ←? getManufacturingTokenByToken token;
  match mt with
  | Some mt =>
    if bool_decide (Token_BatchID mt = "") then Ret (Ok (Some mt, None)) else
    batch ←? getManufacturingBatchByID (Token_BatchID mt);
    match batch with
    | None => Ret (Err (Errorf "manufacturing token batch is unavailable"))
    | Some b => Ret (Ok (Some mt, Some b))
    end
  | None =>
    batch ←? getManufacturingBatchByToken token;
    Ret (Ok (None, batch))
  end.

(** The serial number and the statements that pay for it. *)
Definition enrollment_payment (mt : option ManufacturingToken) (batch : option ManufacturingBatch)
    (token serialNumber : string) (now : Z) : result (string * list SQLStatement) :=
  let consume_tokens := match mt with Some mt => [consume_token mt token now] | None => [] end in
  match batch with
  | Some b =>
    if negb (bool_decide (Batch_Status b = "open")) || (Batch_ExpiresAt b <=? now)%Z ||
       (Batch_MaxDevices b <=? Batch_UsedCount b)%Z
    then Err (Errorf "manufacturing batch is closed") else
    let expectedSerial := Batch_SerialPrefix b +:+ "-" +:+ pad_int 6 (wrap64 (Batch_UsedCount b + 1)) in
    if negb (bool_decide (serialNumber = "")) && negb (bool_decide (serialNumber = expectedSerial))
    then Err (Errorf "serial does not match manufacturing batch")
    else Ok (expectedSerial, consume_batch b now :: consume_tokens)
  | None =>
    if bool_decide (serialNumber = "") then Err (Errorf "serial number is required")
    else Ok (serialNumber, consume_tokens)
  end.

Definition no_row {A} (r : result A) : bool :=
  match r with Err e => bool_decide (e = ErrNoRows) | Ok _ => false end.

Definition EnrollDevice (token endpointID serialNumber model fingerprint devicePublicKey sshUser : string)
    (sshPort : Z) (tags : option (gmap string string)) : prog storeE (result Device) :=
  write_locked (Err ErrContext)
    (if bool_decide (devicePublicKey = "") then Ret (Err (Errorf "device public key is required")) else
     let! replay := query_device (λ d, same (d_device_public_key d) devicePublicKey) in
     match replay with
     | Ok replay =>
       if negb (bool_decide (fingerprint = Device_SSHHostKeyFingerprint replay)) ||
          (negb (bool_decide (serialNumber = "")) && negb (bool_decide (serialNumber = Device_SerialNumber replay)))
       then Ret (Err (Errorf "device key already enrolled with a different identity"))
       else Ret (Ok replay)
     | Err e => if negb (bool_decide (e = ErrNoRows)) then Ret (Err e) else
     credit ←? enrollment_credit token;
     let (mt, batch) := (credit : option ManufacturingToken * option ManufacturingBatch) in
     if bool_decide (mt = None) && bool_decide (batch = None)
     then Ret (Err (Errorf "invalid manufacturing token")) else
     let! expired :=
       match mt ≫= Token_ExpiresAt with
       | Some e => let! now := nowUnix in Ret (e <=? now)%Z
       | None => Ret false
       end in
     if expired : bool then Ret (Err (Errorf "manufacturing token expired")) else
     let! now := nowUnix in
     match enrollment_payment mt batch token serialNumber now with
     | Err e => Ret (Err e)
     | Ok (serialNumber, consume) =>
     if negb (ValidHostName serialNumber) then Ret (Err (Errorf "invalid serial number")) else
     let! id := newID in
     let! hostID := newID in
     let! clash :=
       if bool_decide (serialNumber = "") then Ret (Err ErrNoRows) else
       query_row ["devices"]
         (λ t, (λ d, [VText (d_device_public_key d)]) <$> filter (λ d, has_serial serialNumber d = true) (devices t))
         [TString] (λ gs, to_text (hd GNil gs)) in
     match clash with
     | Ok _ => Ret (Err (Errorf "serial number already enrolled"))
     | Err e => if negb (bool_decide (e = ErrNoRows)) then Ret (Err e) else
     let sshUser := if bool_decide (sshUser = "") then "root" else sshUser in
     if negb (ValidSSHUser sshUser) then Ret (Err (Errorf "invalid ssh user")) else
     let sshPort := if bool_decide (sshPort = 0%Z) then 22%Z else sshPort in
     let! r := call (Transaction (consume ++
       [enroll_host hostID serialNumber endpointID sshUser tags sshPort now;
        enroll_device id hostID endpointID fingerprint devicePublicKey serialNumber model now])) in
     match snd r with
     | Some e => Ret (Err (ErrorWrap "enroll device atomically" e))
     | None => Ret (Ok (mkDevice id hostID endpointID fingerprint devicePublicKey "manufactured"
                          serialNumber model now None))
     end
     end
     end
     end).

Definition ListDevices : prog storeE (result (list Device)) :=
  read_locked (Err ErrContext)
    (query_rows ["devices"] (λ t, device_columns <$> order_by (newest d_enrolled_at) (devices t))
       device_types read_device).

Definition GetDeviceByHostID (hostID : string) : prog storeE (result (option Device)) :=
  read_locked (Err ErrContext)
    (query_optional ["devices"]
       (λ t, device_columns <$> take 1 (order_by (newest d_enrolled_at)
          (filter (λ d, d_host_id d = hostID) (devices t)))) device_types read_device).

Definition GetDeviceBySerial (serial : string) : prog storeE (result (option Device)) :=
  read_locked (Err ErrContext)
    (query_optional ["devices"]
       (λ t, device_columns <$> filter (λ d, has_serial serial d = true) (devices t)) device_types read_device).

(** The device of a given id on a given host, unless revoked. *)
Definition active_device (id hostID : string) (d : devices_row) : bool :=
  same (d_id d) id && same (d_host_id d) hostID && is_not (d_state d) "revoked".

Definition set_seen (now : Z) (d : devices_row) : devices_row :=
  DeviceRow (d_id d) (d_host_id d) (d_endpoint_id d) (d_ssh_host_key_fingerprint d) (d_device_public_key d)
    (d_state d) (d_serial_number d) (d_model d) (d_enrolled_at d) (Some now).

Definition set_host_seen (status : string) (now : Z) (h : hosts_row) : hosts_row :=
  HostRow (h_id h) (h_name h) (h_endpoint_id h) (h_ssh_user h) (h_tags h) (h_ssh_port h) status (h_owner h)
    (Some now) (h_created_at h) now.

Definition touch_statements (id hostID endpointID fingerprint status : string)
    (directAddresses relayURLs : option (list string)) (now : Z) : list SQLStatement :=
  [update_where Devices []
     (λ _ d, active_device id hostID d && same (d_endpoint_id d) endpointID &&
             same (d_ssh_host_key_fingerprint d) fingerprint)
     (set_seen now);
   update_where Hosts ["devices"]
     (λ t h, same (h_id h) hostID && existsb (active_device id hostID) (devices t))
     (set_host_seen status now);
   upsert_discovery ["devices"] (λ t, existsb (active_device id hostID) (devices t))
     (EndpointDiscoveryRow hostID (Marshal_list directAddresses) (Marshal_list relayURLs) now)].

Definition TouchDevice (id hostID endpointID fingerprint status : string)
    (directAddresses relayURLs : option (list string)) : prog storeE (option error) :=
  write_locked (Some ErrContext)
    (let! now := nowUnix in
     response ←! transaction
       (touch_statements id hostID endpointID fingerprint status directAddresses relayURLs now);
     if negb (bool_decide (RowsAffected response = 3%Z))
     then Ret (Some (Errorf "device identity mismatch or device revoked")) else Ret None).

Definition set_revoked (now : Z) (d : devices_row) : devices_row :=
  DeviceRow (d_id d) (d_host_id d) (d_endpoint_id d) (d_ssh_host_key_fingerprint d) (d_device_public_key d)
    "revoked" (d_serial_number d) (d_model d) (d_enrolled_at d) (Some now).

Definition expire_grant (now : Z) (g : access_grants_row) : access_grants_row :=
  AccessGrantRow (g_id g) (g_request_id g) (g_user_id g) (g_host_id g) (g_ssh_user g) now
    (g_ephemeral_key g) (g_key_installed g) (g_created_at g).

Definition revoke_statements (auditID id actor hostID : string) (now : Z) : list SQLStatement :=
  [insert_audit_for Devices (λ d, same (d_id d) id && is_not (d_state d) "revoked")
     (audit auditID "device.revoked" "device" id actor now);
   update_where Devices [] (λ _ d, same (d_id d) id && is_not (d_state d) "revoked") (set_revoked now);
   update_where Hosts [] (λ _ h, same (h_id h) hostID) (set_host_seen "revoked" now);
   update_where AccessGrants [] (λ _ g, same (g_host_id g) hostID && (now <? g_expires_at g)%Z) (expire_grant now);
   delete_where RelayAccessGrants [] (λ _ r, same (r_host_id r) hostID)].

Definition DeleteDevice (id actor : string) : prog storeE (option error) :=
  write_locked (Some ErrContext)
    (if bool_decide (actor = "") then Ret (Some actor_required) else
     r ←! query_row ["devices"]
       (λ t, (λ d, [VText (d_host_id d); VText (d_state d)]) <$> filter (λ d, d_id d = id) (devices t))
       [TString; TString] (λ gs, (to_text (nth 0 gs GNil), to_text (nth 1 gs GNil)));
     if bool_decide (snd r = "revoked") then Ret None else
     let! now := nowUnix in
     let! auditID := newID in
     transaction_err (revoke_statements auditID id actor (fst r) now)).
