(* ===== verification/Http.v ===== *)
(** * Requests, responses and handlers (net/http)

    What the handlers of internal/api and the middleware of internal/auth read
    of a request and write to a response.  A handler is a program over the
    store's calls; the values it hands to the JSON encoder are kept as values. *)

From S2P Require Export Effects StoreBase StoreHosts StoreAccess StoreDevices GoCrypto GoDecode.
Open Scope go_scope.

Definition chr0 : ascii := Ascii.zero.

(** ** Parts of the standard library that are parameters

    net/url.Parse, strings.EqualFold and strings.ToLower: the grammar of URLs
    and the case tables of Unicode change from release to release, and only the
    answers below are used. *)

Record URL := mkURL {
  URL_Scheme : string; URL_Host : string; URL_Hostname : string; URL_Port : string;
  URL_Path : string; URL_RawPath : string; URL_Opaque : string;
  URL_RawQuery : string; URL_Fragment : string; URL_ForceQuery : bool; URL_HasUser : bool;
  URL_String : string }.

Class NetURL := {
  url_Parse : string → option URL;
  EqualFold : string → string → bool;
  ToLower : string → string;
}.

(** ** Requests *)

(** [Header] is Header.Get, [CookieNamed] the value r.Cookie finds, [URLParam]
    chi's parameters, [Query] URL.Query().Get; [FormValue] is what r.FormValue
    gives, [IsForm] that it reads the body to do so. *)
Record Request := mkRequest {
  Method : string;
  Request_Host : string;
  Header : string → string;
  CookieNamed : string → option string;
  URLParam : string → string;
  Query : string → string;
  FormValue : string → string;
  IsForm : bool;
  Request_Body : string;
}.

Definition body_consumed (r : Request) : Request :=
  mkRequest (Method r) (Request_Host r) (Header r) (CookieNamed r) (URLParam r) (Query r) (FormValue r) (IsForm r) "".

(** ** Responses *)

Record SetCookie := mkSetCookie {
  Cookie_Name : string; Cookie_Value : string; Cookie_Path : string;
  Cookie_HttpOnly : bool; Cookie_Secure : bool; Cookie_MaxAge : Z }.

Record publicHost := mkPublicHost {
  publicHost_ID : string; publicHost_Name : string; publicHost_SSHUser : string;
  publicHost_Tags : gmap string string; publicHost_SSHPort : Z; publicHost_Status : string;
  publicHost_Owner : string; publicHost_LastSeen : option Z }.

(** The value written: handed to the JSON encoder, or a text.  [V_failure e]
    is the error response with e.Error(). *)
Inductive payload (User : Type) :=
  | V_error (msg : string)
  | V_failure (e : error)
  | V_status (status : string)
  | V_text (text : string)
  | V_empty
  | V_redirect (url : string)
  | V_oidc_config (issuer client_id redirect_url admin_group groups_claim : string) (dev_headers : bool)
  | V_session (session_cookie csrf_token : string) (expires_at : Z)
  | V_anonymous
  | V_identity (user : User) (is_admin : bool) (csrf_token : string)
  | V_public_hosts (l : list publicHost)
  | V_host (h : Host)
  | V_policies (l : list Policy)
  | V_policy (p : Policy)
  | V_command (program : string) (args : list string) (grant_id : string)
  | V_configs (l : list string)
  | V_relay_grant (g : RelayAccessGrant)
  | V_discovery (d : EndpointDiscovery)
  | V_installed (installed : bool)
  | V_grants (l : list AccessGrant)
  | V_requests (l : list AccessRequest)
  | V_keys (l : list SshKey)
  | V_key (k : SshKey)
  | V_tokens (l : list ManufacturingToken)
  | V_token (t : ManufacturingToken)
  | V_batches (l : list ManufacturingBatch)
  | V_batch (b : ManufacturingBatch) (token : string)
  | V_devices (l : list Device)
  | V_device (d : Device).
Arguments V_error {User}. Arguments V_failure {User}. Arguments V_status {User}. Arguments V_text {User}. Arguments V_empty {User}.
Arguments V_redirect {User}. Arguments V_oidc_config {User}. Arguments V_session {User}. Arguments V_anonymous {User}.
Arguments V_identity {User}. Arguments V_public_hosts {User}. Arguments V_host {User}. Arguments V_policies {User}.
Arguments V_policy {User}. Arguments V_command {User}. Arguments V_configs {User}. Arguments V_relay_grant {User}.
Arguments V_discovery {User}. Arguments V_installed {User}. Arguments V_grants {User}. Arguments V_requests {User}.
Arguments V_keys {User}. Arguments V_key {User}. Arguments V_tokens {User}. Arguments V_token {User}.
Arguments V_batches {User}. Arguments V_batch {User}. Arguments V_devices {User}. Arguments V_device {User}.
