(* ===== verification/DeviceAuth.v ===== *)
(** * Device signatures (internal/deviceauth/deviceauth.go)

    The texts a device signs, the window in which a signature is fresh, and its
    verification.  Ed25519 itself is a parameter. *)

From S2P Require Export Http.
Open Scope go_scope.

(** ed25519.Verify(public, message, signature). *)
Class Ed25519 := ed25519_Verify : string → string → string → bool.

Definition MaxClockSkew : Z := 300.

Record DeviceDiscovery := mkDeviceDiscovery { DD_DirectAddresses : slice; DD_RelayURLs : slice }.

Definition discovery_fields : list (struct_field DeviceDiscovery) :=
  [at_field "direct_addresses" DD_DirectAddresses (λ x d, mkDeviceDiscovery x (DD_RelayURLs d)) decode_slice;
   at_field "relay_urls" DD_RelayURLs (λ x d, mkDeviceDiscovery (DD_DirectAddresses d) x) decode_slice].

Definition json_of_discovery (d : DeviceDiscovery) : json :=
  JObj [("direct_addresses", json_of_list (elements (DD_DirectAddresses d)));
        ("relay_urls", json_of_list (elements (DD_RelayURLs d)))].

Definition Verify `{Ed25519} (publicKey payload signature : string) : option error :=
  match StdEncoding.DecodeString publicKey with
  | None => Some (Errorf "invalid device public key")
  | Some public =>
    if negb (bool_decide (String.length public = 32)) then Some (Errorf "invalid device public key") else
    match StdEncoding.DecodeString signature with
    | None => Some (Errorf "invalid device signature")
    | Some sig =>
      if negb (bool_decide (String.length sig = 64)) || negb (ed25519_Verify public payload sig)
      then Some (Errorf "invalid device signature") else None
    end
  end.

(** [now] is now.Unix(). *)
Definition Fresh (timestamp now : Z) : bool :=
  (wrap64 (now - MaxClockSkew) <=? timestamp)%Z && (timestamp <=? wrap64 (now + MaxClockSkew))%Z.

(** fmt.Sprintf with each value on a line of its own. *)
Definition lines (l : list string) : string := strings.Join l (String newline "").

Definition HeartbeatPayload (serial endpointID fingerprint : string) (timestamp : Z) (status : string)
    (discovery : option DeviceDiscovery) : string :=
  let base := lines ["heartbeat"; serial; endpointID; fingerprint; strconv.FormatInt timestamp; status] in
  match discovery with
  | None => base
  | Some d => base +:+ String newline (print (json_of_discovery d))
  end.

Definition AuthorizedKeysPayload (serial endpointID fingerprint : string) (timestamp : Z) (sshUser : string) : string :=
  lines ["authorized-keys"; serial; endpointID; fingerprint; strconv.FormatInt timestamp; sshUser].

Definition AuthorizedKeysAckPayload (serial endpointID fingerprint : string) (timestamp : Z) (sshUser : string)
    (generation : Z) (digest : string) : string :=
  lines ["authorized-keys-ack"; serial; endpointID; fingerprint; strconv.FormatInt timestamp; sshUser;
         strconv.FormatInt generation; digest].

(** ** What a signature covers *)

(** The three kinds of requests never share a text. *)
Definition kind_of (payload : string) : list string := take 1 (strings.Split payload newline).

Lemma Split_join_first a l : str_forallb (λ c, negb (char_eqb c newline)) a = true →
  kind_of (lines (a :: l)) = [a].
Proof.
  intros Ha. unfold kind_of. assert (E : ∀ rest, take 1 (strings.Split (a +:+ String newline rest) newline) = [a]).
  { intros rest. induction a as [|c a IH]; [done|]. rewrite app_cons_s. simpl in *. apply andb_true_iff in Ha as [Hc Ha].
    apply negb_true_iff in Hc. rewrite Hc. specialize (IH Ha). destruct (strings.Split _ newline); [done|].
    simpl in *. by injection IH as ->. }
  destruct l as [|b l]; [|exact (E _)]. clear E. simpl. induction a as [|c a IH]; [done|]. simpl in *.
  apply andb_true_iff in Ha as [Hc Ha]. apply negb_true_iff in Hc. rewrite Hc. specialize (IH Ha).
  change (lines [a]) with a in IH. destruct (strings.Split a newline); [done|]. simpl in *. by injection IH as ->.
Qed.

Lemma lines_app l x : l ≠ [] → lines (l ++ [x]) = lines l +:+ String newline x.
Proof.
  unfold lines. induction l as [|a l IH]; [done|]. intros _. destruct l as [|b l]; [done|].
  simpl in *. rewrite IH by done. by rewrite !app_assoc_s.
Qed.

Lemma lines_cons a l : l ≠ [] → lines (a :: l) = a +:+ String newline (lines l).
Proof. by destruct l. Qed.

(** A device signature is for one kind of request, in a window of five
    minutes either way.  No two of the texts signed for a heartbeat, for
    reading authorized keys and for acknowledging them are equal; and for every
    timestamp an int64 holds, the extremes included, a signature is fresh
    exactly when it is at most 300 seconds from the clock (whose own reading is
    300 seconds away from the limits of int64). *)
Theorem signatures_are_for_one_purpose_and_time :
  (∀ s e f t st d s' e' f' t' u s'' e'' f'' t'' u'' g h,
     HeartbeatPayload s e f t st d ≠ AuthorizedKeysPayload s' e' f' t' u ∧
     HeartbeatPayload s e f t st d ≠ AuthorizedKeysAckPayload s'' e'' f'' t'' u'' g h ∧
     AuthorizedKeysPayload s' e' f' t' u ≠ AuthorizedKeysAckPayload s'' e'' f'' t'' u'' g h) ∧
  (∀ timestamp now, in_int64 timestamp → (min_int64 + 300 ≤ now ≤ max_int64 - 300)%Z →
     Fresh timestamp now = true ↔ (Z.abs (timestamp - now) ≤ 300)%Z).
Proof.
  split.
  - intros s e f t st d s' e' f' t' u s'' e'' f'' t'' u'' g h.
    assert (H1 : kind_of (HeartbeatPayload s e f t st d) = ["heartbeat"]).
    { unfold HeartbeatPayload. destruct d as [d|]; [|by apply Split_join_first].
      rewrite <- (lines_app [_; _; _; _; _; _]) by done. by apply Split_join_first. }
    assert (H2 : kind_of (AuthorizedKeysPayload s' e' f' t' u) = ["authorized-keys"]) by (by apply Split_join_first).
    assert (H3 : kind_of (AuthorizedKeysAckPayload s'' e'' f'' t'' u'' g h) = ["authorized-keys-ack"])
      by (by apply Split_join_first).
    split_and!; intros E; rewrite E in *; congruence.
  - intros timestamp now Ht Hn. unfold Fresh, MaxClockSkew.
    rewrite !wrap64_id by (unfold in_int64, min_int64, max_int64 in *; lia).
    rewrite andb_true_iff, !Z.leb_le. lia.
Qed.

(** [C] The text of a heartbeat does not determine the heartbeat: a discovery
    can be moved into the status, on a line of its own, and the signature still
    fits. *)
Theorem heartbeat_text_is_ambiguous s e f t status d :
  HeartbeatPayload s e f t status (Some d) =
  HeartbeatPayload s e f t (status +:+ String newline (print (json_of_discovery d))) None.
Proof.
  unfold HeartbeatPayload. cbv zeta. rewrite !(lines_cons "heartbeat"), !(lines_cons s), !(lines_cons e), !(lines_cons f),
    !(lines_cons (strconv.FormatInt t)) by done.
  change (lines [status]) with status.
  change (lines [status +:+ String newline (print (json_of_discovery d))]) with (status +:+ String newline (print (json_of_discovery d))).
  repeat (rewrite ?app_cons_s, ?app_assoc_s). done.
Qed.
