(* ===== verification/Auth.v ===== *)
(** * Sessions and the authentication middleware (internal/auth/auth.go)

    Signed session cookies, the OIDC settings, and the middleware that turns a
    request into an identity and guards the routes. *)

From S2P Require Export Http.
Open Scope go_scope.

Definition SessionCookie : string := "ternal_session".
Definition OIDCStateCookie : string := "ternal_oidc_state".
Definition CSRFHeader : string := "X-CSRF-Token".

(** ** Settings *)

Record OIDCConfig := mkOIDCConfig {
  Config_Issuer : string; Config_ClientID : string; Config_ClientSecret : string; Config_RedirectURL : string;
  Config_AdminGroup : string; Config_GroupsClaim : string; Config_PolicyClaims : list string }.

Definition maxPolicyClaims : nat := 16.
Definition maxPolicyClaimNameBytes : nat := 128.
Definition maxPolicyClaimValues : nat := 16.
Definition maxPolicyClaimValueBytes : nat := 256.
Definition maxPolicyClaimsJSONBytes : nat := 1024.
Definition maxSessionCookieBytes : nat := 3800.

Definition reservedPolicyClaims : list string :=
  ["iss"; "sub"; "aud"; "exp"; "nbf"; "iat"; "jti"; "groups"; "azp"; "nonce"; "auth_time"; "acr"; "amr"; "at_hash";
   "c_hash"; "s_hash"; "sid"; "scope"; "client_id"; "cnf"; "act"; "may_act"].

Definition containsControl (value : string) : bool :=
  str_existsb (λ c, (byte_of c <? 32)%N || (byte_of c =? 127)%N) value.

Definition bad_policy_claim (claim : string) : bool :=
  bool_decide (claim = "") || negb (bool_decide (strings.TrimSpace claim = claim)) ||
  (maxPolicyClaimNameBytes <? String.length claim)%nat || negb (ValidString claim) ||
  strings.ContainsAny claim ",=" || containsControl claim.

Fixpoint check_policy_claims (groupsClaim : string) (seen claims : list string) : option error :=
  match claims with
  | [] => None
  | claim :: claims =>
    if bad_policy_claim claim then Some (Errorf "invalid OIDC policy claim")
    else if bool_decide (claim = groupsClaim) then Some (Errorf "OIDC policy claim must not duplicate groups claim")
    else if bool_decide (claim ∈ reservedPolicyClaims) then Some (Errorf "OIDC policy claim is reserved")
    else if bool_decide (claim ∈ seen) then Some (Errorf "duplicate OIDC policy claim")
    else check_policy_claims groupsClaim (claim :: seen) claims
  end.

Definition validatePolicyClaims (c : OIDCConfig) : option error :=
  if (maxPolicyClaims <? length (Config_PolicyClaims c))%nat then Some (Errorf "too many OIDC policy claims")
  else check_policy_claims (Config_GroupsClaim c) [] (Config_PolicyClaims c).

Definition isLoopbackHost (host : string) : bool :=
  bool_decide (host = "localhost") || bool_decide (host = "127.0.0.1") || bool_decide (host = "::1").

Definition policyClaimsFromEnv (value : string) : list string :=
  if bool_decide (value = "") then [] else strings.TrimSpace <$> strings.Split value ",".

(** [env] is os.Getenv. *)
Definition getEnv (env : string → string) (key defaultValue : string) : string :=
  if bool_decide (env key = "") then defaultValue else env key.

Definition OIDCConfigFromEnv (env : string → string) : OIDCConfig :=
  mkOIDCConfig
    (getEnv env "TERNAL_OIDC_ISSUER" "http://localhost:8080/auth/v1/")
    (getEnv env "TERNAL_OIDC_CLIENT_ID" "ternal")
    (env "TERNAL_OIDC_CLIENT_SECRET")
    (getEnv env "TERNAL_OIDC_REDIRECT_URL" "http://127.0.0.1:3000/auth/callback")
    (getEnv env "TERNAL_OIDC_ADMIN_GROUP" "ternal-admins")
    (getEnv env "TERNAL_OIDC_GROUPS_CLAIM" "groups")
    (policyClaimsFromEnv (env "TERNAL_OIDC_POLICY_CLAIMS")).

Section urls.
Context `{NetURL}.

(** An absolute URL without query and fragment. *)
Definition plain_url (o : option URL) : option URL :=
  u ← o;
  if bool_decide (URL_Scheme u = "") || bool_decide (URL_Host u = "") ||
     negb (bool_decide (URL_RawQuery u = "")) || negb (bool_decide (URL_Fragment u = ""))
  then None else Some u.

Definition https_or_loopback (u : URL) : bool :=
  bool_decide (URL_Scheme u = "https") || (bool_decide (URL_Scheme u = "http") && isLoopbackHost (URL_Hostname u)).

Definition Validate (c : OIDCConfig) : option error :=
  match plain_url (url_Parse (Config_Issuer c)) with
  | None => Some (Errorf "invalid OIDC issuer")
  | Some issuer =>
  if negb (https_or_loopback issuer) then Some (Errorf "OIDC issuer must use HTTPS outside loopback development") else
  if bool_decide (Config_ClientID c = "") || (256 <? String.length (Config_ClientID c))%nat ||
     bool_decide (Config_ClientSecret c = "") || (4096 <? String.length (Config_ClientSecret c))%nat
  then Some (Errorf "OIDC client credentials are required") else
  match plain_url (url_Parse (Config_RedirectURL c)) with
  | None => Some (Errorf "invalid OIDC redirect URL")
  | Some redirect =>
  if negb (https_or_loopback redirect) then Some (Errorf "OIDC redirect URL must use HTTPS outside loopback development") else
  if bool_decide (Config_AdminGroup c = "") || bool_decide (Config_GroupsClaim c = "")
  then Some (Errorf "OIDC group configuration is required")
  else validatePolicyClaims c
  end
  end.

(** The issuer has been parsed before ([Validate]). *)
Definition validateProviderEndpoint (c : OIDCConfig) (raw : string) : option error :=
  let outside := Some (Errorf "OIDC endpoint is outside the configured issuer origin") in
  match url_Parse (Config_Issuer c), url_Parse raw with
  | Some issuer, Some endpoint =>
    if negb (bool_decide (URL_Scheme endpoint = URL_Scheme issuer)) || negb (bool_decide (URL_Host endpoint = URL_Host issuer)) ||
       URL_HasUser endpoint || negb (bool_decide (URL_Fragment endpoint = "")) then outside else None
  | _, _ => outside
  end.

Definition SecureCookies (c : OIDCConfig) : bool :=
  match url_Parse (Config_RedirectURL c) with
  | Some redirect => bool_decide (URL_Scheme redirect = "https") | None => false end.

Definition browserRequestOriginAllowed (r : Request) : bool :=
  let source := if bool_decide (Header r "Origin" = "") then Header r "Referer" else Header r "Origin" in
  if bool_decide (source = "") then true else
  match url_Parse source with
  | None => false
  | Some parsed =>
    if bool_decide (URL_Host parsed = "") || negb (EqualFold (URL_Host parsed) (Request_Host r)) then false
    else https_or_loopback parsed
  end.

End urls.

(** ** Users and sessions *)

Record AuthClaims := mkAuthClaims {
  User_Issuer : string; User_Subject : string; User_Groups : slice;
  User_CustomClaims : option (gmap string slice) }.

Record SessionData := mkSessionData {
  Session_User : AuthClaims; Session_CSRFToken : string; Session_ExpiresAt : Z }.

Record AuthContext := mkAuthContext {
  Auth_User : AuthClaims; Auth_IsAdmin : bool; Auth_CSRFToken : string }.

Definition slice_of (l : list string) : slice := Some (l, []).
Definition list_of (s : slice) : list string := default [] (elements s).

Definition PrincipalID (c : AuthClaims) : string :=
  if bool_decide (User_Issuer c = "") then User_Subject c
  else "oidc:" +:+ RawURLEncoding.EncodeToString (Sum256 (User_Issuer c +:+ String chr0 (User_Subject c))).

(** json.Marshal of the claims and of a session, as values. *)
Definition json_of_custom (m : gmap string slice) : json :=
  JObj (sort_keys (prod_map id (λ s, json_of_list (elements s)) <$> map_to_list m)).

Definition json_of_claims (c : AuthClaims) : json :=
  JObj ((if bool_decide (User_Issuer c = "") then [] else [("iss", JStr (User_Issuer c))]) ++
        [("sub", JStr (User_Subject c)); ("groups", json_of_list (elements (User_Groups c)))] ++
        (let m := default ∅ (User_CustomClaims c) in
         if bool_decide (m = ∅) then [] else [("custom_claims", json_of_custom m)])).

Definition json_of_session (d : SessionData) : json :=
  JObj [("user", json_of_claims (Session_User d)); ("csrf_token", JStr (Session_CSRFToken d));
        ("expires_at", JNum (strconv.FormatInt (Session_ExpiresAt d)))].

(** json.Unmarshal into them. *)
Definition claims_fields : list (struct_field AuthClaims) :=
  [at_field "iss" User_Issuer (λ x c, mkAuthClaims x (User_Subject c) (User_Groups c) (User_CustomClaims c)) decode_string;
   at_field "sub" User_Subject (λ x c, mkAuthClaims (User_Issuer c) x (User_Groups c) (User_CustomClaims c)) decode_string;
   at_field "groups" User_Groups (λ x c, mkAuthClaims (User_Issuer c) (User_Subject c) x (User_CustomClaims c)) decode_slice;
   at_field "custom_claims" User_CustomClaims
     (λ x c, mkAuthClaims (User_Issuer c) (User_Subject c) (User_Groups c) x) (decode_map None decode_slice)].

Definition session_fields : list (struct_field SessionData) :=
  [at_field "user" Session_User (λ x s, mkSessionData x (Session_CSRFToken s) (Session_ExpiresAt s)) (decode_struct claims_fields);
   at_field "csrf_token" Session_CSRFToken (λ x s, mkSessionData (Session_User s) x (Session_ExpiresAt s)) decode_string;
   at_field "expires_at" Session_ExpiresAt (λ x s, mkSessionData (Session_User s) (Session_CSRFToken s) x) decode_int64].

Definition zero_claims : AuthClaims := mkAuthClaims "" "" None None.
Definition zero_session : SessionData := mkSessionData zero_claims "" 0.

(** *** Signed values *)

Definition signature (key encoded : string) : string := RawURLEncoding.EncodeToString (hmac_sha256 key encoded).

Definition signValue (data : json) (key : string) : result string :=
  if (String.length key <? 32)%nat then Err (Errorf "signing key must be at least 32 bytes") else
  let encoded := RawURLEncoding.EncodeToString (print data) in
  Ok ("v1." +:+ encoded +:+ "." +:+ signature key encoded).

Definition SignSession (data : SessionData) (key : string) : result string :=
  signed ← signValue (json_of_session data) key;
  if (maxSessionCookieBytes <? String.length signed)%nat then Err (Errorf "session exceeds cookie limit") else Ok signed.

(** strings.SplitN(value, ".", 3). *)
Definition SplitN3 (value : string) : list string :=
  match strings.SplitN2 value "." with
  | [a; rest] => a :: strings.SplitN2 rest "."
  | l => l
  end.

Definition verifyValue {A} (value key : string) (d : decoder A) (zero : A) : result A :=
  if (String.length key <? 32)%nat || (32 * 1024 <? String.length value)%nat then Err (Errorf "invalid signed value") else
  match SplitN3 value with
  | [version; encoded; sig] =>
    if negb (bool_decide (version = "v1")) then Err (Errorf "invalid session format") else
    if negb (bool_decide (sig = signature key encoded)) then Err (Errorf "invalid session signature") else
    match RawURLEncoding.DecodeString encoded with
    | None => Err (Errorf "invalid session encoding")
    | Some payload =>
      match Unmarshal d zero payload with
      | None => Err (Errorf "invalid session data")
      | Some data => Ok data
      end
    end
  | _ => Err (Errorf "invalid session format")
  end.

Definition verifySessionAt (cookie key : string) (now : Z) : result SessionData :=
  data ← verifyValue cookie key (decode_struct session_fields) zero_session;
  if (Session_ExpiresAt data <=? now)%Z then Err (Errorf "session expired") else Ok data.

Definition VerifySession (cookie key : string) : prog storeE (result SessionData) :=
  let! now := nowUnix in Ret (verifySessionAt cookie key now).

Definition session_cookie (value : string) (ttlSeconds : Z) (secure : bool) : SetCookie :=
  mkSetCookie SessionCookie value "/" true secure ttlSeconds.
Definition ClearSessionCookie (secure : bool) : SetCookie := session_cookie "" (-1) secure.
Definition SetOIDCStateCookie (value : string) (secure : bool) : SetCookie :=
  mkSetCookie OIDCStateCookie value "/auth/callback" true secure 300.
Definition ClearOIDCStateCookie (secure : bool) : SetCookie :=
  mkSetCookie OIDCStateCookie "" "/auth/callback" true secure (-1).

(** ** The middleware *)

Record Response := mkResponse {
  Response_Status : Z; Cookies : list SetCookie; Headers : list (string * string); Written : payload AuthClaims }.

Definition respond (status : Z) (v : payload AuthClaims) : Response := mkResponse status [] [] v.

(** A handler sees the request and the identity the middleware put in its context. *)
Definition http_handler : Type := Request → option AuthContext → prog storeE Response.

Inductive authenticated := Unavailable | Anonymous | Identified (a : AuthContext).

(** The claims of a request and its CSRF token. *)
Definition identify (adminGroup : string) (claims : AuthClaims) (csrfToken : string) : authenticated :=
  Identified (mkAuthContext claims (bool_decide (adminGroup ∈ list_of (User_Groups claims))) csrfToken).

(** The cookie of a session; [revoked] is the check against the store, absent
    when there is none. *)
Definition authenticate_cookie (sessionKey adminGroup expectedIssuer : string)
    (revoked : option (string → prog storeE (bool * option error))) (cookie : string) : prog storeE authenticated :=
  let! now := nowUnix in
  match verifySessionAt cookie sessionKey now with
  | Err _ => Ret Anonymous
  | Ok session =>
    if negb (bool_decide (expectedIssuer = "")) && negb (bool_decide (User_Issuer (Session_User session) = expectedIssuer))
    then Ret Anonymous else
    let! blocked := match revoked with Some check => check cookie | None => Ret (false, None) end in
    match snd blocked with
    | Some _ => Ret Unavailable
    | None =>
      if fst blocked : bool then Ret Anonymous else
      let! now := nowUnix in
      if (Session_ExpiresAt session <=? now)%Z then Ret Anonymous
      else Ret (identify adminGroup (Session_User session) (Session_CSRFToken session))
    end
  end.

Definition authenticate (sessionKey : string) (devHeaders : bool) (adminGroup expectedIssuer : string)
    (revoked : option (string → prog storeE (bool * option error))) (r : Request) : prog storeE authenticated :=
  let user := Header r "X-Ternal-User" in
  if devHeaders && negb (bool_decide (user = ""))
  then Ret (identify adminGroup
              (mkAuthClaims "" user (slice_of (strings.Split (Header r "X-Ternal-Groups") ",")) None) "dev-csrf")
  else match CookieNamed r SessionCookie with
       | None => Ret Anonymous
       | Some cookie => authenticate_cookie sessionKey adminGroup expectedIssuer revoked cookie
       end.

Definition AuthMiddlewareWithRevocation (sessionKey : string) (devHeaders : bool) (adminGroup expectedIssuer : string)
    (revoked : option (string → prog storeE (bool * option error))) (next : http_handler) (r : Request) : prog storeE Response :=
  let adminGroup := if bool_decide (adminGroup = "") then "ternal-admins" else adminGroup in
  let! who := authenticate sessionKey devHeaders adminGroup expectedIssuer revoked r in
  match who with
  | Unavailable => Ret (respond 503 (V_text "Session validation unavailable."))
  | Anonymous => next r None
  | Identified a => next r (Some a)
  end.

Definition unauthorized : Response := respond 401 (V_error "unauthorized").

Definition RequireAuth (next : http_handler) : http_handler := λ r a,
  match a with None => Ret unauthorized | Some _ => next r a end.

Definition RequireAdmin (next : http_handler) : http_handler := λ r a,
  if match a with Some identity => Auth_IsAdmin identity | None => false end then next r a
  else Ret (respond 403 (V_error "administrator access required")).

Definition is_mutation (method : string) : bool :=
  bool_decide (method = "POST") || bool_decide (method = "PUT") || bool_decide (method = "DELETE").

(** The token of the header, or else of the form, whose body is then read. *)
Definition csrf_token (r : Request) : string * Request :=
  if bool_decide (Header r CSRFHeader = "")
  then (FormValue r "_csrf", if IsForm r then body_consumed r else r)
  else (Header r CSRFHeader, r).

Definition RequireCSRF `{NetURL} (next : http_handler) : http_handler := λ r a,
  match a with
  | None => Ret unauthorized
  | Some identity =>
    if is_mutation (Method r) then
      if negb (browserRequestOriginAllowed r) then Ret (respond 403 (V_error "invalid request origin")) else
      let (csrf, r) := csrf_token r in
      if negb (bool_decide (csrf = Auth_CSRFToken identity)) then Ret (respond 403 (V_error "invalid csrf token"))
      else next r a
    else next r a
  end.
