(* ===== verification/Api.v ===== *)
(** * The API's handlers (internal/api/api.go)

    Each handler, from the decoded request to the response, over the store's
    operations.  A handler that reads the identity of a request without one
    panics, which the router's Recoverer answers with 500. *)

From S2P Require Export Auth DeviceAuth.
Open Scope go_scope.

Section api.
Context `{NetURL} `{Ed25519}.

(** golang.org/x/crypto/ssh: ParseAuthorizedKey, as the key's text without
    comment (MarshalAuthorizedKey), the comment, what follows the line, and the
    fingerprint of the key. *)
Context (ParseAuthorizedKey : string → option (string * string * string * string)).

Record Server := mkServer {
  server_sessionKey : string;
  server_relayToken : string;
  server_sessionTTL : Z;
  server_devHeaders : bool;
  server_auth : OIDCConfig;
  server_hasStore : bool;
}.

Context (s : Server).

Definition writeError (status : Z) (msg : string) : Response :=
  respond status (V_error (if (status =? 500)%Z then "internal server error" else msg)).

Definition writeStatus (status : string) : Response := respond 200 (V_status status).

Definition writeFailure (status : Z) (e : error) : Response :=
  respond status (if (status =? 500)%Z then V_error "internal server error" else V_failure e).

(** A nil dereference, answered by the Recoverer. *)
Definition panicked : Response := respond 500 V_empty.

Definition with_identity (a : option AuthContext) (k : AuthContext → prog storeE Response) : prog storeE Response :=
  match a with Some identity => k identity | None => Ret panicked end.

(** [if err != nil { writeError(500); return }]. *)
Definition or_500 {A} (p : prog storeE (result A)) (k : A → prog storeE Response) : prog storeE Response :=
  let! r := p in
  match r with Ok x => k x | Err e => Ret (writeFailure 500 e) end.

Definition done_or_500 (p : prog storeE (option error)) : prog storeE Response :=
  let! r := p in
  match r with None => Ret (writeStatus "ok") | Some e => Ret (writeFailure 500 e) end.

Definition max_body : nat := Z.to_nat 1048576.

(** [if err := json.NewDecoder(r.Body).Decode(&req); err != nil { writeError(400); return }]. *)
Definition decoded {A} (limit : nat) (msg : string) (d : decoder A) (zero : A) (r : Request)
    (k : A → prog storeE Response) : prog storeE Response :=
  match Decode limit d zero (Request_Body r) with
  | None => Ret (writeError 400 msg)
  | Some req => k req
  end.

Definition body {A} : decoder A → A → Request → (A → prog storeE Response) → prog storeE Response :=
  decoded max_body "invalid request body".

Definition authClaims (identity : AuthContext) : UserClaims :=
  mkUserClaims (PrincipalID (Auth_User identity)) (list_of (User_Groups (Auth_User identity)))
    (list_of <$> default ∅ (User_CustomClaims (Auth_User identity))).

Definition principal (identity : AuthContext) : string := PrincipalID (Auth_User identity).

(** The loop over the policies; each test reads the clock. *)
Fixpoint some_policy_allows (identity : AuthContext) (host : Host) (sshUser : string) (policies : list Policy) :
    prog storeE bool :=
  match policies with
  | [] => Ret false
  | p :: policies =>
    let! now := nowUnix in
    if PolicyAllowsSSHUser now (authClaims identity) host p sshUser then Ret true
    else some_policy_allows identity host sshUser policies
  end.

(** ** Hosts *)

Definition public_host (h : Host) : publicHost :=
  mkPublicHost (Host_ID h) (Host_Name h) (Host_SSHUser h) (Host_Tags h) (Host_SSHPort h) (Host_Status h)
    (Host_Owner h) (Host_LastSeen h).

Definition publicHosts (hosts : list Host) : list publicHost := public_host <$> hosts.

Definition handleListHosts : http_handler := λ _ a,
  or_500 ListHosts (λ hosts,
  with_identity a (λ identity,
  if Auth_IsAdmin identity then Ret (respond 200 (V_public_hosts (publicHosts hosts))) else
  or_500 ListPolicies (λ policies,
  let! now := nowUnix in
  Ret (respond 200 (V_public_hosts (publicHosts (FilterVisibleHosts now (authClaims identity) hosts policies))))))).

Definition tags_decoder : decoder (option (gmap string string)) := decode_map "" decode_string.

Definition new_host_fields : list (struct_field NewHost) :=
  let mk n e u t p st o l := mkNewHost n e u t p st o l in
  [at_field "name" NewHost_Name (λ x h, mk x (NewHost_EndpointID h) (NewHost_SSHUser h) (NewHost_Tags h) (NewHost_SSHPort h) (NewHost_Status h) (NewHost_Owner h) (NewHost_LastSeen h)) decode_string;
   at_field "endpoint_id" NewHost_EndpointID (λ x h, mk (NewHost_Name h) x (NewHost_SSHUser h) (NewHost_Tags h) (NewHost_SSHPort h) (NewHost_Status h) (NewHost_Owner h) (NewHost_LastSeen h)) decode_string;
   at_field "ssh_user" NewHost_SSHUser (λ x h, mk (NewHost_Name h) (NewHost_EndpointID h) x (NewHost_Tags h) (NewHost_SSHPort h) (NewHost_Status h) (NewHost_Owner h) (NewHost_LastSeen h)) decode_string;
   at_field "tags" NewHost_Tags (λ x h, mk (NewHost_Name h) (NewHost_EndpointID h) (NewHost_SSHUser h) x (NewHost_SSHPort h) (NewHost_Status h) (NewHost_Owner h) (NewHost_LastSeen h)) tags_decoder;
   at_field "ssh_port" NewHost_SSHPort (λ x h, mk (NewHost_Name h) (NewHost_EndpointID h) (NewHost_SSHUser h) (NewHost_Tags h) x (NewHost_Status h) (NewHost_Owner h) (NewHost_LastSeen h)) decode_uint16;
   at_field "status" NewHost_Status (λ x h, mk (NewHost_Name h) (NewHost_EndpointID h) (NewHost_SSHUser h) (NewHost_Tags h) (NewHost_SSHPort h) x (NewHost_Owner h) (NewHost_LastSeen h)) decode_string;
   at_field "owner" NewHost_Owner (λ x h, mk (NewHost_Name h) (NewHost_EndpointID h) (NewHost_SSHUser h) (NewHost_Tags h) (NewHost_SSHPort h) (NewHost_Status h) x (NewHost_LastSeen h)) decode_string;
   at_field "last_seen" NewHost_LastSeen (λ x h, mk (NewHost_Name h) (NewHost_EndpointID h) (NewHost_SSHUser h) (NewHost_Tags h) (NewHost_SSHPort h) (NewHost_Status h) (NewHost_Owner h) x) (decode_pointer 0%Z decode_int64)].

Definition zero_host : NewHost := mkNewHost "" "" "" None 0 "" "" None.

Definition handleCreateHost : http_handler := λ r a,
  body (decode_struct new_host_fields) zero_host r (λ h,
  with_identity a (λ identity,
  or_500 (CreateHost h (principal identity)) (λ created,
  Ret (respond 201 (V_host created))))).

Definition handleGetHost : http_handler := λ r a,
  or_500 (GetHost (URLParam r "id")) (λ host,
  match host with
  | None => Ret (writeError 404 "host not found")
  | Some host =>
    with_identity a (λ identity,
    if Auth_IsAdmin identity then Ret (respond 200 (V_host host)) else
    or_500 ListPolicies (λ policies,
    let! allowed := some_policy_allows identity host (Host_SSHUser host) policies in
    if allowed : bool then Ret (respond 200 (V_host host)) else Ret (writeError 404 "host not found")))
  end).

Definition handleUpdateHost : http_handler := λ r a,
  body (decode_struct new_host_fields) zero_host r (λ h,
  with_identity a (λ identity, done_or_500 (UpdateHost (URLParam r "id") h (principal identity)))).

Definition handleDeleteHost : http_handler := λ r a,
  with_identity a (λ identity, done_or_500 (DeleteHost (URLParam r "id") (principal identity))).

(** ** Policies *)

(** NewPolicy while it is decoded: its slice keeps what its array holds. *)
Record policy_request := mkPolicyRequest {
  pr_Name : string; pr_Principal : string; pr_HostSelector : string; pr_SSHUsers : slice; pr_ExpiresAt : option Z }.

Definition policy_fields : list (struct_field policy_request) :=
  [at_field "name" pr_Name (λ x p, mkPolicyRequest x (pr_Principal p) (pr_HostSelector p) (pr_SSHUsers p) (pr_ExpiresAt p)) decode_string;
   at_field "principal" pr_Principal (λ x p, mkPolicyRequest (pr_Name p) x (pr_HostSelector p) (pr_SSHUsers p) (pr_ExpiresAt p)) decode_string;
   at_field "host_selector" pr_HostSelector (λ x p, mkPolicyRequest (pr_Name p) (pr_Principal p) x (pr_SSHUsers p) (pr_ExpiresAt p)) decode_string;
   at_field "ssh_users" pr_SSHUsers (λ x p, mkPolicyRequest (pr_Name p) (pr_Principal p) (pr_HostSelector p) x (pr_ExpiresAt p)) decode_slice;
   at_field "expires_at" pr_ExpiresAt (λ x p, mkPolicyRequest (pr_Name p) (pr_Principal p) (pr_HostSelector p) (pr_SSHUsers p) x) (decode_pointer 0%Z decode_int64)].

Definition new_policy (p : policy_request) : NewPolicy :=
  mkNewPolicy (pr_Name p) (pr_Principal p) (pr_HostSelector p) (elements (pr_SSHUsers p)) (pr_ExpiresAt p).

Definition zero_policy : policy_request := mkPolicyRequest "" "" "" None None.

Definition handleListPolicies : http_handler := λ _ _,
  or_500 ListPolicies (λ policies, Ret (respond 200 (V_policies policies))).

Definition handleCreatePolicy : http_handler := λ r a,
  body (decode_struct policy_fields) zero_policy r (λ p,
  with_identity a (λ identity,
  or_500 (CreatePolicy (new_policy p) (principal identity)) (λ created, Ret (respond 201 (V_policy created))))).

Definition handleUpdatePolicy : http_handler := λ r a,
  body (decode_struct policy_fields) zero_policy r (λ p,
  with_identity a (λ identity, done_or_500 (UpdatePolicy (URLParam r "id") (new_policy p) (principal identity)))).

Definition handleDeletePolicy : http_handler := λ r a,
  with_identity a (λ identity, done_or_500 (DeletePolicy (URLParam r "id") (principal identity))).

(** ** Access *)

Record ssh_request := mkSshRequest { sr_HostID : string; sr_SSHUser : string }.

Definition ssh_request_fields : list (struct_field ssh_request) :=
  [at_field "host_id" sr_HostID (λ x q, mkSshRequest x (sr_SSHUser q)) decode_string;
   at_field "ssh_user" sr_SSHUser (λ x q, mkSshRequest (sr_HostID q) x) decode_string].

Definition usable_device (device : option Device) : option Device :=
  d ← device; if bool_decide (Device_State d = "revoked") then None else Some d.

Definition host_command (h : Host) (sshUser : string) (device : Device) (discovery : EndpointDiscovery) : result SshCommand :=
  BuildStrictGrantAwareSSHCommand "ternalctl" (Host_ID h) (Host_EndpointID h) sshUser (Host_SSHPort h)
    (Device_SSHHostKeyFingerprint device) (mkRelayConfig (Discovery_RelayURLs discovery) [])
    (Discovery_DirectAddresses discovery).

(** A refusal by the policies is recorded before it is answered. *)
Definition denied (action : string) (host : Host) (identity : AuthContext) : prog storeE Response :=
  let! r := RecordPolicyDenied action (Host_ID host) (principal identity) in
  Ret (match r with
       | Some _ => writeError 500 "internal server error"
       | None => writeError 404 "host not found"
       end).

Definition handleIssueSSHCommand : http_handler := λ r a,
  body (decode_struct ssh_request_fields) (mkSshRequest "" "") r (λ req,
  or_500 (GetHost (sr_HostID req)) (λ host,
  match host with
  | None => Ret (writeError 404 "host not found")
  | Some host =>
    with_identity a (λ identity,
    let sshUser := if bool_decide (sr_SSHUser req = "") then Host_SSHUser host else sr_SSHUser req in
    let issue :=
      or_500 (GetDeviceByHostID (Host_ID host)) (λ device,
      match usable_device device with
      | None => Ret (writeError 404 "host not found")
      | Some device =>
        if negb (ValidHostKeyFingerprint (Device_SSHHostKeyFingerprint device))
        then Ret (writeError 409 "host has no verified SSH host-key fingerprint") else
        or_500 (GetEndpointDiscovery (Host_ID host)) (λ discovery,
        match discovery with
        | None => Ret (writeError 409 "host has no explicit relay or direct route")
        | Some discovery =>
          match host_command host sshUser device discovery with
          | Err e => Ret (writeFailure 400 e)
          | Ok cmd =>
            or_500 (ListSSHKeys (principal identity)) (λ keys,
            if bool_decide (keys = []) then Ret (writeError 409 "register an SSH public key before requesting access") else
            let! now := nowUnix in
            or_500 (IssueSSHAccess (principal identity) (Host_ID host) sshUser (now + 300)) (λ grantID,
            Ret (respond 200 (V_command (Cmd_Program cmd) (Cmd_Args cmd) grantID))))
          end
        end)
      end) in
    if Auth_IsAdmin identity then issue else
    or_500 ListPolicies (λ policies,
    let! allowed := some_policy_allows identity host sshUser policies in
    if allowed : bool then issue else denied "access.ssh.denied" host identity))
  end)).

(** The values of the [-o] options, the first equals sign of each a space. *)
Definition replace_first_equals (arg : string) : string :=
  match strings.SplitN2 arg "=" with [k; v] => k +:+ " " +:+ v | _ => arg end.

Fixpoint config_options (args : list string) : list string :=
  match args with
  | x :: ((y :: _) as rest) =>
    (if bool_decide (x = "-o") then ["  " +:+ replace_first_equals y] else []) ++ config_options rest
  | _ => []
  end.

Definition sshConfigEntry (name endpointID : string) (sshPort : Z) (sshUser : string) (options : list string) : option string :=
  if negb (ValidHostName name) || negb (ValidSSHUser sshUser) then None else
  let nl := String newline "" in
  Some ("Host " +:+ name +:+ nl +:+ "  HostName " +:+ endpointID +:+ nl +:+ "  Port " +:+ strconv.FormatInt sshPort +:+ nl +:+
        "  User " +:+ sshUser +:+ nl +:+ strings.Join options nl).

(** The entry of one host, unless something it needs is missing. *)
Definition host_config (h : Host) : prog storeE (option string) :=
  let! device := GetDeviceByHostID (Host_ID h) in
  let! discovery := GetEndpointDiscovery (Host_ID h) in
  Ret (match device, discovery with
       | Ok device, Ok (Some discovery) =>
         device ← usable_device device;
         match host_command h (Host_SSHUser h) device discovery with
         | Err _ => None
         | Ok cmd => sshConfigEntry (Host_Name h) (Host_EndpointID h) (Host_SSHPort h) (Host_SSHUser h) (config_options (Cmd_Args cmd))
         end
       | _, _ => None
       end).

Fixpoint host_configs (hosts : list Host) : prog storeE (list string) :=
  match hosts with
  | [] => Ret []
  | h :: hosts =>
    let! entry := host_config h in
    let! more := host_configs hosts in
    Ret (match entry with Some e => e :: more | None => more end)
  end.

Definition handleSSHConfig : http_handler := λ _ a,
  match a with
  | None => Ret (writeError 401 "unauthorized")
  | Some identity =>
    or_500 ListHosts (λ hosts,
    or_500 ListPolicies (λ policies,
    let! visible :=
      if Auth_IsAdmin identity then Ret hosts else
      let! now := nowUnix in Ret (FilterVisibleHosts now (authClaims identity) hosts policies) in
    let! configs := host_configs visible in
    Ret (respond 200 (V_configs configs))))
  end.

Definition isHex (value : string) : bool :=
  str_forallb (λ c, between "0" "9" c || between "a" "f" c || between "A" "F" c) value.

Definition bad_endpoint (endpointID : string) : bool :=
  negb (bool_decide (String.length endpointID = 64)) || negb (isHex endpointID).

Record relay_request := mkRelayRequest {
  rr_HostID : string; rr_ClientEndpointID : string; rr_SSHUser : string; rr_TTL : Z }.

Definition relay_request_fields : list (struct_field relay_request) :=
  [at_field "host_id" rr_HostID (λ x q, mkRelayRequest x (rr_ClientEndpointID q) (rr_SSHUser q) (rr_TTL q)) decode_string;
   at_field "client_endpoint_id" rr_ClientEndpointID (λ x q, mkRelayRequest (rr_HostID q) x (rr_SSHUser q) (rr_TTL q)) decode_string;
   at_field "ssh_user" rr_SSHUser (λ x q, mkRelayRequest (rr_HostID q) (rr_ClientEndpointID q) x (rr_TTL q)) decode_string;
   at_field "ttl" rr_TTL (λ x q, mkRelayRequest (rr_HostID q) (rr_ClientEndpointID q) (rr_SSHUser q) x) decode_int64].

Definition handleIssueRelayGrant : http_handler := λ r a,
  body (decode_struct relay_request_fields) (mkRelayRequest "" "" "" 0) r (λ req,
  if negb (bool_decide (rr_TTL req = 0%Z)) && negb (bool_decide (rr_TTL req = 300%Z))
  then Ret (writeError 400 "relay grants are fixed at 300 seconds") else
  if bad_endpoint (rr_ClientEndpointID req) then Ret (writeError 400 "invalid client endpoint id") else
  or_500 (GetHost (rr_HostID req)) (λ host,
  match host with
  | None => Ret (writeError 404 "host not found")
  | Some host =>
    or_500 (GetDeviceByHostID (Host_ID host)) (λ device,
    match usable_device device with
    | None => Ret (writeError 404 "host not found")
    | Some _ =>
      with_identity a (λ identity,
      let grant :=
        or_500 (CreateRelayAccessGrant (rr_HostID req) (strings.ToLowerASCII (rr_ClientEndpointID req)) (principal identity) 300)
          (λ grant, Ret (respond 201 (V_relay_grant grant))) in
      if Auth_IsAdmin identity then grant else
      or_500 ListPolicies (λ policies,
      let account := if bool_decide (rr_SSHUser req = "") then Host_SSHUser host else rr_SSHUser req in
      let! allowed := some_policy_allows identity host account policies in
      if allowed : bool then grant else denied "relay.grant.denied" host identity))
    end)
  end)).

Definition canAccessHost (a : option AuthContext) (host : Host) (sshUser : string) : prog storeE bool :=
  match a with
  | None => Ret false
  | Some identity =>
    if Auth_IsAdmin identity then Ret true else
    let! policies := ListPolicies in
    match policies with Err _ => Ret false | Ok policies => some_policy_allows identity host sshUser policies end
  end.

Definition handleGetEndpointDiscovery : http_handler := λ r a,
  let hostID := URLParam r "host" in
  let not_found := writeError 404 "discovery not found" in
  or_500 (GetHost hostID) (λ host,
  match host with
  | None => Ret not_found
  | Some host =>
    let! allowed := canAccessHost a host (Host_SSHUser host) in
    if negb allowed then Ret not_found else
    or_500 (GetDeviceByHostID (Host_ID host)) (λ device,
    match usable_device device with
    | None => Ret not_found
    | Some _ =>
      or_500 (GetEndpointDiscovery hostID) (λ discovery,
      Ret (match discovery with None => not_found | Some d => respond 200 (V_discovery d) end))
    end)
  end).

Definition handleKeyStatus : http_handler := λ r a,
  or_500 (GetAccessGrant (URLParam r "id")) (λ grant,
  match grant with
  | None => Ret (writeError 404 "grant not found")
  | Some grant =>
    with_identity a (λ identity,
    if negb (Auth_IsAdmin identity) && negb (bool_decide (AccessGrant_UserID grant = principal identity))
    then Ret (writeError 404 "grant not found")
    else Ret (respond 200 (V_installed (AccessGrant_KeyInstalled grant))))
  end).

Definition handleListAccessGrants : http_handler := λ _ a,
  with_identity a (λ identity,
  or_500 (if Auth_IsAdmin identity then ListAccessGrants else ListUserAccessGrants (principal identity)) (λ grants,
  Ret (respond 200 (V_grants grants)))).

Definition handleListAccessRequests : http_handler := λ _ a,
  with_identity a (λ identity,
  or_500 (if Auth_IsAdmin identity then ListAccessRequests else ListUserAccessRequests (principal identity)) (λ requests,
  Ret (respond 200 (V_requests requests)))).

(** ** SSH keys *)

Definition one_field (name : string) : list (struct_field string) := [at_field name id (λ x _, x) decode_string].

Definition handleListSSHKeys : http_handler := λ _ a,
  match a with
  | None => Ret (writeError 401 "unauthorized")
  | Some identity => or_500 (ListSSHKeys (principal identity)) (λ keys, Ret (respond 200 (V_keys keys)))
  end.

(** The key in its canonical form, with its comment. *)
Definition canonical_key (publicKey : string) : option (string * string) :=
  match ParseAuthorizedKey (strings.TrimSpace publicKey) with
  | None => None
  | Some (key, comment, rest, fingerprint) =>
    if negb (bool_decide (strings.TrimSpace rest = "")) then None else
    let canonical := strings.TrimSpace key in
    Some (if bool_decide (strings.TrimSpace comment = "") then canonical
          else canonical +:+ " " +:+ strings.TrimSpace comment, fingerprint)
  end.

Definition handleCreateSSHKey : http_handler := λ r a,
  match a with
  | None => Ret (writeError 401 "unauthorized")
  | Some identity =>
    body (decode_struct (one_field "public_key")) "" r (λ publicKey,
    match canonical_key publicKey with
    | None => Ret (writeError 400 "invalid SSH public key")
    | Some (canonical, fingerprint) =>
      or_500 (CreateSSHKey (principal identity) canonical fingerprint) (λ key, Ret (respond 201 (V_key key)))
    end)
  end.

Definition handleDeleteSSHKey : http_handler := λ r a,
  with_identity a (λ identity,
  let! x := DeleteSSHKeyForUser (URLParam r "id") (principal identity) (Auth_IsAdmin identity) in
  Ret (match snd x with
       | Some e => writeFailure 500 e
       | None => if fst x : bool then writeStatus "ok" else writeError 404 "SSH key not found"
       end)).

(** ** Manufacturing and devices *)

Definition handleListManufacturingTokens : http_handler := λ _ _,
  or_500 ListManufacturingTokens (λ tokens, Ret (respond 200 (V_tokens tokens))).

Record token_request := mkTokenRequest { tr_BatchID : string; tr_ExpiresAt : option Z }.

Definition token_request_fields : list (struct_field token_request) :=
  [at_field "batch_id" tr_BatchID (λ x q, mkTokenRequest x (tr_ExpiresAt q)) decode_string;
   at_field "expires_at" tr_ExpiresAt (λ x q, mkTokenRequest (tr_BatchID q) x) (decode_pointer 0%Z decode_int64)].

Definition handleCreateManufacturingToken : http_handler := λ r a,
  body (decode_struct token_request_fields) (mkTokenRequest "" None) r (λ req,
  with_identity a (λ identity,
  or_500 (CreateManufacturingToken (tr_BatchID req) (tr_ExpiresAt req) (principal identity)) (λ token,
  Ret (respond 201 (V_token token))))).

Definition handleListManufacturingBatches : http_handler := λ _ _,
  or_500 ListManufacturingBatches (λ batches, Ret (respond 200 (V_batches batches))).

Record batch_request := mkBatchRequest { br_Name : string; br_SerialPrefix : string; br_ExpiresAt : Z; br_MaxDevices : Z }.

Definition batch_request_fields : list (struct_field batch_request) :=
  [at_field "name" br_Name (λ x q, mkBatchRequest x (br_SerialPrefix q) (br_ExpiresAt q) (br_MaxDevices q)) decode_string;
   at_field "serial_prefix" br_SerialPrefix (λ x q, mkBatchRequest (br_Name q) x (br_ExpiresAt q) (br_MaxDevices q)) decode_string;
   at_field "expires_at" br_ExpiresAt (λ x q, mkBatchRequest (br_Name q) (br_SerialPrefix q) x (br_MaxDevices q)) decode_int64;
   at_field "max_devices" br_MaxDevices (λ x q, mkBatchRequest (br_Name q) (br_SerialPrefix q) (br_ExpiresAt q) x) decode_int64].

Definition handleCreateManufacturingBatch : http_handler := λ r a,
  body (decode_struct batch_request_fields) (mkBatchRequest "" "" 0 0) r (λ req,
  with_identity a (λ identity,
  or_500 (CreateManufacturingBatch (br_Name req) (br_SerialPrefix req) (br_ExpiresAt req) (br_MaxDevices req) (principal identity))
    (λ created, Ret (respond 201 (V_batch (fst created) (snd created)))))).

Definition handleCloseManufacturingBatch : http_handler := λ r a,
  with_identity a (λ identity, done_or_500 (CloseManufacturingBatch (URLParam r "id") (principal identity))).

Record enroll_request := mkEnrollRequest {
  er_Token : string; er_EndpointID : string; er_SerialNumber : string; er_Model : string; er_Fingerprint : string;
  er_DevicePublicKey : string; er_SSHUser : string; er_SSHPort : Z; er_Tags : option (gmap string string) }.

Definition enroll_request_fields : list (struct_field enroll_request) :=
  let mk := mkEnrollRequest in
  [at_field "token" er_Token (λ x q, mk x (er_EndpointID q) (er_SerialNumber q) (er_Model q) (er_Fingerprint q) (er_DevicePublicKey q) (er_SSHUser q) (er_SSHPort q) (er_Tags q)) decode_string;
   at_field "endpoint_id" er_EndpointID (λ x q, mk (er_Token q) x (er_SerialNumber q) (er_Model q) (er_Fingerprint q) (er_DevicePublicKey q) (er_SSHUser q) (er_SSHPort q) (er_Tags q)) decode_string;
   at_field "serial" er_SerialNumber (λ x q, mk (er_Token q) (er_EndpointID q) x (er_Model q) (er_Fingerprint q) (er_DevicePublicKey q) (er_SSHUser q) (er_SSHPort q) (er_Tags q)) decode_string;
   at_field "model" er_Model (λ x q, mk (er_Token q) (er_EndpointID q) (er_SerialNumber q) x (er_Fingerprint q) (er_DevicePublicKey q) (er_SSHUser q) (er_SSHPort q) (er_Tags q)) decode_string;
   at_field "ssh_host_key_fingerprint" er_Fingerprint (λ x q, mk (er_Token q) (er_EndpointID q) (er_SerialNumber q) (er_Model q) x (er_DevicePublicKey q) (er_SSHUser q) (er_SSHPort q) (er_Tags q)) decode_string;
   at_field "device_public_key" er_DevicePublicKey (λ x q, mk (er_Token q) (er_EndpointID q) (er_SerialNumber q) (er_Model q) (er_Fingerprint q) x (er_SSHUser q) (er_SSHPort q) (er_Tags q)) decode_string;
   at_field "ssh_user" er_SSHUser (λ x q, mk (er_Token q) (er_EndpointID q) (er_SerialNumber q) (er_Model q) (er_Fingerprint q) (er_DevicePublicKey q) x (er_SSHPort q) (er_Tags q)) decode_string;
   at_field "ssh_port" er_SSHPort (λ x q, mk (er_Token q) (er_EndpointID q) (er_SerialNumber q) (er_Model q) (er_Fingerprint q) (er_DevicePublicKey q) (er_SSHUser q) x (er_Tags q)) decode_uint16;
   at_field "tags" er_Tags (λ x q, mk (er_Token q) (er_EndpointID q) (er_SerialNumber q) (er_Model q) (er_Fingerprint q) (er_DevicePublicKey q) (er_SSHUser q) (er_SSHPort q) x) tags_decoder].

Definition bad_public_key (key : string) : bool :=
  match StdEncoding.DecodeString key with
  | Some publicKey => negb (bool_decide (String.length publicKey = 32)) | None => true end.

Definition handleEnrollDevice : http_handler := λ r _,
  body (decode_struct enroll_request_fields) (mkEnrollRequest "" "" "" "" "" "" "" 0 None) r (λ req,
  if bad_endpoint (er_EndpointID req) || negb (ValidHostKeyFingerprint (er_Fingerprint req)) ||
     bad_public_key (er_DevicePublicKey req)
  then Ret (writeError 400 "invalid enrollment request") else
  let! x := EnrollDevice (er_Token req) (strings.ToLowerASCII (er_EndpointID req)) (er_SerialNumber req) (er_Model req)
    (er_Fingerprint req) (er_DevicePublicKey req) (er_SSHUser req) (er_SSHPort req) (er_Tags req) in
  Ret (match x with Err e => writeFailure 400 e | Ok device => respond 201 (V_device device) end)).

Definition handleListDevices : http_handler := λ _ _,
  or_500 ListDevices (λ devices, Ret (respond 200 (V_devices devices))).

Definition handleDeleteDevice : http_handler := λ r a,
  with_identity a (λ identity, done_or_500 (DeleteDevice (URLParam r "id") (principal identity))).

(** ** Agents *)

Inductive verification := Verified (device : Device) | StoreUnavailable | NotVerified.

Definition verifyDevice (serial endpointID fingerprint : string) (timestamp : Z) (signature payload : string) :
    prog storeE verification :=
  let! now := nowUnix in
  if negb (Fresh timestamp now) then Ret NotVerified else
  let! found := GetDeviceBySerial serial in
  Ret (match found with
       | Err _ => StoreUnavailable
       | Ok device =>
         match usable_device device with
         | None => NotVerified
         | Some d =>
           if negb (bool_decide (Device_EndpointID d = endpointID)) ||
              negb (bool_decide (Device_SSHHostKeyFingerprint d = fingerprint))
           then NotVerified else
           match Verify (Device_DevicePublicKey d) payload signature with
           | Some _ => NotVerified
           | None => Verified d
           end
         end
       end).

Definition device_unavailable : Response := writeError 503 "device state unavailable".
Definition device_unauthorized : Response := writeError 401 "device authentication failed".

Definition with_device (p : prog storeE verification) (k : Device → prog storeE Response) : prog storeE Response :=
  let! v := p in
  match v with
  | Verified device => k device
  | StoreUnavailable => Ret device_unavailable
  | NotVerified => Ret device_unauthorized
  end.

Record heartbeat_request := mkHeartbeat {
  hb_Status : string; hb_Serial : string; hb_EndpointID : string; hb_Fingerprint : string; hb_Timestamp : Z;
  hb_Signature : string; hb_Discovery : option DeviceDiscovery }.

Definition heartbeat_fields : list (struct_field heartbeat_request) :=
  let mk := mkHeartbeat in
  [at_field "service_status" hb_Status (λ x q, mk x (hb_Serial q) (hb_EndpointID q) (hb_Fingerprint q) (hb_Timestamp q) (hb_Signature q) (hb_Discovery q)) decode_string;
   at_field "serial" hb_Serial (λ x q, mk (hb_Status q) x (hb_EndpointID q) (hb_Fingerprint q) (hb_Timestamp q) (hb_Signature q) (hb_Discovery q)) decode_string;
   at_field "endpoint_id" hb_EndpointID (λ x q, mk (hb_Status q) (hb_Serial q) x (hb_Fingerprint q) (hb_Timestamp q) (hb_Signature q) (hb_Discovery q)) decode_string;
   at_field "ssh_host_key_fingerprint" hb_Fingerprint (λ x q, mk (hb_Status q) (hb_Serial q) (hb_EndpointID q) x (hb_Timestamp q) (hb_Signature q) (hb_Discovery q)) decode_string;
   at_field "timestamp" hb_Timestamp (λ x q, mk (hb_Status q) (hb_Serial q) (hb_EndpointID q) (hb_Fingerprint q) x (hb_Signature q) (hb_Discovery q)) decode_int64;
   at_field "signature" hb_Signature (λ x q, mk (hb_Status q) (hb_Serial q) (hb_EndpointID q) (hb_Fingerprint q) (hb_Timestamp q) x (hb_Discovery q)) decode_string;
   at_field "discovery" hb_Discovery (λ x q, mk (hb_Status q) (hb_Serial q) (hb_EndpointID q) (hb_Fingerprint q) (hb_Timestamp q) (hb_Signature q) x)
     (decode_pointer (mkDeviceDiscovery None None) (decode_struct discovery_fields))].

Definition zero_heartbeat : heartbeat_request := mkHeartbeat "" "" "" "" 0 "" None.

Definition heartbeat_text (q : heartbeat_request) : string :=
  HeartbeatPayload (hb_Serial q) (hb_EndpointID q) (hb_Fingerprint q) (hb_Timestamp q) (hb_Status q) (hb_Discovery q).

Definition handleHeartbeat : http_handler := λ r _,
  body (decode_struct heartbeat_fields) zero_heartbeat r (λ req,
  with_device (verifyDevice (hb_Serial req) (hb_EndpointID req) (hb_Fingerprint req) (hb_Timestamp req) (hb_Signature req)
                 (heartbeat_text req)) (λ device,
  let direct := hb_Discovery req ≫= (λ d, elements (DD_DirectAddresses d)) in
  let relays := hb_Discovery req ≫= (λ d, elements (DD_RelayURLs d)) in
  let! touched := TouchDevice (Device_ID device) (Device_HostID device) (hb_EndpointID req) (hb_Fingerprint req)
    (hb_Status req) direct relays in
  match touched with
  | Some _ => Ret device_unavailable
  | None =>
    if bool_decide (hb_Status req = "healthy") then
      let! renewed := RenewRelayAccessGrant (Device_HostID device) (strings.ToLowerASCII (hb_EndpointID req))
        ("device:" +:+ Device_SerialNumber device) 300 in
      Ret (match renewed with
           | Err _ => writeError 500 "could not renew device relay admission" | Ok _ => writeStatus "ok" end)
    else Ret (writeStatus "ok")
  end)).

(** The identity an agent sends in its headers. *)
Record device_headers := mkDeviceHeaders {
  dh_serial : string; dh_endpointID : string; dh_fingerprint : string; dh_timestamp : option Z; dh_signature : string }.

Definition headers_of (r : Request) : device_headers :=
  mkDeviceHeaders (Header r "X-Ternal-Device-Serial") (Header r "X-Ternal-Device-Endpoint-Id")
    (Header r "X-Ternal-Device-Ssh-Host-Key-Fingerprint") (strconv.ParseInt (Header r "X-Ternal-Device-Timestamp"))
    (Header r "X-Ternal-Device-Signature").

(** [text] is the signed text, given the timestamp. *)
Definition verified_headers (r : Request) (text : Z → string) (k : Device → prog storeE Response) : prog storeE Response :=
  let h := headers_of r in
  match dh_timestamp h with
  | None => Ret device_unauthorized
  | Some timestamp =>
    with_device (verifyDevice (dh_serial h) (dh_endpointID h) (dh_fingerprint h) timestamp (dh_signature h) (text timestamp)) k
  end.

Definition handleAgentAuthorizedKeys : http_handler := λ r _,
  let sshUser := Query r "ssh_user" in
  let h := headers_of r in
  verified_headers r (λ timestamp, AuthorizedKeysPayload (dh_serial h) (dh_endpointID h) (dh_fingerprint h) timestamp sshUser) (λ device,
  let! x := PublishAuthorizedKeysSnapshot (Device_HostID device) sshUser in
  Ret (match x with
       | Err _ => writeError 500 "internal server error"
       | Ok (text, digestHex, generation) =>
         mkResponse 200 [] [("X-Ternal-Authorized-Keys-Generation", strconv.FormatInt generation);
                            ("X-Ternal-Authorized-Keys-Sha256", digestHex)] (V_text text)
       end)).

Record ack_request := mkAckRequest { ar_SSHUser : string; ar_Generation : Z; ar_SHA256 : string }.

Definition ack_fields : list (struct_field ack_request) :=
  [at_field "ssh_user" ar_SSHUser (λ x q, mkAckRequest x (ar_Generation q) (ar_SHA256 q)) decode_string;
   at_field "generation" ar_Generation (λ x q, mkAckRequest (ar_SSHUser q) x (ar_SHA256 q)) decode_int64;
   at_field "sha256" ar_SHA256 (λ x q, mkAckRequest (ar_SSHUser q) (ar_Generation q) x) decode_string].

Definition handleAgentAuthorizedKeysAck : http_handler := λ r _,
  decoded (Z.to_nat 4096) "invalid acknowledgement" (decode_struct ack_fields) (mkAckRequest "" 0 "") r (λ req,
  let h := headers_of r in
  verified_headers r (λ timestamp, AuthorizedKeysAckPayload (dh_serial h) (dh_endpointID h) (dh_fingerprint h) timestamp
                        (ar_SSHUser req) (ar_Generation req) (ar_SHA256 req)) (λ device,
  let! x := AcknowledgeAuthorizedKeys (Device_HostID device) (ar_SSHUser req) (ar_Generation req) (ar_SHA256 req) in
  Ret (match x with
       | Some _ => writeError 409 "authorized_keys acknowledgement rejected"
       | None => respond 204 V_empty
       end))).

(** ** The relay's listener *)

Definition relaySecretMatches (expected presented : string) : bool := bool_decide (Sum256 expected = Sum256 presented).

Definition relay_decision (status : Z) (allowed : bool) : Response :=
  respond status (V_text (if allowed then "true" else "false")).

Definition handleRelayAccess : http_handler := λ r _,
  if bool_decide (server_relayToken s = "") then Ret (relay_decision 503 false) else
  let authHeader := Header r "Authorization" in
  let token := strings.TrimPrefix authHeader "Bearer " in
  if bool_decide (token = authHeader) || negb (relaySecretMatches (server_relayToken s) token)
  then Ret (relay_decision 401 false) else
  let endpointID := Header r "X-Iroh-Nodeid" in
  if bad_endpoint endpointID then Ret (relay_decision 400 false) else
  let! x := RelayEndpointAllowed (strings.ToLowerASCII endpointID) in
  Ret (match x with
       | Err _ => relay_decision 500 false
       | Ok true => relay_decision 200 true
       | Ok false => relay_decision 403 false
       end).

(** ** Health, sessions and settings *)

Definition handleHealth : http_handler := λ _ _, Ret (writeStatus "ok").

Definition handleMetrics : http_handler := λ _ _,
  Ret (mkResponse 200 [] [("Content-Type", "text/plain; version=0.0.4; charset=utf-8")]
         (V_text (strings.Join ["# HELP ternal_up Whether the Ternal API process is serving requests.";
                                "# TYPE ternal_up gauge"; "ternal_up 1"; ""] (String newline "")))).

Definition handleOIDCConfig : http_handler := λ _ _,
  let c := server_auth s in
  Ret (respond 200 (V_oidc_config (Config_Issuer c) (Config_ClientID c) (Config_RedirectURL c) (Config_AdminGroup c)
                      (Config_GroupsClaim c) (server_devHeaders s))).

Definition handleSession : http_handler := λ _ a,
  Ret (match a with
       | None => respond 200 V_anonymous
       | Some a => respond 200 (V_identity (Auth_User a) (Auth_IsAdmin a) (Auth_CSRFToken a))
       end).

Definition handleLogout : http_handler := λ r _,
  match CookieNamed r SessionCookie with
  | None => Ret (writeError 401 "unauthorized")
  | Some cookie =>
    let! session := VerifySession cookie (server_sessionKey s) in
    match session with
    | Err _ => Ret (writeError 401 "unauthorized")
    | Ok session =>
      if negb (server_hasStore s) then Ret (writeError 401 "unauthorized") else
      let! x := RevokeSession cookie (Session_ExpiresAt session) in
      Ret (match x with
           | Some _ => writeError 500 "session revocation failed"
           | None => mkResponse 200 [ClearSessionCookie (SecureCookies (server_auth s))] [] (V_status "ok")
           end)
    end
  end.

End api.
