(* ===== verification/OIDC.v ===== *)
(** * Logging in (internal/auth/oidc.go and the login handlers of internal/api/api.go)

    The authorization-code flow with its signed state, the device flow, and the
    checks on an ID token that turn it into the claims of a session.  The
    provider, and the libraries that speak to it, are parameters. *)

From S2P Require Export Api.
Open Scope go_scope.

Record providerMetadata := mkProviderMetadata {
  pm_Issuer : string; pm_AuthorizationEndpoint : string; pm_TokenEndpoint : string;
  pm_DeviceAuthorizationEndpoint : string }.

Definition metadata_fields : list (struct_field providerMetadata) :=
  let mk := mkProviderMetadata in
  [at_field "issuer" pm_Issuer (λ x m, mk x (pm_AuthorizationEndpoint m) (pm_TokenEndpoint m) (pm_DeviceAuthorizationEndpoint m)) decode_string;
   at_field "authorization_endpoint" pm_AuthorizationEndpoint (λ x m, mk (pm_Issuer m) x (pm_TokenEndpoint m) (pm_DeviceAuthorizationEndpoint m)) decode_string;
   at_field "token_endpoint" pm_TokenEndpoint (λ x m, mk (pm_Issuer m) (pm_AuthorizationEndpoint m) x (pm_DeviceAuthorizationEndpoint m)) decode_string;
   at_field "device_authorization_endpoint" pm_DeviceAuthorizationEndpoint (λ x m, mk (pm_Issuer m) (pm_AuthorizationEndpoint m) (pm_TokenEndpoint m) x) decode_string].

(** What answers a login from outside: go-oidc (NewProvider, whose document
    Claims decodes; Verifier.Verify, as the payload of a token it accepts),
    oauth2 (AuthCodeURL, Exchange, as the id_token of the answer if it is a
    string, DeviceAuth, as the JSON of its answer) and the token endpoint (the
    status and the body of its answer to a form).  The clock is read in
    seconds; the fractions of its first and last reading in a login, in
    nanoseconds, are parameters too. *)
Class IdentityProvider := {
  NewProvider : string → result string;
  AuthCodeURL : OIDCConfig → providerMetadata → string → string → string → string;
  Exchange : OIDCConfig → providerMetadata → string → string → result (option string);
  VerifyIDToken : string → string → option string;
  DeviceAuth : OIDCConfig → providerMetadata → result string;
  PostForm : string → list (string * string) → result (Z * string);
  first_nanos : Z;
  last_nanos : Z;
}.

(** ** Random tokens and signed states *)

Definition randomToken (size : nat) : prog storeE (result string) :=
  b ←? call (RandRead size); Ret (Ok (RawURLEncoding.EncodeToString b)).

Definition NewRandomToken (size : nat) : prog storeE (result string) :=
  if (size <? 16)%nat || (128 <? size)%nat then Ret (Err (Errorf "invalid random token size")) else randomToken size.

Definition pkceChallenge (verifier : string) : string := RawURLEncoding.EncodeToString (Sum256 verifier).

Record loginState := mkLoginState { ls_State : string; ls_Nonce : string; ls_CodeVerifier : string; ls_ExpiresAt : Z }.

Definition json_of_login (l : loginState) : json :=
  JObj [("state", JStr (ls_State l)); ("nonce", JStr (ls_Nonce l)); ("code_verifier", JStr (ls_CodeVerifier l));
        ("expires_at", JNum (strconv.FormatInt (ls_ExpiresAt l)))].

Definition login_fields : list (struct_field loginState) :=
  [at_field "state" ls_State (λ x l, mkLoginState x (ls_Nonce l) (ls_CodeVerifier l) (ls_ExpiresAt l)) decode_string;
   at_field "nonce" ls_Nonce (λ x l, mkLoginState (ls_State l) x (ls_CodeVerifier l) (ls_ExpiresAt l)) decode_string;
   at_field "code_verifier" ls_CodeVerifier (λ x l, mkLoginState (ls_State l) (ls_Nonce l) x (ls_ExpiresAt l)) decode_string;
   at_field "expires_at" ls_ExpiresAt (λ x l, mkLoginState (ls_State l) (ls_Nonce l) (ls_CodeVerifier l) x) decode_int64].

Definition zero_login : loginState := mkLoginState "" "" "" 0.

(** ** The claims of an ID token *)

(** map[string]json.RawMessage. *)
Definition raw_claims : Type := gmap string json.

Definition decode_raw : decoder (option raw_claims) := decode_map JNull (λ _ j, Some j).

(** json.Unmarshal of a claim, which fails when it is absent. *)
Definition claim {A} (raw : raw_claims) (name : string) (d : decoder A) (zero : A) : option A :=
  j ← raw !! name; d zero j.

Definition validPolicyClaimValue (value : string) : bool :=
  negb (bool_decide (value = "")) && bool_decide (strings.TrimSpace value = value) &&
  (String.length value <=? maxPolicyClaimValueBytes)%nat && ValidString value && negb (containsControl value).

Definition policyClaimValues (raw : json) : option slice :=
  match decode_string "" raw with
  | Some one => if validPolicyClaimValue one then Some (slice_of [one]) else None
  | None =>
    many ← decode_slice None raw;
    let l := list_of many in
    if bool_decide (l = []) || (maxPolicyClaimValues <? length l)%nat || negb (forallb validPolicyClaimValue l)
    then None else Some many
  end.

Fixpoint extract_claims (raw : raw_claims) (custom : gmap string slice) (names : list string) : result (gmap string slice) :=
  match names with
  | [] => Ok custom
  | name :: names =>
    match raw !! name with
    | None => extract_claims raw custom names
    | Some claim =>
      match policyClaimValues claim with
      | None => Err (Errorf ("invalid OIDC policy claim " +:+ name))
      | Some values =>
        let custom := <[name := values]> custom in
        if (maxPolicyClaimsJSONBytes <? String.length (print (json_of_custom custom)))%nat
        then Err (Errorf "OIDC policy claims exceed session limit")
        else extract_claims raw custom names
      end
    end
  end.

Definition extractPolicyClaims (c : OIDCConfig) (raw : raw_claims) : result (option (gmap string slice)) :=
  custom ← extract_claims raw ∅ (Config_PolicyClaims c);
  Ok (if bool_decide (custom = ∅) then None else Some custom).

Definition audiences_of (raw : raw_claims) : option (list string) :=
  match raw !! "aud" with
  | None => Some []
  | Some j =>
    match decode_string "" j with
    | Some one => Some [one]
    | None => list_of <$> decode_slice None j
    end
  end.

Definition validateAudienceAndAuthorizedParty (raw : raw_claims) (clientID : string) : option error :=
  match audiences_of raw with
  | None => Some (Errorf "invalid id_token audience")
  | Some audiences =>
    if negb (existsb (λ audience, bool_decide (audience = clientID)) audiences)
    then Some (Errorf "invalid id_token audience") else
    match match raw !! "azp" with None => Some "" | Some j => decode_string "" j end with
    | None => Some (Errorf "invalid id_token authorized party")
    | Some authorizedParty =>
      if ((1 <? length audiences)%nat || negb (bool_decide (authorizedParty = ""))) &&
         negb (bool_decide (authorizedParty = clientID))
      then Some (Errorf "invalid id_token authorized party") else None
    end
  end.

Definition groups_of (c : OIDCConfig) (raw : raw_claims) : option slice :=
  groups ← match raw !! Config_GroupsClaim c with None => Some None | Some j => decode_slice None j end;
  let l := list_of groups in
  if (128 <? length l)%nat ||
     existsb (λ group, bool_decide (group = "") || (256 <? String.length group)%nat) l
  then None else Some groups.

(** The checks of verifyToken on the claims of a verified token. *)
Definition claims_of_token (c : OIDCConfig) (raw : raw_claims) (expectedNonce : string) : result AuthClaims :=
  match validateAudienceAndAuthorizedParty raw (Config_ClientID c) with
  | Some e => Err e
  | None =>
    if negb (bool_decide (expectedNonce = "")) && negb (bool_decide (default "" (claim raw "nonce" decode_string "") = expectedNonce))
    then Err (Errorf "invalid id_token nonce") else
    match claim raw "sub" decode_string "" with
    | None => Err (Errorf "invalid id_token subject")
    | Some subject =>
      if bool_decide (subject = "") || (512 <? String.length subject)%nat then Err (Errorf "invalid id_token subject") else
      match groups_of c raw with
      | None => Err (Errorf "invalid groups claim")
      | Some groups =>
        custom ← extractPolicyClaims c raw;
        Ok (mkAuthClaims (Config_Issuer c) subject groups custom)
      end
    end
  end.

Section oidc.
Context `{NetURL} `{IdentityProvider}.

Definition NewOIDCClient (c : OIDCConfig) : option error := Validate c.

Definition verifyToken (c : OIDCConfig) (idToken : option string) (expectedNonce : string) : result AuthClaims :=
  match idToken with
  | None => Err (Errorf "provider omitted id_token")
  | Some rawIDToken =>
    if bool_decide (rawIDToken = "") then Err (Errorf "provider omitted id_token") else
    match VerifyIDToken (Config_ClientID c) rawIDToken with
    | None => Err (Errorf "invalid id_token")
    | Some text =>
      match Unmarshal decode_raw None text with
      | None => Err (Errorf "invalid id_token claims")
      | Some raw => claims_of_token c (default ∅ raw) expectedNonce
      end
    end
  end.

(** ** The flows *)

Fixpoint check_endpoints (c : OIDCConfig) (l : list string) : option error :=
  match l with
  | [] => None
  | endpoint :: l =>
    match (if bool_decide (endpoint = "") then None else validateProviderEndpoint c endpoint) with
    | Some e => Some e
    | None => check_endpoints c l
    end
  end.

Definition provider (c : OIDCConfig) : result providerMetadata :=
  match NewProvider (Config_Issuer c) with
  | Err e => Err (ErrorWrap "OIDC discovery failed" e)
  | Ok text =>
    match Unmarshal (decode_struct metadata_fields) (mkProviderMetadata "" "" "" "") text with
    | None => Err (Errorf "invalid OIDC discovery metadata")
    | Some metadata =>
      match check_endpoints c [pm_AuthorizationEndpoint metadata; pm_TokenEndpoint metadata; pm_DeviceAuthorizationEndpoint metadata] with
      | Some e => Err e
      | None => Ok metadata
      end
    end
  end.

Definition authorizationURL (c : OIDCConfig) (state nonce codeChallenge : string) : result string :=
  metadata ← provider c; Ok (AuthCodeURL c metadata state nonce codeChallenge).

(** The URL to go to and the signed state to keep. *)
Definition BeginLogin (c : OIDCConfig) (signingKey : string) : prog storeE (result (string * string)) :=
  state ←? randomToken 32;
  nonce ←? randomToken 32;
  codeVerifier ←? randomToken 32;
  let! now := nowUnix in
  Ret (signedState ← signValue (json_of_login (mkLoginState state nonce codeVerifier (now + 300))) signingKey;
       url ← authorizationURL c state nonce (pkceChallenge codeVerifier);
       Ok (url, signedState)).

Definition CompleteLogin (c : OIDCConfig) (code state signedState signingKey : string) : prog storeE (result AuthClaims) :=
  match verifyValue signedState signingKey (decode_struct login_fields) zero_login with
  | Err e => Ret (Err (ErrorWrap "invalid OIDC state" e))
  | Ok saved =>
    let! now := nowUnix in
    Ret (if (ls_ExpiresAt saved <=? now)%Z || negb (bool_decide (ls_State saved = state)) ||
            (String.length (ls_CodeVerifier saved) <? 43)%nat || (128 <? String.length (ls_CodeVerifier saved))%nat
         then Err (Errorf "invalid OIDC state") else
         metadata ← provider c;
         match Exchange c metadata code (ls_CodeVerifier saved) with
         | Err e => Err (ErrorWrap "OIDC code exchange failed" e)
         | Ok idToken => verifyToken c idToken (ls_Nonce saved)
         end)
  end.

Definition StartDevice (c : OIDCConfig) : result string :=
  metadata ← provider c;
  if bool_decide (pm_DeviceAuthorizationEndpoint metadata = "")
  then Err (Errorf "provider does not advertise device authorization") else DeviceAuth c metadata.

Record token_response := mkTokenResponse {
  tk_AccessToken : string; tk_TokenType : string; tk_RefreshToken : string; tk_IDToken : string; tk_ExpiresIn : Z;
  tk_Error : string }.

Definition token_response_fields : list (struct_field token_response) :=
  let mk := mkTokenResponse in
  [at_field "access_token" tk_AccessToken (λ x t, mk x (tk_TokenType t) (tk_RefreshToken t) (tk_IDToken t) (tk_ExpiresIn t) (tk_Error t)) decode_string;
   at_field "token_type" tk_TokenType (λ x t, mk (tk_AccessToken t) x (tk_RefreshToken t) (tk_IDToken t) (tk_ExpiresIn t) (tk_Error t)) decode_string;
   at_field "refresh_token" tk_RefreshToken (λ x t, mk (tk_AccessToken t) (tk_TokenType t) x (tk_IDToken t) (tk_ExpiresIn t) (tk_Error t)) decode_string;
   at_field "id_token" tk_IDToken (λ x t, mk (tk_AccessToken t) (tk_TokenType t) (tk_RefreshToken t) x (tk_ExpiresIn t) (tk_Error t)) decode_string;
   at_field "expires_in" tk_ExpiresIn (λ x t, mk (tk_AccessToken t) (tk_TokenType t) (tk_RefreshToken t) (tk_IDToken t) x (tk_Error t)) decode_int64;
   at_field "error" tk_Error (λ x t, mk (tk_AccessToken t) (tk_TokenType t) (tk_RefreshToken t) (tk_IDToken t) (tk_ExpiresIn t) x) decode_string].

(** A *ProviderError, or another error. *)
Inductive poll_error := ProviderError (code : string) | PollFailed (e : error).

(** time.Now().Add(time.Duration(seconds) * time.Second).Unix(). *)
Definition unix_after (now seconds : Z) : Z := now + (first_nanos + wrap64 (seconds * 1000000000)) / 1000000000.

(** The claims and the expiry of the provider's token, in Unix seconds. *)
Definition PollDevice (c : OIDCConfig) (deviceCode : string) : prog storeE (AuthClaims * Z + poll_error) :=
  if bool_decide (deviceCode = "") || (2048 <? String.length deviceCode)%nat
  then Ret (inr (PollFailed (Errorf "invalid device code"))) else
  match provider c with
  | Err e => Ret (inr (PollFailed e))
  | Ok metadata =>
    match PostForm (pm_TokenEndpoint metadata)
            [("client_id", Config_ClientID c); ("client_secret", Config_ClientSecret c); ("device_code", deviceCode);
             ("grant_type", "urn:ietf:params:oauth:grant-type:device_code")] with
    | Err e => Ret (inr (PollFailed e))
    | Ok (status, text) =>
      match Decode max_body (decode_struct token_response_fields) (mkTokenResponse "" "" "" "" 0 "") text with
      | None => Ret (inr (PollFailed (Errorf "invalid token response")))
      | Some payload =>
        if (status <? 200)%Z || (300 <=? status)%Z then
          Ret (inr (if bool_decide (tk_Error payload ∈ ["authorization_pending"; "slow_down"; "access_denied"; "expired_token"])
                    then ProviderError (tk_Error payload) else PollFailed (Errorf "device token request failed")))
        else
          let! now := nowUnix in
          Ret (match verifyToken c (Some (tk_IDToken payload)) "" with
               | Err e => inr (PollFailed e)
               | Ok claims => inl (claims, unix_after now (tk_ExpiresIn payload))
               end)
      end
    end
  end.

(** ** The handlers *)

Context (s : Server).

(** The signed session, its CSRF token and, for a browser ([w != nil]), its
    cookie; [expiry] in Unix seconds. *)
Definition issueSession (browser : bool) (claims : AuthClaims) (expiry : Z) :
    prog storeE (result (string * string * list SetCookie)) :=
  csrfToken ←? NewRandomToken 32;
  match SignSession (mkSessionData claims csrfToken expiry) (server_sessionKey s) with
  | Err e => Ret (Err e)
  | Ok signed =>
    if browser then
      let! now := nowUnix in
      let ttl := (expiry - now - (if first_nanos <? last_nanos then 1 else 0))%Z in
      Ret (if (ttl <? 1)%Z then Err (Errorf "session expiry is not in the future")
           else Ok (signed, csrfToken, [session_cookie signed ttl (SecureCookies (server_auth s))]))
    else Ret (Ok (signed, csrfToken, []))
  end.

Definition oidc_unconfigured : Response := writeError 503 "OIDC is not configured".

(** [if s.oidcErr != nil]. *)
Definition with_oidc (k : prog storeE Response) : prog storeE Response :=
  match NewOIDCClient (server_auth s) with Some _ => Ret oidc_unconfigured | None => k end.

Definition handleAuthLogin : http_handler := λ _ _,
  with_oidc
    (let! x := BeginLogin (server_auth s) (server_sessionKey s) in
     Ret (match x with
          | Err _ => writeError 502 "OIDC provider unavailable"
          | Ok (url, signedState) =>
            mkResponse 302 [SetOIDCStateCookie signedState (SecureCookies (server_auth s))] [] (V_redirect url)
          end)).

Definition handleAuthCallback : http_handler := λ r _,
  with_oidc
    (let code := Query r "code" in
     let state := Query r "state" in
     match (if bool_decide (code = "") || bool_decide (state = "") then None else CookieNamed r OIDCStateCookie) with
     | None => Ret (writeError 400 "invalid OIDC callback")
     | Some stateCookie =>
       let cleared := ClearOIDCStateCookie (SecureCookies (server_auth s)) in
       let failed status msg := mkResponse status [cleared] [] (Written (writeError status msg)) in
       let! x := CompleteLogin (server_auth s) code state stateCookie (server_sessionKey s) in
       match x with
       | Err _ => Ret (failed 401%Z "OIDC login failed")
       | Ok claims =>
         let! now := nowUnix in
         let! x := issueSession true claims (now + server_sessionTTL s) in
         Ret (match x with
              | Err _ => failed 500%Z "session creation failed"
              | Ok (_, _, cookies) => mkResponse 302 (cleared :: cookies) [] (V_redirect "/")
              end)
       end
     end).

Definition handleDeviceStart : http_handler := λ _ _,
  with_oidc (Ret (match StartDevice (server_auth s) with
                  | Err _ => writeError 502 "device authorization unavailable"
                  | Ok device => respond 200 (V_text device)
                  end)).

(** The earlier of the session's and the provider's expiry; token.Expiry is
    never the zero time. *)
Definition handleDeviceToken : http_handler := λ r _,
  with_oidc
    (decoded (Z.to_nat 4096) "invalid device token request" (decode_struct (one_field "device_code")) "" r (λ deviceCode,
     let! x := PollDevice (server_auth s) deviceCode in
     match x with
     | inr (ProviderError code) => Ret (respond 400 (V_error code))
     | inr (PollFailed _) => Ret (writeError 502 "device token exchange failed")
     | inl (claims, providerExpiry) =>
       let! now := nowUnix in
       let expiry := Z.min (now + server_sessionTTL s) providerExpiry in
       let! x := issueSession false claims expiry in
       Ret (match x with
            | Err _ => writeError 500 "session creation failed"
            | Ok (signed, csrf, _) => respond 200 (V_session signed csrf expiry)
            end)
     end)).

End oidc.
