(* ===== verification/ApiRoutes.v ===== *)
(** * The API's routes and settings (internal/api/api.go: NewServer, Router)

    The table of Router, each route with the guards that wrap its handler; the
    pages of internal/web and /ready are not in it.  Dispatching a request to
    its route is chi's. *)

From S2P Require Export Api OIDC GoNet.
Open Scope go_scope.

Inductive route_guard := GAuth | GAdmin | GCSRF.

#[export] Instance route_guard_eq_dec : EqDecision route_guard.
Proof. solve_decision. Defined.

Record Route := mkRoute {
  route_method : string; route_pattern : string; route_guards : list route_guard; route_handler : http_handler }.

Section routes.
Context `{NetURL} `{Ed25519} `{IdentityProvider}
  (ParseAuthorizedKey : string → option (string * string * string * string)) (s : Server).

Definition apply_guard (g : route_guard) (h : http_handler) : http_handler :=
  match g with GAuth => RequireAuth h | GAdmin => RequireAdmin h | GCSRF => RequireCSRF h end.

(** The first guard is the outermost. *)
Definition guarded (gs : list route_guard) (h : http_handler) : http_handler := foldr apply_guard h gs.

Definition Router : list Route :=
  [mkRoute "GET" "/health" [] handleHealth;
   mkRoute "GET" "/metrics" [] handleMetrics;
   mkRoute "GET" "/auth/oidc-config" [] (handleOIDCConfig s);
   mkRoute "GET" "/auth/login" [] (handleAuthLogin s);
   mkRoute "GET" "/auth/callback" [] (handleAuthCallback s);
   mkRoute "POST" "/auth/device/start" [] (handleDeviceStart s);
   mkRoute "POST" "/auth/device/token" [] (handleDeviceToken s);
   mkRoute "POST" "/auth/logout" [GAuth; GCSRF] (handleLogout s);
   mkRoute "GET" "/auth/session" [] handleSession;
   mkRoute "GET" "/hosts/" [GAuth] handleListHosts;
   mkRoute "POST" "/hosts/" [GAuth; GAdmin; GCSRF] handleCreateHost;
   mkRoute "GET" "/hosts/{id}" [GAuth] handleGetHost;
   mkRoute "PUT" "/hosts/{id}" [GAuth; GAdmin; GCSRF] handleUpdateHost;
   mkRoute "DELETE" "/hosts/{id}" [GAuth; GAdmin; GCSRF] handleDeleteHost;
   mkRoute "GET" "/policies/" [GAuth; GAdmin] handleListPolicies;
   mkRoute "POST" "/policies/" [GAuth; GAdmin; GCSRF] handleCreatePolicy;
   mkRoute "PUT" "/policies/{id}" [GAuth; GAdmin; GCSRF] handleUpdatePolicy;
   mkRoute "DELETE" "/policies/{id}" [GAuth; GAdmin; GCSRF] handleDeletePolicy;
   mkRoute "POST" "/access/ssh" [GAuth; GCSRF] handleIssueSSHCommand;
   mkRoute "GET" "/access/ssh-config" [GAuth] handleSSHConfig;
   mkRoute "POST" "/access/relay-grants" [GAuth; GCSRF] handleIssueRelayGrant;
   mkRoute "GET" "/access/discovery/{host}" [GAuth] handleGetEndpointDiscovery;
   mkRoute "GET" "/access/grants/{id}/key-status" [GAuth] handleKeyStatus;
   mkRoute "GET" "/access/grants" [GAuth] handleListAccessGrants;
   mkRoute "GET" "/access/requests" [GAuth] handleListAccessRequests;
   mkRoute "GET" "/ssh-keys/" [GAuth] handleListSSHKeys;
   mkRoute "POST" "/ssh-keys/" [GAuth; GCSRF] (handleCreateSSHKey ParseAuthorizedKey);
   mkRoute "DELETE" "/ssh-keys/{id}" [GAuth; GCSRF] handleDeleteSSHKey;
   mkRoute "GET" "/manufacturing/tokens" [GAuth; GAdmin] handleListManufacturingTokens;
   mkRoute "POST" "/manufacturing/tokens" [GAuth; GAdmin; GCSRF] handleCreateManufacturingToken;
   mkRoute "GET" "/manufacturing/batches" [GAuth; GAdmin] handleListManufacturingBatches;
   mkRoute "POST" "/manufacturing/batches" [GAuth; GAdmin; GCSRF] handleCreateManufacturingBatch;
   mkRoute "POST" "/manufacturing/batches/{id}/close" [GAuth; GAdmin; GCSRF] handleCloseManufacturingBatch;
   mkRoute "POST" "/manufacturing/enroll" [] handleEnrollDevice;
   mkRoute "GET" "/devices/" [GAuth; GAdmin] handleListDevices;
   mkRoute "DELETE" "/devices/{id}" [GAuth; GAdmin; GCSRF] handleDeleteDevice;
   mkRoute "POST" "/agents/heartbeat" [] handleHeartbeat;
   mkRoute "GET" "/agents/authorized-keys" [] handleAgentAuthorizedKeys;
   mkRoute "POST" "/agents/authorized-keys/ack" [] handleAgentAuthorizedKeysAck].

(** The listener of the relay, which has no sessions. *)
Definition RelayRouter : list Route := [mkRoute "POST" "/internal/iroh-relay/access" [] (handleRelayAccess s)].

Definition session_check : option (string → prog storeE (bool * option error)) :=
  Some (λ cookie, if server_hasStore s then SessionRevoked cookie else Ret (false, None)).

(** A request that chi has dispatched to [route]. *)
Definition serve (route : Route) (r : Request) : prog storeE Response :=
  AuthMiddlewareWithRevocation (server_sessionKey s) (server_devHeaders s) (Config_AdminGroup (server_auth s))
    (Config_Issuer (server_auth s)) session_check (guarded (route_guards route) (route_handler route)) r.

End routes.

(** ** Settings *)

Section settings.
Context (env : string → string).

Definition is_set (key : string) : bool := negb (bool_decide (env key = "")).

(** The origin of the CORS headers. *)
Definition allowedOrigins : list string :=
  let origin := strings.TrimSpace (env "TERNAL_CORS_ORIGIN") in
  if bool_decide (origin = "") then [] else [strings.TrimSuffix origin "/"].

(** The lifetime of a session in seconds, or why it is refused. *)
Definition session_ttl : result Z :=
  if negb (is_set "TERNAL_SESSION_TTL_SECONDS") then Ok 3600%Z else
  match strconv.ParseInt (env "TERNAL_SESSION_TTL_SECONDS") with
  | Some seconds =>
    if (seconds <? 60)%Z || (3600 <? seconds)%Z then Err (Errorf "TERNAL_SESSION_TTL_SECONDS must be between 60 and 3600")
    else Ok seconds
  | None => Err (Errorf "TERNAL_SESSION_TTL_SECONDS must be between 60 and 3600")
  end.

(** The later of the two checks wins. *)
Definition configErr : option error :=
  match session_ttl with
  | Err e => Some e
  | Ok _ =>
    if is_set "TERNAL_SESSION_KEY" && (String.length (env "TERNAL_SESSION_KEY") <? 32)%nat
    then Some (Errorf "TERNAL_SESSION_KEY must be at least 32 bytes") else None
  end.

(** [random] is what NewRandomToken(48) gives when no key is set. *)
Definition NewServer (random : string) : Server :=
  mkServer (if is_set "TERNAL_SESSION_KEY" then env "TERNAL_SESSION_KEY" else random)
    (env "TERNAL_RELAY_ACCESS_TOKEN")
    (match session_ttl with Ok ttl => ttl | Err _ => 3600%Z end)
    (bool_decide (env "TERNAL_DEV_HEADERS" = "1")) (OIDCConfigFromEnv env) true.

Definition ValidateRuntime `{NetURL} (bind : string) : option error :=
  match configErr with
  | Some e => Some e
  | None =>
    match net.SplitHostPort bind with
    | None => Some (Errorf "invalid TERNAL_BIND")
    | Some (host, _) =>
      let devHeaders := bool_decide (env "TERNAL_DEV_HEADERS" = "1") in
      if devHeaders && negb (isLoopbackHost host) then Some (Errorf "TERNAL_DEV_HEADERS requires a loopback bind") else
      if negb devHeaders && negb (is_set "TERNAL_SESSION_KEY") then Some (Errorf "TERNAL_SESSION_KEY is required") else
      match (if devHeaders then None else NewOIDCClient (OIDCConfigFromEnv env)) with
      | Some e => Some (ErrorWrap "invalid OIDC configuration" e)
      | None =>
        if is_set "TERNAL_RELAY_BIND" && (String.length (env "TERNAL_RELAY_ACCESS_TOKEN") <? 32)%nat
        then Some (Errorf "TERNAL_RELAY_ACCESS_TOKEN must be at least 32 bytes") else None
      end
    end
  end.

End settings.
