(* ===== verification/StoreInvariant.v ===== *)
(** * What every transaction of the store preserves

    [wf]: keys are unique, rows are well-formed, references resolve, published
    snapshots carry their marker.  [rel]: moreover the audit log only grows,
    batches only advance, and on a host that is not deleted revoked devices
    stay revoked and snapshot generations only grow.  Every statement list an
    operation can submit respects [rel], whatever the operation read before:
    so [rel] holds along every interleaving (StoreRuns.v). *)

From S2P Require Export StoreBase StoreHosts StoreAccess StoreDevices.
Local Open Scope Z_scope.

(** ** Well-formed tables *)

Definition host_ok (h : hosts_row) : Prop :=
  ValidHostName (h_name h) = true ∧ ValidSSHUser (h_ssh_user h) = true ∧ 0 ≤ h_ssh_port h < 65536.

Definition batch_ok (b : manufacturing_batches_row) : Prop :=
  1 ≤ b_max_devices b ≤ 10000 ∧ 0 ≤ b_used_count b ≤ b_max_devices b ∧
  ((b_status b = "open" ∧ b_closed_at b = None ∧ b_used_count b < b_max_devices b) ∨
   (b_status b = "closed" ∧ is_Some (b_closed_at b))).

Definition device_ok (d : devices_row) : Prop :=
  (∃ s, d_serial_number d = Some s ∧ ValidHostName s = true) ∧ d_device_public_key d ≠ "" ∧
  (d_state d = "manufactured" ∨ (d_state d = "revoked" ∧ is_Some (d_last_seen_at d))).

Definition request_ok (q : access_requests_row) : Prop := q_status q = "pending" ∨ q_status q = "approved".

Definition grant_ok (g : access_grants_row) : Prop := g_key_installed g = 0 ∨ g_key_installed g = 1.

Definition snapshot_ok (n : authorized_keys_snapshots_row) : Prop := 1 ≤ n_generation n.

(** Tables whose unique keys hold and whose rows satisfy [P]. *)
Definition table_ok {A} (T : table A) (P : A → Prop) (l : list A) : Prop :=
  no_clash T l = true ∧ Forall P l.

Definition anything {A} (_ : A) : Prop := True.

Definition has_device (id : string) (t : tables) : Prop := id ∈ d_host_id <$> devices t.

Definition is_marker (m : authorized_keys_snapshot_grants_row) : bool := like_prefix "snapshot:" (m_grant_id m).

Record wf (t : tables) : Prop := {
  wf_hosts : table_ok Hosts host_ok (hosts t);
  wf_policies : table_ok Policies anything (policies t);
  wf_ssh_keys : table_ok SshKeys anything (ssh_keys t);
  wf_access_requests : table_ok AccessRequests request_ok (access_requests t);
  wf_access_grants : table_ok AccessGrants grant_ok (access_grants t);
  wf_revoked_sessions : table_ok RevokedSessions anything (revoked_sessions t);
  wf_audit_events : table_ok AuditEvents anything (audit_events t);
  wf_manufacturing_tokens : table_ok ManufacturingTokens anything (manufacturing_tokens t);
  wf_manufacturing_batches : table_ok ManufacturingBatches batch_ok (manufacturing_batches t);
  wf_devices : table_ok Devices device_ok (devices t);
  wf_endpoint_discovery : table_ok EndpointDiscoveries anything (endpoint_discovery t);
  wf_relay_access_grants : table_ok RelayAccessGrants anything (relay_access_grants t);
  wf_snapshots : table_ok Snapshots snapshot_ok (authorized_keys_snapshots t);
  wf_snapshot_grants : table_ok SnapshotGrants anything (authorized_keys_snapshot_grants t);
  (* Each device is on a host of its own. *)
  wf_device_host d : d ∈ devices t → d_host_id d ∈ h_id <$> hosts t;
  wf_one_device : NoDup (d_host_id <$> devices t);
  (* Relay access is for hosts with a device. *)
  wf_relay_host r : r ∈ relay_access_grants t → has_device (r_host_id r) t;
  (* A snapshot and its marker come and go together. *)
  wf_marker n : n ∈ authorized_keys_snapshots t →
    ∃ m, m ∈ authorized_keys_snapshot_grants t ∧ m_host_id m = n_host_id n ∧ m_ssh_user m = n_ssh_user n ∧
      is_marker m = true;
  wf_marked m : m ∈ authorized_keys_snapshot_grants t →
    ∃ n, n ∈ authorized_keys_snapshots t ∧ n_host_id n = m_host_id m ∧ n_ssh_user n = m_ssh_user m;
}.

(** ** What changes in one direction only *)

Record same_batch (b b' : manufacturing_batches_row) : Prop := {
  sb_id : b_id b' = b_id b;
  sb_name : b_name b' = b_name b;
  sb_prefix : b_serial_prefix b' = b_serial_prefix b;
  sb_token : b_token_hash b' = b_token_hash b;
  sb_expires : b_expires_at b' = b_expires_at b;
  sb_max : b_max_devices b' = b_max_devices b;
  sb_created : b_created_at b' = b_created_at b;
}.

Definition batch_advances (b b' : manufacturing_batches_row) : Prop :=
  same_batch b b' ∧ b_used_count b ≤ b_used_count b' ∧ (b_status b = "closed" → b' = b).

Record same_device (d d' : devices_row) : Prop := {
  sd_id : d_id d' = d_id d;
  sd_host : d_host_id d' = d_host_id d;
  sd_endpoint : d_endpoint_id d' = d_endpoint_id d;
  sd_fingerprint : d_ssh_host_key_fingerprint d' = d_ssh_host_key_fingerprint d;
  sd_key : d_device_public_key d' = d_device_public_key d;
  sd_serial : d_serial_number d' = d_serial_number d;
  sd_model : d_model d' = d_model d;
  sd_enrolled : d_enrolled_at d' = d_enrolled_at d;
}.

Definition device_advances (d d' : devices_row) : Prop :=
  same_device d d' ∧ (d_state d = "revoked" → d' = d).

Definition snapshot_advances (n n' : authorized_keys_snapshots_row) : Prop :=
  n_host_id n' = n_host_id n ∧ n_ssh_user n' = n_ssh_user n ∧ n_generation n ≤ n_generation n' ∧
  (n_digest n' ≠ n_digest n → n_generation n < n_generation n').

(** Every row of [l] that [p] selects has a successor in [l']. *)
Definition carried {A} (p : A → Prop) (succ : A → A → Prop) (l l' : list A) : Prop :=
  ∀ x, x ∈ l → p x → ∃ x', x' ∈ l' ∧ succ x x'.

(** [X] is a host that is not deleted meanwhile. *)
Record forward (X : option string) (t t' : tables) : Prop := {
  fw_audit : audit_events t `prefix_of` audit_events t';
  fw_batches : carried (λ _, True) batch_advances (manufacturing_batches t) (manufacturing_batches t');
  fw_devices : carried (λ d, X = Some (d_host_id d)) device_advances (devices t) (devices t');
  fw_snapshots : carried (λ n, X = Some (n_host_id n)) snapshot_advances
    (authorized_keys_snapshots t) (authorized_keys_snapshots t');
}.

Definition rel (X : option string) (t t' : tables) : Prop := wf t → wf t' ∧ forward X t t'.

Definition rel_db (X : option string) (db db' : database) : Prop := rel X (data db) (data db').

Lemma carried_refl {A} (p : A → Prop) succ (l : list A) : (∀ x, succ x x) → carried p succ l l.
Proof. intros H x Hx _. eauto. Qed.

Lemma carried_trans {A} (p : A → Prop) (succ : A → A → Prop) (l1 l2 l3 : list A) :
  (∀ x y, p x → succ x y → p y) → (∀ x y z, succ x y → succ y z → succ x z) →
  carried p succ l1 l2 → carried p succ l2 l3 → carried p succ l1 l3.
Proof.
  intros Hp Hs H1 H2 x Hx Px. destruct (H1 x Hx Px) as (y & Hy & Sy).
  destruct (H2 y Hy (Hp _ _ Px Sy)) as (z & Hz & Sz). eauto.
Qed.

(** Rows that only lose fields to [f] carry over to the mapped list. *)
Lemma carried_map {A} (p : A → Prop) (succ : A → A → Prop) (f : A → A) l :
  (∀ x, x ∈ l → succ x (f x)) → carried p succ l (f <$> l).
Proof. intros H x Hx _. exists (f x). split; [by apply list_elem_of_fmap_2|by apply H]. Qed.

Lemma batch_advances_refl b : batch_advances b b.
Proof. split; [done|]. split; [lia|done]. Qed.
Lemma device_advances_refl d : device_advances d d.
Proof. done. Qed.
Lemma snapshot_advances_refl n : snapshot_advances n n.
Proof. repeat split; [lia|done]. Qed.

Lemma batch_advances_trans x y z : batch_advances x y → batch_advances y z → batch_advances x z.
Proof.
  intros ([] & H1 & H2) ([] & H3 & H4). split; [split; congruence|]. split; [lia|].
  intros Hc. specialize (H2 Hc) as ->. by apply H4.
Qed.
Lemma device_advances_trans x y z : device_advances x y → device_advances y z → device_advances x z.
Proof.
  intros ([] & H2) ([] & H4). split; [split; congruence|]. intros Hc. specialize (H2 Hc) as ->. by apply H4.
Qed.
Lemma snapshot_advances_trans x y z : snapshot_advances x y → snapshot_advances y z → snapshot_advances x z.
Proof.
  intros (E1 & E2 & H1 & H2) (E3 & E4 & H3 & H4). split_and!; [congruence|congruence|lia|]. intros Hd.
  destruct (decide (n_digest y = n_digest x)) as [Hy|Hy].
  - specialize (H4 ltac:(congruence)). lia.
  - specialize (H2 Hy). lia.
Qed.

Create HintDb store discriminated.
#[export] Hint Resolve batch_advances_refl device_advances_refl snapshot_advances_refl : store.
#[export] Hint Resolve carried_refl : store.

#[export] Instance forward_preorder X : PreOrder (forward X).
Proof.
  split.
  - intros t. split; auto with store.
  - intros t1 t2 t3 [A1 B1 D1 S1] [A2 B2 D2 S2]. split.
    + by etrans.
    + eapply carried_trans; [done|apply batch_advances_trans|exact B1|exact B2].
    + eapply carried_trans; [|apply device_advances_trans|exact D1|exact D2].
      intros x y Hx ([] & _). congruence.
    + eapply carried_trans; [|apply snapshot_advances_trans|exact S1|exact S2].
      intros x y Hx (E & _). congruence.
Qed.

#[export] Instance rel_preorder X : PreOrder (rel X).
Proof.
  split.
  - intros t W. by split; [|reflexivity].
  - intros t1 t2 t3 H1 H2 W. destruct (H1 W) as [W2 F1]. destruct (H2 W2) as [W3 F2]. split; [done|by etrans].
Qed.

#[export] Instance rel_db_preorder X : PreOrder (rel_db X).
Proof.
  split; [intros db; unfold rel_db; reflexivity|].
  intros db1 db2 db3 H1 H2. unfold rel_db in *. by etrans.
Qed.

(** ** Statements *)

Definition keeps (X : option string) (st : SQLStatement) : Prop :=
  ∀ db db' r, SQL st db = Some (db', r) → rel X (data db) (data db').

Lemma keeps_on_tables X names f :
  (∀ t t' n, f t = Some (t', n) → rel X t t') → keeps X (on_tables names f).
Proof.
  intros H db db' r. simpl. destruct (forallb _ names); [|done].
  destruct (f (data db)) as [[t' n]|] eqn:E; [|done]. intros [= <- _]. by eapply H.
Qed.

Lemma keeps_expecting X n st : keeps X st → keeps X (expecting n st).
Proof. done. Qed.

Lemma keeps_bare X st : keeps X st → keeps X (bare st).
Proof. done. Qed.

Lemma respects_keeps X sts : Forall (keeps X) sts → respects (rel_db X) sts.
Proof.
  intros Hs db db' rs Hrun. unfold rel_db.
  pattern db'. eapply (run_statements_invariant (λ d, rel X (data db) (data d)) sts db db' rs); [|done|reflexivity].
  eapply Forall_impl; [exact Hs|]. intros st Hk d d' r Hst Hd. etrans; [exact Hd|by eapply Hk].
Qed.

(** ** Keys *)

Lemma same_true x y : same x y = true ↔ x = y.
Proof. unfold same. by rewrite bool_decide_eq_true. Qed.

Lemma same_comm x y : same x y = same y x.
Proof. unfold same. by apply bool_decide_ext. Qed.

Lemma same_not_null_comm x y : same_not_null x y = same_not_null y x.
Proof. destruct x, y; simpl; try done. apply same_comm. Qed.

Section keys.
Context {A : Type} (T : table A).

Definition symmetric_key : Prop := ∀ a b, clash T a b = clash T b a.

Context (Hsym : symmetric_key).

Lemma no_clash_snoc l r : existsb (clash T r) l = false → no_clash T l = true → no_clash T (l ++ [r]) = true.
Proof.
  induction l as [|x l IH]; [done|]. simpl. rewrite orb_false_iff, !andb_true_iff, !negb_true_iff.
  intros [H1 H2] [H3 H4]. split; [|by apply IH]. rewrite existsb_app, H3. simpl. by rewrite Hsym, H1.
Qed.

Lemma no_clash_eq l x y :
  no_clash T l = true → x ∈ l → y ∈ l → clash T x y = true → x = y.
Proof.
  induction l as [|z l IH]; simpl; [intros _ Hx; by apply not_elem_of_nil in Hx|].
  intros [Hz Hl]%andb_true_iff. apply negb_true_iff, not_true_iff_false in Hz. rewrite !elem_of_cons.
  assert (Hn : ∀ r, r ∈ l → clash T z r = true → False).
  { intros r Hr Hc. apply Hz, existsb_exists. exists r. by rewrite <- list_elem_of_In. }
  intros [->|Hx] [->|Hy] Hc; [done|by destruct (Hn y)| |by apply IH].
  rewrite Hsym in Hc. by destruct (Hn x).
Qed.

Lemma insert_all_app new l l' : insert_all T new l = Some l' → l' = l ++ new.
Proof.
  clear Hsym. revert l. induction new as [|r new IH]; simpl; intros l; [intros [= <-]; by rewrite app_nil_r|].
  destruct (existsb (clash T r) l); [done|]. intros H. rewrite (IH _ H). by rewrite <- app_assoc.
Qed.

Lemma insert_all_ok P new l l' :
  insert_all T new l = Some l' → table_ok T P l → Forall P new → table_ok T P l' ∧ l' = l ++ new.
Proof.
  revert l. induction new as [|r new IH]; simpl; intros l; [intros [= <-]; by rewrite app_nil_r|].
  destruct (existsb (clash T r) l) eqn:E; [done|]. intros H [Hk Hr] Hn. apply Forall_cons in Hn as [Hr1 Hn].
  destruct (IH _ H) as [H1 ->]; [|done|split; [done|by rewrite <- app_assoc]].
  split; [by apply no_clash_snoc|]. apply Forall_app. auto.
Qed.

Lemma no_clash_filter (p : A → Prop) `{!∀ x, Decision (p x)} l : no_clash T l = true → no_clash T (filter p l) = true.
Proof.
  induction l as [|x l IH]; [done|]. simpl. rewrite andb_true_iff, negb_true_iff. intros [H1 H2].
  rewrite filter_cons. case_decide; [|by apply IH]. simpl. rewrite IH, andb_true_r by done. apply negb_true_iff.
  apply not_true_iff_false. rewrite existsb_exists. intros (y & Hy & Hc). apply not_true_iff_false in H1. apply H1.
  rewrite existsb_exists. exists y. split; [|done]. apply list_elem_of_In in Hy. apply list_elem_of_filter in Hy as [_ Hy].
  by apply list_elem_of_In.
Qed.

Lemma table_ok_filter P (p : A → Prop) `{!∀ x, Decision (p x)} l : table_ok T P l → table_ok T P (filter p l).
Proof.
  intros [H1 H2]. split; [by apply no_clash_filter|]. rewrite Forall_forall in H2 |- *.
  intros x Hx. apply list_elem_of_filter in Hx as [_ Hx]. auto.
Qed.

(** Changing rows without moving their keys. *)
Lemma no_clash_map (f : A → A) l :
  (∀ x y, x ∈ l → y ∈ l → clash T (f x) (f y) = clash T x y) → no_clash T l = true → no_clash T (f <$> l) = true.
Proof.
  induction l as [|x l IH]; [done|]. intros Hf. simpl. rewrite !andb_true_iff, !negb_true_iff. intros [H1 H2].
  split; [|apply IH; [|done]; intros y z Hy Hz; apply Hf; by apply list_elem_of_further].
  rewrite <- H1. clear -Hf. assert (Hl : ∀ y, y ∈ l → y ∈ x :: l) by (intros; by apply list_elem_of_further).
  assert (Hx : x ∈ x :: l) by apply list_elem_of_here. revert Hl Hx Hf. generalize (x :: l) as big. intros big Hl Hx Hf.
  induction l as [|y l IH]; [done|]. simpl. rewrite Hf, IH; [done| |done|apply Hl; left].
  intros z Hz. apply Hl. by right.
Qed.

Lemma update_ok P (p : A → bool) g l :
  no_clash T ((λ r, if p r then g r else r) <$> l) = true → table_ok T P l →
  (∀ r, r ∈ l → P r → p r = true → P (g r)) → table_ok T P ((λ r, if p r then g r else r) <$> l).
Proof.
  intros Hk [_ Hr] Hg. split; [done|]. apply Forall_fmap. rewrite Forall_forall in Hr |- *. intros r Hin. simpl.
  destruct (p r) eqn:E; auto.
Qed.

End keys.

Lemma keys_symmetric :
  symmetric_key Hosts ∧ symmetric_key Policies ∧ symmetric_key SshKeys ∧ symmetric_key AccessRequests ∧
  symmetric_key AccessGrants ∧ symmetric_key RevokedSessions ∧ symmetric_key AuditEvents ∧
  symmetric_key ManufacturingTokens ∧ symmetric_key ManufacturingBatches ∧ symmetric_key Devices ∧
  symmetric_key EndpointDiscoveries ∧ symmetric_key RelayAccessGrants ∧ symmetric_key Snapshots ∧
  symmetric_key SnapshotGrants.
Proof.
  repeat split; intros a b; simpl;
    repeat match goal with |- context [same (?f a) (?f b)] => rewrite (same_comm (f a) (f b)) end;
    rewrite ?(same_not_null_comm (d_serial_number a)); reflexivity.
Qed.

(** ** One statement changes one table

    For each table, what the new rows have to satisfy. *)
Section frames.
Context (X : option string) (t : tables).

Ltac frame :=
  let H := fresh "H" in let W := fresh "W" in
  intros H W; specialize (H W); destruct W;
  split; [split; simpl in *; try assumption; try tauto|split; simpl in *; auto with store; try tauto].

Lemma frame_policies l : (wf t → table_ok Policies anything l) → rel X t (with_rows Policies l t).
Proof. frame. Qed.

Lemma frame_ssh_keys l : (wf t → table_ok SshKeys anything l) → rel X t (with_rows SshKeys l t).
Proof. frame. Qed.

Lemma frame_access_requests l :
  (wf t → table_ok AccessRequests request_ok l) → rel X t (with_rows AccessRequests l t).
Proof. frame. Qed.

Lemma frame_revoked_sessions l :
  (wf t → table_ok RevokedSessions anything l) → rel X t (with_rows RevokedSessions l t).
Proof. frame. Qed.

Lemma frame_manufacturing_tokens l :
  (wf t → table_ok ManufacturingTokens anything l) → rel X t (with_rows ManufacturingTokens l t).
Proof. frame. Qed.

Lemma frame_endpoint_discovery l :
  (wf t → table_ok EndpointDiscoveries anything l) → rel X t (with_rows EndpointDiscoveries l t).
Proof. frame. Qed.

Lemma frame_audit_events l :
  (wf t → table_ok AuditEvents anything (audit_events t ++ l)) →
  rel X t (with_rows AuditEvents (audit_events t ++ l) t).
Proof. frame. by apply prefix_app_r. Qed.

Lemma frame_hosts l :
  (wf t → table_ok Hosts host_ok l ∧ ∀ id, id ∈ h_id <$> hosts t → id ∈ h_id <$> l) →
  rel X t (with_rows Hosts l t).
Proof. frame. destruct H as [_ H]. auto. Qed.

Lemma frame_access_grants l :
  (wf t → table_ok AccessGrants grant_ok l) → rel X t (with_rows AccessGrants l t).
Proof. frame. Qed.

Lemma frame_relay_access_grants l :
  (wf t → table_ok RelayAccessGrants anything l ∧ ∀ r, r ∈ l → has_device (r_host_id r) t) →
  rel X t (with_rows RelayAccessGrants l t).
Proof. frame. Qed.

Lemma frame_manufacturing_batches l :
  (wf t → table_ok ManufacturingBatches batch_ok l ∧
     carried (λ _, True) batch_advances (manufacturing_batches t) l) →
  rel X t (with_rows ManufacturingBatches l t).
Proof. frame. Qed.

(** Devices that keep their identity. *)
Lemma frame_devices (f : devices_row → devices_row) :
  (wf t → table_ok Devices device_ok (f <$> devices t) ∧
     ∀ d, d ∈ devices t → device_advances d (f d)) →
  rel X t (with_rows Devices (f <$> devices t) t).
Proof.
  intros H W. specialize (H W) as [H1 H2]. destruct W.
  assert (Hids : d_host_id <$> (f <$> devices t) = d_host_id <$> devices t).
  { rewrite <- list_fmap_compose. clear -H2. induction (devices t) as [|d l IH]; [done|]. csimpl.
    rewrite IH by (intros; apply H2; by right). f_equal. apply (H2 d). by left. }
  split; [split; simpl in *; try assumption; unfold has_device; simpl; rewrite ?Hids; try assumption|].
  - intros d Hd. apply list_elem_of_fmap in Hd as (d0 & -> & Hd0). destruct (H2 d0 Hd0) as [[] _].
    rewrite sd_host0. auto.
  - split; simpl; auto with store. apply carried_map. auto.
Qed.

End frames.

(** Tables whose new rows only have to be well-formed themselves. *)
Record free {A} (X : option string) (T : table A) (P : A → Prop) : Prop := {
  free_frame t l : (wf t → table_ok T P l) → rel X t (with_rows T l t);
  free_rows t : wf t → table_ok T P (rows T t);
  free_key : symmetric_key T;
}.

Lemma free_tables X :
  free X Policies anything ∧ free X SshKeys anything ∧ free X AccessRequests request_ok ∧
  free X AccessGrants grant_ok ∧ free X RevokedSessions anything ∧ free X ManufacturingTokens anything ∧
  free X EndpointDiscoveries anything.
Proof.
  destruct keys_symmetric as (? & ? & ? & ? & ? & ? & ? & ? & ? & ? & ? & ? & ? & ?).
  split_and!; (split; [|by intros t []|done]); intros;
    auto using frame_policies, frame_ssh_keys, frame_access_requests, frame_access_grants,
      frame_revoked_sessions, frame_manufacturing_tokens, frame_endpoint_discovery.
Qed.

Section free.
Context {A : Type} (X : option string) (T : table A) (P : A → Prop) (HT : free X T P).

Lemma keeps_insert reads f : (∀ t, Forall P (f t)) → keeps X (insert_select T reads f).
Proof.
  intros Hf. apply keeps_on_tables. intros t t' n H. apply bind_Some in H as (l & Hl & [= <- <-]).
  apply (free_frame _ _ _ HT). intros W.
  by edestruct (insert_all_ok T (free_key _ _ _ HT) P) as [? _]; [exact Hl|apply (free_rows _ _ _ HT), W|apply Hf|].
Qed.

Lemma keeps_insert_values r : P r → keeps X (insert_values T r).
Proof. intros H. apply keeps_insert. intros t. by repeat constructor. Qed.

Lemma keeps_insert_where reads c r : P r → keeps X (insert_where T reads c r).
Proof. intros H. apply keeps_insert. intros t. destruct (c t); by repeat constructor. Qed.

Lemma keeps_update reads p g : (∀ r, P r → P (g r)) → keeps X (update_where T reads p g).
Proof.
  intros Hg. apply keeps_on_tables. intros t t' n. cbn zeta. destruct (no_clash T _) eqn:E; [|done]. intros [= <- <-].
  apply (free_frame _ _ _ HT). intros W. apply update_ok; [done|apply (free_rows _ _ _ HT), W|auto].
Qed.

Lemma keeps_delete reads p : keeps X (delete_where T reads p).
Proof.
  apply keeps_on_tables. intros t t' n [= <- <-]. apply (free_frame _ _ _ HT). intros W.
  by apply table_ok_filter, (free_rows _ _ _ HT).
Qed.

Lemma keeps_replace r : P r → keeps X (insert_or_replace T r).
Proof.
  intros Hr. apply keeps_on_tables. intros t t' n [= <- <-]. apply (free_frame _ _ _ HT). intros W.
  destruct (table_ok_filter T P (λ old, clash T r old = false) _ (free_rows _ _ _ HT t W)) as [Hk HP].
  split; [|apply Forall_app; auto]. apply no_clash_snoc; [apply (free_key _ _ _ HT)| |done].
  apply not_true_iff_false. rewrite existsb_exists. intros (y & Hy & Hc).
  apply list_elem_of_In, list_elem_of_filter in Hy as [Hy _]. congruence.
Qed.

Lemma keeps_upsert reads c r g :
  P r → (∀ t old, P old → P (g t old r)) →
  (∀ t x y, clash T (g t x r) (g t y r) = clash T x y ∧ clash T (g t x r) y = clash T x y) →
  keeps X (upsert T reads c r g).
Proof.
  intros Hr Hg Hkey. apply keeps_on_tables. intros t t' n. destruct (c t); simpl; [|by intros [= <- <-]].
  destruct (existsb (clash T r) (rows T t)) eqn:E; intros [= <- <-]; apply (free_frame _ _ _ HT); intros W;
    destruct (free_rows _ _ _ HT t W) as [Hk HP].
  - split.
    + apply no_clash_map; [|done]. intros x y _ _. destruct (clash T r x), (clash T r y); try apply Hkey; [|done].
      rewrite (free_key _ _ _ HT x), (free_key _ _ _ HT x y). apply Hkey.
    + apply Forall_fmap. rewrite Forall_forall in HP |- *. intros x Hx. simpl. destruct (clash T r x); auto.
  - split; [apply no_clash_snoc; [apply (free_key _ _ _ HT)|done|done]|apply Forall_app; auto].
Qed.

End free.

(** The audit log takes any rows. *)
Lemma keeps_audit X reads f : keeps X (insert_select AuditEvents reads f).
Proof.
  assert (Hsym : symmetric_key AuditEvents) by apply keys_symmetric.
  apply keeps_on_tables. intros t t' n H. apply bind_Some in H as (l & Hl & [= <- <-]).
  pose proof (insert_all_app _ _ _ _ Hl) as ->. apply frame_audit_events. intros W.
  edestruct (insert_all_ok AuditEvents Hsym anything) as [Hok _]; [exact Hl|by destruct W|by apply Forall_true|].
  exact Hok.
Qed.

(** ** Hosts *)

Lemma keeps_insert_host X r : host_ok r → keeps X (insert_values Hosts r).
Proof.
  assert (Hsym : symmetric_key Hosts) by apply keys_symmetric.
  intros Hr. apply keeps_on_tables. intros t t' n H. apply bind_Some in H as (l & Hl & [= <- <-]).
  apply frame_hosts. intros W.
  destruct (insert_all_ok Hosts Hsym host_ok _ _ _ Hl) as [Hok ->]; [apply W|by apply Forall_singleton|].
  split; [done|]. intros id Hid. simpl. rewrite fmap_app. apply elem_of_app. by left.
Qed.

Lemma keeps_update_hosts X reads p g :
  (∀ h, host_ok h → host_ok (g h)) → (∀ h, h_id (g h) = h_id h) → keeps X (update_where Hosts reads p g).
Proof.
  intros Hg Hid. apply keeps_on_tables. intros t t' n. cbn zeta. destruct (no_clash Hosts _) eqn:E; [|done].
  intros [= <- <-]. apply frame_hosts. intros W. split; [apply update_ok; [done|apply W|auto]|].
  intros id Hin. rewrite <- list_fmap_compose. apply list_elem_of_fmap in Hin as (h & -> & Hh).
  apply list_elem_of_fmap. exists h. split; [|done]. simpl. by destruct (p t h).
Qed.

(** ** Relay grants *)

Lemma host_available_device id t : host_available id t = true → has_device id t.
Proof.
  unfold host_available. rewrite existsb_exists. intros (h & _ & Hh). apply andb_true_iff in Hh as [Hl Hd].
  apply existsb_exists in Hd as (d & Hd & Hld). apply list_elem_of_fmap. exists d. apply list_elem_of_In in Hd.
  split; [|done]. unfold live_host, live_device in *. bool_prop. rewrite !same_true in *. congruence.
Qed.

Lemma keeps_insert_relay X id hostID endpointID expires now :
  keeps X (insert_relay id hostID endpointID expires now).
Proof.
  assert (Hsym : symmetric_key RelayAccessGrants) by apply keys_symmetric.
  apply keeps_on_tables. intros t t' n H. apply bind_Some in H as (l & Hl & [= <- <-]).
  apply frame_relay_access_grants. intros W.
  destruct (insert_all_ok RelayAccessGrants Hsym anything _ _ _ Hl) as [Hok ->]; [apply W|by apply Forall_true|].
  split; [done|]. intros r. rewrite elem_of_app. intros [Hr|Hr]; [by apply W|].
  destruct (host_available hostID t) eqn:E; [|by apply not_elem_of_nil in Hr].
  apply list_elem_of_singleton in Hr as ->. by apply host_available_device.
Qed.

Lemma keeps_delete_relay X reads p : keeps X (delete_where RelayAccessGrants reads p).
Proof.
  apply keeps_on_tables. intros t t' n [= <- <-]. apply frame_relay_access_grants. intros W.
  split; [by apply table_ok_filter, W|]. intros r Hr. apply list_elem_of_filter in Hr as [_ Hr]. by apply W.
Qed.

(** ** Batches *)

Lemma keeps_insert_batch X r : batch_ok r → keeps X (insert_values ManufacturingBatches r).
Proof.
  assert (Hsym : symmetric_key ManufacturingBatches) by apply keys_symmetric.
  intros Hr. apply keeps_on_tables. intros t t' n H. apply bind_Some in H as (l & Hl & [= <- <-]).
  apply frame_manufacturing_batches. intros W.
  destruct (insert_all_ok ManufacturingBatches Hsym batch_ok _ _ _ Hl) as [Hok ->]; [apply W|by apply Forall_singleton|].
  split; [done|]. intros b Hb _. exists b. split; [apply elem_of_app; by left|apply batch_advances_refl].
Qed.

Lemma keeps_update_batches X reads p g :
  (∀ t b, batch_ok b → p t b = true → batch_ok (g b) ∧ batch_advances b (g b)) →
  keeps X (update_where ManufacturingBatches reads p g).
Proof.
  intros Hg. apply keeps_on_tables. intros t t' n. cbn zeta. destruct (no_clash ManufacturingBatches _) eqn:E; [|done].
  intros [= <- <-]. apply frame_manufacturing_batches. intros W. destruct (wf_manufacturing_batches _ W) as [Hk HP].
  split; [apply update_ok; [done|done|intros; by eapply Hg]|].
  apply carried_map. intros b Hb. rewrite Forall_forall in HP. specialize (HP b Hb).
  destruct (p t b) eqn:Ep; [by eapply Hg|apply batch_advances_refl].
Qed.

(** ** Devices *)

Lemma keeps_update_devices X reads p g :
  (∀ t d, device_ok d → p t d = true → device_ok (g d) ∧ device_advances d (g d)) →
  keeps X (update_where Devices reads p g).
Proof.
  intros Hg. apply keeps_on_tables. intros t t' n. cbn zeta. destruct (no_clash Devices _) eqn:E; [|done].
  intros [= <- <-]. apply frame_devices. intros W. destruct (wf_devices _ W) as [Hk HP].
  split; [apply update_ok; [done|done|intros; by eapply Hg]|].
  intros d Hd. rewrite Forall_forall in HP. specialize (HP d Hd).
  destruct (p t d) eqn:Ep; [by eapply Hg|apply device_advances_refl].
Qed.

(** ** Running a list of statements step by step *)

Lemma run_statements_cons st sts db db' rs :
  run_statements (st :: sts) db = Some (db', rs) →
  ∃ db1 r rs1, run_statement st db = Some (db1, r) ∧ run_statements sts db1 = Some (db', rs1) ∧ rs = r :: rs1.
Proof.
  simpl. destruct (run_statement st db) as [[db1 r]|]; [|done].
  destruct (run_statements sts db1) as [[db2 rs1]|] eqn:E; [|done]. intros [= <- <-]. eauto 10.
Qed.

Lemma run_on_tables names f db db' r :
  run_statement (on_tables names f) db = Some (db', r) →
  ∃ n, f (data db) = Some (data db', n) ∧ r = mkStatementResult n 0 0.
Proof.
  unfold run_statement. simpl. destruct (forallb _ names); [|done].
  destruct (f (data db)) as [[t' n]|]; [|done]. intros [= <- <-]. eauto.
Qed.

Lemma run_expecting k st db db' r :
  run_statement (expecting k st) db = Some (db', r) → SQL st db = Some (db', r) ∧ sr_RowsAffected r = k.
Proof.
  unfold run_statement. simpl. destruct (SQL st db) as [[db1 r1]|]; [|done].
  case_bool_decide; simpl; [|done]. destruct (ExpectedReturnedRows st); [case_bool_decide; [|done]|]; by intros [= <- <-].
Qed.

Lemma sql_on_tables names f db db' r :
  SQL (on_tables names f) db = Some (db', r) → ∃ n, f (data db) = Some (data db', n) ∧ r = mkStatementResult n 0 0.
Proof.
  simpl. destruct (forallb _ names); [|done].
  destruct (f (data db)) as [[t' n]|]; [|done]. intros [= <- <-]. eauto.
Qed.

Lemma respects_app X a b : respects (rel_db X) a → respects (rel_db X) b → respects (rel_db X) (a ++ b).
Proof.
  intros Ha Hb db db' rs H. rewrite run_statements_app in H.
  destruct (run_statements a db) as [[db1 rs1]|] eqn:E1; [|done].
  destruct (run_statements b db1) as [[db2 rs2]|] eqn:E2; [|done]. injection H as <- _.
  etrans; [by eapply Ha|by eapply Hb].
Qed.

(** Inverts the run of a concrete list of statements. *)
Ltac step_statement H :=
  let db1 := fresh "db1" in let r := fresh "r" in let rs := fresh "rs" in let Hs := fresh "Hs" in
  let n := fresh "n" in let Hf := fresh "Hf" in
  apply run_statements_cons in H as (db1 & r & rs & Hs & H & ->);
  first [apply run_expecting in Hs as [Hs _]; apply sql_on_tables in Hs as (n & Hf & ->)
        |apply run_on_tables in Hs as (n & Hf & ->)].

(** Substitutes the tables after each step into the next one. *)
Ltac collect_tables :=
  repeat match goal with Hf : Some (_, _) = Some (_, _) |- _ => injection Hf; clear Hf; intros _ Hf end;
  repeat match goal with Hf : ?x = data ?d |- _ =>
    lazymatch x with context [data d] => fail | _ => idtac end;
    lazymatch goal with _ : ?y = data ?d' |- _ =>
      lazymatch x with context [data d'] => fail | _ => idtac end
    end;
    simpl in Hf; rewrite <- Hf in *; clear Hf
  end.

(** ** The deletion of a host *)

(** The tables without anything of the host. *)
Definition without_host (id : string) (t : tables) : tables :=
  with_rows Hosts (filter (λ h, same (h_id h) id = false) (hosts t))
  (with_rows Devices (filter (λ d, same (d_host_id d) id = false) (devices t))
  (with_rows EndpointDiscoveries (filter (λ e, same (e_host_id e) id = false) (endpoint_discovery t))
  (with_rows RelayAccessGrants (filter (λ r, same (r_host_id r) id = false) (relay_access_grants t))
  (with_rows AccessGrants (filter (λ g, same (g_host_id g) id = false) (access_grants t))
  (with_rows Snapshots (filter (λ n, same (n_host_id n) id = false) (authorized_keys_snapshots t))
  (with_rows SnapshotGrants (filter (λ m, same (m_host_id m) id = false) (authorized_keys_snapshot_grants t)) t)))))).

Lemma delete_host_run auditID id actor now db db' rs :
  run_statements (tl (delete_host_statements auditID id actor now)) db = Some (db', rs) →
  data db' = without_host id (data db).
Proof.
  unfold delete_host_statements. simpl tl. intros H.
  do 7 step_statement H. injection H as <- _.
  unfold without_host. collect_tables. reflexivity.
Qed.

Lemma elem_filter_false {A} (p : A → bool) (l : list A) x : x ∈ filter (λ r, p r = false) l ↔ p x = false ∧ x ∈ l.
Proof. by rewrite list_elem_of_filter. Qed.

Lemma same_false x y : same x y = false ↔ x ≠ y.
Proof. unfold same. by rewrite bool_decide_eq_false. Qed.

Lemma carried_filter {A} (p : A → Prop) (succ : A → A → Prop) (q : A → bool) (l : list A) :
  (∀ x, succ x x) → (∀ x, p x → q x = false) → carried p succ l (filter (λ x, q x = false) l).
Proof. intros Hs Hq x Hx Px. exists x. split; [|done]. apply elem_filter_false. auto. Qed.

Lemma NoDup_fmap_filter {A B} (f : A → B) (q : A → bool) (l : list A) :
  NoDup (f <$> l) → NoDup (f <$> filter (λ x, q x = false) l).
Proof.
  induction l as [|x l IH]; [done|]. csimpl. rewrite NoDup_cons. intros [H1 H2]. rewrite filter_cons.
  case_decide; [|by apply IH]. csimpl. apply NoDup_cons. split; [|by apply IH]. intros Hx. apply H1.
  apply list_elem_of_fmap in Hx as (y & -> & Hy). apply elem_filter_false in Hy as [_ Hy]. by apply list_elem_of_fmap_2.
Qed.

Lemma rel_without_host X id t : X ≠ Some id → rel X t (without_host id t).
Proof.
  intros HX W. destruct W. split.
  - split; simpl; try assumption; try (by apply table_ok_filter).
    + intros d Hd. apply elem_filter_false in Hd as [Hne Hd]. apply wf_device_host0 in Hd.
      apply list_elem_of_fmap in Hd as (h & E & Hh). rewrite E in *. apply list_elem_of_fmap_2, elem_filter_false. done.
    + by apply NoDup_fmap_filter.
    + intros r Hr. apply elem_filter_false in Hr as [Hne Hr]. apply wf_relay_host0 in Hr. unfold has_device in *.
      simpl. apply list_elem_of_fmap in Hr as (d & E & Hd). rewrite E in *. apply list_elem_of_fmap_2, elem_filter_false. done.
    + intros n Hn. apply elem_filter_false in Hn as [Hne Hn]. destruct (wf_marker0 n Hn) as (m & Hm & E1 & E2 & E3).
      exists m. rewrite elem_filter_false, E1. done.
    + intros m Hm. apply elem_filter_false in Hm as [Hne Hm]. destruct (wf_marked0 m Hm) as (n & Hn & E1 & E2).
      exists n. rewrite elem_filter_false, E1. done.
  - split; simpl; auto with store; apply carried_filter; auto with store; intros x Hx; apply same_false; congruence.
Qed.

Lemma respects_delete_host X auditID id actor now :
  X ≠ Some id → respects (rel_db X) (delete_host_statements auditID id actor now).
Proof.
  intros HX. apply (respects_app X [_] (tl (delete_host_statements auditID id actor now))).
  { apply respects_keeps, Forall_singleton, keeps_audit. }
  intros db db' rs H. unfold rel_db. rewrite (delete_host_run _ _ _ _ _ _ _ H). by apply rel_without_host.
Qed.

(** ** The publication of a snapshot *)

(** Inserting rows one statement at a time is inserting them all. *)
Lemma insert_values_run {A} (T : table A) (l : list A) db db' rs :
  (∀ l1 l2 t, with_rows T l2 (with_rows T l1 t) = with_rows T l2 t) →
  (∀ l1 t, rows T (with_rows T l1 t) = l1) → (∀ t, with_rows T (rows T t) t = t) →
  run_statements (insert_values T <$> l) db = Some (db', rs) →
  data db' = with_rows T (rows T (data db) ++ l) (data db) ∧
  (no_clash T (rows T (data db)) = true → symmetric_key T → no_clash T (rows T (data db')) = true).
Proof.
  intros Hww Hrw Hid. revert db rs. induction l as [|r l IH]; intros db rs H.
  - injection H as <- _. rewrite app_nil_r, Hid. done.
  - rewrite fmap_cons in H. apply run_statements_cons in H as (db1 & r1 & rs1 & Hs & H & ->).
    apply run_on_tables in Hs as (n & Hf & ->). apply bind_Some in Hf as (l1 & Hl & [= Hd _]).
    simpl in Hl. destruct (existsb (clash T r) (rows T (data db))) eqn:E; [done|]. injection Hl as <-.
    destruct (IH _ _ H) as [-> Hk]. rewrite <- Hd in *. rewrite Hww, !Hrw in *.
    split; [by rewrite <- app_assoc|]. intros Hc Hsym. apply Hk; [by apply no_clash_snoc|done].
Qed.

Lemma of_account_true h u m : of_account h u m = true ↔ m_host_id m = h ∧ m_ssh_user m = u.
Proof. unfold of_account. by rewrite andb_true_iff, !same_true. Qed.

Lemma of_account_false h u m : of_account h u m = false ↔ ¬ (m_host_id m = h ∧ m_ssh_user m = u).
Proof. by rewrite <- not_true_iff_false, of_account_true. Qed.

Lemma marker_is_marker grants h u : is_marker (SnapshotGrantRow h u (snapshot_marker grants)) = true.
Proof.
  unfold is_marker, like_prefix, snapshot_marker. simpl. 
  assert (Hlow : ∀ a b, strings.ToLowerASCII (a +:+ b) = strings.ToLowerASCII a +:+ strings.ToLowerASCII b).
  { intros a b. induction a as [|c a IH]; [done|]. rewrite app_cons_s. simpl. by rewrite IH. }
  rewrite Hlow. apply HasPrefix_app.
Qed.

(** The snapshots after the upsert. *)
Definition moved_snapshot (hostID sshUser digest marker : string) (t : tables) (old : authorized_keys_snapshots_row) :
    authorized_keys_snapshots_row :=
  SnapshotRow (n_host_id old) (n_ssh_user old)
    (if is_not (n_digest old) digest ||
        negb (existsb (λ m, of_account hostID sshUser m && same (m_grant_id m) marker)
                (authorized_keys_snapshot_grants t))
     then n_generation old + 1 else n_generation old) digest.

Definition published (hostID sshUser digest marker : string) (t : tables) : list authorized_keys_snapshots_row :=
  let excluded := SnapshotRow hostID sshUser 1 digest in
  if existsb (clash Snapshots excluded) (authorized_keys_snapshots t)
  then (λ old, if clash Snapshots excluded old then moved_snapshot hostID sshUser digest marker t old else old) <$>
         authorized_keys_snapshots t
  else authorized_keys_snapshots t ++ [excluded].

Definition with_snapshot (hostID sshUser digest : string) (grants : list string) (t : tables) : tables :=
  with_rows SnapshotGrants
    (filter (λ m, of_account hostID sshUser m = false) (authorized_keys_snapshot_grants t) ++
     (SnapshotGrantRow hostID sshUser <$> (snapshot_marker grants :: grants)))
    (with_rows Snapshots (published hostID sshUser digest (snapshot_marker grants) t) t).

Lemma publish_run hostID sshUser digest grants db db' rs :
  run_statements (publish_statements hostID sshUser digest grants) db = Some (db', rs) →
  data db' = with_snapshot hostID sshUser digest grants (data db) ∧
  (no_clash SnapshotGrants (authorized_keys_snapshot_grants (data db)) = true →
   no_clash SnapshotGrants (authorized_keys_snapshot_grants (data db')) = true).
Proof.
  unfold publish_statements. simpl app. intros H. do 2 step_statement H.
  injection Hf0; clear Hf0; intros _ Hd0.
  assert (Hd : data db1 = with_rows Snapshots (published hostID sshUser digest (snapshot_marker grants) (data db)) (data db)).
  { unfold published. simpl in Hf. revert Hf. destruct (existsb _ (authorized_keys_snapshots (data db))); intros Hf; injection Hf; intros _ <-; reflexivity. }
  change (insert_snapshot_grant hostID sshUser (snapshot_marker grants) ::
            (insert_snapshot_grant hostID sshUser <$> grants)) with
    (insert_snapshot_grant hostID sshUser <$> (snapshot_marker grants :: grants)) in H.
  rewrite (list_fmap_compose (SnapshotGrantRow hostID sshUser) (insert_values SnapshotGrants)) in H.
  apply insert_values_run in H as [H Hk]; [|by intros ? ? []|by intros ? []|by intros []].
  split; [unfold with_snapshot; rewrite H, <- Hd0, Hd; reflexivity|]. intros Hc. apply Hk; [|apply keys_symmetric].
  rewrite <- Hd0, Hd. simpl. by apply no_clash_filter.
Qed.

Lemma published_spec hostID sshUser digest marker t :
  table_ok Snapshots snapshot_ok (authorized_keys_snapshots t) →
  let l := published hostID sshUser digest marker t in
  table_ok Snapshots snapshot_ok l ∧ carried (λ _, True) snapshot_advances (authorized_keys_snapshots t) l ∧
  (∃ n, n ∈ l ∧ n_host_id n = hostID ∧ n_ssh_user n = sshUser ∧ n_digest n = digest) ∧
  (∀ n, n ∈ l → (n_host_id n = hostID ∧ n_ssh_user n = sshUser) ∨ n ∈ authorized_keys_snapshots t).
Proof.
  assert (Hsym : symmetric_key Snapshots) by apply keys_symmetric.
  intros [Hk HP]. unfold published. set (excluded := SnapshotRow hostID sshUser 1 digest).
  set (moved := moved_snapshot hostID sshUser digest marker t).
  assert (Hc : ∀ n, clash Snapshots excluded n = true ↔ n_host_id n = hostID ∧ n_ssh_user n = sshUser).
  { intros n. simpl. rewrite andb_true_iff, !same_true. naive_solver. }
  assert (Hm : ∀ n, snapshot_advances n (moved n)).
  { intros n. unfold moved, moved_snapshot, is_not. split_and!; simpl; [done|done| |].
    - destruct (_ || _); lia.
    - intros Hne. rewrite bool_decide_eq_false_2 by congruence. simpl. lia. }
  destruct (existsb (clash Snapshots excluded) (authorized_keys_snapshots t)) eqn:E.
  - split_and!.
    + split.
      * apply no_clash_map; [|done]. intros x y _ _.
        by destruct (clash Snapshots excluded x), (clash Snapshots excluded y).
      * apply Forall_fmap. rewrite Forall_forall in HP |- *. intros n Hn.
        change (snapshot_ok (if clash Snapshots excluded n then moved n else n)).
        destruct (clash Snapshots excluded n); [|auto]. specialize (HP n Hn).
        destruct (Hm n) as (_ & _ & Hg & _). unfold snapshot_ok in *. lia.
    + apply carried_map. intros n _. destruct (clash Snapshots excluded n); [apply Hm|apply snapshot_advances_refl].
    + apply existsb_exists in E as (n & Hn & En). apply list_elem_of_In in Hn. exists (moved n).
      split; [|by destruct (proj1 (Hc n) En)]. apply list_elem_of_fmap. exists n. by rewrite En.
    + intros n Hn. apply list_elem_of_fmap in Hn as (n0 & -> & Hn0).
      destruct (clash Snapshots excluded n0) eqn:En; [left; apply (Hc n0) in En; done|by right].
  - split_and!.
    + split; [by apply no_clash_snoc|]. apply Forall_app. split; [done|]. apply Forall_singleton. unfold snapshot_ok. simpl. lia.
    + intros n Hn _. exists n. split; [apply elem_of_app; by left|apply snapshot_advances_refl].
    + exists excluded. split; [apply elem_of_app; right; by apply list_elem_of_singleton|done].
    + intros n [Hn|Hn]%elem_of_app; [by right|]. apply list_elem_of_singleton in Hn as ->. by left.
Qed.

Lemma rel_with_snapshot X hostID sshUser digest grants t :
  no_clash SnapshotGrants (authorized_keys_snapshot_grants (with_snapshot hostID sshUser digest grants t)) = true →
  rel X t (with_snapshot hostID sshUser digest grants t).
Proof.
  intros Hk W. pose proof (published_spec hostID sshUser digest (snapshot_marker grants) t (wf_snapshots _ W)) as Hp.
  cbn zeta in Hp. destruct Hp as (Hok & Hcar & (n0 & Hn0 & E0 & E0' & _) & Hback).
  set (row := SnapshotGrantRow hostID sshUser).
  destruct W. split.
  - split; simpl in *; try assumption.
    + split; [done|by apply Forall_true].
    + intros n Hn. destruct (Hback n Hn) as [[E E']|Hold].
      * exists (row (snapshot_marker grants)). split_and!; [|done|done|apply marker_is_marker].
        apply elem_of_app. right. by left.
      * destruct (decide (n_host_id n = hostID ∧ n_ssh_user n = sshUser)) as [[E E']|Hne].
        { exists (row (snapshot_marker grants)). split_and!; [|done|done|apply marker_is_marker].
          apply elem_of_app. right. by left. }
        destruct (wf_marker0 n Hold) as (m & Hm & E1 & E2 & E3). exists m. split; [|done].
        apply elem_of_app. left. apply elem_filter_false. split; [|done]. apply of_account_false. by rewrite E1, E2.
    + intros m [Hm|Hm]%elem_of_app.
      * apply elem_filter_false in Hm as [_ Hm]. destruct (wf_marked0 m Hm) as (n & Hn & E1 & E2).
        destruct (Hcar n Hn I) as (n' & Hn' & E3 & E4 & _). exists n'. split; [done|]. split; congruence.
      * exists n0. split; [done|].
        apply list_elem_of_In in Hm. destruct Hm as [<-|Hm]; [done|].
        apply list_elem_of_In, list_elem_of_fmap in Hm as (g & -> & _). done.
  - split; simpl; auto with store. intros n Hn _. by apply Hcar.
Qed.

Lemma respects_publish X hostID sshUser digest grants :
  respects (rel_db X) (publish_statements hostID sshUser digest grants).
Proof.
  intros db db' rs H W. destruct (publish_run _ _ _ _ _ _ _ H) as [E Hk].
  rewrite E. apply rel_with_snapshot; [|done]. rewrite <- E. apply Hk, W.
Qed.

(** ** The acknowledgement: rows of the snapshot table are written as they are *)

Lemma map_same {A} (p : A → bool) (l : list A) : ((λ r, if p r then r else r) <$> l) = l.
Proof. induction l as [|r l IH]; [done|]. csimpl. rewrite IH. by destruct (p r). Qed.

Lemma keeps_rewrite_snapshots X reads p : keeps X (update_where Snapshots reads p (λ n, n)).
Proof.
  apply keeps_on_tables. intros t t' n. cbn zeta. rewrite map_same. destruct (no_clash Snapshots _); [|done].
  intros [= <- <-]. simpl. destruct t. reflexivity.
Qed.

(** ** The enrollment of a device *)

Lemma respects_enroll X id hostID endpointID fingerprint key serial model sshUser tags sshPort now :
  ValidHostName serial = true → ValidSSHUser sshUser = true → 0 ≤ sshPort < 65536 → key ≠ "" →
  respects (rel_db X) [enroll_host hostID serial endpointID sshUser tags sshPort now;
                       enroll_device id hostID endpointID fingerprint key serial model now].
Proof.
  intros Hs Hu Hp Hkey db db' rs H W. do 2 step_statement H. injection H as <- _.
  apply bind_Some in Hf as (l1 & Hl1 & E1), Hf0 as (l2 & Hl2 & E2).
  injection E1; clear E1; intros _ E1. injection E2; clear E2; intros _ E2. rewrite <- E1 in *. rewrite <- E2.
  simpl in Hl1, Hl2. set (h := HostRow hostID _ _ _ _ _ _ _ _ _ _) in *. set (d := DeviceRow _ _ _ _ _ _ _ _ _ _) in *.
  destruct (existsb _ (hosts (data db))) eqn:Eh; [done|]. injection Hl1 as <-.
  destruct (existsb _ (devices (data db))) eqn:Ed; [done|]. injection Hl2 as <-.
  set (t := data db) in *. clearbody t. clear E1 E2.
  destruct keys_symmetric as (Sh & _ & _ & _ & _ & _ & _ & _ & _ & Sd & _).
  assert (Hnew : ∀ x, x ∈ hosts t → h_id x ≠ hostID).
  { intros x Hx E. assert (Hf : existsb (clash Hosts h) (hosts t) = true); [|simpl in *; congruence].
    apply existsb_exists. exists x. split; [by apply list_elem_of_In|]. simpl. rewrite E.
    apply orb_true_iff. left. by apply same_true. }
  destruct W. split.
  - split; simpl; try assumption.
    + destruct wf_hosts0 as [H1 H2]. split; [by apply no_clash_snoc|]. apply Forall_app. split; [done|].
      by apply Forall_singleton.
    + destruct wf_devices0 as [H1 H2]. split; [by apply no_clash_snoc|]. apply Forall_app. split; [done|].
      apply Forall_singleton. split; [by exists serial|]. split; [done|by left].
    + intros d' [Hd|Hd]%elem_of_app; rewrite fmap_app; apply elem_of_app; [left; by apply wf_device_host0|].
      apply list_elem_of_singleton in Hd as ->. right. by left.
    + rewrite fmap_app. apply NoDup_app. split; [done|]. split; [|by apply NoDup_singleton].
      intros x Hx Hx'. apply list_elem_of_singleton in Hx' as ->. apply list_elem_of_fmap in Hx as (d' & E & Hd').
      apply wf_device_host0 in Hd'. rewrite <- E in Hd'. apply list_elem_of_fmap in Hd' as (x & E' & Hx).
      by apply (Hnew x Hx).
    + intros r Hr. unfold has_device. simpl. rewrite fmap_app. apply elem_of_app. left. by apply wf_relay_host0.
  - split; simpl; auto with store. intros d' Hd' _. exists d'. split; [apply elem_of_app; by left|apply device_advances_refl].
Qed.
