(* ===== verification/StoreOperations.v ===== *)
(** * The operations of the store, together

    [store_operation X]: an exported operation of the store with any arguments,
    its result forgotten, that does not delete the host [X].  Every
    transaction such an operation submits respects [rel X]. *)

From S2P Require Export StoreInvariant.
Open Scope go_scope.

Definition forget {A} (p : prog storeE A) : prog storeE unit := prog_bind p (λ _, Ret tt).

(** The values of a Go uint16. *)
Definition uint16 (z : Z) : Prop := (0 ≤ z < 65536)%Z.

Inductive store_operation (X : option string) : prog storeE unit → Prop :=
  | op_RevokeSession c e : store_operation X (forget (RevokeSession c e))
  | op_SessionRevoked c : store_operation X (forget (SessionRevoked c))
  | op_CreateHost h a : uint16 (NewHost_SSHPort h) → store_operation X (forget (CreateHost h a))
  | op_ListHosts : store_operation X (forget ListHosts)
  | op_GetHost id : store_operation X (forget (GetHost id))
  | op_UpdateHost id h a : uint16 (NewHost_SSHPort h) → store_operation X (forget (UpdateHost id h a))
  | op_DeleteHost id a : X ≠ Some id → store_operation X (forget (DeleteHost id a))
  | op_CreatePolicy p a : store_operation X (forget (CreatePolicy p a))
  | op_ListPolicies : store_operation X (forget ListPolicies)
  | op_UpdatePolicy id p a : store_operation X (forget (UpdatePolicy id p a))
  | op_DeletePolicy id a : store_operation X (forget (DeletePolicy id a))
  | op_CreateSSHKey u k f : store_operation X (forget (CreateSSHKey u k f))
  | op_ListSSHKeys u : store_operation X (forget (ListSSHKeys u))
  | op_AuthorizedKeysForHost h u : store_operation X (forget (AuthorizedKeysForHost h u))
  | op_AuthorizedKeysSnapshotForHost h u : store_operation X (forget (AuthorizedKeysSnapshotForHost h u))
  | op_AuthorizedKeysGeneration h u d g : store_operation X (forget (AuthorizedKeysGeneration h u d g))
  | op_PublishAuthorizedKeysSnapshot h u : store_operation X (forget (PublishAuthorizedKeysSnapshot h u))
  | op_AcknowledgeAuthorizedKeys h u g d : store_operation X (forget (AcknowledgeAuthorizedKeys h u g d))
  | op_DeleteSSHKey id : store_operation X (forget (DeleteSSHKey id))
  | op_DeleteSSHKeyForUser id u b : store_operation X (forget (DeleteSSHKeyForUser id u b))
  | op_RecordPolicyDenied a r u : store_operation X (forget (RecordPolicyDenied a r u))
  | op_CreateAccessRequest u h s : store_operation X (forget (CreateAccessRequest u h s))
  | op_ApproveAccessRequest id : store_operation X (forget (ApproveAccessRequest id))
  | op_CreateAccessGrant r u h s e k : store_operation X (forget (CreateAccessGrant r u h s e k))
  | op_IssueSSHAccess u h s e : store_operation X (forget (IssueSSHAccess u h s e))
  | op_GetAccessGrant id : store_operation X (forget (GetAccessGrant id))
  | op_ListAccessGrants : store_operation X (forget ListAccessGrants)
  | op_ListAccessRequests : store_operation X (forget ListAccessRequests)
  | op_ListUserAccessGrants u : store_operation X (forget (ListUserAccessGrants u))
  | op_ListUserAccessRequests u : store_operation X (forget (ListUserAccessRequests u))
  | op_CreateAuditEvent a r i u b c : store_operation X (forget (CreateAuditEvent a r i u b c))
  | op_ListAuditEvents n : store_operation X (forget (ListAuditEvents n))
  | op_UpdateEndpointDiscovery h a r : store_operation X (forget (UpdateEndpointDiscovery h a r))
  | op_GetEndpointDiscovery h : store_operation X (forget (GetEndpointDiscovery h))
  | op_CreateRelayAccessGrant h e u t : store_operation X (forget (CreateRelayAccessGrant h e u t))
  | op_RenewRelayAccessGrant h e u t : store_operation X (forget (RenewRelayAccessGrant h e u t))
  | op_RelayEndpointAllowed e : store_operation X (forget (RelayEndpointAllowed e))
  | op_CreateManufacturingToken b e a : store_operation X (forget (CreateManufacturingToken b e a))
  | op_ListManufacturingTokens : store_operation X (forget ListManufacturingTokens)
  | op_GetManufacturingToken t : store_operation X (forget (GetManufacturingToken t))
  | op_CreateManufacturingBatch n s e m a : store_operation X (forget (CreateManufacturingBatch n s e m a))
  | op_ListManufacturingBatches : store_operation X (forget ListManufacturingBatches)
  | op_CloseManufacturingBatch id a : store_operation X (forget (CloseManufacturingBatch id a))
  | op_EnrollDevice t e s m f k u p g : uint16 p → store_operation X (forget (EnrollDevice t e s m f k u p g))
  | op_ListDevices : store_operation X (forget ListDevices)
  | op_GetDeviceByHostID h : store_operation X (forget (GetDeviceByHostID h))
  | op_GetDeviceBySerial s : store_operation X (forget (GetDeviceBySerial s))
  | op_TouchDevice i h e f s a r : store_operation X (forget (TouchDevice i h e f s a r))
  | op_DeleteDevice id a : store_operation X (forget (DeleteDevice id a)).

(** ** What a program submits, by its shape *)

Section submits.
Context (P : list SQLStatement → Prop).

Lemma submits_write_locked {A} (e : A) body : submits P body → submits P (write_locked e body).
Proof.
  intros H. apply submits_bind; [by split|]. intros [|]; [|done]. apply submits_bind; [done|]. intros a.
  by apply submits_bind; [split|].
Qed.

Lemma submits_read_locked {A} (e : A) body : submits P body → submits P (read_locked e body).
Proof.
  intros H. apply submits_bind; [by split|]. intros [|]; [|done]. apply submits_bind; [done|]. intros a.
  by apply submits_bind; [split|].
Qed.

Lemma submits_try {A B} (p : prog storeE (result A)) (f : A → prog storeE (result B)) :
  submits P p → (∀ a, submits P (f a)) → submits P (try_bind p f).
Proof. intros Hp Hf. apply submits_bind; [done|]. intros [a|e]; [apply Hf|done]. Qed.

Lemma submits_need {A} (p : prog storeE (result A)) (f : A → prog storeE (option error)) :
  submits P p → (∀ a, submits P (f a)) → submits P (need_bind p f).
Proof. intros Hp Hf. apply submits_bind; [done|]. intros [a|e]; [apply Hf|done]. Qed.

Lemma submits_check p k : submits P p → submits P k → submits P (check_bind p k).
Proof. intros Hp Hk. apply submits_bind; [done|]. intros [e|]; [done|apply Hk]. Qed.

Lemma submits_query_rows {A} names q ts (read : list go_value → A) : submits P (query_rows names q ts read).
Proof. apply submits_try; [by split|done]. Qed.

Lemma submits_query_row {A} names q ts (read : list go_value → A) : submits P (query_row names q ts read).
Proof. apply submits_try; [by split|done]. Qed.

Lemma submits_query_optional {A} names q ts (read : list go_value → A) : submits P (query_optional names q ts read).
Proof. apply submits_bind; [apply submits_query_row|done]. Qed.

Lemma submits_exec st : P [bare st] → submits P (call (Exec st)).
Proof. by split. Qed.

Lemma submits_transaction sts : P sts → submits P (call (Transaction sts)).
Proof. by split. Qed.

End submits.

Ltac submits_step :=
  match goal with
  | |- submits _ (forget _) => apply submits_bind; [|done]
  | |- submits _ (write_locked _ _) => apply submits_write_locked
  | |- submits _ (read_locked _ _) => apply submits_read_locked
  | |- submits _ (query_rows _ _ _ _) => apply submits_query_rows
  | |- submits _ (query_row _ _ _ _) => apply submits_query_row
  | |- submits _ (query_optional _ _ _ _) => apply submits_query_optional
  | |- submits _ (try_bind _ _) => apply submits_try; [|intros ?]
  | |- submits _ (need_bind _ _) => apply submits_need; [|intros ?]
  | |- submits _ (check_bind _ _) => apply submits_check
  | |- submits _ (prog_bind _ _) => apply submits_bind; [|intros ?]
  | |- submits _ (call (Exec _)) => apply submits_exec
  | |- submits _ (call (Transaction _)) => apply submits_transaction
  | |- submits _ (call _) => split; [exact I|intros; exact I]
  | |- submits _ (Ret _) => exact I
  | |- submits _ (if ?b then _ else _) => destruct b eqn:?
  | |- submits _ (match ?x with _ => _ end) => destruct x eqn:?
  | |- submits _ (exec _) => unfold exec
  | |- submits _ (exec_err _) => unfold exec_err
  | |- submits _ (transaction _) => unfold transaction
  | |- submits _ (transaction_err _) => unfold transaction_err
  | |- submits _ newID => unfold newID
  | |- submits _ nowUnix => unfold nowUnix
  | |- submits _ (let _ := _ in _) => cbv zeta
  | |- submits _ ?p => let h := get_head p in unfold h
  end.

(** ** Each statement keeps the relation *)

(** Statements on tables whose rows only have to be well-formed, on the audit
    log and on relay grants. *)
Ltac keeps_one :=
  repeat first [apply keeps_expecting|apply keeps_bare];
  first [apply keeps_audit|apply keeps_insert_relay|apply keeps_delete_relay|apply keeps_rewrite_snapshots
        |eapply keeps_delete; eassumption
        |eapply keeps_insert_values; [eassumption|]
        |eapply keeps_insert_where; [eassumption|]
        |eapply keeps_replace; [eassumption|]
        |eapply keeps_update; [eassumption|]
        |idtac].

Ltac by_statements :=
  apply respects_keeps; repeat (apply Forall_cons; split); try apply Forall_nil; try exact I; keeps_one.

Section statements.
Context (X : option string).

Lemma keeps_upsert_discovery reads c r : keeps X (upsert_discovery reads c r).
Proof.
  destruct (free_tables X) as (_ & _ & _ & _ & _ & _ & F).
  eapply keeps_upsert; [exact F|done|done|]. intros t x y. done.
Qed.

Lemma keeps_insert_host_of id h now :
  ValidHostName (NewHost_Name h) = true → ValidSSHUser (NewHost_SSHUser h) = true → uint16 (NewHost_SSHPort h) →
  keeps X (insert_host id h now).
Proof. intros H1 H2 H3. by apply keeps_insert_host. Qed.

Lemma keeps_seen_hosts reads p status now : keeps X (update_where Hosts reads p (set_host_seen status now)).
Proof. by apply keeps_update_hosts. Qed.

Lemma keeps_consume_batch b now : keeps X (consume_batch b now).
Proof.
  apply keeps_expecting, keeps_update_batches. intros _ r (Hm & Hu & Hs) Hp. bool_prop.
  rewrite same_true in *. destruct Hs as [(Es & Ec & Hlt)|[Es _]]; [|congruence]. unfold batch_ok, batch_advances. simpl.
  destruct (Z.leb_spec (b_max_devices r) (b_used_count r + 1)) as [Hfull|Hmore];
    (split; [split; [done|]; split; [lia|]|split; [done|]; split; [lia|congruence]]).
  - right. eauto.
  - left. split_and!; [done|done|lia].
Qed.

Lemma keeps_close_batch id now :
  keeps X (update_where ManufacturingBatches []
    (λ _ b, same (b_id b) id && same (b_status b) "open") (set_closed now)).
Proof.
  apply keeps_update_batches. intros _ r (Hm & Hu & _) Hp. bool_prop. rewrite same_true in *.
  unfold batch_ok, batch_advances. simpl. split; [split; [done|]; split; [done|right; eauto]|].
  split; [done|]. split; [lia|congruence].
Qed.

Lemma keeps_new_batch id name prefix hash expires max now :
  (1 ≤ max ≤ 10000)%Z →
  keeps X (insert_values ManufacturingBatches
    (ManufacturingBatchRow id name prefix hash "open" expires max 0 None now)).
Proof.
  intros Hm. apply keeps_insert_batch. unfold batch_ok. simpl. split; [done|]. split; [lia|].
  left. split_and!; [done|done|lia].
Qed.

Lemma keeps_device_seen p g :
  (∀ t d, p t d = true → d_state d ≠ "revoked" ∧ same_device d (g d) ∧ is_Some (d_last_seen_at (g d)) ∧
     (d_state (g d) = d_state d ∨ d_state (g d) = "revoked")) →
  keeps X (update_where Devices [] p g).
Proof.
  intros Hg. apply keeps_update_devices. intros t d (Hs & Hk & Hst) Hp.
  destruct (Hg t d Hp) as (Hne & Hsame & Hseen & Hstate). split; [|by split].
  destruct Hsame. unfold device_ok. rewrite sd_serial, sd_key. split; [done|]. split; [done|].
  destruct Hstate as [->| ->]; [|by right]. destruct Hst as [?|[? _]]; [by left|done].
Qed.

Lemma keeps_set_seen id hostID endpointID fingerprint now :
  keeps X (update_where Devices []
     (λ _ d, active_device id hostID d && same (d_endpoint_id d) endpointID &&
             same (d_ssh_host_key_fingerprint d) fingerprint) (set_seen now)).
Proof.
  apply keeps_device_seen. intros _ d H. unfold active_device, is_not in H. bool_prop.
  split_and!; [done|done|by eexists|by left].
Qed.

Lemma keeps_set_revoked id now :
  keeps X (update_where Devices [] (λ _ d, same (d_id d) id && is_not (d_state d) "revoked") (set_revoked now)).
Proof.
  apply keeps_device_seen. intros _ d H. unfold is_not in H. bool_prop. split_and!; [done|done|by eexists|by right].
Qed.

Lemma keeps_insert_token id hash batchID expiresAt now : keeps X (insert_token id hash batchID expiresAt now).
Proof.
  destruct (free_tables X) as (_ & _ & _ & _ & _ & F & _). unfold insert_token.
  case_bool_decide; keeps_one; done.
Qed.

Lemma payment_keeps mt batch token serial now s l :
  enrollment_payment mt batch token serial now = Ok (s, l) → Forall (keeps X) l.
Proof.
  destruct (free_tables X) as (_ & _ & _ & _ & _ & F & _).
  assert (Htok : ∀ mt, Forall (keeps X) (match mt with Some mt => [consume_token mt token now] | None => [] end)).
  { intros [m|]; [|apply Forall_nil; exact I]. apply Forall_singleton. unfold consume_token. keeps_one. }
  unfold enrollment_payment. destruct batch as [b|].
  - destruct (_ || _); [done|]. destruct (_ && _); [done|]. intros [= _ <-].
    apply Forall_cons. split; [apply keeps_consume_batch|apply Htok].
  - destruct (bool_decide _); [done|]. intros [= _ <-]. apply Htok.
Qed.

End statements.

(** ** Results a program can return *)

Fixpoint yields {A} (Q : A → Prop) (p : prog storeE A) : Prop :=
  match p with Ret a => Q a | Call _ k => ∀ x, yields Q (k x) end.

Lemma submits_bind_yields P {A B} (Q : A → Prop) (p : prog storeE A) (f : A → prog storeE B) :
  submits P p → yields Q p → (∀ a, Q a → submits P (f a)) → submits P (prog_bind p f).
Proof.
  intros Hp HQ Hf. unfold prog_bind. induction p as [a|X e k IH]; [by apply Hf|].
  destruct Hp as [He Hk]. split; [done|]. intros x. by apply IH.
Qed.

Lemma create_batch_respects X n s e m a :
  submits (respects (rel_db X)) (CreateManufacturingBatch n s e m a).
Proof.
  apply submits_write_locked. destruct (bool_decide (a = "")); [done|].
  apply (submits_bind_yields _ (λ invalid : bool, invalid = false → (1 ≤ m ≤ 10000)%Z)).
  - repeat submits_step.
  - destruct (_ || _); [done|]. simpl. intros now. rewrite !orb_false_iff, !Z.ltb_ge. lia.
  - intros [] Hm; [done|]. specialize (Hm eq_refl). repeat submits_step.
    by_statements. by apply keeps_new_batch.
Qed.

(** ** Every transaction of every operation *)

Lemma respects_operation X p : store_operation X p → submits (respects (rel_db X)) p.
Proof.
  destruct (free_tables X) as (F1 & F2 & F3 & F4 & F5 & F6 & F7).
  destruct 1; try (apply submits_bind; [apply create_batch_respects|done]); repeat submits_step;
    try solve [by_statements; done]; bool_prop.
  - by_statements. apply keeps_insert_host_of; [done|done|]. simpl. unfold uint16 in *. case_bool_decide; lia.
  - by_statements. by apply keeps_update_hosts.
  - by apply respects_delete_host.
  - apply respects_publish.
  - apply respects_publish.
  - by_statements. intros ? _. by right.
  - by_statements. by left.
  - by_statements. intros ? _. by right.
  - by_statements. by left.
  - by_statements; [by right|by left].
  - by_statements. apply keeps_upsert_discovery.
  - by_statements. apply keeps_insert_token.
  - by_statements. apply keeps_close_batch.
  - apply respects_app; [apply respects_keeps; by eapply payment_keeps|].
    apply respects_enroll; try done. unfold uint16 in *. destruct (bool_decide (p = 0%Z)); lia.
  - by_statements; [apply keeps_set_seen|apply keeps_seen_hosts|apply keeps_upsert_discovery].
  - by_statements; [apply keeps_set_revoked|apply keeps_seen_hosts|done].
Qed.
