(* ===== verification/StoreRuns.v ===== *)
(** * Reasoning about sequential runs of the store's operations

    [swp seen clock p db Q]: on a working node, from the database [db], the
    program [p] returns a result and a database that satisfy [Q], for all
    identifiers outside [seen] and all clock readings from [clock] on.  The
    theorems about [store_run] are proved with it, through [swp_run]. *)

From S2P Require Export StoreOperations.
Open Scope go_scope.

(** Every table of the schema exists. *)
Definition table_names : list string :=
  ["hosts"; "policies"; "ssh_keys"; "access_requests"; "access_grants"; "revoked_sessions"; "audit_events";
   "manufacturing_tokens"; "manufacturing_batches"; "devices"; "endpoint_discovery"; "relay_access_grants";
   "authorized_keys_snapshots"; "authorized_keys_snapshot_grants"].

Definition has_tables (db : database) : Prop := ∀ n, n ∈ table_names → table_exists n db = true.

(** Every identifier stored in a table. *)
Definition known_ids (t : tables) : gset string :=
  list_to_set ((h_id <$> hosts t) ++ (p_id <$> policies t) ++ (k_id <$> ssh_keys t) ++
    (q_id <$> access_requests t) ++ (g_id <$> access_grants t) ++ (a_id <$> audit_events t) ++
    (t_id <$> manufacturing_tokens t) ++ (b_id <$> manufacturing_batches t) ++ (d_id <$> devices t) ++
    (d_host_id <$> devices t) ++ (r_id <$> relay_access_grants t)).

(** A working node with the schema, whose new identifiers are fresh and whose
    clock does not go back. *)
Record healthy (o : oracle) (w : store_world) : Prop := {
  hl_working : working o;
  hl_inj : Inj (=) (=) (o_id o);
  hl_fresh m : sw_calls w ≤ m → o_id o m ∉ known_ids (data (sw_db w));
  hl_clock n m : n ≤ m → (o_now o n ≤ o_now o m)%Z;
  hl_tables : has_tables (sw_db w);
}.

Definition set_data (t : tables) (db : database) : database :=
  Database (sqlite_master db) (trust_state db) (ternal_schema db) t.

(** What [sts] may come to: done, or with [faults] refused, or done and the
    answer lost. *)
Definition executes (faults : bool) (sts : list SQLStatement) (db : database)
    (x : ExecuteResponse * option error) (db' : database) : Prop :=
  (x, db') = execute_db sts db ∨
  (faults = true ∧ ∃ e, e ≠ ErrNoRows ∧ x = (zero_response, Some e) ∧ (db' = db ∨ db' = snd (execute_db sts db))).

(** The answers of a node: a working one, or with [faults] any. *)
Definition answers (faults : bool) (seen : gset string) (clock : Z) {X} (e : storeE X) (db : database) :
    X → database → gset string → Z → Prop :=
  match e in storeE X return X → database → gset string → Z → Prop with
  | AcquireRead | AcquireWrite => λ x db' seen' clock',
      (x = true ∨ faults = true) ∧ db' = db ∧ seen' = seen ∧ clock' = clock
  | ReleaseRead | ReleaseWrite => λ _ db' seen' clock', db' = db ∧ seen' = seen ∧ clock' = clock
  | NewID => λ x db' seen' clock', x ∉ seen ∧ db' = db ∧ seen' = {[x]} ∪ seen ∧ clock' = clock
  | NowUnix => λ x db' seen' clock', (clock ≤ x)%Z ∧ db' = db ∧ seen' = seen ∧ clock' = x
  | RandRead _ => λ _ db' seen' clock', db' = db ∧ seen' = seen ∧ clock' = clock
  | Query names q => λ x db' seen' clock',
      (x = match query_db names q db with Some rows => Ok rows | None => Err (Errorf "SQL query failed") end ∨
       (faults = true ∧ ∃ e, e ≠ ErrNoRows ∧ x = Err e)) ∧
      db' = db ∧ seen' = seen ∧ clock' = clock
  | Exec st => λ x db' seen' clock', executes faults [bare st] db x db' ∧ seen' = seen ∧ clock' = clock
  | Transaction sts => λ x db' seen' clock',
      (sts ≠ [] → executes faults sts db x db') ∧
      (sts = [] → snd x = Some (Errorf "transaction requires at least one statement") ∧ db' = db) ∧
      seen' = seen ∧ clock' = clock
  end.

Fixpoint swp {A} (faults : bool) (seen : gset string) (clock : Z) (p : prog storeE A) (db : database)
    (Q : A → database → gset string → Z → Prop) : Prop :=
  match p with
  | Ret a => Q a db seen clock
  | Call e k => ∀ x db' seen' clock', answers faults seen clock e db x db' seen' clock' →
      swp faults seen' clock' (k x) db' Q
  end.

(** The data node does not answer with ErrNoRows, which is made by Scan. *)
Definition no_rows_is_local (o : oracle) : Prop :=
  ∀ n, o_fault o n ≠ Refused ErrNoRows ∧ o_fault o n ≠ Lost ErrNoRows.

(** The oracle's answers from the call the run has come to. *)
Record ready (faults : bool) (o : oracle) (w : store_world) (seen : gset string) (clock : Z) : Prop := {
  rd_working : if faults then no_rows_is_local o else working o;
  rd_inj : Inj (=) (=) (o_id o);
  rd_clock n m : n ≤ m → (o_now o n ≤ o_now o m)%Z;
  rd_fresh m : sw_calls w ≤ m → o_id o m ∉ seen;
  rd_now m : sw_calls w ≤ m → (clock ≤ o_now o m)%Z;
}.

(** The same of a node whose calls may fail. *)
Record faulty (o : oracle) (w : store_world) : Prop := {
  fl_local : no_rows_is_local o;
  fl_inj : Inj (=) (=) (o_id o);
  fl_fresh m : sw_calls w ≤ m → o_id o m ∉ known_ids (data (sw_db w));
  fl_clock n m : n ≤ m → (o_now o n ≤ o_now o m)%Z;
  fl_tables : has_tables (sw_db w);
}.

Lemma faulty_healthy o w : faulty o w → working o → healthy o w.
Proof. intros []. by split. Qed.

Lemma healthy_ready o w : healthy o w → ready false o w (known_ids (data (sw_db w))) (o_now o (sw_calls w)).
Proof. intros []. split; auto. Qed.

Lemma faulty_ready o w : faulty o w → ready true o w (known_ids (data (sw_db w))) (o_now o (sw_calls w)).
Proof. intros []. split; auto. Qed.

Definition fault_ok (faults : bool) (f : fault) : Prop :=
  if faults then f ≠ Refused ErrNoRows ∧ f ≠ Lost ErrNoRows else f = Served.

Lemma faulty_executes faults f sts db x db' :
  fault_ok faults f → faulty_execute f sts db = (x, db') → executes faults sts db x db'.
Proof.
  intros Hf E. unfold executes. destruct f; simpl in E; [left; congruence|right|right];
    (destruct faults; simpl in Hf; [|discriminate Hf]; split; [done|]; injection E as <- <-);
    eexists; (split; [|split; [reflexivity|auto]]); intros ->; by destruct Hf.
Qed.

(** A call gives one of the answers. *)
Lemma store_call_answers faults o w seen clock {X} (e : storeE X) x db' r wr :
  ready faults o w seen clock → store_call o (sw_calls w) e (sw_db w) = (x, db') →
  ∃ seen' clock', answers faults seen clock e (sw_db w) x db' seen' clock' ∧
    ready faults o (StoreWorld db' (S (sw_calls w)) r wr) seen' clock'.
Proof.
  intros [Hw Hinj Hclk Hs Hc] E.
  assert (Hr : ready faults o (StoreWorld db' (S (sw_calls w)) r wr) seen clock).
  { split; try done; simpl; intros m Hm; [apply Hs|apply Hc]; lia. }
  assert (Hf : fault_ok faults (o_fault o (sw_calls w))) by (unfold fault_ok; destruct faults; auto).
  destruct e; simpl in E.
  - exists seen, clock. split; [|done]. injection E as <- <-. split; [|done]. unfold fault_ok in Hf.
    destruct faults; [by right|left]. by rewrite Hf.
  - exists seen, clock. split; [|done]. injection E as <- <-. split; [|done]. unfold fault_ok in Hf.
    destruct faults; [by right|left]. by rewrite Hf.
  - injection E as <- <-. by exists seen, clock.
  - injection E as <- <-. by exists seen, clock.
  - injection E as <- <-. eexists _, clock. split; [split_and!; [by apply Hs|reflexivity..]|]. destruct Hr.
    split; try done. intros m Hm. rewrite not_elem_of_union, not_elem_of_singleton. split; [|by auto].
    intros Heq%Hinj. simpl in Hm. lia.
  - injection E as <- <-. eexists seen, _. split; [split_and!; [by apply Hc|reflexivity..]|]. destruct Hr.
    split; try done. intros m Hm. apply Hclk. simpl in Hm. lia.
  - injection E as <- <-. by exists seen, clock.
  - injection E as <- <-. exists seen, clock. split; [|done]. split; [|done].
    destruct (o_fault o (sw_calls w)) as [|e|e]; [by left|right|right]; (destruct faults; simpl in Hf; [|discriminate Hf]);
      (split; [done|]; exists e; split; [intros ->; by destruct Hf|done]).
  - exists seen, clock. split; [|done]. split; [|done]. eapply faulty_executes; [exact Hf|exact E].
  - exists seen, clock. split; [|done]. destruct sts as [|st sts]; simpl in E; [by injection E as <- <-|].
    split_and!; [intros _; eapply faulty_executes; [exact Hf|exact E]|done|done|done].
Qed.

Lemma swp_run faults o {A} (p : prog storeE A) w seen clock Q :
  ready faults o w seen clock → swp faults seen clock p (sw_db w) Q →
  let (x, w') := store_run o p w in ∃ seen' clock', Q x (sw_db w') seen' clock' ∧ ready faults o w' seen' clock'.
Proof.
  unfold store_run. revert w seen clock.
  induction p as [a|X e k IH]; intros w seen clock Hr H; simpl; [by exists seen, clock|].
  unfold store_handler at 1. destruct (store_call o (sw_calls w) e (sw_db w)) as [x db'] eqn:E.
  destruct (lock_change e x) as [r wr].
  destruct (store_call_answers faults o w seen clock e x db' (sw_readers w + r) (sw_writers w + wr) Hr E)
    as (seen' & clock' & Ha & Hr').
  exact (IH x _ seen' clock' Hr' (H _ _ _ _ Ha)).
Qed.

(** The result and the tables a program leaves on a given node. *)
Definition outcome (o : oracle) {A} (p : prog storeE A) (w : store_world) (Q : A → tables → Prop) : Prop :=
  let (r, w') := store_run o p w in Q r (data (sw_db w')).

Lemma outcome_swp o {A} (p : prog storeE A) w Q :
  healthy o w →
  swp false (known_ids (data (sw_db w))) (o_now o (sw_calls w)) p (sw_db w) (λ r d _ _, Q r (data d)) →
  outcome o p w Q.
Proof.
  intros Hw H. unfold outcome. pose proof (swp_run false o p w _ _ _ (healthy_ready o w Hw) H) as Hr.
  destruct (store_run o p w) as [r w']. by destruct Hr as (_ & _ & Hr & _).
Qed.

Lemma outcome_faulty o {A} (p : prog storeE A) w Q :
  faulty o w →
  swp true (known_ids (data (sw_db w))) (o_now o (sw_calls w)) p (sw_db w) (λ r d _ _, Q r (data d)) →
  outcome o p w Q.
Proof.
  intros Hw H. unfold outcome. pose proof (swp_run true o p w _ _ _ (faulty_ready o w Hw) H) as Hr.
  destruct (store_run o p w) as [r w']. by destruct Hr as (_ & _ & Hr & _).
Qed.

(** ** Rules *)

Section rules.
Context (faults : bool) (seen : gset string) (clock : Z) (db : database).

Lemma swp_ret {A} (a : A) (Q : A → database → gset string → Z → Prop) :
  Q a db seen clock → swp faults seen clock (Ret a) db Q.
Proof. done. Qed.

Lemma swp_bind {A B} (p : prog storeE A) (f : A → prog storeE B) seen' clock' db'
    (Q : B → database → gset string → Z → Prop) :
  swp faults seen' clock' p db' (λ a db s c, swp faults s c (f a) db Q) → swp faults seen' clock' (prog_bind p f) db' Q.
Proof.
  unfold prog_bind. revert seen' clock' db'. induction p as [a|X e k IH]; intros s c d; simpl; [done|].
  intros H x d' s' c' Ha. apply IH, (H _ _ _ _ Ha).
Qed.

Lemma swp_mono {A} (p : prog storeE A) seen' clock' db' (Q Q' : A → database → gset string → Z → Prop) :
  (∀ a d s c, Q a d s c → Q' a d s c) → swp faults seen' clock' p db' Q → swp faults seen' clock' p db' Q'.
Proof.
  intros HQ. revert seen' clock' db'. induction p as [a|X e k IH]; intros s c d; simpl; [apply HQ|].
  intros H x d' s' c' Ha. by apply IH, H.
Qed.

Lemma swp_try {A B} (p : prog storeE (result A)) (f : A → prog storeE (result B)) Q :
  swp faults seen clock p db (λ r d s c, match r with Ok a => swp faults s c (f a) d Q | Err e => Q (Err e) d s c end) →
  swp faults seen clock (try_bind p f) db Q.
Proof. intros H. apply swp_bind. eapply swp_mono; [|exact H]. by intros [a|e]. Qed.

Lemma swp_need {A} (p : prog storeE (result A)) (f : A → prog storeE (option error)) Q :
  swp faults seen clock p db (λ r d s c, match r with Ok a => swp faults s c (f a) d Q | Err e => Q (Some e) d s c end) →
  swp faults seen clock (need_bind p f) db Q.
Proof. intros H. apply swp_bind. eapply swp_mono; [|exact H]. by intros [a|e]. Qed.

Lemma swp_check (p k : prog storeE (option error)) Q :
  swp faults seen clock p db (λ r d s c, match r with None => swp faults s c k d Q | Some e => Q (Some e) d s c end) →
  swp faults seen clock (check_bind p k) db Q.
Proof. intros H. apply swp_bind. eapply swp_mono; [|exact H]. by intros [e|]. Qed.

Lemma swp_write_locked {A} (e : A) body Q :
  (faults = true → Q e db seen clock) → swp faults seen clock body db Q →
  swp faults seen clock (write_locked e body) db Q.
Proof.
  intros He H. apply swp_bind. intros x d' s c (Hx & -> & -> & ->). destruct x; [|destruct Hx as [|Hx]; [done|by apply He]].
  apply swp_bind. eapply swp_mono; [|exact H].
  intros a d s c HQ. apply swp_bind. by intros [] d' s' c' (-> & -> & ->).
Qed.

Lemma swp_read_locked {A} (e : A) body Q :
  (faults = true → Q e db seen clock) → swp faults seen clock body db Q →
  swp faults seen clock (read_locked e body) db Q.
Proof.
  intros He H. apply swp_bind. intros x d' s c (Hx & -> & -> & ->). destruct x; [|destruct Hx as [|Hx]; [done|by apply He]].
  apply swp_bind. eapply swp_mono; [|exact H].
  intros a d s c HQ. apply swp_bind. by intros [] d' s' c' (-> & -> & ->).
Qed.

Lemma swp_newID Q : (∀ id, id ∉ seen → Q id db ({[id]} ∪ seen) clock) → swp faults seen clock newID db Q.
Proof. intros H x d s c (Hx & -> & -> & ->). by apply H. Qed.

Lemma swp_nowUnix (Q : Z → database → gset string → Z → Prop) :
  (∀ now, (clock ≤ now)%Z → Q now db seen now) → swp faults seen clock nowUnix db Q.
Proof. intros H x d s c (Hx & -> & -> & ->). by apply H. Qed.

Lemma swp_rand n (Q : result string → database → gset string → Z → Prop) :
  (∀ r, Q r db seen clock) → swp faults seen clock (call (RandRead n)) db Q.
Proof. intros H x d s c (-> & -> & ->). by apply H. Qed.

Lemma query_db_some names q : has_tables db → (∀ n, n ∈ names → n ∈ table_names) →
  query_db names q db = Some (q (data db)).
Proof.
  intros Ht Hn. unfold query_db. destruct (forallb _ names) eqn:E; [done|]. exfalso.
  apply not_true_iff_false in E. apply E, forallb_forall. intros n Hin. apply Ht, Hn. by apply list_elem_of_In.
Qed.

Lemma swp_query names q (Q : result (list (list value)) → database → gset string → Z → Prop) :
  has_tables db → (∀ n, n ∈ names → n ∈ table_names) → (faults = true → ∀ e, e ≠ ErrNoRows → Q (Err e) db seen clock) →
  Q (Ok (q (data db))) db seen clock → swp faults seen clock (call (Query names q)) db Q.
Proof.
  intros Ht Hn He H x d s c (Hx & -> & -> & ->). destruct Hx as [->|(Hf & e & Hne & ->)]; [|by apply He].
  by rewrite query_db_some.
Qed.

Lemma swp_query_rows {A} names q ts (read : list go_value → A) Q :
  has_tables db → (∀ n, n ∈ names → n ∈ table_names) → (faults = true → ∀ e, e ≠ ErrNoRows → Q (Err e) db seen clock) →
  Q (scan_rows ts read (q (data db))) db seen clock → swp faults seen clock (query_rows names q ts read) db Q.
Proof. intros Ht Hn He H. by apply swp_bind, swp_query. Qed.

Lemma swp_query_row {A} names q ts (read : list go_value → A) Q :
  has_tables db → (∀ n, n ∈ names → n ∈ table_names) → (faults = true → ∀ e, e ≠ ErrNoRows → Q (Err e) db seen clock) →
  Q (match q (data db) with [] => Err ErrNoRows | vs :: _ => scan_row ts read vs end) db seen clock →
  swp faults seen clock (query_row names q ts read) db Q.
Proof. intros Ht Hn He H. by apply swp_bind, swp_query. Qed.

Lemma swp_query_optional {A} names q ts (read : list go_value → A) Q :
  has_tables db → (∀ n, n ∈ names → n ∈ table_names) → (faults = true → ∀ e, e ≠ ErrNoRows → Q (Err e) db seen clock) →
  Q (optional (match q (data db) with [] => Err ErrNoRows | vs :: _ => scan_row ts read vs end)) db seen clock →
  swp faults seen clock (query_optional names q ts read) db Q.
Proof. intros Ht Hn He H. apply swp_bind, swp_query_row; [done|done| |done].
  intros Hf e Hne. simpl. rewrite bool_decide_eq_false_2 by done. by apply He.
Qed.

Lemma swp_executes sts x d (Q : ExecuteResponse * option error → database → gset string → Z → Prop) :
  executes faults sts db x d →
  (faults = true → ∀ e, e ≠ ErrNoRows → Q (zero_response, Some e) db seen clock ∧
                        Q (zero_response, Some e) (snd (execute_db sts db)) seen clock) →
  (let (r, d) := execute_db sts db in Q r d seen clock) → Q x d seen clock.
Proof.
  intros [E|(Hf & e & Hne & -> & Hd)] He H; [by rewrite <- E in H|]. destruct (He Hf e Hne). by destruct Hd as [-> | ->].
Qed.

Lemma swp_exec st (Q : ExecuteResponse * option error → database → gset string → Z → Prop) :
  (faults = true → ∀ e, e ≠ ErrNoRows → Q (zero_response, Some e) db seen clock ∧
                        Q (zero_response, Some e) (snd (execute_db [bare st] db)) seen clock) →
  (let (r, d) := execute_db [bare st] db in Q r d seen clock) → swp faults seen clock (call (Exec st)) db Q.
Proof. intros He H x d s c (E & -> & ->). exact (swp_executes _ _ _ Q E He H). Qed.

Lemma swp_transaction sts (Q : ExecuteResponse * option error → database → gset string → Z → Prop) :
  sts ≠ [] →
  (faults = true → ∀ e, e ≠ ErrNoRows → Q (zero_response, Some e) db seen clock ∧
                        Q (zero_response, Some e) (snd (execute_db sts db)) seen clock) →
  (let (r, d) := execute_db sts db in Q r d seen clock) → swp faults seen clock (call (Transaction sts)) db Q.
Proof. intros Hne He H x d s c (E & _ & -> & ->). exact (swp_executes _ _ _ Q (E Hne) He H). Qed.

End rules.

#[global] Arguments swp : simpl never.

(** ** Statements on an existing schema *)

Fixpoint run_tables (l : list (tables → option (tables * Z))) (t : tables) : option (tables * list Z) :=
  match l with
  | [] => Some (t, [])
  | f :: l =>
    match f t with
    | None => None
    | Some (t1, n) => match run_tables l t1 with None => None | Some (t2, ns) => Some (t2, n :: ns) end
    end
  end.

(** [acts st f]: on a database with the schema, [st] does [f] to the tables. *)
Definition acts (st : SQLStatement) (f : tables → option (tables * Z)) : Prop :=
  ∀ db, has_tables db →
    run_statement st db = match f (data db) with
                          | Some (t, n) => Some (set_data t db, mkStatementResult n 0 0) | None => None end.

Lemma acts_on_tables names f : (∀ n, n ∈ names → n ∈ table_names) → acts (on_tables names f) f.
Proof.
  intros Hn db Ht. unfold run_statement. simpl. destruct (forallb _ names) eqn:E.
  - destruct (f (data db)) as [[t n]|]; done.
  - exfalso. apply not_true_iff_false in E. apply E, forallb_forall. intros n Hin. apply Ht, Hn. by apply list_elem_of_In.
Qed.

Lemma acts_bare names f : (∀ n, n ∈ names → n ∈ table_names) → acts (bare (on_tables names f)) f.
Proof.
  intros Hn db Ht. rewrite <- (acts_on_tables names f Hn db Ht). done.
Qed.

Definition expected (k : Z) (f : tables → option (tables * Z)) (t : tables) : option (tables * Z) :=
  match f t with Some (t', n) => if bool_decide (n = k) then Some (t', n) else None | None => None end.

Lemma acts_expecting k names f : (∀ n, n ∈ names → n ∈ table_names) →
  acts (expecting k (on_tables names f)) (expected k f).
Proof.
  intros Hn db Ht. pose proof (acts_on_tables names f Hn db Ht) as H. unfold run_statement, expected in *. simpl in *.
  destruct (forallb _ names); destruct (f (data db)) as [[t n]|]; simpl in *; try done. by case_bool_decide.
Qed.

(** The statement forms as functions on the tables. *)
Section forms.
Context {A : Type} (T : table A).

Definition ins (f : tables → list A) (t : tables) : option (tables * Z) :=
  l ← insert_all T (f t) (rows T t); Some (with_rows T l t, Z.of_nat (length (f t))).

Definition upd (p : tables → A → bool) (g : A → A) (t : tables) : option (tables * Z) :=
  let l := (λ r, if p t r then g r else r) <$> rows T t in
  if no_clash T l then Some (with_rows T l t, count (p t) (rows T t)) else None.

Definition del (p : tables → A → bool) (t : tables) : option (tables * Z) :=
  Some (with_rows T (filter (λ r, p t r = false) (rows T t)) t, count (p t) (rows T t)).

Definition ups (cond : tables → bool) (r : A) (g : tables → A → A → A) (t : tables) : option (tables * Z) :=
  if negb (cond t) then Some (t, 0%Z)
  else if existsb (clash T r) (rows T t)
  then Some (with_rows T ((λ old, if clash T r old then g t old r else old) <$> rows T t) t, 1%Z)
  else Some (with_rows T (rows T t ++ [r]) t, 1%Z).

Lemma acts_upsert reads cond r g : (∀ n, n ∈ table_name T :: reads → n ∈ table_names) →
  acts (upsert T reads cond r g) (ups cond r g).
Proof. apply acts_on_tables. Qed.

Lemma acts_insert reads f : (∀ n, n ∈ table_name T :: reads → n ∈ table_names) →
  acts (insert_select T reads f) (ins f).
Proof. apply acts_on_tables. Qed.

Lemma acts_update reads p g : (∀ n, n ∈ table_name T :: reads → n ∈ table_names) →
  acts (update_where T reads p g) (upd p g).
Proof. apply acts_on_tables. Qed.

Lemma acts_delete reads p : (∀ n, n ∈ table_name T :: reads → n ∈ table_names) →
  acts (delete_where T reads p) (del p).
Proof. apply acts_on_tables. Qed.

Lemma acts_insert_one k reads f : (∀ n, n ∈ table_name T :: reads → n ∈ table_names) →
  acts (expecting k (insert_select T reads f)) (expected k (ins f)).
Proof. apply acts_expecting. Qed.

Lemma acts_update_one k reads p g : (∀ n, n ∈ table_name T :: reads → n ∈ table_names) →
  acts (expecting k (update_where T reads p g)) (expected k (upd p g)).
Proof. apply acts_expecting. Qed.

Lemma acts_delete_one k reads p : (∀ n, n ∈ table_name T :: reads → n ∈ table_names) →
  acts (expecting k (delete_where T reads p)) (expected k (del p)).
Proof. apply acts_expecting. Qed.

(** A row whose key is its identifier, which is fresh, goes in. *)
Lemma ins_fresh (key : A → string) f r t seen :
  (∀ a b : A, key a ≠ key b → clash T a b = false) →
  f t = [r] → list_to_set (key <$> rows T t) ⊆ seen → key r ∉ (seen : gset string) →
  ins f t = Some (with_rows T (rows T t ++ [r]) t, 1%Z).
Proof.
  intros Hc Hf Hs Hr. unfold ins. rewrite Hf. simpl. destruct (existsb (clash T r) (rows T t)) eqn:E; [|done].
  exfalso. apply existsb_exists in E as (x & Hx%list_elem_of_In & E). rewrite Hc in E; [done|].
  intros Heq. apply Hr, Hs. rewrite Heq. by apply elem_of_list_to_set, list_elem_of_fmap_2.
Qed.

Lemma ins_none f t : f t = [] → ins f t = Some (with_rows T (rows T t) t, 0%Z).
Proof. intros Hf. unfold ins. by rewrite Hf. Qed.

(** An update of columns outside the key. *)
Lemma upd_same_keys (p : tables → A → bool) (g : A → A) t :
  no_clash T (rows T t) = true →
  (∀ x y : A, clash T (if p t x then g x else x) (if p t y then g y else y) = clash T x y) →
  upd p g t = Some (with_rows T ((λ r, if p t r then g r else r) <$> rows T t) t, count (p t) (rows T t)).
Proof.
  intros Hk Hg. unfold upd. cbv zeta. rewrite no_clash_map; auto.
Qed.

End forms.

Lemma run_step f l t t1 n :
  f t = Some (t1, n) →
  run_tables (f :: l) t = match run_tables l t1 with None => None | Some (t2, ns) => Some (t2, n :: ns) end.
Proof. intros H. simpl. by rewrite H. Qed.

Lemma run_stuck f l t : f t = None → run_tables (f :: l) t = None.
Proof. intros H. simpl. by rewrite H. Qed.

Lemma has_tables_set t db : has_tables db → has_tables (set_data t db).
Proof. done. Qed.

Lemma run_statements_acts sts fs db :
  has_tables db → Forall2 acts sts fs →
  run_statements sts db =
    match run_tables fs (data db) with
    | Some (t, ns) => Some (set_data t db, (λ n, mkStatementResult n 0 0) <$> ns)
    | None => None
    end.
Proof.
  intros Ht H. revert db Ht. induction H as [|st f sts fs Hst _ IH]; intros db Ht; [by destruct db|].
  simpl. rewrite (Hst db Ht). destruct (f (data db)) as [[t1 n1]|]; [|done].
  rewrite IH by done. simpl. by destruct (run_tables fs t1) as [[t2 ns]|].
Qed.

Definition total (ns : list Z) : Z := foldr Z.add 0%Z ns.

Lemma sum_rows_total ns : sum_rows ((λ n, mkStatementResult n 0 0) <$> ns) = total ns.
Proof. induction ns as [|n ns IH]; [done|]. csimpl. unfold sum_rows in *. simpl. by rewrite IH. Qed.

(** What the caller of a transaction sees: its row count, or a rejection. *)
Lemma execute_db_acts sts fs db :
  has_tables db → Forall2 acts sts fs →
  match run_tables fs (data db) with
  | Some (t, ns) => ∃ r, execute_db sts db = ((r, None), set_data t db) ∧ RowsAffected r = total ns
  | None => execute_db sts db = (rejected, db)
  end.
Proof.
  intros Ht H. unfold execute_db. rewrite (run_statements_acts _ _ _ Ht H).
  destruct (run_tables fs (data db)) as [[t ns]|]; [|done]. eexists. split; [done|]. simpl. apply sum_rows_total.
Qed.

(** ** Automation *)

Lemma names_in_schema names :
  forallb (λ n, bool_decide (n ∈ table_names)) names = true → ∀ n, n ∈ names → n ∈ table_names.
Proof.
  intros H n Hn. rewrite forallb_forall in H. eapply bool_decide_unpack. rewrite H; [exact I|].
  by apply list_elem_of_In.
Qed.

(** The function of each statement of a transaction. *)
Ltac solve_acts :=
  repeat (apply Forall2_cons; split);
  try (apply Forall2_nil; exact I);
  first [apply acts_insert, names_in_schema; reflexivity
        |apply acts_update, names_in_schema; reflexivity
        |apply acts_upsert, names_in_schema; reflexivity
        |apply acts_delete, names_in_schema; reflexivity
        |apply acts_insert_one, names_in_schema; reflexivity
        |apply acts_update_one, names_in_schema; reflexivity
        |apply acts_delete_one, names_in_schema; reflexivity
        |apply acts_on_tables, names_in_schema; reflexivity
        |apply acts_bare, names_in_schema; reflexivity
        |apply acts_expecting, names_in_schema; reflexivity].

(** What the transaction [sts] does to [db], as equation [H]. *)
Tactic Notation "transact" constr(sts) constr(db) "as" ident(H) :=
  let F := fresh "F" in
  let fs := open_constr:(_ : list (tables → option (tables * Z))) in
  assert (F : Forall2 acts sts fs) by solve_acts;
  pose proof (execute_db_acts _ _ db ltac:(assumption) F) as H; clear F.

(** Faults of a working node do not happen; of another one they remain. *)
Ltac no_fault := first [discriminate|let F := fresh "Fault" in intros F; try intros ? ?].

(** One construct of the program under [swp]. *)
Ltac sstep :=
  lazymatch goal with
  | |- swp _ _ _ (write_locked _ _) _ _ => apply swp_write_locked; [no_fault|]
  | |- swp _ _ _ (read_locked _ _) _ _ => apply swp_read_locked; [no_fault|]
  | |- swp _ _ _ (try_bind _ _) _ _ => apply swp_try
  | |- swp _ _ _ (need_bind _ _) _ _ => apply swp_need
  | |- swp _ _ _ (check_bind _ _) _ _ => apply swp_check
  | |- swp _ _ _ (prog_bind _ _) _ _ => apply swp_bind
  | |- swp _ _ _ newID _ _ => apply swp_newID; intros ? ?
  | |- swp _ _ _ nowUnix _ _ => apply swp_nowUnix; intros ? ?
  | |- swp _ _ _ (Ret _) _ _ => apply swp_ret
  | |- swp _ _ _ (exec _) _ _ => unfold exec
  | |- swp _ _ _ (exec_err _) _ _ => unfold exec_err
  | |- swp _ _ _ (transaction _) _ _ => unfold transaction
  | |- swp _ _ _ (transaction_err _) _ _ => unfold transaction_err
  | |- swp _ _ _ (query_rows _ _ _ _) _ _ => apply swp_query_rows; [assumption|apply names_in_schema; reflexivity|no_fault|]
  | |- swp _ _ _ (query_row _ _ _ _) _ _ => apply swp_query_row; [assumption|apply names_in_schema; reflexivity|no_fault|]
  | |- swp _ _ _ (query_optional _ _ _ _) _ _ => apply swp_query_optional; [assumption|apply names_in_schema; reflexivity|no_fault|]
  | |- swp _ _ _ (call (RandRead _)) _ _ => apply swp_rand; intros ?
  | |- swp _ _ _ (call (Transaction _)) _ _ => apply swp_transaction; [done|no_fault|]
  | |- swp _ _ _ (call (Exec _)) _ _ => apply swp_exec; [no_fault|]
  | |- swp _ _ _ (let _ := _ in _) _ _ => cbv zeta
  | |- match _ with _ => _ end => progress cbn [fst snd]
  end.

(** A fresh identifier is in no table. *)
Lemma fresh_in {A} (f : A → string) (l : list A) seen id :
  (list_to_set (f <$> l) : gset string) ⊆ seen → id ∉ seen → existsb (λ x, same (f x) id) l = false.
Proof.
  intros Hs Hid. apply not_true_iff_false. rewrite existsb_exists. intros (x & Hx & E). apply same_true in E as <-.
  apply Hid, Hs, elem_of_list_to_set, list_elem_of_fmap_2. by apply list_elem_of_In.
Qed.

Lemma insert_fresh {A} (T : table A) r l : existsb (clash T r) l = false → insert_all T [r] l = Some (l ++ [r]).
Proof. intros H. simpl. by rewrite H. Qed.

Lemma existsb_ext {A} (f g : A → bool) l : (∀ x, f x = g x) → existsb f l = existsb g l.
Proof. intros H. induction l as [|x l IH]; [done|]. simpl. by rewrite H, IH. Qed.

Lemma existsb_map {A B} (f : A → B) (p : B → bool) (q : A → bool) l :
  (∀ x, p (f x) = q x) → existsb p (f <$> l) = existsb q l.
Proof. intros H. induction l as [|x l IH]; [done|]. csimpl. by rewrite H, IH. Qed.

Lemma existsb_orb {A} (f g : A → bool) l : existsb (λ x, f x || g x) l = existsb f l || existsb g l.
Proof. induction l as [|x l IH]; [done|]. simpl. rewrite IH. by destruct (f x), (g x), (existsb f l). Qed.

Lemma fresh_weaken (id x : string) (s : gset string) : id ∉ {[x]} ∪ s → id ∉ s.
Proof. rewrite not_elem_of_union. tauto. Qed.
Lemma subset_weaken (x : string) (k s : gset string) : k ⊆ s → k ⊆ {[x]} ∪ s.
Proof. set_solver. Qed.
Lemma fresh_subset (id : string) (k s : gset string) : k ⊆ s → id ∉ s → id ∉ k.
Proof. set_solver. Qed.
#[export] Hint Resolve fresh_weaken subset_weaken : store.

(** The only row with a fresh identifier is the one just added. *)
Lemma filter_fresh {A} (f : A → string) (l : list A) r id (seen : gset string) :
  list_to_set (f <$> l) ⊆ seen → id ∉ seen → f r = id → filter (λ x, f x = id) (l ++ [r]) = [r].
Proof.
  intros Hl Hr <-. rewrite filter_app. assert (filter (λ x, f x = f r) l = []) as ->.
  - apply elem_of_nil_inv. intros x Hx. rewrite list_elem_of_filter in Hx. destruct Hx as [E Hx]. apply Hr, Hl.
    rewrite <- E. by apply elem_of_list_to_set, list_elem_of_fmap_2.
  - by rewrite filter_cons_True, filter_nil.
Qed.

(** A row whose key is its identifier, which is fresh, goes in. *)
Lemma insert_by_id {A} (T : table A) (f : A → string) r l (seen : gset string) :
  (∀ x, clash T r x = same (f r) (f x)) → list_to_set (f <$> l) ⊆ seen → f r ∉ seen →
  insert_all T [r] l = Some (l ++ [r]).
Proof.
  intros Hc Hl Hr. apply insert_fresh. rewrite (existsb_ext _ (λ x, same (f x) (f r))).
  - by eapply fresh_in.
  - intros x. rewrite Hc. apply same_comm.
Qed.

(** The identifiers of one table are known. *)
Ltac known :=
  let x := fresh in let Hx := fresh in
  intros x Hx; unfold known_ids; rewrite elem_of_list_to_set in *; rewrite !elem_of_app; tauto.

Lemma insert_audit_event a t seen :
  known_ids t ⊆ seen → a_id a ∉ seen → insert_all AuditEvents [a] (audit_events t) = Some (audit_events t ++ [a]).
Proof. intros Hs Ha. apply (insert_by_id _ a_id _ _ (known_ids t)); [done|known|set_solver]. Qed.

(** ** Properties of the store that hold along every interleaving *)

Lemma operations_evolve X db db' ts :
  store_steps (store_operation X) (db, []) (db', ts) → rel X (data db) (data db').
Proof.
  intros H. eapply (store_steps_evolve (store_operation X) (rel_db X)) in H as [H _];
    [exact H|intros; by apply respects_operation|done].
Qed.

(** [C26] Well-formed tables stay well-formed: whatever operations run, on
    however many nodes, in whatever order their calls take effect and
    whichever answers are lost, the keys stay unique, host names and accounts
    stay valid, a batch never hands out more serials than it has, each device
    keeps a host of its own, relay access is only for hosts with a device, and
    every published snapshot carries its marker. *)
Theorem store_stays_well_formed db db' ts :
  wf (data db) → store_steps (store_operation None) (db, []) (db', ts) → wf (data db').
Proof. intros W H. by destruct (operations_evolve _ _ _ _ H W). Qed.

(** [C28] The audit log is append-only and batches only advance: no
    interleaving of operations removes, changes or reorders an audit event,
    lowers a batch's count, or changes a batch that is closed. *)
Theorem history_is_kept db db' ts :
  wf (data db) → store_steps (store_operation None) (db, []) (db', ts) →
  audit_events (data db) `prefix_of` audit_events (data db') ∧
  ∀ b, b ∈ manufacturing_batches (data db) → ∃ b', b' ∈ manufacturing_batches (data db') ∧
    same_batch b b' ∧ (b_used_count b ≤ b_used_count b' ≤ b_max_devices b)%Z ∧ (b_status b = "closed" → b' = b).
Proof.
  intros W H. destruct (operations_evolve _ _ _ _ H W) as [W' [Ha Hb _ _]]. split; [done|].
  intros b Hin. destruct (Hb b Hin I) as (b' & Hin' & Hs & Hu & Hc). exists b'. split_and!; try done.
  destruct (wf_manufacturing_batches _ W') as [_ Hok]. rewrite Forall_forall in Hok.
  destruct (Hok b' Hin') as (_ & Hmax & _). rewrite (sb_max _ _ Hs) in Hmax. lia.
Qed.

(** [C27] Revocation is final and published generations never go back: as long
    as the host itself is not deleted, no interleaving of operations brings a
    revoked device back or changes it, changes a device's identity, or lowers
    the generation of a snapshot; a snapshot with another digest has a higher
    generation. *)
Theorem revocation_is_final host db db' ts :
  wf (data db) → store_steps (store_operation (Some host)) (db, []) (db', ts) →
  (∀ d, d ∈ devices (data db) → d_host_id d = host →
     ∃ d', d' ∈ devices (data db') ∧ same_device d d' ∧ (d_state d = "revoked" → d' = d)) ∧
  (∀ n, n ∈ authorized_keys_snapshots (data db) → n_host_id n = host →
     ∃ n', n' ∈ authorized_keys_snapshots (data db') ∧ n_host_id n' = host ∧ n_ssh_user n' = n_ssh_user n ∧
       (n_generation n ≤ n_generation n')%Z ∧
       (n_digest n' ≠ n_digest n → n_generation n < n_generation n')%Z).
Proof.
  intros W H. destruct (operations_evolve _ _ _ _ H W) as [W' [_ _ Hd Hn]]. split.
  - intros d Hin Hh. destruct (Hd d Hin) as (d' & Hin' & Hs & Hr); [by rewrite Hh|]. eauto.
  - intros n Hin Hh. destruct (Hn n Hin) as (n' & Hin' & E1 & E2 & Hg & Hdig); [by rewrite Hh|].
    exists n'. split_and!; try done. congruence.
Qed.
