(* ===== verification/StoreHostFacts.v ===== *)
(** * What the operations on hosts and sessions do, on a working node *)

From S2P Require Export StoreRuns GoJSONFacts.
Open Scope go_scope.

(** ** Hosts *)

Definition host_of_row (h : hosts_row) : Host :=
  mkHost (h_id h) (h_name h) (h_endpoint_id h) (h_ssh_user h) (default ∅ (Unmarshal_map (h_tags h)))
    (h_ssh_port h) (h_status h) (h_owner h) (h_last_seen h).

Lemma scan_host_row h : uint16 (h_ssh_port h) → scan_row host_types read_host (host_columns h) = Ok (host_of_row h).
Proof.
  intros Hp. unfold scan_row, scanValues, host_columns, host_of_row. simpl.
  destruct (h_last_seen h); simpl; by rewrite Z.mod_small.
Qed.

(** The row CreateHost adds. *)
Definition new_host_row (id : string) (h : NewHost) (now : Z) : hosts_row :=
  HostRow id (NewHost_Name h) (NewHost_EndpointID h) (NewHost_SSHUser h) (Marshal_map (NewHost_Tags h))
    (NewHost_SSHPort h) (NewHost_Status h) (NewHost_Owner h) (NewHost_LastSeen h) now now.

Definition valid_tags (o : option (gmap string string)) : Prop :=
  match o with Some m => valid_map m | None => True end.

Lemma tags_read_back o : valid_tags o → default ∅ (Unmarshal_map (Marshal_map o)) = default ∅ o.
Proof. destruct o as [m|]; [|done]. intros H. by rewrite Unmarshal_Marshal_map. Qed.

Definition add_host (r : hosts_row) (a : audit_events_row) (t : tables) : tables :=
  with_rows AuditEvents (audit_events t ++ [a]) (with_rows Hosts (hosts t ++ [r]) t).

(** What makes CreateHost refuse its arguments. *)
Definition bad_host (h : NewHost) (actor : string) : bool :=
  same actor "" || negb (ValidHostName (NewHost_Name h)) || negb (ValidSSHUser (NewHost_SSHUser (with_defaults h))).

Definition name_taken (name : string) (t : tables) : bool := existsb (λ r, same (h_name r) name) (hosts t).

Lemma uint16_default h : uint16 (NewHost_SSHPort h) → uint16 (NewHost_SSHPort (with_defaults h)).
Proof. unfold uint16. simpl. by destruct (bool_decide (NewHost_SSHPort h = 0%Z)). Qed.

Lemma insert_host_row id h now t :
  id ∉ known_ids t →
  insert_all Hosts [new_host_row id h now] (hosts t) =
    if name_taken (NewHost_Name h) t then None else Some (hosts t ++ [new_host_row id h now]).
Proof.
  intros Hid. simpl. rewrite existsb_orb.
  rewrite (existsb_ext (λ x, same id (h_id x)) (λ x, same (h_id x) id)) by (intros; apply same_comm).
  rewrite (fresh_in h_id (hosts t) (known_ids t)) by (done || known).
  rewrite (existsb_ext (λ x, same (NewHost_Name h) (h_name x)) (λ x, same (h_name x) (NewHost_Name h)))
    by (intros; apply same_comm).
  done.
Qed.

Lemma create_host_statements id h now a db :
  has_tables db → id ∉ known_ids (data db) → a_id a ∉ known_ids (data db) →
  if name_taken (NewHost_Name h) (data db)
  then execute_db [insert_host id h now; insert_audit a] db = (rejected, db)
  else ∃ r, execute_db [insert_host id h now; insert_audit a] db =
              ((r, None), set_data (add_host (new_host_row id h now) a (data db)) db).
Proof.
  intros Ht Hid Ha. transact [insert_host id h now; insert_audit a] db as H. cbn [run_tables] in H. unfold ins in H.
  change (HostRow id _ _ _ _ _ _ _ _ _ _) with (new_host_row id h now) in H.
  change (rows Hosts (data db)) with (hosts (data db)) in H. rewrite insert_host_row in H by done.
  destruct (name_taken (NewHost_Name h) (data db)); [exact H|]. simpl in H.
  change (if existsb _ _ then _ else _) with (insert_all AuditEvents [a] (audit_events (data db))) in H.
  rewrite (insert_audit_event a _ (known_ids (data db))) in H by done. simpl in H. destruct H as (r & H & _). eauto.
Qed.

(** Creating a host.  On a working node CreateHost fails exactly when the
    new host is invalid, or its name is taken, and then changes nothing;
    otherwise the host row and one audit event are added and nothing else, and
    GetHost of the returned id returns the returned host, its tags through
    their JSON encoding included. *)
Theorem created_host_reads_back o w h actor :
  healthy o w → uint16 (NewHost_SSHPort h) → valid_tags (NewHost_Tags h) →
  let (r, w1) := store_run o (CreateHost h actor) w in
  match r with
  | Ok host =>
      bad_host h actor = false ∧ name_taken (NewHost_Name h) (data (sw_db w)) = false ∧
      fst (store_run o (GetHost (Host_ID host)) w1) = Ok (Some host) ∧
      ∃ id auditID now,
        host = host_of id (with_defaults h) ∧
        data (sw_db w1) = add_host (new_host_row id (with_defaults h) now)
          (audit auditID "host.created" "host" id actor now) (data (sw_db w))
  | Err _ =>
      (bad_host h actor = true ∨ name_taken (NewHost_Name h) (data (sw_db w)) = true) ∧ sw_db w1 = sw_db w
  end.
Proof.
  intros Hw Hp Ht. pose proof (swp_run false o (CreateHost h actor) w _ _
   (λ x d _ _, match x with
     | Ok host =>
      bad_host h actor = false ∧ name_taken (NewHost_Name h) (data (sw_db w)) = false ∧
      has_tables d ∧
      ∃ id auditID now,
        id ∉ known_ids (data (sw_db w)) ∧
        host = host_of id (with_defaults h) ∧
        data d = add_host (new_host_row id (with_defaults h) now)
          (audit auditID "host.created" "host" id actor now) (data (sw_db w))
     | Err _ => (bad_host h actor = true ∨ name_taken (NewHost_Name h) (data (sw_db w)) = true) ∧ d = sw_db w end)
   (healthy_ready _ _ Hw)) as H.
  destruct (store_run o (CreateHost h actor) w) as [r w1]. destruct H as (s & c & H & Hr).
  - pose proof (hl_tables _ _ Hw) as Hs. unfold CreateHost, bad_host, same. repeat sstep.
    destruct (bool_decide (actor = "")); [repeat sstep; by split; [left|]|]. repeat sstep.
    destruct (ValidHostName _) eqn:E1; simpl negb; cbv iota; [|repeat sstep; by split; [left|]].
    destruct (ValidSSHUser _) eqn:E2; simpl negb; cbv iota; [|repeat sstep; by split; [left|]].
    repeat sstep.
    pose proof (create_host_statements id (with_defaults h) now (audit id0 "host.created" "host" id actor now)
      (sw_db w) Hs) as Hx.
    change (NewHost_Name (with_defaults h)) with (NewHost_Name h) in Hx.
    destruct (name_taken (NewHost_Name h) (data (sw_db w))).
    + rewrite Hx by eauto with store. repeat sstep. by split; [right|].
    + destruct Hx as (resp & Hx); [done|eauto with store|]. rewrite Hx. repeat sstep. split_and!; [done|done|exact Hs|].
      by exists id, id0, now.
  - destruct r as [host|e]; [|done]. destruct H as (H1 & H2 & Ht1 & id & auditID & now & Hid & -> & Hd).
    split_and!; [done|done| |by exists id, auditID, now].
    pose proof (swp_run false o (GetHost id) w1 _ _ (λ x _ _ _, x = Ok (Some (host_of id (with_defaults h)))) Hr) as Hg.
    destruct (store_run o (GetHost _) w1) as [g w2]. destruct Hg as (_ & _ & Hg & _); [|exact Hg].
    unfold GetHost. repeat sstep. rewrite Hd. unfold add_host. simpl.
    rewrite (filter_fresh h_id _ _ _ (known_ids (data (sw_db w)))) by (done || known). csimpl.
    rewrite scan_host_row by (by apply uint16_default). unfold host_of_row, host_of. simpl. by rewrite tags_read_back.
Qed.

(** ** Deletion *)

(** The event, if there was something to do. *)
Definition log_if (b : bool) (a : audit_events_row) (t : tables) : tables :=
  with_rows AuditEvents (audit_events t ++ if b then [a] else []) t.

(** At most one row has a given identifier, so at most one event is written. *)
Lemma audit_once {A} (T : table A) (p : A → bool) (r : audit_events_row) l :
  (∀ a b, p a = true → p b = true → clash T a b = true) → no_clash T l = true →
  const r <$> filter (λ x, p x = true) l = if existsb p l then [r] else [].
Proof.
  intros Hf. induction l as [|x l IH]; [done|]. simpl. intros [Hx Hl]%andb_true_iff. rewrite filter_cons.
  destruct (p x) eqn:E; [|exact (IH Hl)]. csimpl. f_equal.
  specialize (IH Hl). destruct (existsb p l) eqn:Ex; [|exact IH].
  apply existsb_exists in Ex as (y & Hy & Ey).
  apply negb_true_iff, not_true_iff_false in Hx. exfalso. apply Hx, existsb_exists. exists y. split; [done|]. auto.
Qed.

Lemma ins_audit_for {A} (T : table A) (p : A → bool) r t :
  (∀ a b, p a = true → p b = true → clash T a b = true) → no_clash T (rows T t) = true →
  a_id r ∉ known_ids t →
  ins AuditEvents (λ t, const r <$> filter (λ x, p x = true) (rows T t)) t =
    Some (log_if (existsb p (rows T t)) r t, if existsb p (rows T t) then 1%Z else 0%Z).
Proof.
  intros Hp Hk Hr. unfold ins, log_if. rewrite (audit_once T p r) by done.
  destruct (existsb p (rows T t)).
  - change (rows AuditEvents t) with (audit_events t). by rewrite (insert_audit_event r t (known_ids t)).
  - simpl. by rewrite app_nil_r.
Qed.

Definition host_exists (id : string) (t : tables) : bool := existsb (λ h, same (h_id h) id) (hosts t).

Lemma hosts_by_id (a b : hosts_row) : h_id a = h_id b → clash Hosts a b = true.
Proof. intros E. simpl. apply orb_true_iff. left. by apply same_true. Qed.

Lemma delete_host_tables auditID id actor now db :
  has_tables db → wf (data db) → auditID ∉ known_ids (data db) →
  ∃ r, execute_db (delete_host_statements auditID id actor now) db =
    ((r, None), set_data (without_host id (log_if (host_exists id (data db))
                  (audit auditID "host.deleted" "host" id actor now) (data db))) db).
Proof.
  intros Ht W Ha. transact (delete_host_statements auditID id actor now) db as H.
  erewrite run_step in H by (apply (ins_audit_for Hosts); [|apply W|done]; intros a b E1 E2; apply hosts_by_id;
    apply same_true in E1, E2; congruence).
  cbn in H. destruct H as (r & H & _). eexists. exact H.
Qed.

(** Deleting a host leaves nothing of it: besides the audit event (recorded
    exactly when the host existed) every table is what it was less the rows of
    that host, in all the tables that refer to hosts. *)
Theorem deleted_host_is_gone o w id actor :
  healthy o w → wf (data (sw_db w)) → actor ≠ "" →
  outcome o (DeleteHost id actor) w (λ r t, r = None ∧ ∃ auditID now,
    t = without_host id (log_if (host_exists id (data (sw_db w)))
          (audit auditID "host.deleted" "host" id actor now) (data (sw_db w)))).
Proof.
  intros Hw W Hne. pose proof (hl_tables _ _ Hw) as Ht. apply outcome_swp; [done|].
  unfold DeleteHost. repeat sstep. rewrite bool_decide_eq_false_2 by done.
  repeat sstep. destruct (delete_host_tables id0 id actor now (sw_db w)) as (x & ->); try done.
  repeat sstep. eauto.
Qed.

(** ** Sessions *)

(** The session with this hash is revoked at this time. *)
Definition revoked_at (hash : string) (now : Z) (t : tables) : bool :=
  existsb (λ s, same (s_cookie_hash s) hash && (now <? s_expires_at s)%Z) (revoked_sessions t).

Definition with_sessions (l : list revoked_sessions_row) (t : tables) : tables := with_rows RevokedSessions l t.

(** A revocation, and the clean-up that follows it. *)
Definition revoked (hash : string) (expiresAt : Z) (t : tables) : tables :=
  with_sessions (filter (λ s, same hash (s_cookie_hash s) = false) (revoked_sessions t) ++
    [RevokedSessionRow hash expiresAt]) t.

Definition cleaned (cutoff : Z) (t : tables) : tables :=
  with_sessions (filter (λ s, bool_decide (s_cookie_hash s ∈ expired_sessions cutoff t) = false)
    (revoked_sessions t)) t.

Lemma insert_revoked_run hash expiresAt db :
  has_tables db →
  ∃ r, execute_db [bare (insert_revoked hash expiresAt)] db =
    ((r, None), set_data (revoked hash expiresAt (data db)) db).
Proof.
  intros Ht. transact [bare (insert_revoked hash expiresAt)] db as H. cbn in H. destruct H as (r & H & _). eauto.
Qed.

Lemma delete_expired_run cutoff db :
  has_tables db →
  ∃ r, execute_db [bare (delete_expired_sessions cutoff)] db = ((r, None), set_data (cleaned cutoff (data db)) db).
Proof.
  intros Ht. transact [bare (delete_expired_sessions cutoff)] db as H. cbn in H. destruct H as (r & H & _). eauto.
Qed.

Lemma sessions_symmetric : symmetric_key RevokedSessions.
Proof. intros x y. apply same_comm. Qed.

Lemma order_by_elem {A} (le : A → A → bool) l x : x ∈ order_by le l ↔ x ∈ l.
Proof. unfold order_by. by rewrite merge_sort_Permutation. Qed.

(** A row the clean-up removes is past the cutoff. *)
Lemma expired_sessions_spec cutoff t s :
  no_clash RevokedSessions (revoked_sessions t) = true → s ∈ revoked_sessions t →
  s_cookie_hash s ∈ expired_sessions cutoff t → (s_expires_at s ≤ cutoff)%Z.
Proof.
  intros Hk Hs (s' & E & Hs')%list_elem_of_fmap. apply elem_of_take in Hs' as (i & Hi & _).
  apply list_elem_of_lookup_2, order_by_elem in Hi. rewrite list_elem_of_filter in Hi. destruct Hi as [He Hs'].
  rewrite (no_clash_eq RevokedSessions sessions_symmetric (revoked_sessions t) s s'); try done; [by apply Z.leb_le|by apply same_true].
Qed.

Lemma revoked_at_true hash now t :
  revoked_at hash now t = true ↔ ∃ s, s ∈ revoked_sessions t ∧ s_cookie_hash s = hash ∧ (now < s_expires_at s)%Z.
Proof.
  unfold revoked_at. rewrite existsb_exists. split.
  - intros (s & Hs & [H1%same_true H2%Z.ltb_lt]%andb_true_iff). exists s. rewrite list_elem_of_In. done.
  - intros (s & Hs%list_elem_of_In & <- & H). exists s. rewrite andb_true_iff, same_true, Z.ltb_lt. done.
Qed.

Lemma revoked_key hash expiresAt t :
  no_clash RevokedSessions (revoked_sessions t) = true →
  no_clash RevokedSessions (revoked_sessions (revoked hash expiresAt t)) = true.
Proof.
  intros Hk. apply no_clash_snoc; [apply sessions_symmetric| |by apply no_clash_filter].
  apply not_true_iff_false. rewrite existsb_exists. intros (s & Hs & E). apply list_elem_of_In, elem_filter_false in Hs.
  simpl in E. destruct Hs. congruence.
Qed.

Lemma revoked_at_revoked hash expiresAt t hash' now :
  revoked_at hash' now (revoked hash expiresAt t) =
    if same hash hash' then (now <? expiresAt)%Z else revoked_at hash' now t.
Proof.
  assert (Hrow : ∀ s, s ∈ revoked_sessions (revoked hash expiresAt t) ↔
            (hash ≠ s_cookie_hash s ∧ s ∈ revoked_sessions t) ∨ s = RevokedSessionRow hash expiresAt).
  { intros s. simpl. by rewrite elem_of_app, elem_filter_false, list_elem_of_singleton, same_false. }
  apply eq_bool_prop_intro. rewrite !Is_true_true, revoked_at_true. setoid_rewrite Hrow.
  destruct (same hash hash') eqn:E.
  - apply same_true in E as <-. rewrite Z.ltb_lt. split; [|intros; eexists; split; [by right|done]].
    intros (s & [[Hne _]| ->] & E & Hn); [congruence|done].
  - rewrite revoked_at_true. apply same_false in E. split; intros (s & Hs & Eh & Hn); exists s.
    + destruct Hs as [[_ Hs]| ->]; [done|by simpl in Eh].
    + split; [left; split; [congruence|done]|done].
Qed.

Lemma revoked_at_cleaned cutoff t hash now :
  no_clash RevokedSessions (revoked_sessions t) = true → (cutoff ≤ now)%Z →
  revoked_at hash now (cleaned cutoff t) = revoked_at hash now t.
Proof.
  intros Hk Hc. apply eq_bool_prop_intro. rewrite !Is_true_true, !revoked_at_true.
  split; intros (s & Hs & E & Hn); exists s; (split; [|done]).
  - simpl in Hs. by apply elem_filter_false in Hs as [_ Hs].
  - simpl. apply elem_filter_false. rewrite bool_decide_eq_false. split; [|done].
    intros He. apply expired_sessions_spec in He; [lia|done..].
Qed.

Lemma count_sole hash now t :
  no_clash RevokedSessions (revoked_sessions t) = true →
  count (λ s, same (s_cookie_hash s) hash && (now <? s_expires_at s)%Z) (revoked_sessions t) =
    if revoked_at hash now t then 1%Z else 0%Z.
Proof.
  unfold revoked_at, count. induction (revoked_sessions t) as [|s l IH]; [done|]. simpl.
  intros [Hs Hl]%andb_true_iff. rewrite filter_cons. specialize (IH Hl). set (p := λ s, same (s_cookie_hash s) hash && (now <? s_expires_at s)%Z) in *.
  change (same (s_cookie_hash s) hash && (now <? s_expires_at s)%Z) with (p s). case_decide as Hp; unfold before in Hp.
  - rewrite Hp. simpl. destruct (existsb p l) eqn:E; [|lia]. exfalso.
    apply existsb_exists in E as (s' & Hs' & Hp'). unfold p in Hp, Hp'.
    apply andb_true_iff in Hp as [Hp%same_true _], Hp' as [Hp'%same_true _].
    apply negb_true_iff, not_true_iff_false in Hs. apply Hs, existsb_exists. exists s'. split; [done|].
    apply same_true. congruence.
  - apply not_true_iff_false in Hp. by rewrite Hp.
Qed.

Lemma cutoff_past now : (0 ≤ now)%Z → (sessionRevocationCleanupCutoff now ≤ now)%Z.
Proof.
  intros H. unfold sessionRevocationCleanupCutoff, wrap64.
  pose proof (Z.mod_le (now - 600 + 2 ^ 63) (2 ^ 64)). lia.
Qed.

Lemma SessionRevoked_swp seen clock cookie d Q :
  has_tables d → no_clash RevokedSessions (revoked_sessions (data d)) = true → cookie ≠ "" →
  (∀ now, (clock ≤ now)%Z → Q (revoked_at (hashSecret cookie) now (data d), None) d seen now) →
  swp false seen clock (SessionRevoked cookie) d Q.
Proof.
  intros Ht Hk Hc HQ. unfold SessionRevoked. rewrite bool_decide_eq_false_2 by done. repeat sstep.
  unfold count_revoked, scan_row, scanValues. simpl. rewrite count_sole by done.
  specialize (HQ now H). by destruct (revoked_at _ now (data d)).
Qed.

(** A session revocation takes effect, and survives its own clean-up: once
    RevokeSession has returned, SessionRevoked of that cookie answers true
    until the session expires, and for every other cookie the answer is what
    it was.  A revocation of an expired session changes nothing. *)
Theorem revocation_takes_effect o w cookie expiresAt :
  healthy o w → wf (data (sw_db w)) → (0 ≤ o_now o (sw_calls w))%Z → cookie ≠ "" →
  outcome o (let! r := RevokeSession cookie expiresAt in
             let! q := SessionRevoked cookie in
             let! now := nowUnix in Ret (r, q, now)) w
    (λ x t, let '(r, q, now) := x in
     match r with
     | None =>
         (∀ hash now', (now ≤ now')%Z → revoked_at hash now' t =
            if same (hashSecret cookie) hash then (now' <? expiresAt)%Z
            else revoked_at hash now' (data (sw_db w))) ∧
         q.2 = None ∧ ((now < expiresAt)%Z → q.1 = true)
     | Some _ => (expiresAt ≤ now)%Z ∧ t = data (sw_db w)
     end).
Proof.
  intros Hw W H0 Hne. pose proof (hl_tables _ _ Hw) as Ht. apply outcome_swp; [done|].
  sstep. unfold RevokeSession. rewrite bool_decide_eq_false_2 by done. repeat sstep.
  destruct (expiresAt <=? now)%Z eqn:E; repeat sstep.
  { apply Z.leb_le in E. apply SessionRevoked_swp; [done|apply W|done|]. intros now2 H2. repeat sstep. split; [lia|done]. }
  destruct (insert_revoked_run (hashSecret cookie) expiresAt (sw_db w) Ht) as (r1 & ->). repeat sstep.
  destruct (delete_expired_run (sessionRevocationCleanupCutoff now0)
              (set_data (revoked (hashSecret cookie) expiresAt (data (sw_db w))) (sw_db w)) Ht) as (r2 & ->).
  repeat sstep. assert (Hk := proj1 (wf_revoked_sessions _ W)).
  set (t1 := revoked _ _ _) in *. assert (Hk1 : no_clash RevokedSessions (revoked_sessions t1) = true) by by apply revoked_key.
  assert (Hcut : (sessionRevocationCleanupCutoff now0 ≤ now0)%Z) by (apply cutoff_past; lia).
  apply SessionRevoked_swp; [done|by apply no_clash_filter|done|]. intros now2 H2. repeat sstep. simpl.
  split_and!; [|done|].
  - intros hash now' Hn. rewrite revoked_at_cleaned by (done || lia). apply revoked_at_revoked.
  - intros Hn. rewrite revoked_at_cleaned by (done || lia). unfold t1. rewrite revoked_at_revoked.
    replace (same (hashSecret cookie) (hashSecret cookie)) with true by (symmetry; by apply same_true). lia.
Qed.
