(* ===== verification/StoreAccessFacts.v ===== *)
(** * What the operations on access do *)

From S2P Require Export StoreHostFacts.
Open Scope go_scope.

(** ** Issuing SSH access *)

Lemma existsb_snoc_true {A} (p : A → bool) l r : p r = true → existsb p (l ++ [r]) = true.
Proof. intros H. rewrite existsb_app. simpl. rewrite H, orb_true_r. done. Qed.

(** The three rows of an issued access. *)
Section issued.
Context (requestID grantID auditID userID hostID sshUser : string) (expiresAt now : Z).

Definition issued_request : access_requests_row :=
  AccessRequestRow requestID userID hostID sshUser "approved" now.

Definition issued_grant : access_grants_row :=
  AccessGrantRow grantID requestID userID hostID sshUser expiresAt (Some "") 0 now.

Definition issued_event : audit_events_row :=
  AuditEventRow auditID "access.approved" "host" hostID (Some userID) None
    (Some (issue_json requestID grantID expiresAt)) now.

Definition issued (t : tables) : tables :=
  with_rows AuditEvents (audit_events t ++ [issued_event])
  (with_rows AccessGrants (access_grants t ++ [issued_grant])
  (with_rows AccessRequests (access_requests t ++ [issued_request]) t)).

Lemma issue_run db :
  has_tables db → requestID ∉ known_ids (data db) → grantID ∉ known_ids (data db) → auditID ∉ known_ids (data db) →
  ∃ r, execute_db (issue_statements requestID grantID auditID userID hostID sshUser expiresAt now) db =
    ((r, None), if host_available hostID (data db) then set_data (issued (data db)) db else db) ∧
    RowsAffected r = if host_available hostID (data db) then 3%Z else 0%Z.
Proof.
  intros Ht Hr Hg Ha.
  transact (issue_statements requestID grantID auditID userID hostID sshUser expiresAt now) db as H.
  fold issued_request issued_grant issued_event in H. destruct (host_available hostID (data db)) eqn:E.
  - erewrite run_step in H by (apply (ins_fresh AccessRequests q_id _ issued_request _ (known_ids (data db)));
      [by intros; apply same_false|by rewrite E|known|done]).
    erewrite run_step in H by (apply (ins_fresh AccessGrants g_id _ issued_grant _ (known_ids (data db)));
      [by intros; apply same_false|simpl; rewrite existsb_snoc_true; [done|by apply same_true]|known|done]).
    erewrite run_step in H by (apply (ins_fresh AuditEvents a_id _ issued_event _ (known_ids (data db)));
      [by intros; apply same_false|simpl; rewrite existsb_snoc_true; [done|by apply same_true]|known|done]).
    exact H.
  - erewrite run_step in H by (apply ins_none; by rewrite E).
    erewrite run_step in H by (apply ins_none; simpl; by rewrite (fresh_in q_id _ (known_ids (data db))) by (done || known)).
    erewrite run_step in H by (apply ins_none; simpl; by rewrite (fresh_in g_id _ (known_ids (data db))) by (done || known)).
    destruct H as (r & H & Hn). exists r. split; [|exact Hn]. rewrite H. by destruct db as [? ? ? []].
Qed.

End issued.

(** [C22] Access is issued as a whole or not at all: whatever calls fail and
    whichever answers are lost, IssueSSHAccess has either changed nothing or
    written the approved request, the grant and the audit event together, and
    it never returns the identifier of a grant that is not there.  On a working
    node it succeeds exactly when the host has an active device. *)
Theorem access_is_issued_whole o w userID hostID sshUser expiresAt :
  faulty o w →
  outcome o (IssueSSHAccess userID hostID sshUser expiresAt) w (λ r t,
    let whole id := ∃ request event now, host_available hostID (data (sw_db w)) = true ∧
      t = issued request id event userID hostID sshUser expiresAt now (data (sw_db w)) in
    match r with
    | Ok id => whole id
    | Err _ => t = data (sw_db w) ∨ ∃ id, whole id
    end) ∧
  (working o → outcome o (IssueSSHAccess userID hostID sshUser expiresAt) w
                 (λ r _, is_Ok r = host_available hostID (data (sw_db w)))).
Proof.
  intros Hw. pose proof (fl_tables _ _ Hw) as Ht. split.
  - apply outcome_faulty; [done|]. unfold IssueSSHAccess. cbv zeta.
    repeat sstep; [by left| |].
    + repeat sstep. split; [by left|].
      destruct (issue_run id id0 id1 userID hostID sshUser expiresAt now (sw_db w)) as (r & E & _); [by eauto with store..|].
      rewrite E. simpl. destruct (host_available hostID (data (sw_db w))); [right; by exists id0, id, id1, now|by left].
    + destruct (issue_run id id0 id1 userID hostID sshUser expiresAt now (sw_db w)) as (r & E & En); [by eauto with store..|].
      rewrite E. repeat sstep. rewrite En. destruct (host_available hostID (data (sw_db w))); repeat sstep; [|by left].
      by exists id, id1, now.
  - intros Hok. apply outcome_swp; [by apply faulty_healthy|]. unfold IssueSSHAccess. repeat sstep.
    destruct (issue_run id id0 id1 userID hostID sshUser expiresAt now (sw_db w)) as (r & E & En); [by eauto with store..|].
    rewrite E. repeat sstep. rewrite En. by destruct (host_available hostID (data (sw_db w))).
Qed.

(** ** Relay admission *)

Lemma host_available_true id t :
  host_available id t = true ↔
  ∃ h d, h ∈ hosts t ∧ live_host id h = true ∧ d ∈ devices t ∧ live_device id d = true.
Proof.
  unfold host_available. rewrite existsb_exists. split.
  - intros (h & Hh & [Hl [d [Hd Hv]]%existsb_exists]%andb_true_iff). exists h, d. rewrite !list_elem_of_In.
    apply andb_true_iff in Hl as Hl'. destruct Hl' as [E%same_true _]. by rewrite <- E at 2.
  - intros (h & d & Hh & Hl & Hd & Hv). exists h. split; [by apply list_elem_of_In|]. rewrite Hl. simpl.
    apply existsb_exists. exists d. split; [by apply list_elem_of_In|].
    apply andb_true_iff in Hl as [E%same_true _]. by rewrite E.
Qed.

(** The endpoint has an unexpired grant to an available host. *)
Definition admitted (endpointID : string) (now : Z) (t : tables) : Prop :=
  ∃ r, r ∈ relay_access_grants t ∧ r_client_endpoint_id r = endpointID ∧ (now < r_expires_at r)%Z ∧
    host_available (r_host_id r) t = true.

(** The join with a live host and each of its live devices. *)
Lemma joined_elem {A} (id : string) (t : tables) (x y : A) :
  y ∈ (h ← filter (λ h, live_host id h = true) (hosts t);
       _ ← filter (λ d, live_device (h_id h) d = true) (devices t); [x]) ↔ y = x ∧ host_available id t = true.
Proof.
  rewrite host_available_true, list_elem_of_bind. setoid_rewrite list_elem_of_bind.
  setoid_rewrite list_elem_of_singleton. setoid_rewrite list_elem_of_filter. split.
  - intros (h & (d & -> & Hd & Hd') & Hh & Hh'). split; [done|]. exists h, d.
    apply andb_true_iff in Hh as Hh''. destruct Hh'' as [E%same_true _]. by rewrite <- E at 2.
  - intros (-> & h & d & Hh & Hh' & Hd & Hd'). exists h. split; [|done]. exists d.
    apply andb_true_iff in Hh' as [E%same_true _]. by rewrite E.
Qed.

Lemma relay_grants_spec endpointID now t r :
  r ∈ relay_grants endpointID now t ↔
  r ∈ relay_access_grants t ∧ r_client_endpoint_id r = endpointID ∧ (now < r_expires_at r)%Z ∧
    host_available (r_host_id r) t = true.
Proof.
  unfold relay_grants. rewrite list_elem_of_bind. setoid_rewrite joined_elem. setoid_rewrite list_elem_of_filter.
  split; [intros (r' & [<- Ha] & [Hr1 Hr2] & Hr); auto|]. intros (Hr & H1 & H2 & Ha). by exists r.
Qed.

(** The relay admits an endpoint exactly when, at the time it asks, the
    endpoint has an unexpired grant to a host that is live and has an active
    device; asking changes nothing. *)
Theorem relay_admission_is_granted o w endpointID :
  healthy o w →
  outcome o (let! r := RelayEndpointAllowed endpointID in let! now := nowUnix in Ret (r, now)) w
    (λ x t, t = data (sw_db w) ∧ ∃ b, fst x = Ok b ∧
       (∃ now, (o_now o (sw_calls w) ≤ now ≤ snd x)%Z ∧ (b = true ↔ admitted endpointID now t))).
Proof.
  intros Hw. pose proof (hl_tables _ _ Hw) as Ht. apply outcome_swp; [done|]. unfold RelayEndpointAllowed.
  repeat sstep. unfold scan_row, scanValues. simpl. repeat sstep. split; [done|].
  eexists. split; [done|]. exists now. split; [simpl; lia|]. rewrite Z.ltb_lt. split.
  - intros Hlen. destruct (relay_grants endpointID now (data (sw_db w))) as [|r l] eqn:E; [simpl in Hlen; lia|].
    exists r. apply relay_grants_spec. rewrite E. apply list_elem_of_here.
  - intros (r & Hr). apply relay_grants_spec in Hr.
    destruct (relay_grants endpointID now (data (sw_db w))); [by apply not_elem_of_nil in Hr|simpl; lia].
Qed.
