(* ===== verification/StoreDeviceFacts.v ===== *)
(** * Revocation and heartbeats of devices *)

From S2P Require Export StoreAccessFacts.
Open Scope go_scope.

(** ** Without an available host there is no access *)

Lemma bind_all_nil {A B} (f : A → list B) (l : list A) : (∀ x, x ∈ l → f x = []) → l ≫= f = [].
Proof.
  intros H. apply elem_of_nil_inv. intros y Hy. apply list_elem_of_bind in Hy as (x & Hy & Hx).
  rewrite H in Hy by done. by apply not_elem_of_nil in Hy.
Qed.

Lemma unavailable_join {A} id t (x : A) :
  host_available id t = false →
  (h ← filter (λ h, live_host id h = true) (hosts t);
   _ ← filter (λ d, live_device (h_id h) d = true) (devices t); [x]) = [].
Proof.
  intros H. apply elem_of_nil_inv. intros y Hy. apply joined_elem in Hy as [_ Hy]. congruence.
Qed.

Lemma live_grant_host hostID sshUser now g : live_grant hostID sshUser now g = true → g_host_id g = hostID.
Proof. unfold live_grant. by intros [[H%same_true _]%andb_true_iff _]%andb_true_iff. Qed.

Lemma unavailable_keys id sshUser now t : host_available id t = false → key_rows id sshUser now t = [].
Proof.
  intros H. unfold key_rows. apply bind_all_nil. intros g Hg. rewrite list_elem_of_filter in Hg.
  destruct Hg as [Hg%live_grant_host _]. apply bind_all_nil. intros k _. rewrite Hg. by apply unavailable_join.
Qed.

Lemma unavailable_grants id sshUser now t : host_available id t = false → grant_rows id sshUser now t = [].
Proof.
  intros H. unfold grant_rows. rewrite (bind_all_nil _ (filter (λ g, live_grant id sshUser now g = true) (access_grants t))).
  - done.
  - intros g Hg. rewrite list_elem_of_filter in Hg. destruct Hg as [Hg%live_grant_host _]. rewrite Hg.
    by apply unavailable_join.
Qed.

Lemma unavailable_discovery id t : host_available id t = false → discovery_rows id t = [].
Proof.
  intros H. unfold discovery_rows. apply bind_all_nil. intros e He. rewrite list_elem_of_filter in He.
  destruct He as [-> _]. by apply unavailable_join.
Qed.

(** ** Revocation *)

Lemma one_device t d d' : wf t → d ∈ devices t → d' ∈ devices t → d_host_id d = d_host_id d' → d = d'.
Proof.
  intros W. pose proof (wf_one_device t W) as H. clear W. induction (devices t) as [|x l IH].
  - intros Hd. by apply not_elem_of_nil in Hd.
  - revert H. csimpl. rewrite NoDup_cons. intros [Hx Hl]. rewrite !elem_of_cons.
    intros [->|Hd] [->|Hd'] E; [done| | |by apply IH]; exfalso; apply Hx; [rewrite E|rewrite <- E];
      by apply list_elem_of_fmap_2.
Qed.

Lemma revoked_unavailable t d :
  wf t → d ∈ devices t → d_state d = "revoked" → host_available (d_host_id d) t = false.
Proof.
  intros W Hd Hr. apply not_true_iff_false. rewrite host_available_true. intros (h & d' & _ & _ & Hd' & Hl).
  unfold live_device in Hl. apply andb_true_iff in Hl as [E%same_true Hs].
  rewrite (one_device t d' d W Hd' Hd E), Hr in Hs. discriminate Hs.
Qed.

(** [C1] A revoked device's host is cut off for good: in every state that any
    interleaving of operations reaches (short of deleting the host), no key and
    no grant is published for any of its accounts, its endpoint is not
    discoverable, no relay grant admits anyone to it, and it is not available
    for new access. *)
Theorem revocation_cuts_access d db db' ts :
  wf (data db) → d ∈ devices (data db) → d_state d = "revoked" →
  store_steps (store_operation (Some (d_host_id d))) (db, []) (db', ts) →
  host_available (d_host_id d) (data db') = false ∧
  (∀ sshUser now, key_rows (d_host_id d) sshUser now (data db') = [] ∧
                  grant_rows (d_host_id d) sshUser now (data db') = []) ∧
  discovery_rows (d_host_id d) (data db') = [] ∧
  (∀ endpoint now r, r ∈ relay_grants endpoint now (data db') → r_host_id r ≠ d_host_id d).
Proof.
  intros W Hd Hr Hs. destruct (operations_evolve _ _ _ _ Hs W) as [W' [_ _ Hdev _]].
  destruct (Hdev d Hd) as (d' & Hd' & Hsame & Hrev); [done|]. rewrite (Hrev Hr) in Hd'.
  assert (Hun := revoked_unavailable _ _ W' Hd' Hr). split_and!; [done| | |].
  - intros u now. split; [by apply unavailable_keys|by apply unavailable_grants].
  - by apply unavailable_discovery.
  - intros e now r Hrel E. apply relay_grants_spec in Hrel as (_ & _ & _ & Ha). congruence.
Qed.

(** The tables after the revocation of the device [id] of [hostID]. *)
Definition without_device (id hostID : string) (now : Z) (t : tables) : tables :=
  with_rows RelayAccessGrants (filter (λ r, same (r_host_id r) hostID = false) (relay_access_grants t))
  (with_rows AccessGrants ((λ g, if same (g_host_id g) hostID && (now <? g_expires_at g)%Z then expire_grant now g else g) <$>
     access_grants t)
  (with_rows Hosts ((λ h, if same (h_id h) hostID then set_host_seen "revoked" now h else h) <$> hosts t)
  (with_rows Devices ((λ d, if same (d_id d) id && is_not (d_state d) "revoked" then set_revoked now d else d) <$>
     devices t) t))).

Lemma devices_by_id (a b : devices_row) : d_id a = d_id b → clash Devices a b = true.
Proof. intros E. simpl. rewrite !orb_true_iff. left. left. by apply same_true. Qed.

Lemma revoke_run auditID id actor hostID now db :
  has_tables db → wf (data db) → auditID ∉ known_ids (data db) →
  ∃ r, execute_db (revoke_statements auditID id actor hostID now) db =
    ((r, None), set_data (without_device id hostID now
       (log_if (existsb (λ d, same (d_id d) id && is_not (d_state d) "revoked") (devices (data db)))
          (audit auditID "device.revoked" "device" id actor now) (data db))) db).
Proof.
  intros Ht W Ha. transact (revoke_statements auditID id actor hostID now) db as H.
  erewrite run_step in H by (apply (ins_audit_for Devices); [|apply W|done]; intros a b E1 E2;
    apply andb_true_iff in E1 as [E1%same_true _], E2 as [E2%same_true _]; apply devices_by_id; congruence).
  erewrite run_step in H by (apply upd_same_keys; [apply W|intros a b; by repeat case_match]).
  erewrite run_step in H by (apply upd_same_keys; [apply W|intros a b; by repeat case_match]).
  erewrite run_step in H by (apply upd_same_keys; [apply W|intros a b; by repeat case_match]).
  cbn in H. destruct H as (r & H & _). eexists. exact H.
Qed.

(** The device with this identifier. *)
Definition find_device (id : string) (t : tables) : option devices_row := head (filter (λ d, d_id d = id) (devices t)).

Lemma find_device_some id t d : find_device id t = Some d → d ∈ devices t ∧ d_id d = id.
Proof.
  unfold find_device. destruct (filter _ _) as [|x l] eqn:E; [done|]. intros [= ->].
  assert (Hd : d ∈ filter (λ d, d_id d = id) (devices t)) by (rewrite E; apply list_elem_of_here).
  rewrite list_elem_of_filter in Hd. by destruct Hd.
Qed.

Lemma without_device_unavailable id hostID now t : host_available hostID (without_device id hostID now t) = false.
Proof.
  apply not_true_iff_false. rewrite host_available_true. intros (h & d & Hh & Hl & _).
  unfold without_device in Hh. simpl in Hh. apply list_elem_of_fmap in Hh as (h0 & -> & _).
  apply andb_true_iff in Hl as [H1 H2]. destruct (same (h_id h0) hostID) eqn:E; [discriminate H2|congruence].
Qed.

(** Revoking a device does everything at once: on a working node
    DeleteDevice marks the device and its host revoked, expires the host's live
    grants, removes its relay grants and records one audit event; afterwards
    the host is unavailable.  Revoking again changes nothing, and a device that
    is not there is reported. *)
Theorem device_is_revoked o w id actor :
  healthy o w → wf (data (sw_db w)) → actor ≠ "" →
  outcome o (DeleteDevice id actor) w (λ r t,
    match find_device id (data (sw_db w)) with
    | None => r = Some ErrNoRows ∧ t = data (sw_db w)
    | Some d =>
        r = None ∧ host_available (d_host_id d) t = false ∧
        if bool_decide (d_state d = "revoked") then t = data (sw_db w)
        else ∃ auditID now, t = without_device id (d_host_id d) now
               (log_if true (audit auditID "device.revoked" "device" id actor now) (data (sw_db w)))
    end).
Proof.
  intros Hw W Hne. pose proof (hl_tables _ _ Hw) as Ht. apply outcome_swp; [done|].
  unfold DeleteDevice. repeat sstep. rewrite bool_decide_eq_false_2 by done. repeat sstep.
  destruct (find_device id (data (sw_db w))) as [d|] eqn:Ed; unfold find_device in Ed;
    destruct (filter (λ d, d_id d = id) (devices (data (sw_db w)))) as [|x l] eqn:Ef; try discriminate Ed;
    csimpl; [|done].
  injection Ed as ->. unfold scan_row, scanValues. simpl.
  assert (Hd : find_device id (data (sw_db w)) = Some d) by (unfold find_device; by rewrite Ef).
  apply find_device_some in Hd as [Hd Hid]. case_bool_decide as Hs.
  - simpl. split_and!; [done|by apply revoked_unavailable|done].
  - repeat sstep. destruct (revoke_run id0 id actor (d_host_id d) now (sw_db w)) as (r & E); [done..|].
    rewrite E. repeat sstep. split_and!; [done|apply without_device_unavailable|]. exists id0, now.
    replace (existsb _ _) with true; [done|]. symmetry. apply existsb_exists. exists d.
    split; [by apply list_elem_of_In|]. unfold is_not. rewrite bool_decide_eq_false_2 by done.
    rewrite andb_true_iff. split; [by apply same_true|done].
Qed.

(** ** Heartbeats *)

Lemma count_once {A} (T : table A) (p : A → bool) l :
  (∀ a b, p a = true → p b = true → clash T a b = true) → no_clash T l = true →
  count p l = if existsb p l then 1%Z else 0%Z.
Proof.
  intros Hp Hk. unfold count. pose proof (audit_once T p (AuditEventRow "" "" "" "" None None None 0) l Hp Hk) as E.
  apply (f_equal length) in E. rewrite length_fmap in E. rewrite E. by destruct (existsb p l).
Qed.

Lemma count_ext {A} (p q : A → bool) l : (∀ x, p x = q x) → count p l = count q l.
Proof.
  intros H. unfold count. f_equal. f_equal. induction l as [|x l IH]; [done|]. rewrite !filter_cons, H, IH. done.
Qed.

Lemma count_false {A} (l : list A) : count (λ _, false) l = 0%Z.
Proof. unfold count. by induction l. Qed.

Lemma map_none {A} (p : A → bool) (g : A → A) l : existsb p l = false → ((λ r, if p r then g r else r) <$> l) = l.
Proof. induction l as [|x l IH]; [done|]. simpl. intros [-> Hl]%orb_false_iff. f_equal. by apply IH. Qed.

Lemma active_has_host id hostID t :
  wf t → existsb (active_device id hostID) (devices t) = true → existsb (λ h, same (h_id h) hostID) (hosts t) = true.
Proof.
  intros W. rewrite !existsb_exists. intros (d & Hd%list_elem_of_In & Ha). apply (wf_device_host t W) in Hd.
  apply list_elem_of_fmap in Hd as (h & E & Hh). exists h. split; [by apply list_elem_of_In|].
  apply andb_true_iff in Ha as [[_ Ha%same_true]%andb_true_iff _]. apply same_true. congruence.
Qed.

Definition put_discovery (r : endpoint_discovery_row) (l : list endpoint_discovery_row) : list endpoint_discovery_row :=
  if existsb (λ e, same (e_host_id r) (e_host_id e)) l
  then (λ e, if same (e_host_id r) (e_host_id e)
             then EndpointDiscoveryRow (e_host_id e) (e_direct_addresses r) (e_relay_urls r) (e_updated_at r) else e) <$> l
  else l ++ [r].

Section heartbeat.
Context (id hostID endpointID fingerprint status : string) (directAddresses relayURLs : option (list string)).

Definition recognised (d : devices_row) : bool :=
  active_device id hostID d && same (d_endpoint_id d) endpointID && same (d_ssh_host_key_fingerprint d) fingerprint.

(** The tables after a heartbeat of an active device. *)
Definition touched (now : Z) (t : tables) : tables :=
  with_rows EndpointDiscoveries
    (put_discovery (EndpointDiscoveryRow hostID (Marshal_list directAddresses) (Marshal_list relayURLs) now)
       (endpoint_discovery t))
  (with_rows Hosts ((λ h, if same (h_id h) hostID then set_host_seen status now h else h) <$> hosts t)
  (with_rows Devices ((λ d, if recognised d then set_seen now d else d) <$> devices t) t)).

Lemma touch_run now db :
  has_tables db → wf (data db) →
  ∃ r, execute_db (touch_statements id hostID endpointID fingerprint status directAddresses relayURLs now) db =
    ((r, None), if existsb (active_device id hostID) (devices (data db)) then set_data (touched now (data db)) db else db) ∧
    RowsAffected r = ((if existsb recognised (devices (data db)) then 1 else 0) +
                      (if existsb (active_device id hostID) (devices (data db)) then 2 else 0))%Z.
Proof.
  intros Ht W.
  transact (touch_statements id hostID endpointID fingerprint status directAddresses relayURLs now) db as H.
  change (λ _ d, active_device id hostID d && same (d_endpoint_id d) endpointID &&
             same (d_ssh_host_key_fingerprint d) fingerprint) with (λ (_ : tables), recognised) in H.
  assert (Hact : ∀ l, existsb (active_device id hostID) ((λ d, if recognised d then set_seen now d else d) <$> l) =
            existsb (active_device id hostID) l) by (intros l; apply existsb_map; intros d; by destruct (recognised d)).
  assert (Hone : ∀ a b, active_device id hostID a = true → active_device id hostID b = true → clash Devices a b = true).
  { intros a b [[Ha%same_true _]%andb_true_iff _]%andb_true_iff [[Hb%same_true _]%andb_true_iff _]%andb_true_iff.
    apply devices_by_id. congruence. }
  erewrite run_step in H by (apply upd_same_keys; [apply W|intros a b; by repeat case_match]).
  erewrite run_step in H by (apply upd_same_keys; [apply W|intros a b; by repeat case_match]).
  cbn [run_tables] in H. unfold ups in H. cbn in H. rewrite !Hact in H.
  rewrite (count_once Devices recognised) in H by (try apply W; intros a b [[Ha _]%andb_true_iff _]%andb_true_iff
    [[Hb _]%andb_true_iff _]%andb_true_iff; auto).
  destruct (existsb (active_device id hostID) (devices (data db))) eqn:E.
  - rewrite (count_ext _ (λ h, same (h_id h) hostID)), (count_once Hosts (λ h, same (h_id h) hostID)) in H
      by (try apply W; try (intros h; apply andb_true_r); intros a b Ha%same_true Hb%same_true; apply hosts_by_id; congruence).
    replace (existsb (λ h, same (h_id h) hostID) (hosts (data db))) with true in H
      by (symmetry; by apply (active_has_host id)).
    unfold touched, put_discovery. cbn in H |- *.
    rewrite (list_fmap_ext (λ r, if same (h_id r) hostID && true then set_host_seen status now r else r)
               (λ h, if same (h_id h) hostID then set_host_seen status now h else h) (hosts (data db))) in H
      by (intros; by rewrite andb_true_r).
    destruct (existsb (λ b, same hostID (e_host_id b)) (endpoint_discovery (data db)));
      (destruct H as (r & H & Hn); exists r; split; [exact H|rewrite Hn; by destruct (existsb recognised _)]).
  - assert (Hrec : existsb recognised (devices (data db)) = false).
    { apply not_true_iff_false. rewrite existsb_exists. intros (d & Hd & [[Ha _]%andb_true_iff _]%andb_true_iff).
      apply not_true_iff_false in E. apply E, existsb_exists. eauto. }
    rewrite (count_ext _ (λ h, false)), count_false in H by (intros h; apply andb_false_r).
    assert (Hno : ∀ l, existsb (λ h, same (h_id h) hostID && false) l = false)
      by (intros l; induction l as [|h l IH]; [done|]; simpl; by rewrite andb_false_r).
    rewrite (map_none recognised), (map_none (λ r, same (h_id r) hostID && false)), Hrec in H by auto.
    cbn in H. destruct H as (r & H & Hn). exists r. rewrite Hrec. split; [|exact Hn].
    rewrite H. by destruct db as [? ? ? []].
Qed.

(** What a heartbeat does.  TouchDevice succeeds exactly when the id, host,
    endpoint and fingerprint are those of a device that is not revoked; but
    when only the endpoint or the fingerprint is wrong, it reports the mismatch
    after the host's status and discovery have been written. *)
Theorem heartbeat_commits_before_it_checks o w :
  healthy o w → wf (data (sw_db w)) →
  outcome o (TouchDevice id hostID endpointID fingerprint status directAddresses relayURLs) w (λ r t,
    r = (if existsb recognised (devices (data (sw_db w))) then None
         else Some (Errorf "device identity mismatch or device revoked")) ∧
    (if existsb (active_device id hostID) (devices (data (sw_db w)))
     then ∃ now, t = touched now (data (sw_db w)) else t = data (sw_db w))).
Proof.
  intros Hw W. pose proof (hl_tables _ _ Hw) as Ht. apply outcome_swp; [done|]. unfold TouchDevice. repeat sstep.
  destruct (touch_run now (sw_db w) Ht W) as (r & E & En). rewrite E. repeat sstep. rewrite En.
  assert (Hrec : existsb recognised (devices (data (sw_db w))) = true →
                 existsb (active_device id hostID) (devices (data (sw_db w))) = true).
  { rewrite !existsb_exists. intros (d & Hd & [[Ha _]%andb_true_iff _]%andb_true_iff). eauto. }
  destruct (existsb recognised (devices (data (sw_db w)))) eqn:E1.
  - rewrite Hrec by done. simpl. repeat sstep. eauto.
  - destruct (existsb (active_device id hostID) (devices (data (sw_db w)))); simpl; repeat sstep; eauto.
Qed.

End heartbeat.
