(* ===== verification/StoreEnrollFacts.v ===== *)
(** * Enrolment happens at most once

    A first attempt whose calls may fail or lose their answers, then a retry
    with the same arguments: together they enrol the device at most once, use
    at most one credit, and the retry returns what the first one committed. *)

From S2P Require Export StoreDeviceFacts.
Open Scope go_scope.

Definition device_of_row (d : devices_row) : Device :=
  mkDevice (d_id d) (d_host_id d) (d_endpoint_id d) (d_ssh_host_key_fingerprint d) (d_device_public_key d)
    (d_state d) (default "" (d_serial_number d)) (default "" (d_model d)) (d_enrolled_at d) (d_last_seen_at d).

Lemma scan_device_row d : scan_row device_types read_device (device_columns d) = Ok (device_of_row d).
Proof.
  unfold scan_row, scanValues, device_columns, device_of_row. simpl.
  by destruct (d_serial_number d), (d_model d), (d_last_seen_at d).
Qed.

Definition token_of_row (r : manufacturing_tokens_row) : ManufacturingToken :=
  mkToken (t_id r) "" (default "" (t_batch_id r)) (t_expires_at r) (t_created_at r).

Lemma scan_token_row r : scan_row token_types read_token (token_columns r) = Ok (token_of_row r).
Proof.
  unfold scan_row, scanValues, token_columns, token_of_row. simpl. by destruct (t_batch_id r), (t_expires_at r).
Qed.

Definition batch_of_row (b : manufacturing_batches_row) : ManufacturingBatch :=
  mkBatch (b_id b) (b_name b) (b_serial_prefix b) (b_status b) (b_expires_at b) (b_max_devices b)
    (b_used_count b) (b_closed_at b) (b_created_at b).

Lemma scan_batch_row b : scan_row batch_types read_batch (batch_columns b) = Ok (batch_of_row b).
Proof. unfold scan_row, scanValues, batch_columns, batch_of_row. simpl. by destruct (b_closed_at b). Qed.

(** ** What a bearer token pays with *)

Inductive credit (token : string) (t : tables) :
    option manufacturing_tokens_row → option manufacturing_batches_row → Prop :=
  | credit_token r :
      r ∈ manufacturing_tokens t → t_token_hash r = hashSecret token → default "" (t_batch_id r) = "" →
      credit token t (Some r) None
  | credit_token_of_batch r b :
      r ∈ manufacturing_tokens t → t_token_hash r = hashSecret token →
      b ∈ manufacturing_batches t → default "" (t_batch_id r) = b_id b →
      credit token t (Some r) (Some b)
  | credit_batch b :
      (∀ r, r ∈ manufacturing_tokens t → t_token_hash r ≠ hashSecret token) →
      b ∈ manufacturing_batches t → b_token_hash b = hashSecret token →
      credit token t None (Some b).

(** The batch with one more device, closed by its last one. *)
Definition one_more (now : Z) (b : manufacturing_batches_row) : manufacturing_batches_row :=
  let full := (b_max_devices b <=? b_used_count b + 1)%Z in
  ManufacturingBatchRow (b_id b) (b_name b) (b_serial_prefix b) (b_token_hash b)
    (if full then "closed" else b_status b) (b_expires_at b) (b_max_devices b) (b_used_count b + 1)
    (if full then Some now else b_closed_at b) (b_created_at b).

Definition spend (rt : option manufacturing_tokens_row) (rb : option manufacturing_batches_row) (now : Z)
    (t : tables) : tables :=
  with_rows ManufacturingTokens
    (match rt with
     | Some r => filter (λ r', same (t_id r') (t_id r) = false) (manufacturing_tokens t)
     | None => manufacturing_tokens t end)
  (with_rows ManufacturingBatches
    (match rb with
     | Some b => (λ b', if same (b_id b') (b_id b) then one_more now b' else b') <$> manufacturing_batches t
     | None => manufacturing_batches t end) t).

(** ** Looking the credit up *)

Lemma head_filter {A} (P : A → Prop) `{!∀ x, Decision (P x)} (l : list A) x k :
  filter P l = x :: k → x ∈ l ∧ P x.
Proof.
  intros E. assert (Hf : x ∈ filter P l) by (rewrite E; apply list_elem_of_here).
  rewrite list_elem_of_filter in Hf. by destruct Hf.
Qed.

Lemma none_filter {A} (P : A → Prop) `{!∀ x, Decision (P x)} (l : list A) x : filter P l = [] → x ∈ l → ¬ P x.
Proof.
  intros E Hx Px. assert (Hf : x ∈ filter P l) by (by rewrite list_elem_of_filter). rewrite E in Hf.
  by apply not_elem_of_nil in Hf.
Qed.

Lemma optional_none {A} : @optional A (Err ErrNoRows) = Ok None.
Proof. done. Qed.

Definition no_credit (token : string) (t : tables) : Prop := ∀ rt rb, ¬ credit token t rt rb.

(** Bearer tokens are unique, by their hash. *)
Lemma one_token t r r' :
  no_clash ManufacturingTokens (manufacturing_tokens t) = true → r ∈ manufacturing_tokens t → r' ∈ manufacturing_tokens t →
  t_token_hash r = t_token_hash r' → r = r'.
Proof.
  intros Hk Hr Hr' E. apply (no_clash_eq ManufacturingTokens) with (l := manufacturing_tokens t); [apply keys_symmetric|done..|].
  simpl. apply orb_true_iff. right. by apply same_true.
Qed.

Lemma credit_swp faults seen clock db token Q :
  has_tables db → wf (data db) →
  (∀ e, (faults = false → no_credit token (data db)) → Q (Err e) db seen clock) →
  (no_credit token (data db) → Q (Ok (None, None)) db seen clock) →
  (∀ rt rb, credit token (data db) rt rb → Q (Ok (token_of_row <$> rt, batch_of_row <$> rb)) db seen clock) →
  swp faults seen clock (enrollment_credit token) db Q.
Proof.
  intros Ht W He Hn Hc. unfold enrollment_credit, getManufacturingTokenByToken, getManufacturingBatchByID,
    getManufacturingBatchByToken. repeat sstep; [apply He; congruence|].
  destruct (filter _ (manufacturing_tokens (data db))) as [|r l] eqn:Er; cbn [fmap list_fmap].
  - rewrite optional_none. repeat sstep; [apply He; congruence|].
    destruct (filter _ (manufacturing_batches (data db))) as [|b l] eqn:Eb; cbn [fmap list_fmap]; rewrite ?optional_none.
    + apply Hn. destruct 1 as [r Hr Eh _|r b Hr Eh _ _|b _ Hb Eh]; try (by apply (none_filter _ _ r Er Hr));
        by apply (none_filter _ _ b Eb Hb).
    + rewrite scan_batch_row. apply head_filter in Eb as [Hb Eb]. apply (Hc None (Some b)), credit_batch; [|done..].
      intros r Hr. exact (none_filter _ _ r Er Hr).
  - rewrite scan_token_row. apply head_filter in Er as [Hr Er]. simpl.
    case_bool_decide as Hb; [apply (Hc (Some r) None); by apply credit_token|].
    repeat sstep; [apply He; congruence|]. destruct (filter _ (manufacturing_batches (data db))) as [|b k] eqn:Eb; cbn [fmap list_fmap]; rewrite ?optional_none.
    + apply He. intros _ rt rb Hcr. assert (Huniq : ∀ r', r' ∈ manufacturing_tokens (data db) → t_token_hash r' = hashSecret token → r' = r)
        by (intros r' H1 H2; apply (one_token (data db)); [apply W|done..|congruence]).
      destruct Hcr as [r' Hr' Eh Ed|r' b Hr' Eh Hin Ed|b Hno _ _]; [rewrite (Huniq r') in Ed by done; done| |by apply (Hno r)].
      rewrite (Huniq r') in Ed by done. by apply (none_filter _ _ b Eb Hin).
    + rewrite scan_batch_row. apply head_filter in Eb as [Hb' Eb].
      apply (Hc (Some r) (Some b)), credit_token_of_batch; done.
Qed.

(** ** Statements that must affect exactly one row *)

Section one_row.
Context {A : Type} (T : table A) (Hsym : symmetric_key T) (p q : A → bool) (x : A) (t : tables).
Context (Hk : no_clash T (rows T t) = true) (Hx : x ∈ rows T t) (Hqx : q x = true).
Context (Hq : ∀ a b, q a = true → q b = true → clash T a b = true) (Hpq : ∀ a, p a = true → q a = true).

(** [q] selects [x] alone, and [p] selects it when it does at all. *)
Lemma selects_one a : a ∈ rows T t → p a = if p x then q a else false.
Proof.
  intros Ha. assert (Hone : q a = true → a = x) by (intros Hqa; apply (no_clash_eq T Hsym (rows T t)); auto).
  destruct (p x) eqn:Ep.
  - destruct (q a) eqn:Eq; [by rewrite Hone|]. destruct (p a) eqn:Epa; [|done]. apply Hpq in Epa. congruence.
  - destruct (p a) eqn:Epa; [|done]. rewrite Hone in Epa by auto. congruence.
Qed.

Lemma count_selected : count p (rows T t) = if p x then 1%Z else 0%Z.
Proof.
  rewrite (count_once T) by (try exact Hk; auto).
  destruct (p x) eqn:Ep.
  - replace (existsb p (rows T t)) with true; [done|]. symmetry. apply existsb_exists. exists x.
    by rewrite <- list_elem_of_In.
  - destruct (existsb p (rows T t)) eqn:E; [|done]. apply existsb_exists in E as (a & Ha%list_elem_of_In & E).
    rewrite selects_one, Ep in E by done. discriminate E.
Qed.

Lemma del_one :
  expected 1 (del T (λ _, p)) t =
    if p x then Some (with_rows T (filter (λ a, q a = false) (rows T t)) t, 1%Z) else None.
Proof.
  unfold expected, del. rewrite count_selected. destruct (p x) eqn:Ep; [|done].
  rewrite bool_decide_eq_true_2 by done. do 3 f_equal.
  assert (H : ∀ a, a ∈ rows T t → p a = q a) by (intros a Ha; by rewrite selects_one, Ep).
  revert H. clear. induction (rows T t) as [|a l IH]; [done|]. intros H.
  rewrite !filter_cons, H by apply list_elem_of_here. rewrite IH; [done|]. intros b Hb. by apply H, list_elem_of_further.
Qed.

Lemma upd_one (g : A → A) :
  (∀ a b, clash T (if p a then g a else a) (if p b then g b else b) = clash T a b) →
  expected 1 (upd T (λ _, p) g) t =
    if p x then Some (with_rows T ((λ a, if q a then g a else a) <$> rows T t) t, 1%Z) else None.
Proof.
  intros Hg. unfold expected. rewrite upd_same_keys, count_selected by done. destruct (p x) eqn:Ep; [|done].
  rewrite bool_decide_eq_true_2 by done. do 3 f_equal. apply list_fmap_ext. intros i a Ha.
  apply list_elem_of_lookup_2 in Ha. by rewrite selects_one, Ep.
Qed.

End one_row.

Section enrolment.
Context (token endpointID serialNumber model fingerprint devicePublicKey sshUser : string) (sshPort : Z)
  (tags : option (gmap string string)).

Definition account : string := if bool_decide (sshUser = "") then "root" else sshUser.
Definition port : Z := if bool_decide (sshPort = 0%Z) then 22%Z else sshPort.

(** One enrolment: what it pays with, what it is valid for, what it leaves. *)
Record enrols (rt : option manufacturing_tokens_row) (rb : option manufacturing_batches_row)
    (id host serial : string) (now : Z) (t t' : tables) (d : Device) : Prop := Enrols {
  en_credit : credit token t rt rb;
  en_token r e : rt = Some r → t_expires_at r = Some e → (now < e)%Z;
  en_batch b : rb = Some b → b_status b = "open" ∧ (now < b_expires_at b)%Z ∧ (b_used_count b < b_max_devices b)%Z ∧
    serial = b_serial_prefix b +:+ "-" +:+ pad_int 6 (wrap64 (b_used_count b + 1));
  en_asked : serialNumber ≠ "" → serial = serialNumber;
  en_names : ValidHostName serial = true ∧ ValidSSHUser account = true;
  en_new x : x ∈ devices t → d_device_public_key x ≠ devicePublicKey ∧ d_serial_number x ≠ Some serial;
  en_device : d = mkDevice id host endpointID fingerprint devicePublicKey "manufactured" serial model now None;
  en_tables : t' =
    with_rows Devices (devices t ++ [DeviceRow id host endpointID fingerprint devicePublicKey "manufactured"
                                       (Some serial) (Some model) now None])
    (with_rows Hosts (hosts t ++ [HostRow host serial endpointID account (Marshal_map tags) port
                                    "manufactured" "manufacturing" None now now])
    (spend rt rb now t));
}.

Definition enrolled (t t' : tables) (d : Device) : Prop :=
  ∃ rt rb id host serial now, enrols rt rb id host serial now t t' d.

Definition host_row (host serial : string) (now : Z) : hosts_row :=
  HostRow host serial endpointID account (Marshal_map tags) port "manufactured" "manufacturing" None now now.

Definition device_row (id host serial : string) (now : Z) : devices_row :=
  DeviceRow id host endpointID fingerprint devicePublicKey "manufactured" (Some serial) (Some model) now None.

(** The host and device of an enrolment, once it has been paid. *)
Lemma host_goes_in host serial now t (seen : gset string) :
  list_to_set (h_id <$> hosts t) ⊆ seen → host ∉ seen →
  expected 1 (ins Hosts (λ _, [host_row host serial now])) t =
    if name_taken serial t then None else Some (with_rows Hosts (hosts t ++ [host_row host serial now]) t, 1%Z).
Proof.
  intros Hs Hhost. unfold expected, ins. cbn [rows Hosts insert_all].
  rewrite (existsb_ext _ (λ x, same host (h_id x) || same serial (h_name x))), existsb_orb by done.
  rewrite (existsb_ext (λ x, same host (h_id x)) (λ x, same (h_id x) host)) by (intros; apply same_comm).
  rewrite (fresh_in h_id (hosts t) seen) by done.
  rewrite (existsb_ext (λ x, same serial (h_name x)) (λ x, same (h_name x) serial)) by (intros; apply same_comm).
  unfold name_taken. by destruct (existsb (λ x, same (h_name x) serial) (hosts t)).
Qed.

Lemma device_goes_in id host serial now t (seen : gset string) :
  list_to_set (d_id <$> devices t) ⊆ seen → id ∉ seen →
  (∀ x, x ∈ devices t → d_device_public_key x ≠ devicePublicKey ∧ d_serial_number x ≠ Some serial) →
  expected 1 (ins Devices (λ _, [device_row id host serial now])) t =
    Some (with_rows Devices (devices t ++ [device_row id host serial now]) t, 1%Z).
Proof.
  intros Hs Hid Hnew. assert (H : existsb (clash Devices (device_row id host serial now)) (devices t) = false).
  { apply not_true_iff_false. rewrite existsb_exists. intros (x & Hx%list_elem_of_In & E).
    destruct (Hnew x Hx) as [H1 H2]. apply orb_true_iff in E as [[E%same_true|E%same_true]%orb_true_iff|E].
    - apply Hid, Hs. simpl in E. rewrite E. by apply elem_of_list_to_set, list_elem_of_fmap_2.
    - done.
    - simpl in E. destruct (d_serial_number x) as [s'|]; [|done]. apply same_true in E as <-. done. }
  unfold expected, ins. cbn [rows Devices insert_all]. by rewrite H.
Qed.

Definition consume_statements (rt : option manufacturing_tokens_row) (rb : option manufacturing_batches_row)
    (now : Z) : list SQLStatement :=
  match rb with Some b => [consume_batch (batch_of_row b) now] | None => [] end ++
  match rt with Some r => [consume_token (token_of_row r) token now] | None => [] end.

Definition token_lives (rt : option manufacturing_tokens_row) (now : Z) : bool :=
  match rt with
  | Some r => match t_expires_at r with None => true | Some e => (now <? e)%Z end
  | None => true
  end.

Lemma batches_symmetric : symmetric_key ManufacturingBatches.
Proof. apply keys_symmetric. Qed.

Lemma tokens_symmetric : symmetric_key ManufacturingTokens.
Proof. apply keys_symmetric. Qed.

Lemma batch_step b now t :
  no_clash ManufacturingBatches (manufacturing_batches t) = true → b ∈ manufacturing_batches t →
  b_status b = "open" → (now < b_expires_at b)%Z → (b_used_count b < b_max_devices b)%Z →
  ∀ p, (∀ a, p a = same (b_id a) (b_id b) && same (b_status a) "open" && (now <? b_expires_at a)%Z &&
                   (b_used_count a =? b_used_count b)%Z && (b_used_count a <? b_max_devices a)%Z) →
  expected 1 (upd ManufacturingBatches (λ _, p) (one_more now)) t =
    Some (with_rows ManufacturingBatches
      ((λ b', if same (b_id b') (b_id b) then one_more now b' else b') <$> manufacturing_batches t) t, 1%Z).
Proof.
  intros Hk Hb Ho He Hu p Hp.
  rewrite (upd_one ManufacturingBatches batches_symmetric p (λ a, same (b_id a) (b_id b)) b t Hk Hb).
  - assert (p b = true) as ->; [|done]. rewrite Hp, Ho, !andb_true_iff, !same_true, Z.eqb_eq, !Z.ltb_lt. done.
  - by apply same_true.
  - intros x y Hx%same_true Hy%same_true. simpl. rewrite orb_true_iff, orb_true_iff. left. left. apply same_true. congruence.
  - intros a Ha. rewrite Hp, !andb_true_iff in Ha. tauto.
  - intros x y. by repeat case_match.
Qed.

Lemma token_step r now t :
  no_clash ManufacturingTokens (manufacturing_tokens t) = true → r ∈ manufacturing_tokens t →
  t_token_hash r = hashSecret token →
  ∀ p, (∀ a, p a = same (t_id a) (t_id r) && same (t_token_hash a) (hashSecret token) &&
                   match t_expires_at a with None => true | Some e => (now <? e)%Z end) →
  expected 1 (del ManufacturingTokens (λ _, p)) t =
    if token_lives (Some r) now
    then Some (with_rows ManufacturingTokens (filter (λ r', same (t_id r') (t_id r) = false) (manufacturing_tokens t)) t, 1%Z)
    else None.
Proof.
  intros Hk Hr Hh p Hp.
  rewrite (del_one ManufacturingTokens tokens_symmetric p (λ a, same (t_id a) (t_id r)) r t Hk Hr).
  - replace (p r) with (token_lives (Some r) now); [done|]. rewrite Hp, Hh. simpl.
    by rewrite !(proj2 (same_true _ _) eq_refl).
  - by apply same_true.
  - intros x y Hx%same_true Hy%same_true. simpl. rewrite orb_true_iff. left. apply same_true. congruence.
  - intros a Ha. rewrite Hp, !andb_true_iff in Ha. tauto.
Qed.

(** The end of the transaction, after what pays for it. *)
Lemma register_tables id host serial now t0 t :
  hosts t = hosts t0 → devices t = devices t0 → id ∉ known_ids t0 → host ∉ known_ids t0 →
  (∀ x, x ∈ devices t0 → d_device_public_key x ≠ devicePublicKey ∧ d_serial_number x ≠ Some serial) →
  run_tables [expected 1 (ins Hosts (λ _, [host_row host serial now]));
              expected 1 (ins Devices (λ _, [device_row id host serial now]))] t =
    if name_taken serial t0 then None
    else Some (with_rows Devices (devices t0 ++ [device_row id host serial now])
                 (with_rows Hosts (hosts t0 ++ [host_row host serial now]) t), [1%Z; 1%Z]).
Proof.
  intros Eh Ed Hid Hhost Hnew. cbn [run_tables].
  assert (Kh : (list_to_set (h_id <$> hosts t0) : gset string) ⊆ known_ids t0) by known.
  assert (Kd : (list_to_set (d_id <$> devices t0) : gset string) ⊆ known_ids t0) by known.
  rewrite (host_goes_in host serial now t (list_to_set (h_id <$> hosts t0))); [|by rewrite Eh|].
  2: by intros Hx; apply Hhost, Kh.
  unfold name_taken. rewrite Eh. destruct (existsb _ (hosts t0)); [done|].
  rewrite (device_goes_in id host serial now _ (list_to_set (d_id <$> devices t0))); simpl; rewrite ?Ed; [done|done| |done].
  by intros Hx; apply Hid, Kd.
Qed.

Ltac registered H :=
  match type of H with context [set_data _ ?d] =>
    rewrite (register_tables _ _ _ _ (data d)) in H; [|reflexivity|reflexivity|eassumption..]
  end;
  destruct (name_taken _ _); simpl in H |- *; [exact H|destruct H as (? & H & _); eauto].

Lemma enroll_run rt rb id host serial now db :
  has_tables db → wf (data db) → credit token (data db) rt rb →
  id ∉ known_ids (data db) → host ∉ known_ids (data db) →
  (∀ x, x ∈ devices (data db) → d_device_public_key x ≠ devicePublicKey ∧ d_serial_number x ≠ Some serial) →
  (∀ b, rb = Some b → b_status b = "open" ∧ (now < b_expires_at b)%Z ∧ (b_used_count b < b_max_devices b)%Z) →
  let sts := consume_statements rt rb now ++
    [enroll_host host serial endpointID account tags port now;
     enroll_device id host endpointID fingerprint devicePublicKey serial model now] in
  if token_lives rt now && negb (name_taken serial (data db))
  then ∃ r, execute_db sts db = ((r, None), set_data
         (with_rows Devices (devices (data db) ++ [device_row id host serial now])
         (with_rows Hosts (hosts (data db) ++ [host_row host serial now]) (spend rt rb now (data db)))) db)
  else execute_db sts db = (rejected, db).
Proof.
  intros Ht W Hc Hid Hhost Hnew Hb sts.
  assert (Hbatch : ∀ b, rb = Some b → b ∈ manufacturing_batches (data db)) by (intros b ->; by inversion Hc).
  assert (Htok : ∀ r, rt = Some r → r ∈ manufacturing_tokens (data db) ∧ t_token_hash r = hashSecret token)
    by (intros r ->; by inversion Hc).
  assert (Kb := proj1 (wf_manufacturing_batches _ W)). assert (Kt := proj1 (wf_manufacturing_tokens _ W)).
  unfold sts, consume_statements.
  destruct rb as [b|], rt as [r|]; simpl app;
    try (destruct (Hb b eq_refl) as (Ho & He & Hu); specialize (Hbatch b eq_refl));
    try (destruct (Htok r eq_refl) as [Hr Hh]);
    match goal with |- context [execute_db ?l db] => transact l db as H end;
    fold (host_row host serial now) in H; fold (device_row id host serial now) in H.
  - erewrite run_step in H by (by apply (batch_step b now)).
    destruct (token_lives (Some r) now) eqn:El; simpl andb.
    + erewrite run_step in H by (rewrite (token_step r now) by done; by rewrite El). registered H.
    + rewrite run_stuck in H by (rewrite (token_step r now) by done; by rewrite El). exact H.
  - erewrite run_step in H by (by apply (batch_step b now)). registered H.
  - destruct (token_lives (Some r) now) eqn:El; simpl andb.
    + erewrite run_step in H by (rewrite (token_step r now) by done; by rewrite El). registered H.
    + rewrite run_stuck in H by (rewrite (token_step r now) by done; by rewrite El). exact H.
  - inversion Hc.
Qed.

(** The serial number an enrolment is for. *)
Definition serial_of (rb : option manufacturing_batches_row) : string :=
  match rb with
  | Some b => b_serial_prefix b +:+ "-" +:+ pad_int 6 (wrap64 (b_used_count b + 1))
  | None => serialNumber
  end.

(** What the batch, if any, and the requested serial number forbid. *)
Definition unpayable (rb : option manufacturing_batches_row) (now : Z) : Prop :=
  match rb with
  | Some b => b_status b ≠ "open" ∨ (b_expires_at b ≤ now)%Z ∨ (b_max_devices b ≤ b_used_count b)%Z ∨
              (serialNumber ≠ "" ∧ serialNumber ≠ serial_of rb)
  | None => serialNumber = ""
  end.

(** Why a working node refuses to enrol, at a time from [from] on. *)
Inductive refusal (from : Z) (t : tables) : Prop :=
  | key_missing : devicePublicKey = "" → refusal from t
  | other_identity x :
      x ∈ devices t → d_device_public_key x = devicePublicKey →
      fingerprint ≠ d_ssh_host_key_fingerprint x ∨
      (serialNumber ≠ "" ∧ serialNumber ≠ default "" (d_serial_number x)) → refusal from t
  | unknown_token : no_credit token t → refusal from t
  | not_valid rt rb now :
      (from ≤ now)%Z → credit token t rt rb → token_lives rt now = false ∨ unpayable rb now → refusal from t
  | bad_name rt rb :
      credit token t rt rb → ValidHostName (serial_of rb) = false ∨ ValidSSHUser account = false → refusal from t
  | serial_in_use rt rb :
      credit token t rt rb →
      (∃ x, x ∈ devices t ∧ d_serial_number x = Some (serial_of rb)) ∨ name_taken (serial_of rb) t = true →
      refusal from t.

Lemma payment_ok t rt rb now :
  credit token t rt rb →
  match enrollment_payment (token_of_row <$> rt) (batch_of_row <$> rb) token serialNumber now with
  | Ok (serial, sts) =>
      sts = consume_statements rt rb now ∧ (serialNumber ≠ "" → serial = serialNumber) ∧ serial = serial_of rb ∧
      ∀ b, rb = Some b → b_status b = "open" ∧ (now < b_expires_at b)%Z ∧ (b_used_count b < b_max_devices b)%Z ∧
        serial = b_serial_prefix b +:+ "-" +:+ pad_int 6 (wrap64 (b_used_count b + 1))
  | Err _ => unpayable rb now
  end.
Proof.
  intros Hc. unfold enrollment_payment, consume_statements, unpayable, serial_of. destruct rb as [b|]; simpl.
  - destruct (negb _ || _ || _) eqn:E.
    { rewrite !orb_true_iff, negb_true_iff, bool_decide_eq_false, !Z.leb_le in E. tauto. }
    apply orb_false_iff in E as [[E1 E2]%orb_false_iff E3]. apply negb_false_iff, bool_decide_eq_true in E1.
    apply Z.leb_gt in E2, E3. set (want := _ +:+ _ +:+ _).
    destruct (negb (bool_decide (serialNumber = "")) && negb (bool_decide (serialNumber = want))) eqn:E4.
    { rewrite andb_true_iff, !negb_true_iff, !bool_decide_eq_false in E4. tauto. }
    split_and!; [by destruct rt| |done|by intros b' [= <-]].
    intros Hne. rewrite bool_decide_eq_false_2 in E4 by done. simpl in E4.
    by apply negb_false_iff, bool_decide_eq_true in E4.
  - destruct rt as [r|]; [|by inversion Hc]. simpl. case_bool_decide as Hs; done.
Qed.

Lemma enroll_swp faults seen clock db Q :
  has_tables db → wf (data db) → known_ids (data db) ⊆ seen →
  (∀ e s c, seen ⊆ s → (faults = false → refusal clock (data db)) → Q (Err e) db s c) →
  (∀ x s c, seen ⊆ s → x ∈ devices (data db) → d_device_public_key x = devicePublicKey →
     Q (Ok (device_of_row x)) db s c) →
  (∀ t' d s c, enrolled (data db) t' d → Q (Ok d) (set_data t' db) s c) →
  (∀ t' d e s c, faults = true → enrolled (data db) t' d → Q (Err e) (set_data t' db) s c) →
  swp faults seen clock (EnrollDevice token endpointID serialNumber model fingerprint devicePublicKey sshUser sshPort tags) db Q.
Proof.
  intros Ht W Hseen He Hr Hok Hlost. unfold EnrollDevice. repeat sstep; [apply He; [done|congruence]|].
  destruct (bool_decide (devicePublicKey = "")) eqn:Ek; repeat sstep.
  { apply bool_decide_eq_true in Ek. apply He; [done|]. intros _. by apply key_missing. }
  unfold query_device. sstep; [rewrite bool_decide_eq_false_2 by done; simpl; sstep; apply He; [done|congruence]|].
  destruct (filter _ (devices (data db))) as [|x l] eqn:Ex; cbn [fmap list_fmap].
  2: { rewrite scan_device_row. apply head_filter in Ex as [Hx Hkey%same_true].
       destruct (negb _ || _) eqn:E; sstep; [|by apply Hr]. apply He; [done|]. intros _.
       apply (other_identity _ _ x); [done|done|].
       rewrite orb_true_iff, andb_true_iff, !negb_true_iff, !bool_decide_eq_false in E. exact E. }
  rewrite bool_decide_eq_true_2 by done. cbn [negb]. sstep.
  apply credit_swp; [done|done| | |].
  { intros e Hn. apply He; [done|]. intros Hf. apply unknown_token. auto. }
  { cbn. intros Hn. sstep. apply He; [done|]. intros _. by apply unknown_token. }
  intros rt rb Hc. cbn zeta.
  replace (bool_decide (token_of_row <$> rt = None) && bool_decide (batch_of_row <$> rb = None)) with false
    by (by inversion Hc).
  sstep. match goal with |- swp _ _ _ _ db ?K =>
    assert (HK : ∀ b s c, seen ⊆ s → (clock ≤ c)%Z → (b = true → ∃ r, rt = Some r ∧ token_lives rt c = false) → K b db s c) end.
  2: { destruct rt as [r|]; [simpl; destruct (t_expires_at r) as [e|] eqn:Ee|]; simpl; [sstep; sstep; sstep; apply HK| |];
         [done|lia| |apply swp_ret, (HK false); done..].
       intros El. exists r. split; [done|]. simpl. rewrite Ee. apply Z.leb_le in El. by apply Z.ltb_ge. }
  intros expired s c Hs Hclk Hexp. cbv beta. destruct expired; repeat sstep.
  { destruct (Hexp eq_refl) as (r & _ & El). apply He; [done|]. intros _. apply (not_valid _ _ rt rb c); auto. }
  pose proof (payment_ok (data db) rt rb now Hc) as Hpay.
  destruct (enrollment_payment _ _ _ _ _) as [[serial sts]|e].
  2: { repeat sstep. apply He; [done|]. intros _. apply (not_valid _ _ rt rb now); auto. lia. }
  destruct Hpay as (-> & Hasked & Hserial_of & Hb).
  destruct (ValidHostName serial) eqn:Ev; cbn [negb].
  2: { repeat sstep. apply He; [done|]. intros _. apply (bad_name _ _ rt rb); [done|left; congruence]. }
  assert (Hserial : serial ≠ "") by (by intros ->).
  repeat sstep. rewrite bool_decide_eq_false_2 by done. repeat sstep.
  { rewrite bool_decide_eq_false_2 by done. cbn [negb]. sstep. apply He; [auto with store|congruence]. }
  destruct (filter (λ d, has_serial serial d = true) (devices (data db))) as [|y k] eqn:Ey; cbn [fmap list_fmap].
  2: { unfold scan_row, scanValues. simpl. sstep. apply He; [auto with store|]. intros _. apply head_filter in Ey as [Hy Ey].
       apply (serial_in_use _ _ rt rb); [done|left]. exists y. split; [done|]. rewrite <- Hserial_of. unfold has_serial in Ey.
       destruct (d_serial_number y); [|done]. apply same_true in Ey. congruence. }
  rewrite bool_decide_eq_true_2 by done. cbn [negb]. fold account. fold port.
  destruct (ValidSSHUser account) eqn:Ea; cbn [negb].
  2: { sstep. apply He; [auto with store|]. intros _. apply (bad_name _ _ rt rb); auto. }
  assert (Hids : id ∉ known_ids (data db) ∧ id0 ∉ known_ids (data db)).
  { split; apply (fresh_subset _ _ s); eauto with store; by etrans. }
  destruct Hids as [Hi1 Hi2].
  assert (Hnew : ∀ x, x ∈ devices (data db) → d_device_public_key x ≠ devicePublicKey ∧ d_serial_number x ≠ Some serial).
  { intros x Hx. split; intros E; [apply (none_filter _ _ x Ex Hx); by apply same_true|].
    apply (none_filter _ _ x Ey Hx). unfold has_serial. rewrite E. by apply same_true. }
  assert (Hb' : ∀ b, rb = Some b → b_status b = "open" ∧ (now < b_expires_at b)%Z ∧ (b_used_count b < b_max_devices b)%Z)
    by (intros b E; destruct (Hb b E) as (? & ? & ? & _); done).
  pose proof (enroll_run rt rb id id0 serial now db Ht W Hc Hi1 Hi2 Hnew Hb') as Hrun. cbv zeta in Hrun.
  set (sts := consume_statements rt rb now ++ _) in *.
  assert (Hsts : sts ≠ []) by (unfold sts; by destruct (consume_statements rt rb now)).
  set (t' := with_rows Devices _ _) in Hrun.
  set (d := mkDevice id id0 endpointID fingerprint devicePublicKey "manufactured" serial model now None).
  assert (Hdone : token_lives rt now = true → enrolled (data db) t' d).
  { intros El. exists rt, rb, id, id0, serial, now. split; try done.
    intros r e -> E. simpl in El. rewrite E in El. lia. }
  assert (Hs' : seen ⊆ {[id0]} ∪ ({[id]} ∪ s)) by auto with store.
  assert (Hrej : ∀ e c', token_lives rt now && negb (name_taken serial (data db)) = false →
                 Q (Err e) db ({[id0]} ∪ ({[id]} ∪ s)) c').
  { intros e c' [El|El]%andb_false_iff; apply He; try done; intros _.
    - apply (not_valid _ _ rt rb now); auto. lia.
    - apply (serial_in_use _ _ rt rb); [done|right]. rewrite <- Hserial_of. by apply negb_false_iff in El. }
  sstep. apply swp_transaction; [exact Hsts| |].
  - intros Hf e _. cbn [fst snd]. split; apply swp_ret; [apply He; [done|congruence]|].
    destruct (token_lives rt now) eqn:El; simpl in Hrun, Hrej.
    + destruct (name_taken serial (data db)); simpl in Hrun; [rewrite Hrun; apply He; [done|congruence]|].
      destruct Hrun as (r & ->). apply (Hlost t' d); auto.
    + rewrite Hrun. apply He; [done|congruence].
  - destruct (token_lives rt now) eqn:El; simpl in Hrun, Hrej; [|rewrite Hrun; cbn [fst snd rejected]; repeat sstep; by apply Hrej].
    destruct (name_taken serial (data db)); simpl in Hrun, Hrej; [rewrite Hrun; cbn [fst snd rejected]; repeat sstep; by apply Hrej|].
    destruct Hrun as (r & ->). cbn [fst snd]. repeat sstep. apply (Hok t'). auto.
Qed.

(** An enrolled device is found again. *)
Lemma enrolled_device t t' d :
  enrolled t t' d → ∃ x, x ∈ devices t' ∧ d_device_public_key x = devicePublicKey ∧ device_of_row x = d.
Proof.
  intros (rt & rb & id & host & serial & now & [_ _ _ _ _ _ -> ->]). eexists. split; [|split].
  - simpl. apply elem_of_app. right. apply list_elem_of_singleton. reflexivity.
  - done.
  - done.
Qed.

(** With the key enrolled, whatever the rest, nothing is written. *)
Lemma replay_swp faults seen clock db Q :
  has_tables db → (∃ x, x ∈ devices (data db) ∧ d_device_public_key x = devicePublicKey) →
  (∀ e s c, Q (Err e) db s c) →
  (∀ x s c, x ∈ devices (data db) → d_device_public_key x = devicePublicKey → Q (Ok (device_of_row x)) db s c) →
  swp faults seen clock (EnrollDevice token endpointID serialNumber model fingerprint devicePublicKey sshUser sshPort tags) db Q.
Proof.
  intros Ht (y & Hy & Ey) He Hr. unfold EnrollDevice. repeat sstep; [by apply He|].
  destruct (bool_decide (devicePublicKey = "")) eqn:Ek; repeat sstep; [by apply He|].
  unfold query_device. sstep; [rewrite bool_decide_eq_false_2 by done; simpl; sstep; by apply He|].
  destruct (filter _ (devices (data db))) as [|x l] eqn:Ex; cbn [fmap list_fmap].
  { exfalso. apply (none_filter _ _ y Ex Hy). by apply same_true. }
  rewrite scan_device_row. apply head_filter in Ex as [Hx Hkey%same_true].
  destruct (negb _ || _); sstep; [by apply He|by apply Hr].
Qed.

Lemma enrolled_once_key t t' d x y :
  wf t → (t' = t ∨ enrolled t t' d) → x ∈ devices t' → y ∈ devices t' →
  d_device_public_key x = devicePublicKey → d_device_public_key y = devicePublicKey → x = y.
Proof.
  intros W [->|(rt & rb & id & host & serial & now & E)] Hx Hy Ex Ey.
  - apply (no_clash_eq Devices) with (l := devices t); [apply keys_symmetric|apply W|done|done|].
    simpl. rewrite !orb_true_iff. left. right. apply same_true. congruence.
  - destruct E as [_ _ _ _ _ Hnew _ ->]. simpl in Hx, Hy. apply elem_of_app in Hx as [Hx|Hx], Hy as [Hy|Hy];
      try (by destruct (Hnew x Hx)); try (by destruct (Hnew y Hy)).
    apply list_elem_of_singleton in Hx as ->, Hy as ->. done.
Qed.

(** A returned device is in the table, under the key it was asked with. *)
Definition on_record (t : tables) (r : result Device) : Prop :=
  ∀ d, r = Ok d → ∃ x, x ∈ devices t ∧ d_device_public_key x = devicePublicKey ∧ device_of_row x = d.

Definition once (t0 t : tables) (x : result Device * result Device) : Prop :=
  (t = t0 ∨ ∃ d, enrolled t0 t d) ∧ on_record t (fst x) ∧ on_record t (snd x) ∧
  (∀ d1 d2, fst x = Ok d1 → snd x = Ok d2 → d1 = d2).

Lemma once_intro t0 t d0 r1 r2 :
  wf t0 → (t = t0 ∨ enrolled t0 t d0) → on_record t r1 → on_record t r2 → once t0 t (r1, r2).
Proof.
  intros W Hone H1 H2. split; [destruct Hone as [->|]; eauto|]. split_and!; [done..|]. simpl. intros d1 d2 E1 E2.
  destruct (H1 d1 E1) as (x & Hx & Kx & <-), (H2 d2 E2) as (y & Hy & Ky & <-).
  by rewrite (enrolled_once_key t0 t d0 x y).
Qed.

Lemma on_record_err t e : on_record t (Err e).
Proof. by intros d [=]. Qed.

Lemma on_record_row t x :
  x ∈ devices t → d_device_public_key x = devicePublicKey → on_record t (Ok (device_of_row x)).
Proof. intros Hx Hk d [= <-]. by exists x. Qed.

Lemma on_record_enrolled t t' d : enrolled t t' d → on_record t' (Ok d).
Proof. intros H d' [= <-]. by eapply enrolled_device. Qed.

Definition enroll : prog storeE (result Device) :=
  EnrollDevice token endpointID serialNumber model fingerprint devicePublicKey sshUser sshPort tags.

(** The retry, when the first attempt has left the device enrolled. *)
Lemma retry_swp seen clock t0 db d0 r1 :
  has_tables db → wf t0 → (data db = t0 ∨ enrolled t0 (data db) d0) → on_record (data db) r1 →
  (∃ x, x ∈ devices (data db) ∧ d_device_public_key x = devicePublicKey) →
  swp true seen clock (let! retry := enroll in Ret (r1, retry)) db (λ x d _ _, once t0 (data d) x).
Proof.
  intros Ht W Hone H1 Hk. sstep. apply replay_swp; [done|done| |]; intros; apply swp_ret;
    eapply once_intro; eauto using on_record_err, on_record_row.
Qed.

(** [C21] Enrolment happens once, and is refused only for a reason.  Whatever
    calls of an attempt and of its retry fail, and whichever answers are lost,
    together they enrol the device at most once, paying with the token or one
    serial of an open batch, and all they return is that device or the one
    enrolled before.  On a working node an attempt that returns an error has
    changed nothing, and the key, the identity, the token, the batch, a name or
    the serial number is the reason. *)
Theorem enrolment_happens_once o w :
  faulty o w → wf (data (sw_db w)) →
  outcome o (let! first := enroll in let! retry := enroll in Ret (first, retry)) w
    (λ x t, once (data (sw_db w)) t x) ∧
  (working o → outcome o enroll w (λ r t,
     match r with
     | Ok d => t = data (sw_db w) ∨ enrolled (data (sw_db w)) t d
     | Err _ => t = data (sw_db w) ∧ refusal (o_now o (sw_calls w)) t
     end)).
Proof.
  intros Hw W. pose proof (fl_tables _ _ Hw) as Ht. split.
  - apply outcome_faulty; [done|]. sstep. apply enroll_swp; [done|done|done| | | |].
    + intros e s c Hs _. sstep. apply enroll_swp; [done|done|done| | | |]; intros; apply swp_ret;
        eapply once_intro; eauto using on_record_err, on_record_row, on_record_enrolled.
    + intros x s c Hs Hx Hk. eapply retry_swp; eauto using on_record_row.
    + intros t' d s c H. destruct (enrolled_device _ _ _ H) as (x & Hx & Hk & _).
      eapply retry_swp; eauto using on_record_enrolled.
    + intros t' d e s c _ H. destruct (enrolled_device _ _ _ H) as (x & Hx & Hk & _).
      eapply retry_swp; eauto using on_record_err.
  - intros Hok. apply outcome_swp; [by apply faulty_healthy|]. apply enroll_swp; [done|done|done| | | |]; eauto.
    done.
  Unshelve. all: exact (mkDevice "" "" "" "" "" "" "" "" 0 None).
Qed.

End enrolment.
