(* ===== verification/StoreSnapshotFacts.v ===== *)
(** * Publication and acknowledgement of authorized_keys snapshots *)

From S2P Require Export StoreEnrollFacts.
Open Scope go_scope.

(** ** Publication, on the tables *)

Lemma insert_all_total {A} (T : table A) (new old : list A) :
  symmetric_key T → no_clash T (old ++ new) = true → insert_all T new old = Some (old ++ new).
Proof.
  intros Hs. revert old. induction new as [|r new IH]; intros old H; simpl; [by rewrite app_nil_r|].
  assert (Hr : existsb (clash T r) old = false).
  { apply not_true_iff_false. rewrite existsb_exists. intros (x & Hx & E). revert H. induction old as [|y old IHo]; [done|].
    simpl. intros [Hy Ho]%andb_true_iff. destruct Hx as [->|Hx]; [|by apply IHo].
    apply negb_true_iff, not_true_iff_false in Hy. apply Hy, existsb_exists. exists r. split; [|by rewrite Hs].
    apply in_app_iff. right. by left. }
  rewrite Hr, IH; by rewrite <- app_assoc.
Qed.

Lemma run_inserts {A} (T : table A) (l : list A) t :
  (∀ l1 l2 t, with_rows T l2 (with_rows T l1 t) = with_rows T l2 t) → (∀ l t, rows T (with_rows T l t) = l) →
  (∀ t, with_rows T (rows T t) t = t) →
  run_tables ((λ r, ins T (λ _, [r])) <$> l) t =
    match insert_all T l (rows T t) with
    | Some l' => Some (with_rows T l' t, const 1%Z <$> l) | None => None end.
Proof.
  intros H1 H2 H3. revert t. induction l as [|r l IH]; intros t; [simpl; by rewrite H3|].
  cbn [fmap list_fmap run_tables]. unfold ins at 1. simpl. destruct (existsb (clash T r) (rows T t)); [done|]. simpl.
  rewrite IH, H2. destruct (insert_all T l (rows T t ++ [r])); [|done]. by rewrite H1.
Qed.

Lemma no_clash_NoDup {A} (T : table A) (key : A → string) l :
  (∀ a b, a ∈ l → b ∈ l → clash T a b = true → key a = key b) → NoDup (key <$> l) → no_clash T l = true.
Proof.
  induction l as [|x l IH]; [done|]. intros Hc. csimpl. rewrite NoDup_cons. intros [Hx Hl]. simpl.
  rewrite IH; [|intros; apply Hc; [by apply list_elem_of_further..|done]|done]. rewrite andb_true_r.
  apply negb_true_iff, not_true_iff_false. rewrite existsb_exists. intros (y & Hy%list_elem_of_In & E). apply Hx.
  rewrite (Hc x y); [by apply list_elem_of_fmap_2|apply list_elem_of_here|by apply list_elem_of_further|done].
Qed.

Lemma no_clash_app {A} (T : table A) l1 l2 :
  no_clash T l1 = true → no_clash T l2 = true → (∀ x y, x ∈ l1 → y ∈ l2 → clash T x y = false) →
  no_clash T (l1 ++ l2) = true.
Proof.
  intros H1 H2 Hc. induction l1 as [|x l IH]; [done|]. simpl in *. apply andb_true_iff in H1 as [Hx Hl].
  rewrite IH; [|done|intros; apply Hc; [by apply list_elem_of_further|done]]. rewrite andb_true_r, existsb_app.
  rewrite (proj1 (negb_true_iff _) Hx). simpl. apply negb_true_iff, not_true_iff_false. rewrite existsb_exists.
  intros (y & Hy%list_elem_of_In & E). rewrite Hc in E; [done|apply list_elem_of_here|done].
Qed.

Section account.
Context (hostID sshUser : string).

Lemma account_rows_fit grants t :
  no_clash SnapshotGrants (authorized_keys_snapshot_grants t) = true → NoDup grants →
  no_clash SnapshotGrants (filter (λ m, of_account hostID sshUser m = false) (authorized_keys_snapshot_grants t) ++
                           (SnapshotGrantRow hostID sshUser <$> grants)) = true.
Proof.
  intros W Hd. apply no_clash_app.
  - by apply no_clash_filter.
  - apply (no_clash_NoDup _ m_grant_id).
    + by intros a b _ _ [_ E%same_true]%andb_true_iff.
    + rewrite <- list_fmap_compose. by rewrite (list_fmap_ext _ id), list_fmap_id by done.
  - intros x y Hx Hy. apply elem_filter_false in Hx as [Hx _]. apply list_elem_of_fmap in Hy as (g & -> & _).
    unfold of_account in Hx. simpl. by rewrite Hx.
Qed.

(** What the statements of a publication do. *)
Lemma publish_tables digest grants db :
  has_tables db → wf (data db) → NoDup (snapshot_marker grants :: grants) →
  ∃ r, execute_db (publish_statements hostID sshUser digest grants) db =
    ((r, None), set_data (with_snapshot hostID sshUser digest grants (data db)) db).
Proof.
  intros Ht W Hd. set (row := SnapshotGrantRow hostID sshUser).
  set (put := ups Snapshots (const true) (SnapshotRow hostID sshUser 1 digest) (λ t old excluded,
       SnapshotRow (n_host_id old) (n_ssh_user old)
         (if is_not (n_digest old) (n_digest excluded) ||
             negb (existsb (λ m, of_account hostID sshUser m && same (m_grant_id m) (snapshot_marker grants))
                     (authorized_keys_snapshot_grants t))
          then (n_generation old + 1)%Z else n_generation old)
         (n_digest excluded))).
  set (drop := del SnapshotGrants (λ _ m, of_account hostID sshUser m)).
  set (fs := put :: drop :: ((λ r, ins SnapshotGrants (λ _, [r])) <$> (row <$> (snapshot_marker grants :: grants)))).
  assert (Hf : Forall2 acts (publish_statements hostID sshUser digest grants) fs).
  { constructor; [apply acts_upsert, names_in_schema; reflexivity|].
    constructor; [apply acts_delete, names_in_schema; reflexivity|].
    unfold publish_statements. simpl tl.
    change (insert_snapshot_grant hostID sshUser (snapshot_marker grants) :: (insert_snapshot_grant hostID sshUser <$> grants))
      with (insert_snapshot_grant hostID sshUser <$> (snapshot_marker grants :: grants)).
    rewrite <- list_fmap_compose. apply Forall2_fmap, Forall_Forall2_diag, Forall_true. intros g.
    apply acts_insert, names_in_schema. reflexivity. }
  pose proof (execute_db_acts _ _ db Ht Hf) as H. unfold fs in H.
  rewrite (run_step _ _ _ (with_rows Snapshots (published hostID sshUser digest (snapshot_marker grants) (data db)) (data db)) 1%Z) in H.
  2: { unfold put, ups, published. simpl. by destruct (existsb _ (authorized_keys_snapshots (data db))). }
  erewrite run_step in H by reflexivity.
  rewrite run_inserts in H by (by intros ? ? [] || by intros ? [] || by intros []).
  rewrite insert_all_total in H; [|apply keys_symmetric|].
  2: { apply (account_rows_fit (snapshot_marker grants :: grants) (data db)); [apply W|done]. }
  destruct H as (r & H & _). exists r. exact H.
Qed.

(** ** The generation of an account's snapshot *)

Definition current (t : tables) : option authorized_keys_snapshots_row :=
  head (filter (λ n, n_host_id n = hostID ∧ n_ssh_user n = sshUser) (authorized_keys_snapshots t)).

Definition marked (marker : string) (t : tables) : bool :=
  existsb (λ m, of_account hostID sshUser m && same (m_grant_id m) marker) (authorized_keys_snapshot_grants t).

(** The generation a publication gets. *)
Definition next_generation (digest : string) (grants : list string) (t : tables) : Z :=
  match current t with
  | None => 1
  | Some n => if same (n_digest n) digest && marked (snapshot_marker grants) t
              then n_generation n else n_generation n + 1
  end.

Lemma none_selected {A} (l : list A) : (∀ y, y ∈ l → False) → l = [].
Proof. intros H. apply elem_of_nil_inv. intros y Hy. by apply (H y). Qed.

Lemma current_account t n : current t = Some n →
  n ∈ authorized_keys_snapshots t ∧ n_host_id n = hostID ∧ n_ssh_user n = sshUser.
Proof.
  unfold current. destruct (filter _ _) as [|x l] eqn:E; [done|]. intros [= ->].
  by apply head_filter in E as [? []].
Qed.

Lemma account_clash gen digest n :
  clash Snapshots (SnapshotRow hostID sshUser gen digest) n = bool_decide (n_host_id n = hostID ∧ n_ssh_user n = sshUser).
Proof.
  simpl. apply eq_bool_prop_intro. rewrite andb_True, !bool_decide_spec. unfold same. rewrite !bool_decide_spec. naive_solver.
Qed.

Lemma moved_alone digest marker t (l : list authorized_keys_snapshots_row) :
  no_clash Snapshots l = true →
  let mine := head (filter (λ n, n_host_id n = hostID ∧ n_ssh_user n = sshUser) l) in
  let here := clash Snapshots (SnapshotRow hostID sshUser 1 digest) in
  existsb here l = bool_decide (is_Some mine) ∧
  filter (λ n, n_host_id n = hostID ∧ n_ssh_user n = sshUser)
    ((λ old, if here old then moved_snapshot hostID sshUser digest marker t old else old) <$> l) =
  match mine with Some n => [moved_snapshot hostID sshUser digest marker t n] | None => [] end.
Proof.
  intros Hk mine here. unfold mine, here. clear mine here. induction l as [|n l IH]; [done|].
  simpl in Hk. apply andb_true_iff in Hk as [Hn Hl]. destruct (IH Hl) as [IH1 IH2].
  cbn [existsb fmap list_fmap]. rewrite !filter_cons. rewrite account_clash.
  destruct (decide (n_host_id n = hostID ∧ n_ssh_user n = sshUser)) as [Hacc|Hacc].
  - rewrite bool_decide_eq_true_2 by done. simpl. split; [done|].
    rewrite decide_True by done. f_equal.
    rewrite (none_selected (filter _ l)) in IH2; [exact IH2|].
    intros y Hy. rewrite list_elem_of_filter in Hy. destruct Hy as [[E1 E2] Hy].
    apply negb_true_iff, not_true_iff_false in Hn. apply Hn, existsb_exists. exists y.
    split; [by apply list_elem_of_In|]. destruct Hacc as [<- <-].
    apply andb_true_iff. split; by apply same_true.
  - rewrite bool_decide_eq_false_2 by done. simpl. rewrite decide_False by done. auto.
Qed.

Lemma published_row digest grants t :
  no_clash Snapshots (authorized_keys_snapshots t) = true →
  filter (λ n, n_host_id n = hostID ∧ n_ssh_user n = sshUser)
    (published hostID sshUser digest (snapshot_marker grants) t) =
  [SnapshotRow hostID sshUser (next_generation digest grants t) digest].
Proof.
  intros Hk. unfold published, next_generation.
  destruct (moved_alone digest (snapshot_marker grants) t _ Hk) as [E1 E2]. rewrite E1.
  fold (current t) in E2 |- *. destruct (current t) as [n|] eqn:Ec.
  - cbn [bool_decide]. rewrite bool_decide_eq_true_2 by done. rewrite E2. f_equal. apply current_account in Ec as (_ & E3 & E4).
    unfold moved_snapshot, is_not, marked. rewrite E3, E4. f_equal.
    change (same (n_digest n) digest) with (bool_decide (n_digest n = digest)).
    by destruct (bool_decide (n_digest n = digest)), (existsb _ (authorized_keys_snapshot_grants t)).
  - rewrite bool_decide_eq_false_2 by (by intros []).
    rewrite filter_app. rewrite filter_cons_True by done. rewrite filter_nil.
    rewrite (none_selected (filter _ (authorized_keys_snapshots t))); [done|].
    intros y Hy. rewrite list_elem_of_filter in Hy. destruct Hy as [H1 Hy].
    unfold current in Ec. destruct (filter _ _) eqn:Ef; [|done]. apply (none_filter _ _ y Ef Hy). done.
Qed.

Lemma published_current digest grants t :
  no_clash Snapshots (authorized_keys_snapshots t) = true →
  filter (λ n, n_host_id n = hostID ∧ n_ssh_user n = sshUser ∧ n_digest n = digest)
    (published hostID sshUser digest (snapshot_marker grants) t) =
  [SnapshotRow hostID sshUser (next_generation digest grants t) digest].
Proof.
  intros Hk. rewrite (list_filter_iff _ (λ n, n_digest n = digest ∧ (n_host_id n = hostID ∧ n_ssh_user n = sshUser)))
    by tauto.
  rewrite <- list_filter_filter, published_row by done. rewrite filter_cons_True by done. by rewrite filter_nil.
Qed.

Lemma generation_swp seen clock digest grants db Q :
  has_tables db → wf (data db) → NoDup (snapshot_marker grants :: grants) →
  Q (Ok (next_generation digest grants (data db))) (set_data (with_snapshot hostID sshUser digest grants (data db)) db)
    seen clock →
  swp false seen clock (publishAuthorizedKeysGeneration hostID sshUser digest grants) db Q.
Proof.
  intros Ht W Hd HQ. unfold publishAuthorizedKeysGeneration. repeat sstep.
  destruct (publish_tables digest grants db Ht W Hd) as (r & ->). repeat sstep.
  change (authorized_keys_snapshots (data (set_data (with_snapshot hostID sshUser digest grants (data db)) db)))
    with (published hostID sshUser digest (snapshot_marker grants) (data db)).
  rewrite published_current by apply W. exact HQ.
Qed.

Lemma published_again digest grants t :
  no_clash Snapshots (authorized_keys_snapshots t) = true →
  with_snapshot hostID sshUser digest grants (with_snapshot hostID sshUser digest grants t) =
    with_snapshot hostID sshUser digest grants t ∧
  next_generation digest grants (with_snapshot hostID sshUser digest grants t) = next_generation digest grants t.
Proof.
  intros Hk. pose proof (published_row digest grants t Hk) as Hrow.
  set (g := next_generation digest grants t) in *. set (t1 := with_snapshot hostID sshUser digest grants t).
  assert (Hcur : current t1 = Some (SnapshotRow hostID sshUser g digest)).
  { unfold current. change (authorized_keys_snapshots t1) with (published hostID sshUser digest (snapshot_marker grants) t).
    by rewrite Hrow. }
  assert (Hmark : marked (snapshot_marker grants) t1 = true).
  { unfold marked. apply existsb_exists. exists (SnapshotGrantRow hostID sshUser (snapshot_marker grants)). split.
    - apply list_elem_of_In. simpl. apply elem_of_app. right. apply list_elem_of_here.
    - rewrite andb_true_iff, of_account_true, same_true. done. }
  assert (Hg : next_generation digest grants t1 = g).
  { unfold next_generation. rewrite Hcur, Hmark. simpl. by rewrite (proj2 (same_true _ _) eq_refl). }
  split; [|exact Hg]. unfold with_snapshot at 1.
  assert (Hp : published hostID sshUser digest (snapshot_marker grants) t1 =
               published hostID sshUser digest (snapshot_marker grants) t).
  { assert (Hall : ∀ n, n ∈ published hostID sshUser digest (snapshot_marker grants) t →
      clash Snapshots (SnapshotRow hostID sshUser 1 digest) n = true → n = SnapshotRow hostID sshUser g digest).
    { intros n Hn Hc. rewrite account_clash, bool_decide_eq_true in Hc.
      assert (Hf : n ∈ filter (λ n, n_host_id n = hostID ∧ n_ssh_user n = sshUser)
                         (published hostID sshUser digest (snapshot_marker grants) t)) by (by rewrite list_elem_of_filter).
      rewrite Hrow in Hf. by apply list_elem_of_singleton in Hf. }
    unfold published at 1. change (authorized_keys_snapshots t1) with (published hostID sshUser digest (snapshot_marker grants) t).
    replace (existsb _ _) with true.
    - rewrite (list_fmap_ext _ id), list_fmap_id; [done|]. intros _ n Hn%list_elem_of_lookup_2.
      destruct (clash Snapshots (SnapshotRow hostID sshUser 1 digest) n) eqn:Ec; [|done]. rewrite (Hall n Hn Ec).
      unfold moved_snapshot. simpl. f_equal. change (existsb _ _) with (marked (snapshot_marker grants) t1).
      rewrite Hmark. unfold is_not. by rewrite bool_decide_eq_true_2.
    - symmetry. apply existsb_exists. exists (SnapshotRow hostID sshUser g digest).
      split; [|rewrite account_clash; by apply bool_decide_eq_true].
      apply list_elem_of_In. eapply proj2. rewrite <- list_elem_of_filter, Hrow. apply list_elem_of_here. }
  rewrite Hp. unfold t1, with_snapshot. simpl. f_equal.
  change (SnapshotGrantRow hostID sshUser (snapshot_marker grants) :: list_fmap string authorized_keys_snapshot_grants_row
          (SnapshotGrantRow hostID sshUser) grants) with (SnapshotGrantRow hostID sshUser <$> (snapshot_marker grants :: grants)).
  rewrite filter_app. rewrite (none_selected (filter _ (_ <$> _))), app_nil_r.
  - f_equal. rewrite list_filter_filter_l; [done|tauto].
  - intros y Hy. apply elem_filter_false in Hy as [Hy (x & -> & _)%list_elem_of_fmap].
    apply of_account_false in Hy. by apply Hy.
Qed.

Lemma wf_with_snapshot digest grants t :
  wf t → NoDup (snapshot_marker grants :: grants) → wf (with_snapshot hostID sshUser digest grants t).
Proof.
  intros W Hd. apply (rel_with_snapshot None); [|done].
  apply (account_rows_fit (snapshot_marker grants :: grants) t); [apply W|done].
Qed.

(** Publishing the same keys and grants again is idempotent: the second
    publication returns the generation of the first and leaves the tables as
    the first left them, and the account has that one snapshot. *)
Theorem publication_is_stable o w digest grants :
  healthy o w → wf (data (sw_db w)) → NoDup (snapshot_marker grants :: grants) →
  outcome o (let! a := AuthorizedKeysGeneration hostID sshUser digest grants in
             let! b := AuthorizedKeysGeneration hostID sshUser digest grants in Ret (a, b)) w (λ x t,
    let g := next_generation digest grants (data (sw_db w)) in
    x = (Ok g, Ok g) ∧ t = with_snapshot hostID sshUser digest grants (data (sw_db w)) ∧
    current t = Some (SnapshotRow hostID sshUser g digest)).
Proof.
  intros Hw W Hd. pose proof (hl_tables _ _ Hw) as Ht. apply outcome_swp; [done|]. unfold AuthorizedKeysGeneration.
  repeat sstep. apply generation_swp; [done..|]. repeat sstep.
  pose proof (proj1 (wf_snapshots _ W)) as Hk. destruct (published_again digest grants _ Hk) as [E1 E2].
  apply generation_swp; [done|by apply wf_with_snapshot|done|]. repeat sstep. simpl. rewrite E1, E2.
  split_and!; [done|done|]. unfold current.
  change (authorized_keys_snapshots (with_snapshot hostID sshUser digest grants (data (sw_db w)))) with
    (published hostID sshUser digest (snapshot_marker grants) (data (sw_db w))). by rewrite published_row.
Qed.

(** ** Reading the live keys and grants *)

Definition entries_at (now : Z) (t : tables) : list AuthorizedKeyEntry :=
  (λ r, mkEntry r.1 r.2) <$> group_max (key_rows hostID sshUser now t).

Lemma scan_entries (l : list (string * Z)) :
  scan_rows [TString; TInt] read_entry ((λ r, [VText r.1; VInt r.2]) <$> l) = Ok ((λ r, mkEntry r.1 r.2) <$> l).
Proof. induction l as [|r l IH]; [done|]. csimpl. by rewrite IH. Qed.

Lemma scan_texts (l : list string) :
  scan_rows [TString] (λ gs, to_text (hd GNil gs)) ((λ g, [VText g]) <$> l) = Ok l.
Proof. induction l as [|r l IH]; [done|]. csimpl. by rewrite IH. Qed.

Lemma unseen_NoDup seen l : NoDup l → (∀ g, g ∈ l → g ∉ seen) → unseen seen l = l.
Proof.
  revert seen. induction l as [|g l IH]; intros seen; [done|]. rewrite NoDup_cons. intros [Hg Hl] Hs. simpl.
  rewrite bool_decide_eq_false_2 by (apply Hs, list_elem_of_here). f_equal. apply IH; [done|].
  intros x Hx. rewrite not_elem_of_cons. split; [intros ->; done|apply Hs; by apply list_elem_of_further].
Qed.

Lemma grant_rows_NoDup now t : NoDup (grant_rows hostID sshUser now t).
Proof.
  unfold grant_rows, order_by. rewrite merge_sort_Permutation. apply NoDup_remove_dups.
Qed.

Lemma grant_rows_spec now t id :
  id ∈ grant_rows hostID sshUser now t ↔
  ∃ g, g ∈ access_grants t ∧ g_id g = id ∧ live_grant hostID sshUser now g = true ∧ host_available hostID t = true.
Proof.
  unfold grant_rows. rewrite order_by_elem, elem_of_remove_dups, list_elem_of_bind.
  setoid_rewrite joined_elem. setoid_rewrite list_elem_of_filter. split.
  - intros (g & [-> Ha] & Hl & Hg). exists g. by rewrite <- (live_grant_host _ _ _ _ Hl) at 2.
  - intros (g & Hg & <- & Hl & Ha). exists g. by rewrite (live_grant_host _ _ _ _ Hl).
Qed.

Lemma snapshot_swp seen clock db Q :
  has_tables db →
  (∀ now1 now2, (clock ≤ now1 ≤ now2)%Z →
     Q (Ok (entries_at now1 (data db), grant_rows hostID sshUser now2 (data db))) db seen now2) →
  swp false seen clock (authorizedKeysSnapshotForHost hostID sshUser) db Q.
Proof.
  intros Ht HQ. unfold authorizedKeysSnapshotForHost. repeat sstep. rewrite scan_entries. repeat sstep.
  rewrite scan_texts. repeat sstep. rewrite unseen_NoDup; [apply HQ; lia|apply grant_rows_NoDup|].
  intros g _. apply not_elem_of_nil.
Qed.

(** ** Acknowledgement *)

Definition install (g : access_grants_row) : access_grants_row :=
  AccessGrantRow (g_id g) (g_request_id g) (g_user_id g) (g_host_id g) (g_ssh_user g) (g_expires_at g)
    (g_ephemeral_key g) 1 (g_created_at g).

Definition has_key (user : string) (t : tables) : bool := existsb (λ k, same (k_user_id k) user) (ssh_keys t).

(** The grants of the account's list that are still live and have a key. *)
Definition to_install (now : Z) (t : tables) (g : access_grants_row) : bool :=
  existsb (λ m, of_account hostID sshUser m && same (m_grant_id m) (g_id g)) (authorized_keys_snapshot_grants t) &&
  live_grant hostID sshUser now g && has_key (g_user_id g) t.

Definition acknowledged (now : Z) (t : tables) : tables :=
  with_rows AccessGrants ((λ g, if to_install now t g then install g else g) <$> access_grants t) t.

Definition is_current (generation : Z) (digest : string) (t : tables) : bool :=
  existsb (current_snapshot hostID sshUser generation digest) (authorized_keys_snapshots t).

Lemma current_is_marked generation digest t n :
  wf t → n ∈ authorized_keys_snapshots t →
  current_snapshot hostID sshUser generation digest n &&
  existsb (λ m, of_account hostID sshUser m && like_prefix "snapshot:" (m_grant_id m)) (authorized_keys_snapshot_grants t) =
  current_snapshot hostID sshUser generation digest n.
Proof.
  intros W Hn. destruct (current_snapshot hostID sshUser generation digest n) eqn:E; [simpl|done].
  destruct (wf_marker _ W n Hn) as (m & Hm & E1 & E2 & E3). apply existsb_exists. exists m.
  split; [by apply list_elem_of_In|]. apply andb_true_iff. split; [|done]. apply of_account_true.
  unfold current_snapshot in E. rewrite !andb_true_iff, !same_true in E. split; [rewrite E1|rewrite E2]; tauto.
Qed.

Lemma count_ext_in {A} (p q : A → bool) l : (∀ x, x ∈ l → p x = q x) → count p l = count q l.
Proof.
  unfold count. induction l as [|x l IH]; intros H; [done|]. rewrite !filter_cons, (H x) by apply list_elem_of_here.
  assert (E : Z.of_nat (length (filter (λ r, p r = true) l)) = Z.of_nat (length (filter (λ r, q r = true) l))).
  { apply IH. intros y Hy. apply H. by apply list_elem_of_further. }
  destruct (decide (q x = true)); [|exact E]. csimpl. lia.
Qed.

Lemma acknowledge_run generation digest now db :
  has_tables db → wf (data db) →
  ∃ r, execute_db (acknowledge_statements hostID sshUser generation digest now) db =
    ((r, None), if is_current generation digest (data db) then set_data (acknowledged now (data db)) db else db) ∧
    (RowsAffected r <? 1)%Z = negb (is_current generation digest (data db)).
Proof.
  intros Ht W. transact (acknowledge_statements hostID sshUser generation digest now) db as H.
  fold install in H.
  erewrite run_step in H by (apply (upd_same_keys Snapshots); [apply W|intros; by repeat case_match]).
  rewrite map_same in H.
  replace (with_rows Snapshots (rows Snapshots (data db)) (data db)) with (data db) in H by (by destruct (data db)).
  erewrite run_step in H by (apply (upd_same_keys AccessGrants); [apply W|intros; by repeat case_match]).
  simpl run_tables in H. destruct H as (r & H & Hr). exists r. rewrite H, Hr.
  clear H Hr. cbn [rows Snapshots AccessGrants StoreRuns.total foldr].
  rewrite (count_ext_in _ (current_snapshot hostID sshUser generation digest)) by (intros; by apply current_is_marked).
  rewrite (count_once Snapshots) by (try apply W; intros a b; unfold current_snapshot; rewrite !andb_true_iff, !same_true;
    simpl; rewrite andb_true_iff, !same_true; naive_solver).
  unfold is_current, acknowledged, to_install, has_key. destruct (existsb (current_snapshot _ _ _ _) _).
  - split; [|apply Z.ltb_ge; unfold count; lia]. do 2 f_equal. simpl. f_equal. apply list_fmap_ext.
    intros _ g _. by rewrite andb_true_r.
  - rewrite (count_ext _ (λ _, false)), count_false by (intros; apply andb_false_r). split; [|done].
    f_equal. cbn [rows AccessGrants]. rewrite (list_fmap_ext _ id), list_fmap_id by (intros; by rewrite andb_false_r).
    by destruct db as [? ? ? []].
Qed.

Lemma current_here digest grants t :
  no_clash Snapshots (authorized_keys_snapshots t) = true →
  is_current (next_generation digest grants t) digest (with_snapshot hostID sshUser digest grants t) = true.
Proof.
  intros Hk. apply existsb_exists. exists (SnapshotRow hostID sshUser (next_generation digest grants t) digest). split.
  - apply list_elem_of_In. eapply proj2. rewrite <- list_elem_of_filter.
    change (authorized_keys_snapshots _) with (published hostID sshUser digest (snapshot_marker grants) t).
    rewrite published_row by done. apply list_elem_of_here.
  - unfold current_snapshot. simpl. by rewrite !(proj2 (same_true _ _) eq_refl), Z.eqb_refl.
Qed.

Lemma next_generation_positive digest grants t : wf t → (1 ≤ next_generation digest grants t)%Z.
Proof.
  intros W. unfold next_generation. destruct (current t) as [n|] eqn:E; [|lia].
  apply current_account in E as [Hn _]. pose proof (wf_snapshots _ W) as [_ Hs]. rewrite Forall_forall in Hs.
  pose proof (Hs n Hn) as H. unfold snapshot_ok in H. case_match; lia.
Qed.

Lemma render_bounded entries body :
  renderAuthorizedKeysBody entries = Ok body → (Z.of_nat (String.length body) ≤ MaxAuthorizedKeysBodyBytes)%Z.
Proof.
  unfold renderAuthorizedKeysBody. cbv zeta. destruct (MaxAuthorizedKeysBodyBytes <? _)%Z eqn:E; [done|].
  intros [= <-]. by apply Z.ltb_ge in E.
Qed.

(** The account's list, after a publication. *)
Lemma listed_by digest grants t id :
  id ≠ snapshot_marker grants →
  existsb (λ m, of_account hostID sshUser m && same (m_grant_id m) id)
    (authorized_keys_snapshot_grants (with_snapshot hostID sshUser digest grants t)) = bool_decide (id ∈ grants).
Proof.
  intros Hm. unfold with_snapshot.
  change (authorized_keys_snapshot_grants _) with (filter (λ m, of_account hostID sshUser m = false) (authorized_keys_snapshot_grants t) ++
    (SnapshotGrantRow hostID sshUser <$> (snapshot_marker grants :: grants))).
  rewrite existsb_app. apply eq_bool_prop_intro. rewrite orb_True, bool_decide_spec.
  rewrite !Is_true_true, !existsb_exists. split.
  - intros [(m & Hin%list_elem_of_In & E)|(m & Hin%list_elem_of_In & E)]; apply andb_true_iff in E as [E1 E2%same_true].
    + apply elem_filter_false in Hin as [E _]. congruence.
    + apply list_elem_of_fmap in Hin as (g & -> & [->|Hg]%elem_of_cons); [by rewrite <- E2 in Hm|]. by rewrite <- E2.
  - intros Hg. right. exists (SnapshotGrantRow hostID sshUser id). split.
    + apply list_elem_of_In, list_elem_of_fmap_2. by apply list_elem_of_further.
    + apply andb_true_iff. split; [by apply of_account_true|by apply same_true].
Qed.

(** [C34] Publishing a snapshot and acknowledging it.  The body is what the live
    keys of the account render to and is within its byte budget (if they do
    not fit, publication fails and nothing changes); acknowledging its digest
    and generation succeeds and marks as installed exactly the grants that were
    listed, are still live and whose user has a key: no other grant changes. *)
Theorem acknowledgement_installs_what_was_published o w :
  healthy o w → wf (data (sw_db w)) →
  Forall (λ g, like_prefix "snapshot:" (g_id g) = false) (access_grants (data (sw_db w))) →
  outcome o (s ←? PublishAuthorizedKeysSnapshot hostID sshUser;
             let '(body, digest, generation) := s in
             let! e := AcknowledgeAuthorizedKeys hostID sshUser generation digest in Ret (Ok (body, generation, e))) w
    (λ x t', let t := data (sw_db w) in ∃ now1 now2 now3, (o_now o (sw_calls w) ≤ now1 ≤ now2)%Z ∧ (now2 ≤ now3)%Z ∧
      match renderAuthorizedKeysBody (entries_at now1 t) with
      | Err e => x = Err e ∧ t' = t
      | Ok body =>
        let grants := grant_rows hostID sshUser now2 t in
        let digest := hex_encode (Sum256 body) in
        x = Ok (body, next_generation digest grants t, None) ∧
        (Z.of_nat (String.length body) ≤ MaxAuthorizedKeysBodyBytes)%Z ∧
        access_grants t' =
          (λ g, if bool_decide (g_id g ∈ grants) && live_grant hostID sshUser now3 g && has_key (g_user_id g) t
                then install g else g) <$> access_grants t
      end).
Proof.
  intros Hw W Hm. pose proof (hl_tables _ _ Hw) as Ht. apply outcome_swp; [done|].
  unfold PublishAuthorizedKeysSnapshot. repeat sstep. apply snapshot_swp; [done|].
  intros now1 now2 Hnow. cbn [fst snd]. destruct (renderAuthorizedKeysBody _) as [body|e] eqn:Hr.
  2: { repeat sstep. exists now1, now2, now2. rewrite Hr. repeat split; auto with lia. }
  set (t := data (sw_db w)) in *. set (grants := grant_rows hostID sshUser now2 t).
  set (digest := hex_encode (Sum256 body)).
  assert (Hd : NoDup (snapshot_marker grants :: grants)).
  { apply NoDup_cons. split; [|apply grant_rows_NoDup]. intros (g & Hg & E & _)%grant_rows_spec.
    rewrite Forall_forall in Hm. specialize (Hm g Hg).
    pose proof (marker_is_marker grants "" "") as E'. unfold is_marker in E'. simpl in E'. congruence. }
  repeat sstep. apply generation_swp; [done..|]. fold t. repeat sstep.
  unfold AcknowledgeAuthorizedKeys. repeat sstep.
  pose proof (next_generation_positive digest grants t W) as Hg.
  replace ((next_generation digest grants t <? 1)%Z) with false by (symmetry; by apply Z.ltb_ge).
  rewrite (length_hashSecret body : String.length digest = 64). simpl. repeat sstep.
  match goal with H : (now2 <= ?n)%Z |- _ => rename n into now3, H into Hnow3 end.
  set (db1 := set_data _ (sw_db w)).
  destruct (acknowledge_run (next_generation digest grants t) digest now3 db1) as (r & -> & E);
    [done|by apply wf_with_snapshot|].
  change (data db1) with (with_snapshot hostID sshUser digest grants t) in *.
  rewrite current_here in E |- * by apply W. repeat sstep. rewrite E. repeat sstep.
  exists now1, now2, now3. rewrite Hr. split_and!; [lia..|done|by eapply render_bounded|].
  simpl. apply list_fmap_ext. intros _ g Hin%list_elem_of_lookup_2. unfold to_install.
  rewrite listed_by; [done|]. intros E'. rewrite Forall_forall in Hm. specialize (Hm g Hin).
  pose proof (marker_is_marker grants "" "") as E2. unfold is_marker in E2. simpl in E2. congruence.
Qed.

End account.
