(* ===== verification/AuthFacts.v ===== *)
(** * What a session cookie proves, and what the middleware lets through *)

From S2P Require Export Auth CorePolicy CoreCommands.
Open Scope go_scope.

(** ** Sessions are read back *)

Definition valid_slice (s : slice) : Prop :=
  match s with None => True | Some (l, rest) => valid_list l ∧ rest = [] end.

Definition valid_claims (c : AuthClaims) : Prop :=
  ValidString (User_Issuer c) = true ∧ ValidString (User_Subject c) = true ∧ valid_slice (User_Groups c) ∧
  match User_CustomClaims c with
  | None => True
  | Some m => m ≠ ∅ ∧ map_Forall (λ k s, ValidString k = true ∧ valid_slice s) m
  end.

(** What the program signs: valid UTF-8, and no map that is empty. *)
Definition valid_session (d : SessionData) : Prop :=
  valid_claims (Session_User d) ∧ ValidString (Session_CSRFToken d) = true ∧ in_int64 (Session_ExpiresAt d).

Lemma decode_slice_json s : valid_slice s → decode_slice None (json_of_list (elements s)) = Some s.
Proof.
  destruct s as [[[|x l] rest]|]; simpl; [by intros [_ ->]| |done]. intros [_ ->]. by rewrite decode_elements_strings.
Qed.

Lemma printable_list d l : valid_list l → (d < max_depth)%N → printable d (json_of_list (Some l)).
Proof. intros Hl Hd. simpl. split; [done|]. by induction Hl. Qed.

Lemma printable_slice d s : valid_slice s → (d < max_depth)%N → printable d (json_of_list (elements s)).
Proof. destruct s as [[l rest]|]; [|done]. intros [Hl _]. by apply printable_list. Qed.

(** The slice a JSON array of strings decodes to. *)
Definition slice_of_json (j : json) : slice := default None (decode_slice None j).

Lemma decode_custom m :
  map_Forall (λ k s, ValidString k = true ∧ valid_slice s) m →
  decode_map None decode_slice None (json_of_custom m) = Some (Some m).
Proof.
  intros Hm. unfold decode_map, json_of_custom. set (g := λ s, json_of_list (elements s)).
  set (l := prod_map id g <$> map_to_list m).
  assert (Hval : ∀ kv, kv ∈ sort_keys l → ∃ s, kv.2 = g s ∧ valid_slice s).
  { intros kv Hkv. rewrite sort_keys_perm in Hkv. apply list_elem_of_fmap in Hkv as ([k s] & -> & Hks).
    apply elem_of_map_to_list in Hks. exists s. split; [done|]. apply (Hm _ _ Hks). }
  rewrite (decode_entries_all _ _ slice_of_json); simpl.
  - rewrite map_union_empty. do 2 f_equal. rewrite <- (list_to_map_to_list m).
    replace (map_to_list m) with (prod_map id slice_of_json <$> l).
    + apply list_to_map_proper; [|by rewrite sort_keys_perm]. rewrite keys_prod_map, sort_keys_perm.
      unfold l. rewrite keys_prod_map. apply NoDup_fst_map_to_list.
    + unfold l. rewrite <- list_fmap_compose. rewrite <- (list_fmap_id (map_to_list m)) at 2.
      apply list_fmap_ext. intros i [k s] Hi. simpl. unfold slice_of_json, g. rewrite decode_slice_json; [done|].
      apply list_elem_of_lookup_2, elem_of_map_to_list in Hi. apply (Hm _ _ Hi).
  - intros kv Hkv. destruct (Hval kv Hkv) as (s & -> & Hs). unfold slice_of_json, g. by rewrite decode_slice_json.
  - rewrite sort_keys_perm. unfold l. rewrite keys_prod_map. apply NoDup_fst_map_to_list.
Qed.

Lemma printable_custom d m :
  map_Forall (λ k s, ValidString k = true ∧ valid_slice s) m → (d + 1 < max_depth)%N → printable d (json_of_custom m).
Proof.
  intros Hm Hd. apply printable_members_intro; [|lia]. rewrite sort_keys_perm. apply Forall_fmap, Forall_forall.
  intros [k s] Hks. apply elem_of_map_to_list in Hks. destruct (Hm _ _ Hks). split; [done|]. by apply printable_slice.
Qed.

Lemma printable_claims d c : valid_claims c → (d + 2 < max_depth)%N → printable d (json_of_claims c).
Proof.
  intros (Hi & Hs & Hg & Hc) Hd. apply printable_members_intro; [|lia]. apply Forall_app; split; [|apply Forall_app; split].
  - case_bool_decide; members. by split.
  - members; (split; [done|]); [done|]. apply printable_slice; [done|lia].
  - destruct (User_CustomClaims c) as [m|]; simpl; [|by rewrite bool_decide_eq_true_2]. destruct Hc as [Hne Hm].
    rewrite bool_decide_eq_false_2 by done. members. split; [done|]. apply printable_custom; [done|lia].
Qed.

Lemma decode_claims c : valid_claims c → decode_struct claims_fields zero_claims (json_of_claims c) = Some c.
Proof.
  intros (_ & _ & Hg & Hc). destruct c as [iss sub groups custom]. unfold json_of_claims. simpl in *.
  unfold decode_struct. rewrite !decode_members_app.
  assert (Hiss : decode_members claims_fields zero_claims (if bool_decide (iss = "") then [] else [("iss", JStr iss)]) =
                 Some (mkAuthClaims iss "" None None)).
  { case_bool_decide as E; [by rewrite E|]. cbn [decode_members].
    by erewrite decode_member_at by reflexivity. }
  rewrite Hiss. cbn [decode_members app mbind option_bind].
  erewrite decode_member_at by reflexivity. cbn [mbind option_bind].
  erewrite decode_member_at by (reflexivity || by apply decode_slice_json). cbn [mbind option_bind].
  destruct custom as [m|]; cbn [default]; [|by rewrite bool_decide_eq_true_2]. destruct Hc as [Hne Hm].
  rewrite bool_decide_eq_false_2 by done. cbn [decode_members].
  by erewrite decode_member_at by (reflexivity || by apply decode_custom).
Qed.

Lemma printable_session d : valid_session d → printable 0 (json_of_session d).
Proof.
  intros (Hc & Ht & He). apply printable_members_intro; [|done]. members; (split; [done|]); [by apply printable_claims|done|].
  by eexists.
Qed.

Lemma decode_session d : valid_session d → decode_struct session_fields zero_session (json_of_session d) = Some d.
Proof.
  intros (Hc & Ht & He). destruct d as [user csrf at_]. unfold decode_struct, json_of_session. cbn [decode_members].
  erewrite decode_member_at by (reflexivity || by apply decode_claims). cbn [mbind option_bind].
  erewrite decode_member_at by reflexivity. cbn [mbind option_bind].
  erewrite decode_member_at by (reflexivity || (unfold decode_int64; by apply ParseInt_FormatInt)). done.
Qed.

Lemma Unmarshal_session d : valid_session d →
  Unmarshal (decode_struct session_fields) zero_session (print (json_of_session d)) = Some d.
Proof. intros H. unfold Unmarshal. rewrite parse_print by (by apply printable_session). simpl. by apply decode_session. Qed.

(** ** Cookies *)

Definition no_dot (s : string) : bool := str_forallb (λ c, negb (char_eqb c ".")) s.

Lemma SplitN2_dot a b : no_dot a = true → strings.SplitN2 (a +:+ "." +:+ b) "." = [a; b].
Proof.
  intros H. unfold strings.SplitN2. assert (strings.IndexByte (a +:+ "." +:+ b) "." = Some (String.length a)) as ->.
  { induction a as [|c a IH]; [done|]. rewrite app_cons_s. simpl in *. apply andb_true_iff in H as [Hc Ha].
    apply negb_true_iff in Hc. rewrite Hc, IH by done. done. }
  rewrite stake_app_len. f_equal. f_equal.
  replace (S (String.length a)) with (String.length (a +:+ ".")) by (rewrite length_app_s; simpl; lia).
  rewrite <- app_assoc_s. apply sdrop_app_len.
Qed.

Lemma base64_no_dot s : no_dot (base64_encode s) = true.
Proof.
  assert (Hc : ∀ n, (n < 64)%N → negb (char_eqb (base64_char n) ".") = true).
  { intros n H. assert (E : ∀ m, m < 64 → negb (char_eqb (base64_char (N.of_nat m)) ".") = true).
    { intros m Hm. do 64 (destruct m as [|m]; [reflexivity|]). lia. }
    rewrite <- (N2Nat.id n). apply E. lia. }
  unfold no_dot. induction s as [|a|a b|a b c s IH] using string_ind3; [done|..]; cbn [base64_encode]; cbv zeta; simpl.
  - rewrite !Hc by (auto || apply group1). done.
  - rewrite !Hc by (auto || apply group2). done.
  - rewrite !Hc by (auto || apply (group3 a b c)). exact IH.
Qed.

Lemma SplitN3_signed e s : no_dot e = true → SplitN3 ("v1." +:+ e +:+ "." +:+ s) = ["v1"; e; s].
Proof.
  intros He. unfold SplitN3. change ("v1." +:+ e +:+ "." +:+ s) with ("v1" +:+ "." +:+ (e +:+ "." +:+ s)).
  rewrite SplitN2_dot by done. by rewrite SplitN2_dot.
Qed.

Lemma SplitN2_pair s a b : strings.SplitN2 s "." = [a; b] → s = a +:+ "." +:+ b.
Proof.
  unfold strings.SplitN2. destruct (strings.IndexByte s ".") as [i|] eqn:E; [|done]. intros [= <- <-].
  revert i E. induction s as [|c s IH]; intros i E; [done|]. simpl in E. destruct (char_eqb c ".") eqn:Ec.
  - injection E as <-. apply bool_decide_eq_true in Ec as ->. done.
  - destruct (strings.IndexByte s ".") as [k|]; [|done]. injection E as <-. cbn [stake sdrop]. rewrite app_cons_s. f_equal.
    by apply IH.
Qed.

Lemma SplitN3_parts s a b c : SplitN3 s = [a; b; c] → s = a +:+ "." +:+ b +:+ "." +:+ c.
Proof.
  unfold SplitN3. destruct (strings.SplitN2 s ".") as [|x [|y [|z l]]] eqn:E; try done.
  - intros [= -> H]. rewrite (SplitN2_pair _ _ _ E). apply SplitN2_pair in H as ->. done.
  - unfold strings.SplitN2 in E. destruct (strings.IndexByte s "."); done.
Qed.

Lemma signValue_ok data key cookie :
  signValue data key = Ok cookie →
  32 ≤ String.length key ∧
  cookie = "v1." +:+ RawURLEncoding.EncodeToString (print data) +:+ "." +:+
             signature key (RawURLEncoding.EncodeToString (print data)).
Proof.
  unfold signValue. destruct (String.length key <? 32)%nat eqn:E; [done|]. intros [= <-].
  apply Nat.ltb_ge in E. by split.
Qed.

Lemma verifyValue_ok {A} cookie key (d : decoder A) zero x :
  verifyValue cookie key d zero = Ok x ↔
  32 ≤ String.length key ∧ String.length cookie ≤ 32 * 1024 ∧
  ∃ encoded text, SplitN3 cookie = ["v1"; encoded; signature key encoded] ∧
    RawURLEncoding.DecodeString encoded = Some text ∧ Unmarshal d zero text = Some x.
Proof.
  unfold verifyValue. rewrite <- (Nat.ltb_ge (String.length key)), <- (Nat.ltb_ge (32 * 1024)).
  destruct (String.length key <? 32)%nat; [split; [done|by intros (? & _)]|].
  destruct (32 * 1024 <? String.length cookie)%nat; [split; [done|by intros (_ & ? & _)]|]. simpl orb. cbv iota.
  destruct (SplitN3 cookie) as [|version [|encoded [|sig [|]]]]; try (split; [done|by intros (_ & _ & ? & ? & ? & _)]).
  case_bool_decide as Hv; simpl; [|split; [done|intros (_ & _ & ? & ? & [= ? ? ?] & _); congruence]].
  case_bool_decide as Hs; simpl; [|split; [done|intros (_ & _ & ? & ? & [= ? ? ?] & _); congruence]].
  subst. destruct (RawURLEncoding.DecodeString encoded) as [text|] eqn:Ed.
  2: { split; [done|]. intros (_ & _ & ? & ? & [= <- _] & ? & _). congruence. }
  destruct (Unmarshal d zero text) as [y|] eqn:Eu.
  - split; [intros [= ->]; split_and!; eauto|]. intros (_ & _ & ? & ? & [= <- _] & E & ?). congruence.
  - split; [done|]. intros (_ & _ & ? & ? & [= <- _] & E & ?). congruence.
Qed.

(** [C24] What a session cookie proves.  A cookie that SignSession makes for a
    session is at most 3800 bytes and verifies, with the same key and until the
    session expires, as that session, its groups and claims included.  A cookie
    that verifies is the text "v1.", an encoding, a dot and the HMAC-SHA256 of
    the encoding under the key; the session is what the encoding decodes to and
    has not expired. *)
Theorem session_cookie_is_its_session key cookie d now :
  (valid_session d → SignSession d key = Ok cookie → (now < Session_ExpiresAt d)%Z →
     String.length cookie ≤ maxSessionCookieBytes ∧ verifySessionAt cookie key now = Ok d) ∧
  (verifySessionAt cookie key now = Ok d →
     ∃ encoded text, cookie = "v1." +:+ encoded +:+ "." +:+ signature key encoded ∧
       RawURLEncoding.DecodeString encoded = Some text ∧
       Unmarshal (decode_struct session_fields) zero_session text = Some d ∧ (now < Session_ExpiresAt d)%Z).
Proof.
  unfold SignSession, verifySessionAt. split.
  - intros Hd Hs Hnow. destruct (signValue _ key) as [signed|] eqn:E; [|done]. simpl in Hs.
    destruct (maxSessionCookieBytes <? String.length signed)%nat eqn:El; [done|]. injection Hs as <-.
    apply Nat.ltb_ge in El. split; [done|]. apply signValue_ok in E as [Hk ->].
    assert (verifyValue _ key (decode_struct session_fields) zero_session = Ok d) as ->.
    { apply verifyValue_ok. split_and!; [done|unfold maxSessionCookieBytes in El; lia|]. do 2 eexists. split_and!.
      - apply SplitN3_signed, base64_no_dot.
      - apply raw_decode_encode.
      - by apply Unmarshal_session. }
    simpl. by apply Z.leb_gt in Hnow as ->.
  - destruct (verifyValue _ _ _ _) as [x|] eqn:E; [|done]. simpl.
    destruct (Session_ExpiresAt x <=? now)%Z eqn:El; [done|]. intros [= ->]. apply Z.leb_gt in El.
    apply verifyValue_ok in E as (_ & _ & encoded & text & Hs & Hd & Hu). exists encoded, text.
    apply SplitN3_parts in Hs. by rewrite Hs.
Qed.
