(* ===== verification/ApiFacts.v ===== *)
(** * What the routes let through *)

From S2P Require Export ApiRoutes StoreEnrollFacts StoreAccessFacts.
Open Scope go_scope.

(** ** Programs that only read *)

Definition reads {A} (p : prog storeE A) : Prop := submits (λ _, False) p.

Lemma submits_mono (P Q : list SQLStatement → Prop) {A} (p : prog storeE A) :
  (∀ l, P l → Q l) → submits P p → submits Q p.
Proof.
  intros H. induction p as [a|X e k IH]; [done|]. intros [He Hk]. split; [destruct e; auto|]. intros x. by apply IH.
Qed.

Lemma reads_keep o {A} (p : prog storeE A) w : reads p → sw_db (snd (store_run o p w)) = sw_db w.
Proof.
  intros H. symmetry. apply (store_run_evolves (=)). eapply submits_mono; [|exact H]. done.
Qed.

Ltac reading := unfold reads; repeat submits_step; try done.

(** A program whose transactions all respect [R], whatever it returns. *)
Lemma swp_evolves (R : database → database → Prop) `{!PreOrder R} faults {A} (p : prog storeE A) seen clock db
    (Q : A → database → gset string → Z → Prop) :
  submits (respects R) p →
  (∀ x d s c, R db d → seen ⊆ s → (clock ≤ c)%Z → Q x d s c) → swp faults seen clock p db Q.
Proof.
  revert seen clock db. induction p as [a|X e k IH]; intros seen clock db; simpl.
  { intros _ H. apply H; [reflexivity|done|lia]. }
  intros [He Hk] HQ x d s c Ha.
  assert (H : R db d ∧ seen ⊆ s ∧ (clock ≤ c)%Z).
  { destruct e; simpl in Ha.
    1,2,8: destruct Ha as (_ & -> & -> & ->); split_and!; [reflexivity|done|lia].
    1,2,5: destruct Ha as (-> & -> & ->); split_and!; [reflexivity|done|lia].
    - destruct Ha as (_ & -> & -> & ->). split_and!; [reflexivity|set_solver|lia].
    - destruct Ha as (Hc & -> & -> & ->). split_and!; [reflexivity|done|exact Hc].
    - destruct Ha as (Hx & -> & ->). split_and!; [|done|lia].
      pose proof (execute_db_evolves R [bare st] db He) as HR.
      destruct Hx as [Hx|(_ & e & _ & _ & [-> | ->])]; [|reflexivity|exact HR]. by rewrite <- Hx in HR.
    - destruct Ha as (Hx & Hnil & -> & ->). split_and!; [|done|lia].
      destruct sts as [|st sts]; [destruct Hnil as [_ ->]; [done|reflexivity]|].
      pose proof (execute_db_evolves R (st :: sts) db He) as HR.
      destruct (Hx ltac:(done)) as [Hx'|(_ & e & _ & _ & [-> | ->])]; [|reflexivity|exact HR]. by rewrite <- Hx' in HR. }
  destruct H as (HR & Hs & Hc). apply IH; [apply Hk|]. intros y d' s' c' HR' Hs' Hc'. apply HQ; [by etrans|by etrans|lia].
Qed.

Lemma swp_reads faults {A} (p : prog storeE A) seen clock db (Q : A → database → gset string → Z → Prop) :
  reads p → (∀ x s c, seen ⊆ s → (clock ≤ c)%Z → Q x db s c) → swp faults seen clock p db Q.
Proof.
  intros Hp HQ. apply (swp_evolves (=)); [|intros x d s c <-; apply HQ].
  eapply submits_mono; [|exact Hp]. done.
Qed.

(** ** Guards *)

Section guards.
Context `{Hurl : NetURL} `{Hsig : Ed25519} `{Hidp : IdentityProvider} (ParseAuthorizedKey : string → option (string * string * string * string)) (s : Server).

(** What the guards ask of an identity. *)
Record entitled (gs : list route_guard) (r : Request) (who : option AuthContext) : Prop := {
  ent_auth : GAuth ∈ gs → who ≠ None;
  ent_admin : GAdmin ∈ gs → ∃ a, who = Some a ∧ Auth_IsAdmin a = true;
  ent_csrf : GCSRF ∈ gs → ∃ a, who = Some a ∧
    (is_mutation (Method r) = true →
       browserRequestOriginAllowed r = true ∧ fst (csrf_token r) = Auth_CSRFToken a);
}.

Lemma csrf_token_again r :
  let r' := snd (csrf_token r) in
  Method r' = Method r ∧ browserRequestOriginAllowed r' = browserRequestOriginAllowed r ∧
  fst (csrf_token r') = fst (csrf_token r).
Proof.
  unfold csrf_token. destruct (bool_decide (Header r CSRFHeader = "")) eqn:E; simpl; [|by rewrite E].
  destruct (IsForm r); simpl; by rewrite E.
Qed.

Lemma entitled_again gs r who : entitled gs (snd (csrf_token r)) who → entitled gs r who.
Proof.
  destruct (csrf_token_again r) as (E1 & E2 & E3). intros [H1 H2 H3]. split; [done|done|].
  rewrite E1, E2, E3 in H3. done.
Qed.

Ltac member H := apply elem_of_cons in H as [H|H]; [try discriminate H|].

Lemma guarded_refuses gs h r who :
  entitled gs r who ∨ ∃ resp, guarded gs h r who = Ret resp ∧ Response_Status resp ∈ [401%Z; 403%Z].
Proof.
  revert r. induction gs as [|g gs IH]; intros r.
  { left. split; intros Hg; by apply elem_of_nil in Hg. }
  change (guarded (g :: gs) h) with (apply_guard g (guarded gs h)).
  destruct g; simpl; unfold RequireAuth, RequireAdmin, RequireCSRF.
  - destruct who as [a|]; [|right; eexists; split; [done|by left]].
    destruct (IH r) as [[E1 E2 E3]|]; [|by right]. left.
    split; intros Hg; [done|member Hg; auto|member Hg; auto].
  - destruct who as [a|]; [destruct (Auth_IsAdmin a) eqn:Ea|]; try (right; eexists; split; [done|right; by left]).
    destruct (IH r) as [[E1 E2 E3]|]; [|by right]. left.
    split; intros Hg; [done|by exists a|member Hg; auto].
  - destruct who as [a|]; [|right; eexists; split; [done|by left]].
    destruct (is_mutation (Method r)) eqn:Em.
    + destruct (browserRequestOriginAllowed r) eqn:Eo; simpl; [|right; eexists; split; [done|right; by left]].
      destruct (csrf_token r) as [csrf r'] eqn:Ec. case_bool_decide as Et; simpl; [|right; eexists; split; [done|right; by left]].
      destruct (IH r') as [Hent|]; [|by right]. left.
      assert (Hent' : entitled gs r (Some a)) by (apply entitled_again; by rewrite Ec).
      destruct Hent' as [E1 E2 E3]. split; intros Hg; [member Hg; auto|member Hg; auto|].
      exists a. split; [done|]. intros _. by rewrite Ec.
    + destruct (IH r) as [[E1 E2 E3]|]; [|by right]. left.
      split; intros Hg; [member Hg; auto|member Hg; auto|]. exists a. split; [done|]. congruence.
Qed.

(** The identity [serve] finds for a request. *)
Definition identity_of (r : Request) : prog storeE authenticated :=
  let admin := Config_AdminGroup (server_auth s) in
  authenticate (server_sessionKey s) (server_devHeaders s) (if bool_decide (admin = "") then "ternal-admins" else admin)
    (Config_Issuer (server_auth s)) (session_check s) r.

Definition lets_in (route : Route) (r : Request) (who : authenticated) : Prop :=
  match who with
  | Unavailable => False
  | Anonymous => entitled (route_guards route) r None
  | Identified a => entitled (route_guards route) r (Some a)
  end.

Lemma identity_reads r : reads (identity_of r).
Proof.
  unfold identity_of, authenticate, authenticate_cookie, session_check. reading.
Qed.

Lemma reads_guarded gs h : (∀ r a, reads (h r a)) → ∀ r a, reads (guarded gs h r a).
Proof.
  intros Hh. induction gs as [|g gs IH]; intros r a; [apply Hh|].
  change (guarded (g :: gs) h) with (apply_guard g (guarded gs h)).
  destruct g; simpl; unfold RequireAuth, RequireAdmin, RequireCSRF.
  - destruct a; [apply IH|done].
  - destruct a as [a|]; [destruct (Auth_IsAdmin a)|]; [apply IH|done|done].
  - destruct a as [a|]; [|done]. destruct (is_mutation (Method r)); [|apply IH].
    destruct (negb (browserRequestOriginAllowed r)); [done|]. destruct (csrf_token r) as [csrf r'].
    destruct (negb _); [done|apply IH].
Qed.

Lemma reads_policies identity host user policies : reads (some_policy_allows identity host user policies).
Proof. induction policies as [|p l IH]; [done|]. simpl. reading. Qed.

Lemma reads_configs hosts : reads (host_configs hosts).
Proof. induction hosts as [|h l IH]; [done|]. simpl. unfold host_config. reading. Qed.

Ltac reading_api := unfold reads; repeat first [apply reads_policies|apply reads_configs|submits_step]; try done.

Definition publishes (route : Route) : bool := bool_decide (route_pattern route = "/agents/authorized-keys").

Lemma get_routes_read route :
  route ∈ Router ParseAuthorizedKey s → is_mutation (route_method route) = false → publishes route = false →
  ∀ r a, reads (route_handler route r a).
Proof.
  intros Hr Hm Hp r a. unfold Router in Hr.
  repeat (apply elem_of_cons in Hr as [-> |Hr]; [first [discriminate Hm|discriminate Hp|clear Hm Hp; cbn [route_handler]; solve [reading_api]]|]).
  by apply elem_of_nil in Hr.
Qed.

(** The routes that take no session: those of devices, which prove
    themselves, and of the device flow of a login. *)
Definition open_routes : list string :=
  ["/manufacturing/enroll"; "/agents/heartbeat"; "/agents/authorized-keys"; "/agents/authorized-keys/ack";
   "/auth/device/start"; "/auth/device/token"].

Definition admin_areas : list string := ["/policies/"; "/manufacturing/"; "/devices/"].

Definition needs_admin (route : Route) : bool :=
  existsb (strings.HasPrefix (route_pattern route)) admin_areas ||
  (strings.HasPrefix (route_pattern route) "/hosts/" && is_mutation (route_method route)).


End guards.
