(* ===== verification/AgentFacts.v ===== *)
(** * What a device's request can do

    The requests of an agent carry no session: the device signs them.  A
    request that is not signed changes nothing; a signed one changes rows of
    the device's own host, and nothing else. *)

From S2P Require Export ApiFacts.
Open Scope go_scope.

(** ** Changes confined to one host *)

(** The rows of other hosts. *)
Definition elsewhere {A} (host : A → string) (X : string) (l : list A) : list A := filter (λ r, host r ≠ X) l.

(** Only the rows of host [X] differ, and the audit log has grown. *)
Record confined (X : string) (t t' : tables) : Prop := {
  cf_policies : policies t' = policies t;
  cf_keys : ssh_keys t' = ssh_keys t;
  cf_requests : access_requests t' = access_requests t;
  cf_sessions : revoked_sessions t' = revoked_sessions t;
  cf_tokens : manufacturing_tokens t' = manufacturing_tokens t;
  cf_batches : manufacturing_batches t' = manufacturing_batches t;
  cf_audit : audit_events t `prefix_of` audit_events t';
  cf_hosts : elsewhere h_id X (hosts t') = elsewhere h_id X (hosts t);
  cf_devices : elsewhere d_host_id X (devices t') = elsewhere d_host_id X (devices t);
  cf_grants : elsewhere g_host_id X (access_grants t') = elsewhere g_host_id X (access_grants t);
  cf_discovery : elsewhere e_host_id X (endpoint_discovery t') = elsewhere e_host_id X (endpoint_discovery t);
  cf_relay : elsewhere r_host_id X (relay_access_grants t') = elsewhere r_host_id X (relay_access_grants t);
  cf_snapshots : elsewhere n_host_id X (authorized_keys_snapshots t') = elsewhere n_host_id X (authorized_keys_snapshots t);
  cf_snapshot_grants : elsewhere m_host_id X (authorized_keys_snapshot_grants t') =
                       elsewhere m_host_id X (authorized_keys_snapshot_grants t);
}.

#[export] Instance confined_preorder X : PreOrder (confined X).
Proof.
  split; [by split|]. intros t1 t2 t3 [] []. split; first [by etrans|congruence].
Qed.

Definition confined_db (X : string) (db db' : database) : Prop := confined X (data db) (data db').

#[export] Instance confined_db_preorder X : PreOrder (confined_db X).
Proof. split; [intros ?; apply (confined_preorder X)|intros ? ? ?; apply (confined_preorder X)]. Qed.

Definition confines (X : string) (st : SQLStatement) : Prop :=
  ∀ db db' r, SQL st db = Some (db', r) → confined_db X db db'.

Lemma respects_confines X sts : Forall (confines X) sts → respects (confined_db X) sts.
Proof.
  intros Hs db db' rs Hrun. pattern db'.
  eapply (run_statements_invariant (confined_db X db) sts db db' rs); [|done|reflexivity].
  eapply Forall_impl; [exact Hs|]. intros st Hk d d' r Hst Hd. etrans; [exact Hd|by eapply Hk].
Qed.

Lemma confines_on_tables X names f :
  (∀ t t' n, f t = Some (t', n) → confined X t t') → confines X (on_tables names f).
Proof.
  intros H db db' r. simpl. destruct (forallb _ names); [|done].
  destruct (f (data db)) as [[t' n]|] eqn:E; [|done]. intros [= <- _]. by eapply H.
Qed.

(** ** Tables whose rows belong to a host *)

Class HostTable {A} (T : table A) := {
  row_host : A → string;
  host_frame X t l : elsewhere row_host X l = elsewhere row_host X (rows T t) → confined X t (with_rows T l t);
}.

#[export] Program Instance hosts_of_host : HostTable Hosts := {| row_host := h_id |}.
Next Obligation. by split. Qed.
#[export] Program Instance devices_of_host : HostTable Devices := {| row_host := d_host_id |}.
Next Obligation. by split. Qed.
#[export] Program Instance grants_of_host : HostTable AccessGrants := {| row_host := g_host_id |}.
Next Obligation. by split. Qed.
#[export] Program Instance discovery_of_host : HostTable EndpointDiscoveries := {| row_host := e_host_id |}.
Next Obligation. by split. Qed.
#[export] Program Instance relay_of_host : HostTable RelayAccessGrants := {| row_host := r_host_id |}.
Next Obligation. by split. Qed.
#[export] Program Instance snapshots_of_host : HostTable Snapshots := {| row_host := n_host_id |}.
Next Obligation. by split. Qed.
#[export] Program Instance snapshot_grants_of_host : HostTable SnapshotGrants := {| row_host := m_host_id |}.
Next Obligation. by split. Qed.

Lemma elsewhere_app {A} (host : A → string) X l k :
  Forall (λ r, host r = X) k → elsewhere host X (l ++ k) = elsewhere host X l.
Proof.
  intros H. unfold elsewhere. rewrite filter_app. replace (filter _ k) with (@nil A); [by rewrite app_nil_r|].
  induction H as [|r k Hr _ IH]; [done|]. by rewrite filter_cons_False by tauto.
Qed.

Lemma elsewhere_map {A} (host : A → string) X (p : A → bool) g l :
  (∀ r, p r = true → host r = X ∧ host (g r) = X) →
  elsewhere host X ((λ r, if p r then g r else r) <$> l) = elsewhere host X l.
Proof.
  intros Hp. unfold elsewhere. induction l as [|r l IH]; [done|]. csimpl. rewrite !filter_cons, IH.
  destruct (p r) eqn:E; [|done]. destruct (Hp r E). by rewrite !decide_False by tauto.
Qed.

Lemma elsewhere_filter {A} (host : A → string) X (p : A → bool) l :
  (∀ r, p r = true → host r = X) →
  elsewhere host X (filter (λ r, p r = false) l) = elsewhere host X l.
Proof.
  intros Hp. unfold elsewhere. induction l as [|r l IH]; [done|]. destruct (p r) eqn:E.
  - rewrite (filter_cons_False (λ r, p r = false)) by congruence. rewrite filter_cons_False; [done|]. rewrite (Hp r E). tauto.
  - rewrite (filter_cons_True (λ r, p r = false)) by done. rewrite !filter_cons, IH. done.
Qed.

Section confine.
Context {A : Type} (T : table A) `{!HostTable T} (X : string).

Lemma confines_insert reads f : (∀ t, Forall (λ r, row_host r = X) (f t)) → confines X (insert_select T reads f).
Proof.
  intros Hf. apply confines_on_tables. intros t t' n H. apply bind_Some in H as (l & Hl & [= <- <-]).
  apply host_frame. rewrite (insert_all_app _ _ _ _ Hl). by apply elsewhere_app.
Qed.

Lemma confines_insert_where reads cond r : row_host r = X → confines X (insert_where T reads cond r).
Proof. intros H. apply confines_insert. intros t. destruct (cond t); by repeat constructor. Qed.

Lemma confines_insert_values r : row_host r = X → confines X (insert_values T r).
Proof. intros H. apply confines_insert. intros t. by repeat constructor. Qed.

Lemma confines_update reads p g :
  (∀ t r, p t r = true → row_host r = X ∧ row_host (g r) = X) → confines X (update_where T reads p g).
Proof.
  intros Hp. apply confines_on_tables. intros t t' n. cbv zeta. destruct (no_clash _ _); [|done]. intros [= <- <-].
  apply host_frame. apply elsewhere_map, Hp.
Qed.

Lemma confines_delete reads p : (∀ t r, p t r = true → row_host r = X) → confines X (delete_where T reads p).
Proof.
  intros Hp. apply confines_on_tables. intros t t' n [= <- <-]. apply host_frame, elsewhere_filter, Hp.
Qed.

Lemma confines_upsert reads cond r g :
  row_host r = X → (∀ t old, clash T r old = true → row_host old = X ∧ row_host (g t old r) = X) →
  confines X (upsert T reads cond r g).
Proof.
  intros Hr Hg. apply confines_on_tables. intros t t' n. destruct (cond t); simpl; [|by intros [= <- _]].
  destruct (existsb _ _); intros [= <- <-]; apply host_frame.
  - apply elsewhere_map. auto.
  - by apply elsewhere_app, Forall_singleton.
Qed.

End confine.

Lemma confines_audit X reads f : confines X (insert_select AuditEvents reads f).
Proof.
  apply confines_on_tables. intros t t' n H. apply bind_Some in H as (l & Hl & [= <- <-]).
  rewrite (insert_all_app _ _ _ _ Hl). split; simpl; try done. by apply prefix_app_r.
Qed.

(** ** What a verified device runs *)

Ltac confine_one :=
  unfold insert_relay, upsert_discovery, publish_snapshot, insert_snapshot_grant in *;
  repeat first [apply confines_audit
    |apply (confines_insert_where _); reflexivity|apply (confines_insert_values _); reflexivity
    |apply (confines_update _ _); intros ? ? ?|apply (confines_delete _ _); intros ? ? ?
    |apply (confines_upsert _ _); [reflexivity|intros ? ? ?]].

Ltac confine_all := apply respects_confines; repeat (apply Forall_cons; split); try apply Forall_nil; try exact I; confine_one.

(** The condition of a statement puts its rows on the host. *)
Ltac on_host :=
  unfold active_device, of_account, current_snapshot, live_grant in *; cbn in *; bool_prop; rewrite ?same_true in *; by subst.

Lemma submits_touch X id endpointID fingerprint status direct relays :
  submits (respects (confined_db X)) (TouchDevice id X endpointID fingerprint status direct relays).
Proof.
  repeat submits_step. confine_all; on_host.
Qed.

Lemma submits_renew X endpointID actor ttl :
  submits (respects (confined_db X)) (RenewRelayAccessGrant X endpointID actor ttl).
Proof. repeat submits_step. confine_all; on_host. Qed.

Lemma submits_publish X sshUser : submits (respects (confined_db X)) (PublishAuthorizedKeysSnapshot X sshUser).
Proof.
  unfold PublishAuthorizedKeysSnapshot, authorizedKeysSnapshotForHost, publishAuthorizedKeysGeneration. repeat submits_step.
  apply respects_confines. unfold publish_statements. apply Forall_app. split.
  - repeat (apply Forall_cons; split); try apply Forall_nil; try exact I; confine_one; on_host.
  - apply Forall_fmap, Forall_true. intros g. simpl. unfold insert_snapshot_grant. confine_one.
Qed.

Lemma submits_acknowledge X sshUser generation digest :
  submits (respects (confined_db X)) (AcknowledgeAuthorizedKeys X sshUser generation digest).
Proof.
  repeat submits_step. confine_all; on_host.
Qed.

(** ** Device authentication *)

Section agents.
Context `{NetURL} `{Ed25519}.

(** The device [x] has signed [text], within the last five minutes or the next. *)
Record device_signed (serial endpointID fingerprint : string) (timestamp : Z) (signature text : string)
    (x : devices_row) (now : Z) : Prop := {
  ds_serial : d_serial_number x = Some serial;
  ds_active : d_state x ≠ "revoked";
  ds_endpoint : d_endpoint_id x = endpointID;
  ds_fingerprint : d_ssh_host_key_fingerprint x = fingerprint;
  ds_fresh : DeviceAuth.Fresh timestamp now = true;
  ds_signature : Verify (d_device_public_key x) text signature = None;
}.

Lemma verifyDevice_swp seen clock db serial endpointID fingerprint timestamp signature text Q :
  has_tables db →
  (∀ c, (clock ≤ c)%Z → Q StoreUnavailable db seen c) → (∀ c, (clock ≤ c)%Z → Q NotVerified db seen c) →
  (∀ x now, x ∈ devices (data db) → (clock ≤ now)%Z → device_signed serial endpointID fingerprint timestamp signature text x now →
     Q (Verified (device_of_row x)) db seen now) →
  swp true seen clock (verifyDevice serial endpointID fingerprint timestamp signature text) db Q.
Proof.
  intros Ht Hu Hn Hv. unfold verifyDevice. sstep. sstep.
  destruct (DeviceAuth.Fresh timestamp now) eqn:Ef; simpl negb; cbv iota; [|sstep; by apply Hn].
  unfold GetDeviceBySerial. repeat sstep; [by apply Hu..|].
  destruct (filter _ (devices (data db))) as [|x l] eqn:Ex; cbn [fmap list_fmap]; [rewrite optional_none; by apply Hn|].
  rewrite scan_device_row. apply head_filter in Ex as [Hx Hs]. simpl. unfold usable_device. simpl.
  case_bool_decide as Er; simpl; [by apply Hn|].
  repeat case_bool_decide; simpl; try by apply Hn.
  destruct (Verify (d_device_public_key x) text signature) eqn:Ev; [by apply Hn|]. apply Hv; [done|done|].
  split; try done. unfold has_serial in Hs. destruct (d_serial_number x) as [sn|]; [|done]. by apply same_true in Hs as ->.
Qed.

(** The three requests of an agent: the handler, the identity the request
    claims and the text it must have signed. *)
Inductive agent_request (r : Request) :
    http_handler → string → string → string → Z → string → string → Prop :=
  | heartbeat_of req :
      Decode max_body (decode_struct heartbeat_fields) zero_heartbeat (Request_Body r) = Some req →
      agent_request r handleHeartbeat (hb_Serial req) (hb_EndpointID req) (hb_Fingerprint req) (hb_Timestamp req)
        (hb_Signature req) (heartbeat_text req)
  | keys_of timestamp :
      let h := headers_of r in
      dh_timestamp h = Some timestamp →
      agent_request r handleAgentAuthorizedKeys (dh_serial h) (dh_endpointID h) (dh_fingerprint h) timestamp
        (dh_signature h)
        (AuthorizedKeysPayload (dh_serial h) (dh_endpointID h) (dh_fingerprint h) timestamp (Http.Query r "ssh_user"))
  | ack_of timestamp req :
      let h := headers_of r in
      dh_timestamp h = Some timestamp →
      Decode (Z.to_nat 4096) (decode_struct ack_fields) (mkAckRequest "" 0 "") (Request_Body r) = Some req →
      agent_request r handleAgentAuthorizedKeysAck (dh_serial h) (dh_endpointID h) (dh_fingerprint h) timestamp
        (dh_signature h)
        (AuthorizedKeysAckPayload (dh_serial h) (dh_endpointID h) (dh_fingerprint h) timestamp (ar_SSHUser req)
           (ar_Generation req) (ar_SHA256 req)).

Definition agent_handlers : list http_handler :=
  [handleHeartbeat; handleAgentAuthorizedKeys; handleAgentAuthorizedKeysAck].

(** The request was signed by an active device of [t0], and changed its host only. *)
Definition by_device (r : Request) (handler : http_handler) (from : Z) (t0 t : tables) : Prop :=
  ∃ serial endpointID fingerprint timestamp signature text x now,
    agent_request r handler serial endpointID fingerprint timestamp signature text ∧
    x ∈ devices t0 ∧ (from ≤ now)%Z ∧
    device_signed serial endpointID fingerprint timestamp signature text x now ∧ confined (d_host_id x) t0 t.

Definition refused (resp : Response) : Prop := Response_Status resp ∈ [400; 401; 503]%Z.

Lemma refused_status resp : bool_decide (Response_Status resp ∈ [400; 401; 503]%Z) = true → refused resp.
Proof. apply bool_decide_eq_true. Qed.

(** A handler that goes on with the verified device. *)
Lemma with_device_swp r handler seen clock db serial endpointID fingerprint timestamp signature text k :
  has_tables db → agent_request r handler serial endpointID fingerprint timestamp signature text →
  (∀ d, submits (respects (confined_db (Device_HostID d))) (k d)) →
  swp true seen clock (with_device (verifyDevice serial endpointID fingerprint timestamp signature text) k) db
    (λ resp d _ _, (d = db ∧ refused resp) ∨ by_device r handler clock (data db) (data d)).
Proof.
  intros Ht Hr Hk. unfold with_device. sstep. apply verifyDevice_swp; [done|..].
  - intros c _. left. split; [done|]. by apply refused_status.
  - intros c _. left. split; [done|]. by apply refused_status.
  - intros x now Hx Hc Hs. apply (swp_evolves (confined_db (Device_HostID (device_of_row x)))); [apply Hk|].
    intros resp d s c Hd _ _. right. do 8 eexists. split_and!; eauto.
Qed.

Lemma agent_swp r who handler seen clock db :
  has_tables db → handler ∈ agent_handlers →
  swp true seen clock (handler r who) db
    (λ resp d _ _, (d = db ∧ refused resp) ∨ by_device r handler clock (data db) (data d)).
Proof.
  intros Ht Hh. repeat (apply elem_of_cons in Hh as [->|Hh]); [| | |by apply elem_of_nil in Hh].
  - unfold handleHeartbeat at 1. unfold body, decoded. destruct (Decode _ _ _ _) as [req|] eqn:Ed; [|left; split; [done|by apply refused_status]].
    apply with_device_swp; [done|by constructor|]. intros d. cbv zeta. apply submits_bind; [apply submits_touch|].
    intros [e|]; [done|]. destruct (bool_decide _); [|done]. by apply submits_bind; [apply submits_renew|].
  - unfold handleAgentAuthorizedKeys at 1. unfold verified_headers. destruct (dh_timestamp _) as [ts|] eqn:Et; [|left; split; [done|by apply refused_status]].
    apply with_device_swp; [done|by constructor|]. intros d. by apply submits_bind; [apply submits_publish|].
  - unfold handleAgentAuthorizedKeysAck at 1. unfold verified_headers, decoded.
    destruct (Decode _ _ _ _) as [req|] eqn:Ed; [|left; split; [done|by apply refused_status]].
    destruct (dh_timestamp _) as [ts|] eqn:Et; [|left; split; [done|by apply refused_status]].
    apply with_device_swp; [done|by constructor|]. intros d. by apply submits_bind; [apply submits_acknowledge|].
Qed.


End agents.
