(* ===== verification/IssueFacts.v ===== *)
(** * Who gets access

    The two handlers that hand out access, for SSH and for the relay: what a
    grant they write proves about the caller. *)

From S2P Require Export ApiFacts.
Open Scope go_scope.

(** ** What the handlers read *)

Lemma scan_rows_all {A B} ts (read : list go_value → B) (columns : A → list value) (f : A → B) l :
  (∀ x, scan_row ts read (columns x) = Ok (f x)) → scan_rows ts read (columns <$> l) = Ok (f <$> l).
Proof. intros H. induction l as [|x l IH]; [done|]. csimpl. by rewrite H, IH. Qed.

Definition policy_of_row (p : policies_row) : Policy :=
  mkPolicy (p_id p) (p_name p) (p_principal p) (p_host_selector p) (default [] (Unmarshal_list (p_ssh_users p)))
    (p_expires_at p).

Lemma scan_policy_row p : scan_row policy_types read_policy (policy_columns p) = Ok (policy_of_row p).
Proof. unfold scan_row, scanValues, policy_columns, policy_of_row. simpl. by destruct (p_expires_at p). Qed.

Definition key_of_row (k : ssh_keys_row) : SshKey :=
  mkSshKey (k_id k) (k_user_id k) (k_public_key k) (k_fingerprint k) (k_created_at k).

Section reads.
Context (faults : bool) (seen : gset string) (clock : Z) (db : database) (Ht : has_tables db).

Lemma GetHost_swp id Q :
  wf (data db) → (∀ e, Q (Err e) db seen clock) → Q (Ok None) db seen clock →
  (∀ h, h ∈ hosts (data db) → h_id h = id → Q (Ok (Some (host_of_row h))) db seen clock) →
  swp faults seen clock (GetHost id) db Q.
Proof.
  intros W He Hn Hh. unfold GetHost. repeat sstep; [apply He..|].
  destruct (filter _ (hosts (data db))) as [|h l] eqn:E; cbn [fmap list_fmap]; [exact Hn|].
  apply head_filter in E as [Hin Hid]. rewrite scan_host_row; [by apply Hh|].
  destruct (wf_hosts _ W) as [_ Hok]. rewrite Forall_forall in Hok. by destruct (Hok h Hin) as (_ & _ & ?).
Qed.

Lemma ListPolicies_swp Q :
  (∀ e, Q (Err e) db seen clock) →
  Q (Ok (policy_of_row <$> order_by (by_text p_name) (policies (data db)))) db seen clock →
  swp faults seen clock ListPolicies db Q.
Proof.
  intros He Hp. unfold ListPolicies. repeat sstep; [apply He..|]. by rewrite (scan_rows_all _ _ _ policy_of_row _ scan_policy_row).
Qed.

Lemma ListSSHKeys_swp userID Q :
  (∀ e, Q (Err e) db seen clock) →
  Q (Ok (key_of_row <$> order_by (newest k_created_at) (filter (λ k, k_user_id k = userID) (ssh_keys (data db))))) db seen clock →
  swp faults seen clock (ListSSHKeys userID) db Q.
Proof. intros He Hk. unfold ListSSHKeys. repeat sstep; [apply He..|]. by rewrite (scan_rows_all _ _ _ key_of_row). Qed.

End reads.

(** Some policy of the list lets the identity use the account, at a time it read. *)
Definition allowed (identity : AuthContext) (host : Host) (sshUser : string) (from : Z) (l : list Policy) : Prop :=
  ∃ p now, p ∈ l ∧ (from ≤ now)%Z ∧ PolicyAllowsSSHUser now (authClaims identity) host p sshUser = true.

Lemma some_policy_swp faults seen clock db identity host sshUser l Q :
  (∀ b c, (clock ≤ c)%Z → (b = true → allowed identity host sshUser clock l) → Q b db seen c) →
  swp faults seen clock (some_policy_allows identity host sshUser l) db Q.
Proof.
  revert clock. induction l as [|p l IH]; intros clock HQ; simpl.
  { apply HQ; [lia|done]. }
  apply swp_bind. sstep. destruct (PolicyAllowsSSHUser _ _ _ _ _) eqn:E.
  - sstep. apply HQ; [lia|]. intros _. exists p, now. split_and!; [apply list_elem_of_here|lia|done].
  - apply IH. intros b c Hc Hb. apply HQ; [lia|]. intros (q & n & Hq & Hn & Ha)%Hb. exists q, n.
    split_and!; [by apply list_elem_of_further|lia|done].
Qed.

(** ** What they write *)

Lemma issue_swp faults seen clock db userID hostID sshUser expiresAt
    (Q : result string → database → gset string → Z → Prop) :
  has_tables db → known_ids (data db) ⊆ seen →
  (∀ e s c, Q (Err e) db s c) →
  (∀ x request id event now s c, host_available hostID (data db) = true →
     match x with Ok id' => id' = id | Err _ => True end →
     Q x (set_data (issued request id event userID hostID sshUser expiresAt now (data db)) db) s c) →
  swp faults seen clock (IssueSSHAccess userID hostID sshUser expiresAt) db Q.
Proof.
  intros Ht Hs He Hi. unfold IssueSSHAccess. cbv zeta. repeat sstep; [apply He|..].
  all: destruct (issue_run id id0 id1 userID hostID sshUser expiresAt now db) as (r & E & En);
    [done|apply (fresh_subset _ _ seen); eauto with store..|].
  - repeat sstep. split; [apply He|]. rewrite E. simpl. destruct (host_available hostID (data db)); [by apply Hi|apply He].
  - rewrite E. repeat sstep. rewrite En. destruct (host_available hostID (data db)); repeat sstep; [by apply Hi|apply He].
Qed.

Lemma audit_exec db a :
  has_tables db → a_id a ∉ known_ids (data db) →
  ∃ r, execute_db [bare (insert_audit a)] db =
         ((r, None), set_data (with_rows AuditEvents (audit_events (data db) ++ [a]) (data db)) db).
Proof.
  intros Ht Ha. transact [bare (insert_audit a)] db as H.
  erewrite run_step in H by (apply (ins_fresh AuditEvents a_id _ a _ (known_ids (data db))); [by intros; apply same_false|done|known|done]).
  simpl in H. destruct H as (r & H & _). eauto.
Qed.

(** ** The handlers *)

Section handlers.
Context `{NetURL}.

Definition refusal_recorded (action hostID userID : string) (t t' : tables) : Prop :=
  ∃ id now, t' = with_rows AuditEvents
    (audit_events t ++ [AuditEventRow id action "host" hostID (Some userID) None (Some policy_denied_json) now]) t.

Lemma or_500_swp {A} faults seen clock db (p : prog storeE (result A)) k (Q : Response → database → gset string → Z → Prop) :
  swp faults seen clock p db (λ r d s c,
    match r with Ok x => swp faults s c (k x) d Q | Err e => Q (writeFailure 500 e) d s c end) →
  swp faults seen clock (or_500 p k) db Q.
Proof. intros Hp. apply swp_bind. eapply swp_mono; [|exact Hp]. by intros [x|e]. Qed.

Lemma denied_swp faults seen clock db action host identity Q :
  has_tables db → known_ids (data db) ⊆ seen →
  (∀ resp t s c, Response_Status resp ≠ 200%Z →
     t = data db ∨ refusal_recorded action (Host_ID host) (principal identity) (data db) t → Q resp (set_data t db) s c) →
  swp faults seen clock (denied action host identity) db Q.
Proof.
  intros Ht Hs HQ. assert (Hsame : ∀ resp s c, Response_Status resp ≠ 200%Z → Q resp db s c).
  { intros resp s c Hr. replace db with (set_data (data db) db) by (by destruct db). apply HQ; auto. }
  unfold denied, RecordPolicyDenied. sstep. repeat sstep; [by apply Hsame|].
  destruct (bool_decide (principal identity = "")); repeat sstep; [by apply Hsame|..].
  all: pose proof (audit_exec db (AuditEventRow id action "host" (Host_ID host) (Some (principal identity)) None
      (Some policy_denied_json) now) Ht) as [r E]; [by apply (fresh_subset _ _ seen)|]; rewrite E.
  - split; apply swp_ret; [by apply Hsame|]. apply HQ; [done|]. right. by exists id, now.
  - apply swp_ret. apply HQ; [done|]. right. by exists id, now.
Qed.

(** The identity is an administrator's, or some policy lets it use the account
    on the host, at a time the handler read. *)
Definition may_use (identity : AuthContext) (h : hosts_row) (sshUser : string) (from : Z) (t : tables) : Prop :=
  Auth_IsAdmin identity = true ∨
  ∃ p now, p ∈ policies t ∧ (from ≤ now)%Z ∧
    PolicyAllowsSSHUser now (authClaims identity) (host_of_row h) (policy_of_row p) sshUser = true.

Lemma allowed_may_use identity h sshUser from t :
  allowed identity (host_of_row h) sshUser from (policy_of_row <$> order_by (by_text p_name) (policies t)) →
  may_use identity h sshUser from t.
Proof.
  intros (p & now & Hp & Hn & Ha). apply list_elem_of_fmap in Hp as (q & -> & Hq%order_by_elem). right. by exists q, now.
Qed.

Lemma may_use_from identity h sshUser from from' t :
  (from ≤ from')%Z → may_use identity h sshUser from' t → may_use identity h sshUser from t.
Proof. intros Hf [?|(p & now & Hp & Hn & Ha)]; [by left|right]. exists p, now. split_and!; [done|lia|done]. Qed.

(** The account a request asks for. *)
Definition account_of (sshUser : string) (h : hosts_row) : string :=
  if bool_decide (sshUser = "") then h_ssh_user h else sshUser.

(** Access that was asked for, is allowed, can be used, and was written whole. *)
Definition ssh_granted (r : Request) (who : option AuthContext) (from : Z) (t t' : tables) : Prop :=
  ∃ identity req h k request id event at_ now,
    who = Some identity ∧
    Decode max_body (decode_struct ssh_request_fields) (mkSshRequest "" "") (Request_Body r) = Some req ∧
    h ∈ hosts t ∧ h_id h = sr_HostID req ∧ host_available (h_id h) t = true ∧
    may_use identity h (account_of (sr_SSHUser req) h) from t ∧
    k ∈ ssh_keys t ∧ k_user_id k = principal identity ∧
    t' = issued request id event (principal identity) (h_id h) (account_of (sr_SSHUser req) h) (at_ + 300) now t.

(** The part of the handler that issues the access. *)
Definition issue_access (identity : AuthContext) (host : Host) (sshUser : string) : prog storeE Response :=
  or_500 (GetDeviceByHostID (Host_ID host)) (λ device,
  match usable_device device with
  | None => Ret (writeError 404 "host not found")
  | Some device =>
    if negb (ValidHostKeyFingerprint (Device_SSHHostKeyFingerprint device))
    then Ret (writeError 409 "host has no verified SSH host-key fingerprint") else
    or_500 (GetEndpointDiscovery (Host_ID host)) (λ discovery,
    match discovery with
    | None => Ret (writeError 409 "host has no explicit relay or direct route")
    | Some discovery =>
      match host_command host sshUser device discovery with
      | Err e => Ret (writeFailure 400 e)
      | Ok cmd =>
        or_500 (ListSSHKeys (principal identity)) (λ keys,
        if bool_decide (keys = []) then Ret (writeError 409 "register an SSH public key before requesting access") else
        let! now := nowUnix in
        or_500 (IssueSSHAccess (principal identity) (Host_ID host) sshUser (now + 300)) (λ grantID,
        Ret (respond 200 (V_command (Cmd_Program cmd) (Cmd_Args cmd) grantID))))
      end
    end)
  end).

Lemma issue_access_swp seen clock db identity host sshUser Q :
  has_tables db → known_ids (data db) ⊆ seen →
  (∀ resp s c, Response_Status resp ≠ 200%Z → Q resp db s c) →
  (∀ resp k request id event at_ now s c,
     host_available (Host_ID host) (data db) = true → k ∈ ssh_keys (data db) → k_user_id k = principal identity →
     Q resp (set_data (issued request id event (principal identity) (Host_ID host) sshUser (at_ + 300) now (data db)) db) s c) →
  swp true seen clock (issue_access identity host sshUser) db Q.
Proof.
  intros Ht Hs Hno Hyes. unfold issue_access. apply or_500_swp, swp_reads; [by reading|]. intros [device|e] s1 c1 Hs1 Hc1; [|by apply Hno].
  destruct (usable_device device) as [d|]; [|by apply Hno]. destruct (ValidHostKeyFingerprint _); simpl; [|by apply Hno].
  apply or_500_swp, swp_reads; [by reading|]. intros [[discovery|]|e] s2 c2 Hs2 Hc2; [|by apply Hno..].
  destruct (host_command _ _ _ _) as [cmd|e]; [|by apply Hno].
  apply or_500_swp, ListSSHKeys_swp; [done|intros; by apply Hno|].
  case_bool_decide as Hk; [by apply Hno|]. sstep. sstep.
  destruct (filter (λ k, k_user_id k = principal identity) (ssh_keys (data db))) as [|k l] eqn:E; [by destruct Hk|].
  apply head_filter in E as [Hin Hu]. apply or_500_swp, issue_swp; [done|by do 2 (etrans; [|done])|intros; by apply Hno|].
  intros [g|e] request id event at_ s c Ha _; by eapply Hyes.
Qed.


End handlers.
