(* ===== verification/WebPortal.v ===== *)
(** * The portal (internal/web/web.go)

    The pages a browser asks for, over the store's operations.  A page is the
    tree of calls to gomponents that builds it, written here as data; what the
    library makes of a tree is a parameter.  The static files of Assets are not
    modelled.  The theorem says which rows of the tables a caller is shown. *)

From S2P Require Export CorePolicy IssueFacts GoTime.
Open Scope go_scope.

(** ** Pages as trees of gomponents' calls *)

(** [El f l] is the call of the element's function [f] on the nodes [l], [Attr]
    that of an attribute's function on its texts; [Text] and [Group] are the
    library's functions of those names. *)
Inductive Node :=
  | Text (text : string)
  | Attr (f : string) (args : list string)
  | El (f : string) (children : list Node)
  | Group (nodes : list Node).

(** What Render writes, and its error. *)
Class Gomponents := Render : Node → string * option error.

Definition Class_ (s : string) : Node := Attr "Class" [s].

Definition hx (name value : string) : Node := Attr "Attr" ["hx-" +:+ name; value].

Definition tr (cells : list Node) : Node := El "Tr" [Class_ "transition-colors hover:bg-forest-50"; Group cells].

Definition td (text class : string) : Node := El "Td" [Class_ ("px-5 py-4 align-top " +:+ class); Text text].

(** ** Texts *)

Definition shown_status (value : string) : string := if bool_decide (value = "") then "unknown" else value.

Definition short (value : string) : string :=
  if (String.length value <=? 30)%nat then value
  else stake 14 value +:+ "…" +:+ sdrop (String.length value - 10) value.

(** time.Unix(value, 0).UTC().Format, with minutes, a dash for no time. *)
Definition formatTime (value : Z) : string :=
  if (value <=? 0)%Z then "—" else
  let '(y, m, d) := civil_from_days (value / 86400) in
  let s := (value mod 86400)%Z in
  pad_int 4 y +:+ "-" +:+ pad_int 2 m +:+ "-" +:+ pad_int 2 d +:+ " " +:+
  pad_int 2 (s / 3600) +:+ ":" +:+ pad_int 2 (s / 60 mod 60) +:+ " UTC".

Definition formatUnix (value : option Z) : string :=
  match value with None => "—" | Some value => formatTime value end.

Definition role (identity : AuthContext) : string := if Auth_IsAdmin identity then "Administrator" else "User".

(** ** The frame *)

Definition document (title : string) (body : Node) : Node :=
  El "Doctype" [El "HTML" [Attr "Lang" ["en"];
    El "Head" [
      El "Meta" [Attr "Charset" ["utf-8"]];
      El "Meta" [Attr "Name" ["viewport"]; Attr "Content" ["width=device-width, initial-scale=1, viewport-fit=cover"]];
      El "Meta" [Attr "Name" ["description"]; Attr "Content" ["Secure SSH access for managed devices"]];
      El "Meta" [Attr "Name" ["htmx-config"];
        Attr "Content" [print (JObj [("noSwap", JArr [JNum "204"; JNum "304"; JStr "4xx"; JStr "5xx"])])]];
      El "TitleEl" [Text title];
      El "Link" [Attr "Rel" ["icon"]; Attr "Type" ["image/png"]; Attr "Sizes" ["214x256"]; Attr "Href" ["/assets/ternal-icon-256.png"]];
      El "Link" [Attr "Rel" ["stylesheet"]; Attr "Href" ["/assets/app.css"]];
      El "Script" [Attr "Src" ["/assets/htmx.min.js"]; Attr "Defer" []]];
    body]].

Definition brand : Node :=
  El "A" [Attr "Href" ["/"]; Attr "Aria" ["label"; "Ternal home"]; Class_ "inline-flex max-w-full rounded-sm bg-ink-50 p-2 no-underline";
    El "Img" [Attr "Src" ["/assets/ternal-logo-640.png"]; Attr "Alt" ["Ternal logo"]; Attr "Width" ["640"]; Attr "Height" ["251"];
      Class_ "h-auto w-36 max-w-full sm:w-40"]].

Definition landing : Node :=
  document "Ternal · SSH for device management"
    (El "Body" [
      Class_ "min-h-screen bg-ink-900 text-ink-100";
      El "Main" [
        Class_ "mx-auto grid min-h-screen max-w-7xl content-between gap-20 px-6 py-8 sm:px-10 lg:px-16";
        El "Header" [Class_ "flex items-center justify-between border-b border-ink-700 pb-5"; brand;
          El "Span" [Class_ "text-xs font-semibold tracking-[0.2em] text-ink-400"; Text "CONTROL PLANE"]];
        El "Section" [
          Class_ "grid items-end gap-12 lg:grid-cols-[1.4fr_0.6fr]";
          El "Div" [
            El "P" [Class_ "mb-5 text-xs font-bold tracking-[0.22em] text-forest-100"; Text "ZERO STANDING CREDENTIALS"];
            El "H1" [Class_ "max-w-4xl text-5xl font-semibold leading-[0.98] tracking-[-0.045em] text-ink-50 sm:text-7xl";
              Text "Reach managed devices without leaving permanent SSH access behind."]];
          El "Div" [
            Class_ "border-l border-ink-700 pl-6";
            El "P" [Class_ "mb-7 text-base leading-7 text-ink-200";
              Text "Short-lived grants, explicit policy, and strict host identity verification for every session."];
            El "A" [Attr "Href" ["/auth/login"];
              Class_ "inline-flex min-h-12 items-center bg-forest-500 px-6 text-sm font-bold text-ink-50 transition-colors hover:bg-forest-600";
              Text "Sign in with your organization"]]];
        El "Footer" [Class_ "grid gap-4 border-t border-ink-700 pt-5 text-xs text-ink-400 sm:grid-cols-3";
          El "Span" [Text "01 · Identity verified"];
          El "Span" [Text "02 · Policy evaluated"];
          El "Span" [Text "03 · Access expires"]]]]).

Definition nav_names (identity : AuthContext) : list (string * string) :=
  if Auth_IsAdmin identity
  then [("hosts", "Hosts"); ("keys", "SSH keys"); ("policies", "Policies"); ("access", "Access"); ("audit", "Audit")]
  else [("hosts", "Hosts"); ("keys", "SSH keys"); ("access", "Access")].

Definition nav_item (active : string) (item : string * string) : Node :=
  let current := bool_decide (fst item = active) in
  let class := if current then "min-h-11 bg-ink-700 px-3 py-3 text-sm font-semibold text-ink-50"
    else "min-h-11 px-3 py-3 text-sm font-semibold text-ink-400 transition-colors hover:bg-ink-700 hover:text-ink-50" in
  let url := "/?view=" +:+ fst item in
  El "A" ([Attr "Href" [url]; Class_ class; hx "get" url; hx "target" "#workspace"; hx "swap" "outerHTML"; hx "push-url" "true"] ++
    (if current then [Attr "Aria" ["current"; "page"]] else []) ++ [Text (snd item)]).

Definition navItems (identity : AuthContext) (active : string) : list Node := nav_item active <$> nav_names identity.

Definition navigation (identity : AuthContext) (active : string) (outOfBand : bool) : Node :=
  El "Nav" ([Attr "ID" ["workspace-navigation"]; Attr "Aria" ["label"; "Workspace"];
    Class_ "mt-8 grid grid-cols-2 gap-1 sm:grid-cols-5 lg:grid-cols-1"] ++
    (if outOfBand then [hx "swap-oob" "outerHTML"] else []) ++ [Group (navItems identity active)]).

Definition page (identity : AuthContext) (active : string) (workspace : Node) : Node :=
  document "Ternal · Control plane"
    (El "Body" [
      Class_ "min-h-screen bg-ink-50";
      El "A" [Attr "Href" ["#workspace"];
        Class_ "sr-only focus:not-sr-only focus:fixed focus:left-4 focus:top-4 focus:z-50 focus:bg-ink-900 focus:px-4 focus:py-3 focus:text-ink-50";
        Text "Skip to workspace"];
      El "Div" [Class_ "min-h-screen lg:grid lg:grid-cols-[17rem_1fr]";
        El "Aside" [Class_ "border-b border-ink-200 bg-ink-900 px-5 py-6 text-ink-100 lg:fixed lg:inset-y-0 lg:w-[17rem] lg:border-b-0 lg:border-r lg:border-ink-700";
          brand;
          navigation identity active false;
          El "Div" [Class_ "mt-8 border-t border-ink-700 pt-5 text-sm";
            El "P" [Class_ "font-semibold text-ink-100"; Text (User_Subject (Auth_User identity))];
            El "P" [Class_ "mt-1 text-xs text-ink-400"; Text (role identity)];
            El "Form" [Attr "Method" ["post"]; Attr "Action" ["/auth/logout"]; Class_ "mt-4";
              El "Input" [Attr "Type" ["hidden"]; Attr "Name" ["_csrf"]; Attr "Value" [Auth_CSRFToken identity]];
              El "Button" [Attr "Type" ["submit"];
                Class_ "min-h-11 text-sm font-semibold text-ink-200 underline-offset-4 hover:text-ink-50 hover:underline";
                Text "Sign out"]]]];
        El "Main" [Class_ "lg:col-start-2"; workspace]]]).

(** ** Tables *)

Definition dataTable (caption : string) (headers : list string) (rows : list Node) (empty : string) : Node :=
  let body := if bool_decide (length rows = 0)
    then El "Tr" [El "Td" [Attr "ColSpan" [strconv.FormatInt (Z.of_nat (length headers))]; Class_ "px-5 py-12 text-center text-sm text-ink-500"; Text empty]]
    else Group rows in
  El "Section" [Class_ "overflow-hidden border border-ink-200 bg-white";
    El "Div" [Class_ "flex items-center justify-between border-b border-ink-200 px-5 py-4";
      El "H2" [Class_ "text-lg font-semibold text-ink-900"; Text caption];
      El "Span" [Class_ "text-xs font-bold tracking-[0.12em] text-ink-400"; Text (strconv.FormatInt (Z.of_nat (length rows)) +:+ " TOTAL")]];
    El "Div" [Class_ "overflow-x-auto";
      El "Table" [Attr "Aria" ["label"; caption]; Class_ "w-full min-w-[44rem] border-collapse text-left text-sm";
        El "THead" [Class_ "bg-ink-100 text-xs uppercase tracking-[0.1em] text-ink-500";
          El "Tr" ((λ label, El "Th" [Attr "Scope" ["col"]; Class_ "px-5 py-3 font-bold"; Text label]) <$> headers)];
        El "TBody" [Class_ "divide-y divide-ink-200"; body]]]].

Definition host_tr (item : Host) : Node :=
  tr [td (Host_Name item) "font-semibold text-ink-900"; td (shown_status (Host_Status item)) ""; td (Host_SSHUser item) "";
    td (strconv.FormatInt (Host_SSHPort item)) "tabular-nums"; td (short (Host_EndpointID item)) "font-mono text-xs";
    td (formatUnix (Host_LastSeen item)) "tabular-nums"].

Definition hostsTable (items : list Host) : Node :=
  dataTable "Registered SSH hosts" ["Name"; "Status"; "User"; "Port"; "Endpoint"; "Last seen"] (host_tr <$> items) "No hosts registered yet.".

Definition key_tr (item : SshKey) : Node :=
  tr [td (short (SshKey_Fingerprint item)) "font-mono text-xs"; td (short (SshKey_PublicKey item)) "font-mono text-xs";
    td (formatTime (SshKey_CreatedAt item)) "tabular-nums"].

Definition keysTable (items : list SshKey) : Node :=
  dataTable "Registered SSH public keys" ["Fingerprint"; "Public key"; "Created"] (key_tr <$> items) "No SSH keys registered yet.".

Definition policy_tr (item : Policy) : Node :=
  tr [td (Policy_Name item) "font-semibold text-ink-900"; td (Policy_Principal item) ""; td (Policy_HostSelector item) "font-mono text-xs";
    td (strings.Join (Policy_SSHUsers item) ", ") ""; td (formatUnix (Policy_ExpiresAt item)) "tabular-nums"].

Definition policiesTable (items : list Policy) : Node :=
  dataTable "Organization access policies" ["Name"; "Principal"; "Host selector"; "SSH users"; "Expires"] (policy_tr <$> items)
    "No policies configured yet.".

Definition grant_tr (item : AccessGrant) : Node :=
  tr [td (AccessGrant_UserID item) ""; td (AccessGrant_HostID item) "font-mono text-xs"; td (AccessGrant_SSHUser item) "";
    td (formatTime (AccessGrant_ExpiresAt item)) "tabular-nums"].

Definition request_tr (item : AccessRequest) : Node :=
  tr [td (AccessRequest_UserID item) ""; td (AccessRequest_HostID item) "font-mono text-xs"; td (AccessRequest_SSHUser item) "";
    td (shown_status (AccessRequest_Status item)) ""; td (formatTime (AccessRequest_CreatedAt item)) "tabular-nums"].

Definition accessTables (grants : list AccessGrant) (requests : list AccessRequest) : Node :=
  El "Div" [Class_ "grid gap-10";
    dataTable "Issued access grants" ["User"; "Host"; "SSH user"; "Expires"] (grant_tr <$> grants) "No active grants.";
    dataTable "Access request decisions" ["Requester"; "Host"; "SSH user"; "Status"; "Created"] (request_tr <$> requests)
      "No access requests recorded."].

Definition event_tr (item : AuditEvent) : Node :=
  tr [td (formatTime (AuditEvent_CreatedAt item)) "tabular-nums"; td (AuditEvent_UserID item) "";
    td (AuditEvent_Action item) "font-semibold text-ink-900";
    td (AuditEvent_Resource item +:+ " / " +:+ AuditEvent_ResourceID item) "font-mono text-xs"].

Definition auditTable (items : list AuditEvent) : Node :=
  dataTable "Audit events" ["Time"; "Actor"; "Action"; "Target"] (event_tr <$> items) "No audit events recorded.".

(** ** Views *)

(** The content of a view, its title and its description. *)
Definition view (identity : AuthContext) (name : string) : prog storeE (result (Node * string * string)) :=
  if bool_decide (name = "hosts") then
    items ←? ListHosts;
    items ←? (if Auth_IsAdmin identity then Ret (Ok items) else
      policies ←? ListPolicies;
      let! now := nowUnix in
      Ret (Ok (FilterVisibleHosts now (authClaims identity) items policies)));
    Ret (Ok (hostsTable items, "Host inventory", "Registered endpoints and just-in-time SSH access."))
  else if bool_decide (name = "keys") then
    items ←? ListSSHKeys (principal identity);
    Ret (Ok (keysTable items, "SSH keys", "User credentials authorized for access grants."))
  else if bool_decide (name = "policies") then
    if negb (Auth_IsAdmin identity) then Ret (Err (Errorf "administrator access required")) else
    items ←? ListPolicies;
    Ret (Ok (policiesTable items, "Access policies", "Organization principals mapped to host selectors."))
  else if bool_decide (name = "access") then
    grants ←? (if Auth_IsAdmin identity then ListAccessGrants else ListUserAccessGrants (principal identity));
    requests ←? (if Auth_IsAdmin identity then ListAccessRequests else ListUserAccessRequests (principal identity));
    Ret (Ok (accessTables grants requests, "Access control", "Short-lived grants and their policy decisions."))
  else if bool_decide (name = "audit") then
    if negb (Auth_IsAdmin identity) then Ret (Err (Errorf "administrator access required")) else
    items ←? ListAuditEvents 100;
    Ret (Ok (auditTable items, "Audit log", "Access and administration activity retained for review."))
  else Ret (Err (Errorf "unknown view")).

(** strings.ToUpper on the name of a view. *)
Fixpoint upper (s : string) : string :=
  match s with
  | "" => ""
  | String c s => String (if between "a" "z" c then ascii_of_N (byte_of c - 32) else c) (upper s)
  end%string.

Definition section (name title description : string) (content : Node) : Node :=
  El "Section" [Attr "ID" ["workspace"]; Attr "TabIndex" ["-1"]; Class_ "mx-auto max-w-[94rem] px-5 py-8 sm:px-8 lg:px-12 lg:py-12";
    El "Header" [Class_ "mb-10 grid gap-4 border-b border-ink-200 pb-7 sm:grid-cols-[1fr_auto] sm:items-end";
      El "Div" [
        El "P" [Class_ "mb-2 text-xs font-bold tracking-[0.18em] text-forest-600"; Text ("CONTROL PLANE / " +:+ upper name)];
        El "H1" [Class_ "text-4xl font-semibold tracking-[-0.04em] text-ink-900 sm:text-5xl"; Text title];
        El "P" [Class_ "mt-3 max-w-2xl text-base leading-7 text-ink-500"; Text description]];
      El "Button" [Attr "Type" ["button"];
        Class_ "min-h-11 border border-ink-200 bg-white px-4 text-sm font-semibold text-ink-700 hover:border-ink-400";
        hx "get" ("/?view=" +:+ name); hx "target" "#workspace"; hx "swap" "outerHTML"; Text "Refresh data"]];
    content].

Definition workspace (identity : AuthContext) (name : string) : prog storeE (result Node) :=
  v ←? view identity name;
  let '(content, title, description) := v in
  Ret (Ok (section name title description content)).

(** ** The handler *)

Record WebResponse := mkWeb { Web_Status : Z; Web_Headers : list (string * string); Web_Body : string }.

(** http.Error, after Cache-Control has been set. *)
Definition http_Error (msg : string) (status : Z) : WebResponse :=
  mkWeb status [("Cache-Control", "no-store"); ("Content-Type", "text/plain; charset=utf-8"); ("X-Content-Type-Options", "nosniff")]
    (msg +:+ bytes [10]).

Section handler.
Context `{Gomponents}.

(** A rendering that fails has sent the status with what it wrote first; an
    error that comes before anything was written still chooses it. *)
Definition rendered (n : Node) : WebResponse :=
  let (written, err) := Render n in
  let html := [("Cache-Control", "no-store"); ("Content-Type", "text/html; charset=utf-8")] in
  match err with
  | None => mkWeb 200 html written
  | Some _ =>
    if bool_decide (written = "") then http_Error "Unable to render the page." 500
    else mkWeb 200 html (written +:+ "Unable to render the page." +:+ bytes [10])
  end.

Definition requested_view (r : Request) : string :=
  if bool_decide (Http.Query r "view" = "") then "hosts" else Http.Query r "view".

(** The whole page, or for htmx the workspace and the navigation. *)
Definition page_of (r : Request) (identity : AuthContext) (workspace : Node) : Node :=
  if bool_decide (Header r "HX-Request" = "true")
  then Group [workspace; navigation identity (requested_view r) true]
  else page identity (requested_view r) workspace.

Definition Index (r : Request) (who : option AuthContext) : prog storeE WebResponse :=
  match who with
  | None => Ret (rendered landing)
  | Some identity =>
    if negb (Auth_IsAdmin identity) && (bool_decide (requested_view r = "policies") || bool_decide (requested_view r = "audit"))
    then Ret (http_Error "Administrator access required." 403) else
    let! ws := workspace identity (requested_view r) in
    match ws with
    | Err _ => Ret (http_Error "Unable to load the workspace." 500)
    | Ok ws => Ret (rendered (page_of r identity ws))
    end
  end.

End handler.

(** ** What a caller is shown *)

Inductive shown_items :=
  | Hosts_shown (items : list Host)
  | Keys_shown (items : list SshKey)
  | Policies_shown (items : list Policy)
  | Access_shown (grants : list AccessGrant) (requests : list AccessRequest)
  | Audit_shown (items : list AuditEvent).

Definition shown_name (x : shown_items) : string :=
  match x with
  | Hosts_shown _ => "hosts" | Keys_shown _ => "keys" | Policies_shown _ => "policies"
  | Access_shown _ _ => "access" | Audit_shown _ => "audit"
  end.

Definition shown_view (x : shown_items) : Node * string * string :=
  match x with
  | Hosts_shown items => (hostsTable items, "Host inventory", "Registered endpoints and just-in-time SSH access.")
  | Keys_shown items => (keysTable items, "SSH keys", "User credentials authorized for access grants.")
  | Policies_shown items => (policiesTable items, "Access policies", "Organization principals mapped to host selectors.")
  | Access_shown grants requests =>
      (accessTables grants requests, "Access control", "Short-lived grants and their policy decisions.")
  | Audit_shown items => (auditTable items, "Audit log", "Access and administration activity retained for review.")
  end.

Definition shown_section (x : shown_items) : Node :=
  let '(content, title, description) := shown_view x in section (shown_name x) title description content.

Definition all_hosts (t : tables) : list Host := host_of_row <$> order_by (by_text h_name) (hosts t).
Definition all_policies (t : tables) : list Policy := policy_of_row <$> order_by (by_text p_name) (policies t).

(** The rows of the caller, or all of them for an administrator. *)
Definition caller_rows {A} (identity : AuthContext) (user : A → string) (at_ : A → Z) (l : list A) : list A :=
  if Auth_IsAdmin identity then order_by (newest at_) l
  else take userHistoryLimit (order_by (newest at_) (filter (λ x, user x = principal identity) l)).

(** What a caller may see of the tables, from the time [from] on. *)
Definition may_see (identity : AuthContext) (from : Z) (t : tables) (x : shown_items) : Prop :=
  match x with
  | Hosts_shown items => ∃ now, (from ≤ now)%Z ∧
      items = if Auth_IsAdmin identity then all_hosts t
              else filter (λ h, Exists (grants now (authClaims identity) h) (all_policies t)) (all_hosts t)
  | Keys_shown items =>
      items = key_of_row <$> order_by (newest k_created_at) (filter (λ k, k_user_id k = principal identity) (ssh_keys t))
  | Policies_shown items => Auth_IsAdmin identity = true ∧ items = all_policies t
  | Access_shown gs qs =>
      scan_rows grant_types read_grant (grant_columns <$> caller_rows identity g_user_id g_created_at (access_grants t)) = Ok gs ∧
      scan_rows request_types read_request (request_columns <$> caller_rows identity q_user_id q_created_at (access_requests t)) = Ok qs ∧
      (Auth_IsAdmin identity = true ∨
       Forall (λ g, AccessGrant_UserID g = principal identity) gs ∧ Forall (λ q, AccessRequest_UserID q = principal identity) qs)
  | Audit_shown items => Auth_IsAdmin identity = true ∧
      scan_rows [TString; TString; TString; TString; TString; TPointer TString; TPointer TString; TInt] read_audit
        (audit_columns <$> take 100 (order_by (newest a_created_at) (audit_events t))) = Ok items
  end.

Lemma scan_rows_keep {A B C} ts (read : list go_value → B) (columns : A → list value) (f : A → C) (g : B → C) rows l :
  (∀ x y, scan_row ts read (columns x) = Ok y → g y = f x) → scan_rows ts read (columns <$> rows) = Ok l → g <$> l = f <$> rows.
Proof.
  intros H. revert l. induction rows as [|x rows IH]; intros l; csimpl; [by intros [= <-]|].
  destruct (scan_row ts read (columns x)) as [y|e] eqn:E; [|done]. cbn [mbind result_bind].
  destruct (scan_rows ts read (columns <$> rows)) as [more|e] eqn:Em; [|done]. intros [= <-]. csimpl. by rewrite (H x y E), (IH more).
Qed.

Lemma scanned_grant_user g y : scan_row grant_types read_grant (grant_columns g) = Ok y → AccessGrant_UserID y = g_user_id g.
Proof.
  unfold scan_row, scanValues, grant_columns. destruct (g_ephemeral_key g); simpl.
  all: destruct (strconv.ParseInt _); [|destruct (ParseBool _)]; simpl; first [by intros [= <-]|done].
Qed.

Lemma scanned_request_user q y : scan_row request_types read_request (request_columns q) = Ok y → AccessRequest_UserID y = q_user_id q.
Proof. unfold scan_row, scanValues, request_columns. simpl. by intros [= <-]. Qed.

(** The rows of a caller who is no administrator stay that caller's when they
    have been read. *)
Lemma caller_rows_own {A B} identity (user : A → string) at_ (l : list A) (user' : B → string) items :
  Auth_IsAdmin identity = false → user' <$> items = user <$> caller_rows identity user at_ l →
  Forall (λ y, user' y = principal identity) items.
Proof.
  intros Ha H. apply Forall_forall. intros y Hy. assert (Hu : user' y ∈ user' <$> items) by (by apply list_elem_of_fmap_2).
  rewrite H in Hu. unfold caller_rows in Hu. rewrite Ha in Hu. apply list_elem_of_fmap in Hu as (x & -> & Hx).
  apply elem_of_take in Hx as (i & Hi & _). apply list_elem_of_lookup_2, order_by_elem, list_elem_of_filter in Hi. apply Hi.
Qed.

Section reads.
Context (seen : gset string) (clock : Z) (db : database) (Ht : has_tables db).

Lemma ListHosts_swp Q :
  wf (data db) → (∀ e, Q (Err e) db seen clock) → Q (Ok (all_hosts (data db))) db seen clock → swp true seen clock ListHosts db Q.
Proof.
  intros W He Hh. unfold ListHosts. repeat sstep; [apply He..|].
  replace (scan_rows _ _ _) with (Ok (all_hosts (data db))); [done|]. symmetry. unfold all_hosts.
  assert (Hrow : ∀ h, h ∈ order_by (by_text h_name) (hosts (data db)) → scan_row host_types read_host (host_columns h) = Ok (host_of_row h)).
  { intros h Hin%order_by_elem. apply scan_host_row. destruct (wf_hosts _ W) as [_ Hok]. rewrite Forall_forall in Hok.
    by destruct (Hok h Hin) as (_ & _ & ?). }
  induction (order_by _ _) as [|h l IH]; [done|]. csimpl. rewrite (Hrow h) by apply list_elem_of_here.
  cbn [mbind result_bind]. rewrite IH; [done|]. intros. by apply Hrow, list_elem_of_further.
Qed.

Lemma grants_swp identity (Q : result (list AccessGrant) → database → gset string → Z → Prop) :
  (∀ e, Q (Err e) db seen clock) →
  (∀ gs, scan_rows grant_types read_grant (grant_columns <$> caller_rows identity g_user_id g_created_at (access_grants (data db))) = Ok gs →
     Q (Ok gs) db seen clock) →
  swp true seen clock (if Auth_IsAdmin identity then ListAccessGrants else ListUserAccessGrants (principal identity)) db Q.
Proof.
  intros He Hg. unfold caller_rows in Hg. destruct (Auth_IsAdmin identity); [unfold ListAccessGrants|unfold ListUserAccessGrants].
  all: repeat sstep; [apply He..|]; destruct (scan_rows _ _ _) as [gs|e]; [by apply Hg|apply He].
Qed.

Lemma requests_swp identity (Q : result (list AccessRequest) → database → gset string → Z → Prop) :
  (∀ e, Q (Err e) db seen clock) →
  (∀ qs, scan_rows request_types read_request (request_columns <$> caller_rows identity q_user_id q_created_at (access_requests (data db))) = Ok qs →
     Q (Ok qs) db seen clock) →
  swp true seen clock (if Auth_IsAdmin identity then ListAccessRequests else ListUserAccessRequests (principal identity)) db Q.
Proof.
  intros He Hq. unfold caller_rows in Hq. destruct (Auth_IsAdmin identity); [unfold ListAccessRequests|unfold ListUserAccessRequests].
  all: repeat sstep; [apply He..|]; destruct (scan_rows _ _ _) as [qs|e]; [by apply Hq|apply He].
Qed.

(** A view is read from the tables, and shows what its caller may see. *)
Lemma view_swp identity name (Q : result (Node * string * string) → database → gset string → Z → Prop) :
  wf (data db) → (∀ e s c, Q (Err e) db s c) →
  (∀ x s c, name = shown_name x → may_see identity clock (data db) x → Q (Ok (shown_view x)) db s c) →
  swp true seen clock (view identity name) db Q.
Proof.
  intros W He Hx. unfold view.
  case_bool_decide as Hn; [|clear Hn; case_bool_decide as Hn; [|clear Hn; case_bool_decide as Hn; [|clear Hn; case_bool_decide as Hn;
    [|clear Hn; case_bool_decide as Hn]]]]; [..|by apply swp_ret].
  - sstep. apply ListHosts_swp; [done..|]. cbn [fst]. destruct (Auth_IsAdmin identity) eqn:Ha.
    + repeat sstep. apply (Hx (Hosts_shown (all_hosts (data db)))); [done|]. exists clock. by rewrite Ha.
    + sstep. sstep. apply ListPolicies_swp; [done..|]. sstep. sstep. sstep. rewrite FilterVisibleHosts_spec.
      apply (Hx (Hosts_shown _)); [done|]. exists now. by rewrite Ha.
  - sstep. apply ListSSHKeys_swp; [done..|]. sstep. by apply (Hx (Keys_shown _)).
  - destruct (Auth_IsAdmin identity) eqn:Ha; [|by apply swp_ret]. cbn [negb].
    sstep. apply ListPolicies_swp; [done..|]. sstep. by apply (Hx (Policies_shown _)).
  - sstep. apply grants_swp; [done|]. intros gs Hg. sstep. apply requests_swp; [done|]. intros qs Hq. sstep.
    apply (Hx (Access_shown gs qs)); [done|]. split; [done|]. split; [done|]. destruct (Auth_IsAdmin identity) eqn:Ha; [by left|right].
    split; [eapply caller_rows_own; [done|by eapply scan_rows_keep, Hg; apply scanned_grant_user]|].
    eapply caller_rows_own; [done|by eapply scan_rows_keep, Hq; apply scanned_request_user].
  - destruct (Auth_IsAdmin identity) eqn:Ha; [|by apply swp_ret]. cbn [negb].
    sstep. unfold ListAuditEvents. repeat sstep; [by apply He..|]. destruct (scan_rows _ _ _) as [items|e] eqn:E; [|by apply He].
    sstep. by apply (Hx (Audit_shown items)).
Qed.

End reads.

(** The API lists the hosts that the portal shows. *)
Lemma api_lists_the_same_hosts o w r identity :
  faulty o w → wf (data (sw_db w)) →
  outcome o (handleListHosts r (Some identity)) w (λ resp t, t = data (sw_db w) ∧
    ((∃ e, resp = writeFailure 500 e) ∨
     ∃ items, may_see identity (o_now o (sw_calls w)) t (Hosts_shown items) ∧ resp = respond 200 (V_public_hosts (publicHosts items)))).
Proof.
  intros Hw W. pose proof (fl_tables _ _ Hw) as Ht. apply outcome_faulty; [done|]. unfold handleListHosts.
  apply or_500_swp, ListHosts_swp; [done|done|intros e; by split; [|left; exists e]|]. cbn [with_identity].
  destruct (Auth_IsAdmin identity) eqn:Ha.
  - sstep. split; [done|right]. exists (all_hosts (data (sw_db w))). split; [|done]. exists (o_now o (sw_calls w)). by rewrite Ha.
  - apply or_500_swp, ListPolicies_swp; [done|intros e; by split; [|left; exists e]|]. sstep. sstep. sstep. split; [done|right].
    rewrite FilterVisibleHosts_spec. eexists. split; [|done]. exists now. by rewrite Ha.
Qed.

Section portal.
Context `{Gomponents}.

(** An administrator's view, asked for by somebody else. *)
Definition refuses_view (r : Request) (identity : AuthContext) : bool :=
  negb (Auth_IsAdmin identity) && (bool_decide (requested_view r = "policies") || bool_decide (requested_view r = "audit")).

(** [C20] The portal shows its callers what they may see.  Whatever calls fail, a page
    changes no table.  Without a session it is the landing page.  With one it
    is an error, or the view asked for, of the tables as they are: all hosts
    for an administrator, and for anybody else those, in their order, that some
    stored policy grants at a time the handler read; the caller's own SSH keys;
    every grant and request for an administrator, and for anybody else rows
    that are all the caller's.  Policies and the audit log are an
    administrator's, and anybody else who asks for them is refused. *)
Theorem portal_shows_what_its_caller_may_see o w r who :
  faulty o w → wf (data (sw_db w)) →
  outcome o (Index r who) w (λ resp t, t = data (sw_db w) ∧
    match who with
    | None => resp = rendered landing
    | Some identity =>
      if refuses_view r identity then resp = http_Error "Administrator access required." 403 else
      resp = http_Error "Unable to load the workspace." 500 ∨
      ∃ x, requested_view r = shown_name x ∧ may_see identity (o_now o (sw_calls w)) t x ∧
        resp = rendered (page_of r identity (shown_section x))
    end).
Proof.
  intros Hw W. apply outcome_faulty; [done|]. unfold Index. destruct who as [identity|]; [|by apply swp_ret].
  fold (refuses_view r identity). destruct (refuses_view r identity); [by apply swp_ret|].
  sstep. unfold workspace. sstep. apply view_swp; [apply (fl_tables _ _ Hw)|done|by intros; sstep; split; [|left]|].
  intros x s c Hn Hx. destruct (shown_view x) as [[content title] description] eqn:E. sstep. sstep. split; [done|right].
  exists x. split; [done|]. split; [done|]. unfold shown_section. by rewrite E, Hn.
Qed.

End portal.
