(* ===== verification/LockFacts.v ===== *)
(** * Operations hold their lock while they use the database, and only then

    Every operation of the store takes its lock once, releases it whatever the
    calls in between answer, and reads the database only with a lock and writes
    it only with the write lock.  No operation asks for a second lock, which
    the reader/writer lock of CtxRWMutex.v would never grant it. *)

From S2P Require Export ApiFacts.
Open Scope go_scope.

Inductive lock_mode := Reading | Writing.

(** ** Calls within a budget, under a lock *)

(** How many calls may follow; [None] is any number. *)
Definition budget : Type := option nat.

Definition one_call (b : budget) : option budget :=
  match b with None => Some None | Some 0 => None | Some (S n) => Some (Some n) end.

(** What a call needs to be held, and what is held after its answer.
    SessionRevoked alone reads without the lock, on purpose: the database
    orders it against revocations. *)
Definition lock_ok {X} (e : storeE X) (held : option lock_mode) : Prop :=
  match e with
  | AcquireRead | AcquireWrite => held = None
  | ReleaseRead => held = Some Reading
  | ReleaseWrite => held = Some Writing
  | Query names _ => held ≠ None ∨ names = ["revoked_sessions"]
  | Exec _ | Transaction _ => held = Some Writing
  | _ => True
  end.

Definition held_after {X} (e : storeE X) (held : option lock_mode) (x : X) : option lock_mode :=
  match e in storeE X return X → option lock_mode with
  | AcquireRead => λ ok, if ok : bool then Some Reading else held
  | AcquireWrite => λ ok, if ok : bool then Some Writing else held
  | ReleaseRead | ReleaseWrite => λ _, None
  | _ => λ _, held
  end x.

(** Whatever the answers, every call is allowed by what is held, and [Q] of the
    result, the budget left and the lock still held. *)
Fixpoint disciplined {A} (b : budget) (held : option lock_mode) (p : prog storeE A)
    (Q : A → budget → option lock_mode → Prop) : Prop :=
  match p with
  | Ret a => Q a b held
  | Call e k =>
    match one_call b with
    | None => False
    | Some b => lock_ok e held ∧ ∀ x, disciplined b (held_after e held x) (k x) Q
    end
  end.

(** It ends, without a lock. *)
Definition ends_unlocked {A} (_ : A) (_ : budget) (held : option lock_mode) : Prop := held = None.

Lemma disciplined_bind {A B} b held (p : prog storeE A) (f : A → prog storeE B) Q :
  disciplined b held p (λ a b held, disciplined b held (f a) Q) → disciplined b held (prog_bind p f) Q.
Proof.
  unfold prog_bind. revert b held. induction p as [a|X e k IH]; intros b held; [done|]. simpl.
  destruct (one_call b) as [b'|]; [|done]. intros [He Hk]. split; [done|]. intros x. by apply IH.
Qed.

Lemma disciplined_mono {A} b held (p : prog storeE A) (Q Q' : A → budget → option lock_mode → Prop) :
  (∀ a b held, Q a b held → Q' a b held) → disciplined b held p Q → disciplined b held p Q'.
Proof.
  intros HQ. revert b held. induction p as [a|X e k IH]; intros b held; [apply HQ|]. simpl.
  destruct (one_call b) as [b'|]; [|done]. intros [He Hk]. split; [done|]. intros x. by apply IH.
Qed.

Lemma disciplined_call {X} b b' held (e : storeE X) (Q : X → budget → option lock_mode → Prop) :
  one_call b = Some b' → lock_ok e held → (∀ x, Q x b' (held_after e held x)) → disciplined b held (call e) Q.
Proof. intros Hb He HQ. simpl. by rewrite Hb. Qed.

Ltac lock_step :=
  match goal with
  | |- disciplined _ _ (prog_bind _ _) _ => apply disciplined_bind
  | |- disciplined _ _ (call _) _ => eapply disciplined_call; [reflexivity|first [exact I|reflexivity|left; discriminate|right; reflexivity]|intros ?; cbn [held_after]]
  | |- disciplined _ _ (Ret _) _ => cbn [disciplined]
  | |- disciplined _ (if ?b then _ else _) _ _ => destruct b; cbv iota
  | |- disciplined _ _ (if ?b then _ else _) _ => destruct b
  | |- disciplined _ _ (match ?x with _ => _ end) _ => destruct x
  | |- disciplined _ _ (let _ := _ in _) _ => cbv zeta
  | |- disciplined _ _ ?p _ => let h := get_head p in unfold h
  | |- ends_unlocked _ _ _ => reflexivity
  end.

(** ** The operations *)

Definition max_calls : nat := 11.

Lemma operation_disciplined X p : store_operation X p → disciplined (Some max_calls) None p ends_unlocked.
Proof. unfold max_calls. destruct 1; repeat lock_step. Qed.

(** ** Runs *)

Definition holds (m : lock_mode) (held : option lock_mode) : Z :=
  match held, m with Some Reading, Reading | Some Writing, Writing => 1 | _, _ => 0 end.

Lemma call_balanced o {X} (e : storeE X) w held :
  lock_ok e held →
  let (x, w') := store_handler o X e w in
  sw_calls w' = S (sw_calls w) ∧
  (sw_readers w' - holds Reading (held_after e held x) = sw_readers w - holds Reading held)%Z ∧
  (sw_writers w' - holds Writing (held_after e held x) = sw_writers w - holds Writing held)%Z.
Proof.
  intros He. unfold store_handler. destruct (store_call o (sw_calls w) e (sw_db w)) as [x db'].
  destruct (lock_change e x) as [r wr] eqn:E. simpl. split; [done|].
  destruct e; simpl in *; subst; try destruct x; injection E as <- <-; simpl; lia.
Qed.

Lemma run_balanced o {A} (p : prog storeE A) b held w Q :
  disciplined b held p Q →
  let (a, w') := store_run o p w in
  ∃ b' held', Q a b' held' ∧
    (sw_readers w' - holds Reading held' = sw_readers w - holds Reading held)%Z ∧
    (sw_writers w' - holds Writing held' = sw_writers w - holds Writing held)%Z ∧
    match b with Some n => sw_calls w' ≤ sw_calls w + n | None => True end.
Proof.
  unfold store_run. revert b held w. induction p as [a|X e k IH]; intros b held w; simpl.
  { intros HQ. exists b, held. split_and!; [done|lia|lia|]. destruct b; [lia|done]. }
  destruct (one_call b) as [b1|] eqn:Eb; [|done]. intros [He Hk]. pose proof (call_balanced o e w held He) as Hc.
  destruct (store_handler o X e w) as [x w1]. destruct Hc as (Hn & Hr & Hw).
  specialize (IH x _ _ w1 (Hk x)). destruct (run (store_handler o) (k x) w1) as [a w'].
  destruct IH as (b' & held' & HQ & Hr' & Hw' & Hb). exists b', held'. split_and!; [done|lia|lia|].
  destruct b as [[|n]|]; simpl in Eb; [done| |done]. injection Eb as <-. lia.
Qed.

(** ** The requests *)

Lemma disciplined_unbounded {A} n held (p : prog storeE A) :
  disciplined (Some n) held p ends_unlocked → disciplined None held p (λ _ b held, b = None ∧ held = None).
Proof.
  revert n held. induction p as [a|X e k IH]; intros n held; [done|]. simpl. destruct n as [|n]; [done|].
  intros [He Hk]. split; [done|]. intros x. by eapply IH.
Qed.

Definition unlocked {A} (_ : A) (b : budget) (held : option lock_mode) : Prop := b = None ∧ held = None.

Lemma disciplined_reads_policies identity host user l :
  disciplined None None (some_policy_allows identity host user l) unlocked.
Proof. induction l as [|p l IH]; [done|]. cbn [some_policy_allows]. repeat lock_step; [done|exact IH]. Qed.

Lemma disciplined_policies identity host user l (Q : bool → budget → option lock_mode → Prop) :
  (∀ b, Q b None None) → disciplined None None (some_policy_allows identity host user l) Q.
Proof. intros HQ. eapply disciplined_mono; [|apply disciplined_reads_policies]. intros b ? ? [-> ->]. apply HQ. Qed.

(** In a request an operation is a program between two points without lock. *)
Lemma disciplined_then {A B} (p : prog storeE A) (f : A → prog storeE B) Q :
  disciplined None None p unlocked → (∀ a, disciplined None None (f a) Q) → disciplined None None (prog_bind p f) Q.
Proof.
  intros Hp Hf. apply disciplined_bind. eapply disciplined_mono; [|exact Hp]. intros a b held [-> ->]. apply Hf.
Qed.

Section requests.
Context `{Hurl : NetURL} `{Hsig : Ed25519} `{Hidp : IdentityProvider}
  (ParseAuthorizedKey : string → option (string * string * string * string)) (s : Server).

Lemma disciplined_configs hosts : disciplined None None (host_configs hosts) unlocked.
Proof.
  induction hosts as [|h l IH]; [done|]. cbn [host_configs]. apply disciplined_then; [repeat lock_step; by split|].
  intros entry. apply disciplined_then; [exact IH|]. intros more. by repeat lock_step.
Qed.

Ltac request_step :=
  match goal with
  | |- disciplined _ _ (prog_bind (host_configs _) _) _ => apply disciplined_then; [apply disciplined_configs|intros ?]
  | |- disciplined _ _ (some_policy_allows _ _ _ _) _ => apply disciplined_policies; intros ?
  | |- unlocked _ _ _ => by split
  | _ => lock_step
  end.

Lemma disciplined_guarded gs h :
  (∀ r a, disciplined None None (h r a) unlocked) → ∀ r a, disciplined None None (guarded gs h r a) unlocked.
Proof.
  intros Hh. induction gs as [|g gs IH]; intros r a; [apply Hh|].
  change (guarded (g :: gs) h) with (apply_guard g (guarded gs h)).
  destruct g; simpl; unfold RequireAuth, RequireAdmin, RequireCSRF; repeat (case_match; subst); first [apply IH|done].
Qed.

Lemma routes_disciplined route :
  route ∈ Router ParseAuthorizedKey s → ∀ r a, disciplined None None (route_handler route r a) unlocked.
Proof.
  intros Hr r a. unfold Router in Hr.
  repeat (apply elem_of_cons in Hr as [-> |Hr]; [cbn [route_handler]; solve [repeat request_step]|]).
  by apply elem_of_nil in Hr.
Qed.

Lemma identity_disciplined r : disciplined None None (identity_of s r) unlocked.
Proof. unfold identity_of, authenticate, authenticate_cookie, session_check. repeat request_step. Qed.

Lemma serve_disciplined route r :
  route ∈ Router ParseAuthorizedKey s → disciplined None None (serve s route r) unlocked.
Proof.
  intros Hr. unfold serve, AuthMiddlewareWithRevocation. cbv zeta. fold (identity_of s r).
  apply disciplined_then; [apply identity_disciplined|].
  intros [| |a]; [by split|apply disciplined_guarded; by apply routes_disciplined..].
Qed.

(** Every operation ends, with its lock released.  Whatever its calls
    answer (a lock not granted, a query or a transaction that fails, an answer
    that is lost), an operation of the store returns after at most 11 calls; it
    reads the database only with its lock and writes only with the write lock,
    asks for a lock only when it has none, and leaves the lock's readers and
    writers as they were.  So does a request, on every route, with all the
    operations that its handler and its middleware run. *)
Theorem locks_are_released o w X p route r :
  store_operation X p → route ∈ Router ParseAuthorizedKey s →
  disciplined (Some max_calls) None p ends_unlocked ∧
  (let w' := snd (store_run o p w) in
   sw_calls w' ≤ sw_calls w + max_calls ∧ sw_readers w' = sw_readers w ∧ sw_writers w' = sw_writers w) ∧
  (let w' := snd (store_run o (serve s route r) w) in
   sw_readers w' = sw_readers w ∧ sw_writers w' = sw_writers w).
Proof.
  intros Hp Hr. apply operation_disciplined in Hp. split_and!; [done|..].
  - pose proof (run_balanced o p _ _ w _ Hp) as H. destruct (store_run o p w) as [a w'].
    destruct H as (b & held & -> & H1 & H2 & H3). simpl in *. lia.
  - pose proof (run_balanced o _ _ _ w _ (serve_disciplined route r Hr)) as H.
    destruct (store_run o (serve s route r) w) as [a w']. destruct H as (b & held & [_ ->] & H1 & H2 & _). simpl in *. lia.
Qed.

End requests.
