(* ===== verification/OIDCFacts.v ===== *)
(** * What a login proves *)

From S2P Require Export AuthFacts IssueFacts.
Open Scope go_scope.

(** ** Claims *)

(** The session's claims are those of the token: of the configured issuer, for
    this client, with the expected nonce, and within the limits. *)
Record vouched (c : OIDCConfig) (raw : raw_claims) (nonce : string) (claims : AuthClaims) : Prop := {
  vc_issuer : User_Issuer claims = Config_Issuer c;
  vc_audience : ∃ l, audiences_of raw = Some l ∧ Config_ClientID c ∈ l;
  vc_nonce : nonce ≠ "" → claim raw "nonce" decode_string "" = Some nonce;
  vc_subject : claim raw "sub" decode_string "" = Some (User_Subject claims);
  vc_subject_size : 0 < String.length (User_Subject claims) ≤ 512;
  vc_groups : groups_of c raw = Some (User_Groups claims);
  vc_groups_size : length (list_of (User_Groups claims)) ≤ 128;
  vc_group_size g : g ∈ list_of (User_Groups claims) → 0 < String.length g ≤ 256;
  vc_custom name values :
    default ∅ (User_CustomClaims claims) !! name = Some values →
    name ∈ Config_PolicyClaims c ∧ ∃ j, raw !! name = Some j ∧ policyClaimValues j = Some values;
  vc_custom_size : String.length (print (json_of_custom (default ∅ (User_CustomClaims claims)))) ≤ maxPolicyClaimsJSONBytes;
}.

Definition custom_fits (m : gmap string slice) : Prop := String.length (print (json_of_custom m)) ≤ maxPolicyClaimsJSONBytes.

Lemma custom_fits_empty : custom_fits ∅.
Proof. apply Nat.leb_le. by vm_compute. Qed.

Lemma extract_claims_ok raw custom names m :
  extract_claims raw custom names = Ok m →
  (∀ name values, m !! name = Some values →
     custom !! name = Some values ∨ (name ∈ names ∧ ∃ j, raw !! name = Some j ∧ policyClaimValues j = Some values)) ∧
  (custom_fits custom → custom_fits m).
Proof.
  revert custom. induction names as [|name names IH]; intros custom; simpl; [intros [= <-]; auto|].
  destruct (raw !! name) as [j|] eqn:Ej.
  - destruct (policyClaimValues j) as [values|] eqn:Ev; [|done].
    destruct (maxPolicyClaimsJSONBytes <? _)%nat eqn:El; [done|]. intros [H1 H2]%IH. apply Nat.ltb_ge in El.
    split; [|auto]. intros name' values' [Hc|[Hin Hj]]%H1.
    + apply lookup_insert_Some in Hc as [[<- <-]|[_ Hc]]; [|by left]. right. split; [apply list_elem_of_here|by exists j].
    + right. split; [by apply list_elem_of_further|done].
  - intros [H1 H2]%IH. split; [|done]. intros name' values' [Hc|[Hin Hj]]%H1; [by left|right].
    split; [by apply list_elem_of_further|done].
Qed.

Lemma extractPolicyClaims_ok c raw o :
  extractPolicyClaims c raw = Ok o →
  (∀ name values, default ∅ o !! name = Some values →
     name ∈ Config_PolicyClaims c ∧ ∃ j, raw !! name = Some j ∧ policyClaimValues j = Some values) ∧
  custom_fits (default ∅ o).
Proof.
  unfold extractPolicyClaims. destruct (extract_claims _ _ _) as [m|] eqn:E; [|done]. simpl. intros [= <-].
  apply extract_claims_ok in E as [H1 H2]. assert (default ∅ (if bool_decide (m = ∅) then None else Some m) = m) as ->.
  { by case_bool_decide as Hm. }
  split; [|by apply H2, custom_fits_empty]. intros name values [Hn|H]%H1; [by rewrite lookup_empty in Hn|done].
Qed.

Lemma length_pos s : s ≠ "" → 0 < String.length s.
Proof. destruct s; [done|]. simpl. lia. Qed.

Lemma audience_ok raw clientID :
  validateAudienceAndAuthorizedParty raw clientID = None → ∃ l, audiences_of raw = Some l ∧ clientID ∈ l.
Proof.
  unfold validateAudienceAndAuthorizedParty. destruct (audiences_of raw) as [l|]; [|done].
  destruct (existsb _ l) eqn:E; [|done]. intros _. exists l. split; [done|].
  apply existsb_exists in E as (x & Hx & ->%bool_decide_eq_true). by apply list_elem_of_In.
Qed.

Lemma claims_of_token_ok c raw nonce claims : claims_of_token c raw nonce = Ok claims → vouched c raw nonce claims.
Proof.
  unfold claims_of_token. destruct (validateAudienceAndAuthorizedParty _ _) eqn:Ea; [done|]. apply audience_ok in Ea.
  destruct (negb _ && _) eqn:En; [done|]. destruct (claim raw "sub" _ _) as [subject|] eqn:Es; [|done].
  destruct (bool_decide (subject = "") || _) eqn:El; [done|]. apply orb_false_iff in El as [El1 El2].
  apply bool_decide_eq_false in El1. apply Nat.ltb_ge in El2.
  destruct (groups_of c raw) as [groups|] eqn:Eg; [|done].
  destruct (extractPolicyClaims c raw) as [custom|] eqn:Ec; [|done]. simpl. intros [= <-].
  apply extractPolicyClaims_ok in Ec as [Hc1 Hc2].
  assert (Hg : length (list_of groups) ≤ 128 ∧ ∀ g, g ∈ list_of groups → 0 < String.length g ≤ 256).
  { unfold groups_of in Eg. apply bind_Some in Eg as (gs & _ & Eg). cbv zeta in Eg.
    destruct (_ || _) eqn:E; [done|]. injection Eg as ->. apply orb_false_iff in E as [E1 E2]. apply Nat.ltb_ge in E1.
    split; [done|]. intros g Hg. apply not_true_iff_false in E2. rewrite existsb_exists in E2.
    destruct (bool_decide (g = "") || (256 <? String.length g)%nat) eqn:E.
    - destruct E2. exists g. split; [by apply list_elem_of_In|done].
    - apply orb_false_iff in E as [E3 E4]. apply bool_decide_eq_false in E3. apply Nat.ltb_ge in E4.
      split; [by apply length_pos|done]. }
  split; simpl; try done; try by apply Hg.
  - intros Hne. rewrite bool_decide_eq_false_2 in En by done. simpl in En. apply negb_false_iff, bool_decide_eq_true in En.
    destruct (claim raw "nonce" _ _); simpl in En; [by rewrite En|by rewrite En in Hne].
  - split; [by apply length_pos|done].
Qed.

(** ** The callback *)

Section callback.
Context `{Hurl : NetURL} `{Hidp : IdentityProvider} (s : Server).

Abbreviation c := (server_auth s).
Abbreviation key := (server_sessionKey s).

(** A login that has been completed, from the time [from] on. *)
Definition logged_in (r : Request) (from : Z) (resp : Response) : Prop :=
  ∃ stateCookie saved metadata idToken text raw claims csrf signed now now' ttl,
    CookieNamed r OIDCStateCookie = Some stateCookie ∧
    verifyValue stateCookie key (decode_struct login_fields) zero_login = Ok saved ∧
    (from ≤ now < ls_ExpiresAt saved)%Z ∧ ls_State saved = Http.Query r "state" ∧
    provider c = Ok metadata ∧ Exchange c metadata (Http.Query r "code") (ls_CodeVerifier saved) = Ok (Some idToken) ∧
    VerifyIDToken (Config_ClientID c) idToken = Some text ∧ Unmarshal decode_raw None text = Some raw ∧
    vouched c (default ∅ raw) (ls_Nonce saved) claims ∧
    (now ≤ now')%Z ∧ SignSession (mkSessionData claims csrf (now' + server_sessionTTL s)) key = Ok signed ∧
    (1 ≤ ttl ≤ server_sessionTTL s)%Z ∧
    Cookies resp = [ClearOIDCStateCookie (SecureCookies c); session_cookie signed ttl (SecureCookies c)].

Lemma verifyToken_ok idToken nonce claims :
  verifyToken c idToken nonce = Ok claims →
  ∃ rawIDToken text raw, idToken = Some rawIDToken ∧ VerifyIDToken (Config_ClientID c) rawIDToken = Some text ∧
    Unmarshal decode_raw None text = Some raw ∧ vouched c (default ∅ raw) nonce claims.
Proof.
  unfold verifyToken. destruct idToken as [t|]; [|done]. destruct (bool_decide (t = "")); [done|].
  destruct (VerifyIDToken _ t) as [text|] eqn:Ev; [|done]. destruct (Unmarshal decode_raw None text) as [raw|] eqn:Eu; [|done].
  intros H%claims_of_token_ok. eauto 10.
Qed.

Definition no_session (resp : Response) : Prop :=
  Response_Status resp ≠ 302%Z ∧ ∀ k, k ∈ Cookies resp → Cookie_Name k ≠ SessionCookie.

Lemma no_session_cleared status b w : status ≠ 302%Z → no_session (mkResponse status [ClearOIDCStateCookie b] [] w).
Proof. split; [done|]. by intros k ->%list_elem_of_singleton. Qed.

Lemma no_session_plain status w : status ≠ 302%Z → no_session (respond status w).
Proof. split; [done|]. by intros k Hk%elem_of_nil. Qed.

Lemma callback_swp seen clock db r who :
  swp true seen clock (handleAuthCallback s r who) db (λ resp d _ _, d = db ∧ (no_session resp ∨ logged_in r clock resp)).
Proof.
  unfold handleAuthCallback, with_oidc. destruct (NewOIDCClient c); [by split; [|left; apply no_session_plain]|]. cbv zeta.
  destruct (bool_decide _ || bool_decide _); [by split; [|left; apply no_session_plain]|].
  destruct (CookieNamed r OIDCStateCookie) as [stateCookie|] eqn:Ek; [|by split; [|left; apply no_session_plain]].
  sstep. unfold CompleteLogin. destruct (verifyValue _ _ _ _) as [saved|] eqn:Es; sstep; [|by split; [|left; apply no_session_cleared]].
  sstep. sstep. destruct (_ || _ || _ || _) eqn:Eg; [by split; [|left; apply no_session_cleared]|].
  rewrite !orb_false_iff in Eg. destruct Eg as [[[E1%Z.leb_gt E2] _] _]. apply negb_false_iff, bool_decide_eq_true in E2.
  destruct (provider c) as [metadata|] eqn:Ep; simpl; [|by split; [|left; apply no_session_cleared]].
  destruct (Exchange _ _ _ _) as [idToken|] eqn:Ex; [|by split; [|left; apply no_session_cleared]].
  destruct (verifyToken _ _ _) as [claims|] eqn:Et; [|by split; [|left; apply no_session_cleared]].
  apply verifyToken_ok in Et as (t & text & raw & -> & Ev & Eu & Hv).
  sstep. sstep. sstep. unfold issueSession. apply swp_try, swp_reads; [by reading|].
  intros [csrf|] seen' c' _ Hc; [|by split; [|left; apply no_session_cleared]].
  destruct (SignSession _ _) as [signed|] eqn:Esig; [|by split; [|left; apply no_session_cleared]].
  sstep. sstep. sstep. destruct (_ <? 1)%Z eqn:El; [by split; [|left; apply no_session_cleared]|]. apply Z.ltb_ge in El.
  apply swp_ret. split; [done|]. right. set (ttl := (now0 + _ - now1 - _)%Z) in *.
  assert (ttl ≤ server_sessionTTL s)%Z by (unfold ttl; destruct (first_nanos <? last_nanos)%Z; lia).
  exists stateCookie, saved, metadata, t, text, raw, claims, csrf, signed, now, now0, ttl. split_and!; done || lia.
Qed.

(** [C23] A login is completed only by whoever began it, as whom the provider
    vouches for.  Whatever calls fail, the callback changes nothing in the
    store, and either sets no session cookie and does not redirect; or its
    state parameter is the one of an unexpired, signed state cookie, the
    provider's endpoints are on the issuer's origin, the code was exchanged
    with that state's verifier for a token that verifies for this client, the
    session's claims are that token's (issuer, audience, nonce, subject, groups
    and the configured policy claims, within their limits), and the cookie set
    is this session, signed, for at most the configured time. *)
Theorem login_is_vouched_for o w r who :
  faulty o w →
  outcome o (handleAuthCallback s r who) w (λ resp t,
    t = data (sw_db w) ∧ (no_session resp ∨ logged_in r (o_now o (sw_calls w)) resp)).
Proof.
  intros Hw. apply outcome_faulty; [done|]. eapply swp_mono; [|apply callback_swp]. by intros resp d _ _ [-> H].
Qed.

End callback.

(** ** Signed values of two kinds under one key *)

Definition valid_login (l : loginState) : Prop :=
  ValidString (ls_State l) = true ∧ ValidString (ls_Nonce l) = true ∧ ValidString (ls_CodeVerifier l) = true ∧
  in_int64 (ls_ExpiresAt l).

Lemma printable_login l : valid_login l → printable 0 (json_of_login l).
Proof.
  intros (H1 & H2 & H3 & H4). apply printable_members_intro; [|done]. members; (split; [done|]); try done. by eexists.
Qed.

(** The members of a login state that a session has too: the expiry. *)
Lemma decode_login_as_session l :
  valid_login l → decode_struct session_fields zero_session (json_of_login l) = Some (mkSessionData zero_claims "" (ls_ExpiresAt l)).
Proof.
  intros (_ & _ & _ & H). unfold decode_struct, json_of_login. cbn [decode_members].
  assert (Hskip : ∀ name j s, name ∈ ["state"; "nonce"; "code_verifier"] → decode_member session_fields s (name, j) = Some s).
  { intros name j s Hn. by repeat (apply elem_of_cons in Hn as [->|Hn]; [reflexivity|]); apply elem_of_nil in Hn. }
  rewrite !Hskip by (apply (bool_decide_unpack _); reflexivity). cbn [mbind option_bind].
  rewrite !Hskip by (apply (bool_decide_unpack _); reflexivity). cbn [mbind option_bind].
  rewrite !Hskip by (apply (bool_decide_unpack _); reflexivity). cbn [mbind option_bind].
  erewrite decode_member_at by (reflexivity || (unfold decode_int64; by apply ParseInt_FormatInt)). done.
Qed.

Lemma decode_session_as_login d :
  valid_session d → decode_struct login_fields zero_login (json_of_session d) = Some (mkLoginState "" "" "" (Session_ExpiresAt d)).
Proof.
  intros (_ & _ & H). unfold decode_struct, json_of_session. cbn [decode_members].
  assert (Hskip : ∀ name j s, name ∈ ["user"; "csrf_token"] → decode_member login_fields s (name, j) = Some s).
  { intros name j s Hn. by repeat (apply elem_of_cons in Hn as [->|Hn]; [reflexivity|]); apply elem_of_nil in Hn. }
  rewrite !Hskip by (apply (bool_decide_unpack _); reflexivity). cbn [mbind option_bind].
  rewrite !Hskip by (apply (bool_decide_unpack _); reflexivity). cbn [mbind option_bind].
  erewrite decode_member_at by (reflexivity || (unfold decode_int64; by apply ParseInt_FormatInt)). done.
Qed.

Lemma verify_signed {A} j key cookie (d : decoder A) zero x :
  printable 0 j → signValue j key = Ok cookie → String.length cookie ≤ 32 * 1024 → d zero j = Some x →
  verifyValue cookie key d zero = Ok x.
Proof.
  intros Hp [Hk ->]%signValue_ok Hl Hd. apply verifyValue_ok. split_and!; [done|done|]. do 2 eexists. split_and!.
  - apply SplitN3_signed, base64_no_dot.
  - apply raw_decode_encode.
  - unfold Unmarshal. by rewrite parse_print.
Qed.

(** The two kinds of signed values, sessions and login states, share their
    key and format, and only the contents keep them apart.  A login state,
    which anyone obtains from /auth/login, verifies as a session of nobody
    (empty issuer, subject and groups) until it expires; the middleware takes
    no such session when it expects an issuer.  A session cookie never
    completes a login. *)
Theorem login_state_is_no_login key cookie :
  (∀ l now, valid_login l → signValue (json_of_login l) key = Ok cookie → String.length cookie ≤ 32 * 1024 →
     (now < ls_ExpiresAt l)%Z →
     verifySessionAt cookie key now = Ok (mkSessionData zero_claims "" (ls_ExpiresAt l)) ∧
     ∀ adminGroup expectedIssuer revoked o w, expectedIssuer ≠ "" →
       fst (store_run o (authenticate_cookie key adminGroup expectedIssuer revoked cookie) w) = Anonymous) ∧
  (∀ d, valid_session d → SignSession d key = Ok cookie →
     ∀ `(NetURL) `(IdentityProvider) c code state o w,
       is_Ok (fst (store_run o (CompleteLogin c code state cookie key) w)) = false).
Proof.
  split.
  - intros l now Hv Hs Hl Hn.
    assert (E : verifyValue cookie key (decode_struct session_fields) zero_session = Ok (mkSessionData zero_claims "" (ls_ExpiresAt l))).
    { eapply verify_signed; [by apply printable_login|done|done|by apply decode_login_as_session]. }
    unfold verifySessionAt. split; [rewrite E; simpl; by apply Z.leb_gt in Hn as ->|].
    intros adminGroup expectedIssuer revoked o w Hne. unfold authenticate_cookie, verifySessionAt. rewrite E.
    unfold store_run. simpl. rewrite run_bind. simpl. destruct (ls_ExpiresAt l <=? _)%Z; [done|].
    by rewrite !bool_decide_eq_false_2 by done.
  - intros d Hv Hs ? ? c code state o w. unfold SignSession in Hs. destruct (signValue _ key) as [signed|] eqn:E; [|done].
    simpl in Hs. destruct (maxSessionCookieBytes <? _)%nat eqn:El; [done|]. injection Hs as <-. apply Nat.ltb_ge in El.
    unfold CompleteLogin. erewrite verify_signed;
      [|by apply printable_session|exact E|unfold maxSessionCookieBytes in El; lia|by apply decode_session_as_login].
    unfold store_run. simpl. by rewrite !orb_true_r.
Qed.
