(* ===== verification/ApiExamples.v ===== *)
(** * A sample deployment, through its store, its API and its portal

    A node and a small database, then sessions, signed requests and issued
    access on them, to which the properties of the store, of the API and of the
    portal are applied. *)

From S2P Require Export StoreRuns StoreHostFacts StoreAccessFacts StoreDeviceFacts StoreEnrollFacts StoreSnapshotFacts AuthFacts AgentFacts IssueFacts WebPortal OIDCFacts LockFacts.
Open Scope go_scope.

(** ** A sample deployment

    A node that serves every call (or some of them) and a small database with
    one host, its device, two users' grants, a token and a batch, on which the
    properties of the store are applied. *)

(** ** The node *)

Definition sample_oracle (fault : nat → fault) : oracle :=
  Oracle (λ n, "#" +:+ pretty n) (λ n, (1000 + Z.of_nat n)%Z)
    (λ _ n, Ok (String.string_of_list_ascii (replicate n "r"%char))) fault.

Definition node : oracle := sample_oracle (λ _, Served).

(** The answer of call [k] is lost, everything else is served. *)
Definition losing_node (k : nat) : oracle :=
  sample_oracle (λ n, if bool_decide (n = k) then Lost (Errorf "answer lost") else Served).

Lemma sample_ids_inj fault : Inj (=) (=) (o_id (sample_oracle fault)).
Proof. intros n m [= E]. by apply pretty_nat_inj in E. Qed.

(** ** The database *)

Definition sample_host : hosts_row :=
  HostRow "host-1" "web-1" "endpoint-1" "ubuntu" "[]" 22 "online" "ops" (Some 900%Z) 500 500.

Definition sample_device : devices_row :=
  DeviceRow "device-1" "host-1" "endpoint-1" "SHA256:host" "device-key-1" "manufactured" (Some "sn-0001") None 500
    (Some 900%Z).

Definition sample_grant (id user : string) : access_grants_row :=
  AccessGrantRow id ("request-of-" +:+ id) user "host-1" "ubuntu" 5000 None 0 700.

Definition sample_tables : tables :=
  {| hosts := [sample_host];
     policies := [];
     ssh_keys := [SshKeyRow "key-1" "alice" "ssh-ed25519 AAAA" "SHA256:alice" 600];
     access_requests := [];
     access_grants := [sample_grant "grant-1" "alice"; sample_grant "grant-2" "bob"];
     revoked_sessions := [RevokedSessionRow "old" 10];
     audit_events := [audit "event-1" "host.created" "host" "host-1" "ops" 500];
     manufacturing_tokens := [ManufacturingTokenRow "token-1" (hashSecret "secret") None None 400];
     manufacturing_batches := [ManufacturingBatchRow "batch-1" "spring" "sn" (hashSecret "bulk") "open" 9000 2 1 None 400];
     devices := [sample_device];
     endpoint_discovery := [];
     relay_access_grants := [RelayAccessGrantRow "relay-1" "host-1" "client-1" 5000 700];
     authorized_keys_snapshots := [];
     authorized_keys_snapshot_grants := [] |}.

Definition sample_db : database := Database (list_to_set table_names) None [] sample_tables.

Definition sample_world : store_world := StoreWorld sample_db 0 0 0.

(** The device of the sample is revoked. *)
Definition revoked_db : database :=
  set_data (with_rows Devices [set_revoked 950 sample_device] sample_tables) sample_db.

Lemma sample_has_tables : has_tables sample_db.
Proof. 
  intros n Hn. apply bool_decide_eq_true. change (n ∈ (list_to_set table_names : gset string)).
  by rewrite elem_of_list_to_set.
Qed.

(** No identifier of the sample begins with a hash sign. *)
Lemma sample_fresh fault m : o_id (sample_oracle fault) m ∉ known_ids sample_tables.
Proof.
  unfold known_ids. rewrite elem_of_list_to_set. intros H. simpl in H.
  repeat (apply elem_of_cons in H as [H|H]; [discriminate H|]). by apply elem_of_nil in H.
Qed.

Lemma node_healthy : healthy node sample_world.
Proof.
  split; [done|apply sample_ids_inj|intros m _; apply sample_fresh| |apply sample_has_tables].
  intros n m H. simpl. lia.
Qed.

Lemma losing_node_faulty k : faulty (losing_node k) sample_world.
Proof.
  split; [|apply sample_ids_inj|intros m _; apply sample_fresh| |apply sample_has_tables].
  - intros n. simpl. by case_bool_decide.
  - intros n m H. simpl. lia.
Qed.

Ltac each := repeat (apply Forall_cons; split); try (apply Forall_nil; exact I).

Lemma singleton_rows {A} (x : A) (P : A → Prop) : P x → ∀ y, y ∈ [x] → P y.
Proof. by intros H y ->%list_elem_of_singleton. Qed.

Lemma sample_rows_wf device :
  device_ok device → d_host_id device = "host-1" → wf (with_rows Devices [device] sample_tables).
Proof.
  intros Hd Hh. split; simpl.
  all: try (split; [reflexivity|each; try exact I; try done; try by left]).
  - split_and!; try (simpl; lia). left. split_and!; [done|done|simpl; lia].
  - apply singleton_rows. rewrite Hh. apply list_elem_of_here.
  - apply NoDup_singleton.
  - apply singleton_rows. unfold has_device. simpl. rewrite Hh. apply list_elem_of_here.
  - by intros n Hn%elem_of_nil.
  - by intros n Hn%elem_of_nil.
Qed.

Lemma sample_wf : wf sample_tables.
Proof. apply (sample_rows_wf sample_device); [|done]. split_and!; [by exists "sn-0001"|done|by left]. Qed.

Lemma revoked_wf : wf (data revoked_db).
Proof.
  apply (sample_rows_wf (set_revoked 950 sample_device)); [|done].
  split_and!; [by exists "sn-0001"|done|right; split; [done|by eexists]].
Qed.

(** ** Interleavings *)

Section drive.
Context (o : oracle).

(** The call of task [i], as the [n]-th of the run. *)
Definition step_task (n i : nat) (s : store_pool) : store_pool :=
  match s.2 !! i with
  | Some (Call e k) => let (x, db') := store_call o n e s.1 in (db', <[i := k x]> s.2)
  | _ => s
  end.

Fixpoint drive (n : nat) (l : list nat) (s : store_pool) : store_pool :=
  match l with [] => s | i :: l => drive (S n) l (step_task n i s) end.

Context (operation : prog storeE unit → Prop).

Lemma drive_steps n l s0 s : store_steps operation s0 s → store_steps operation s0 (drive n l s).
Proof.
  revert n s. induction l as [|i l IH]; intros n s H; [done|]. simpl. apply IH. unfold step_task.
  destruct s as [db ts]. simpl. destruct (ts !! i) as [[|X e k]|] eqn:Ei; try done.
  destruct (store_call o n e db) as [x db'] eqn:Ec. eapply store_more; [exact H|]. by eapply store_calls.
Qed.

Lemma started db ts : Forall operation ts → store_steps operation (db, []) (db, ts).
Proof.
  induction ts as [|p ts IH] using rev_ind; [intros; apply store_refl|].
  intros [H [Hp _]%Forall_cons]%Forall_app. eapply store_more; [by apply IH|]. by apply store_starts.
Qed.

End drive.

(** A revocation of the device, an access request and a new batch, call by call in turn. *)
Definition sample_tasks : list (prog storeE unit) :=
  [forget (DeleteDevice "device-1" "ops"); forget (IssueSSHAccess "alice" "host-1" "ubuntu" 5000);
   forget (PublishAuthorizedKeysSnapshot "host-1" "ubuntu")].

Definition sample_turns : list nat := concat (replicate 12 [0; 1; 2]).

Definition driven (db : database) : store_pool := drive node 0 sample_turns (db, sample_tasks).

Lemma driven_steps X db : store_steps (store_operation X) (db, []) (driven db).
Proof. apply drive_steps, started. each; constructor. Qed.

Lemma driven_pair X db : store_steps (store_operation X) (db, []) ((driven db).1, (driven db).2).
Proof. rewrite <- surjective_pairing. apply driven_steps. Qed.

(** ** The properties, on the sample *)

Lemma store_stays_well_formed_witness :
  length (audit_events (data (driven sample_db).1)) = 2 ∧ wf (data (driven sample_db).1).
Proof.
  split; [by vm_compute|].
  apply (store_stays_well_formed sample_db _ (driven sample_db).2); [apply sample_wf|apply driven_pair].
Defined.

Lemma history_is_kept_witness :
  audit_events sample_tables `prefix_of` audit_events (data (driven sample_db).1) ∧
  ∀ b, b ∈ manufacturing_batches sample_tables → ∃ b', b' ∈ manufacturing_batches (data (driven sample_db).1) ∧
    same_batch b b' ∧ (b_used_count b ≤ b_used_count b' ≤ b_max_devices b)%Z ∧ (b_status b = "closed" → b' = b).
Proof.
  apply (history_is_kept sample_db _ (driven sample_db).2); [apply sample_wf|apply driven_pair].
Defined.

Lemma revocation_is_final_witness :
  (∀ d, d ∈ devices (data revoked_db) → d_host_id d = "host-1" →
     ∃ d', d' ∈ devices (data (driven revoked_db).1) ∧ same_device d d' ∧ (d_state d = "revoked" → d' = d)) ∧
  (∀ n, n ∈ authorized_keys_snapshots (data revoked_db) → n_host_id n = "host-1" →
     ∃ n', n' ∈ authorized_keys_snapshots (data (driven revoked_db).1) ∧ n_host_id n' = "host-1" ∧
       n_ssh_user n' = n_ssh_user n ∧ (n_generation n ≤ n_generation n')%Z ∧
       (n_digest n' ≠ n_digest n → n_generation n < n_generation n')%Z).
Proof.
  apply (revocation_is_final "host-1" revoked_db _ (driven revoked_db).2); [apply revoked_wf|apply driven_pair].
Defined.

Lemma revocation_cuts_access_witness :
  host_available "host-1" sample_tables = true ∧ host_available "host-1" (data (driven revoked_db).1) = false.
Proof.
  split; [by vm_compute|].
  apply (revocation_cuts_access (set_revoked 950 sample_device) revoked_db _ (driven revoked_db).2);
    [apply revoked_wf|apply list_elem_of_here|done|apply driven_pair].
Defined.

Definition sample_new_host : NewHost :=
  mkNewHost "db-1" "endpoint-2" "deploy" (Some {["role" := "db"]}) 0 "online" "" None.

Lemma created_host_reads_back_witness :
  is_Ok (fst (store_run node (CreateHost sample_new_host "ops") sample_world)) = true ∧
  let (r, w1) := store_run node (CreateHost sample_new_host "ops") sample_world in
  match r with
  | Ok host =>
      bad_host sample_new_host "ops" = false ∧ name_taken "db-1" sample_tables = false ∧
      fst (store_run node (GetHost (Host_ID host)) w1) = Ok (Some host) ∧
      ∃ id auditID now,
        host = host_of id (with_defaults sample_new_host) ∧
        data (sw_db w1) = add_host (new_host_row id (with_defaults sample_new_host) now)
          (audit auditID "host.created" "host" id "ops" now) sample_tables
  | Err _ =>
      (bad_host sample_new_host "ops" = true ∨ name_taken "db-1" sample_tables = true) ∧ sw_db w1 = sw_db sample_world
  end.
Proof.
  split; [by vm_compute|].
  apply (created_host_reads_back node sample_world sample_new_host "ops"); [apply node_healthy|done|].
  by apply map_Forall_singleton.
Defined.

Lemma deleted_host_is_gone_witness :
  outcome node (DeleteHost "host-1" "ops") sample_world (λ r t, r = None ∧ ∃ auditID now,
    t = without_host "host-1" (log_if (host_exists "host-1" sample_tables)
          (audit auditID "host.deleted" "host" "host-1" "ops" now) sample_tables)).
Proof. apply (deleted_host_is_gone node sample_world "host-1" "ops"); [apply node_healthy|apply sample_wf|done]. Defined.

Lemma revocation_takes_effect_witness :
  outcome node (let! r := RevokeSession "cookie" 5000 in
                let! q := SessionRevoked "cookie" in
                let! now := nowUnix in Ret (r, q, now)) sample_world
    (λ x t, let '(r, q, now) := x in
     match r with
     | None =>
         (∀ hash now', (now ≤ now')%Z → revoked_at hash now' t =
            if same (hashSecret "cookie") hash then (now' <? 5000)%Z else revoked_at hash now' sample_tables) ∧
         q.2 = None ∧ ((now < 5000)%Z → q.1 = true)
     | Some _ => (5000 ≤ now)%Z ∧ t = sample_tables
     end).
Proof.
  apply (revocation_takes_effect node sample_world "cookie" 5000); [apply node_healthy|apply sample_wf|by vm_compute|done].
Defined.

(** The transaction's answer is lost. *)
Lemma access_is_issued_whole_witness :
  outcome (losing_node 5) (IssueSSHAccess "alice" "host-1" "ubuntu" 5000) sample_world (λ r t,
    let whole id := ∃ request event now, host_available "host-1" sample_tables = true ∧
      t = issued request id event "alice" "host-1" "ubuntu" 5000 now sample_tables in
    match r with
    | Ok id => whole id
    | Err _ => t = sample_tables ∨ ∃ id, whole id
    end) ∧
  (working (losing_node 5) → outcome (losing_node 5) (IssueSSHAccess "alice" "host-1" "ubuntu" 5000) sample_world
                 (λ r _, is_Ok r = host_available "host-1" sample_tables)).
Proof.
  apply (access_is_issued_whole (losing_node 5) sample_world "alice" "host-1" "ubuntu" 5000), losing_node_faulty.
Defined.

Lemma relay_admission_is_granted_witness :
  outcome node (let! r := RelayEndpointAllowed "client-1" in let! now := nowUnix in Ret (r, now)) sample_world
    (λ x t, t = sample_tables ∧ ∃ b, fst x = Ok b ∧
       (∃ now, (1000 ≤ now ≤ snd x)%Z ∧ (b = true ↔ admitted "client-1" now t))).
Proof. apply (relay_admission_is_granted node sample_world "client-1"), node_healthy. Defined.

Lemma device_is_revoked_witness :
  outcome node (DeleteDevice "device-1" "ops") sample_world (λ r t,
    match find_device "device-1" sample_tables with
    | None => r = Some ErrNoRows ∧ t = sample_tables
    | Some d =>
        r = None ∧ host_available (d_host_id d) t = false ∧
        if bool_decide (d_state d = "revoked") then t = sample_tables
        else ∃ auditID now, t = without_device "device-1" (d_host_id d) now
               (log_if true (audit auditID "device.revoked" "device" "device-1" "ops" now) sample_tables)
    end).
Proof. apply (device_is_revoked node sample_world "device-1" "ops"); [apply node_healthy|apply sample_wf|done]. Defined.

Lemma heartbeat_commits_before_it_checks_witness :
  existsb (recognised "device-1" "host-1" "elsewhere" "SHA256:host") (devices sample_tables) = false ∧
  existsb (active_device "device-1" "host-1") (devices sample_tables) = true ∧
  outcome node (TouchDevice "device-1" "host-1" "elsewhere" "SHA256:host" "offline" None None) sample_world (λ r t,
    r = (if existsb (recognised "device-1" "host-1" "elsewhere" "SHA256:host") (devices sample_tables) then None
         else Some (Errorf "device identity mismatch or device revoked")) ∧
    (if existsb (active_device "device-1" "host-1") (devices sample_tables)
     then ∃ now, t = touched "device-1" "host-1" "elsewhere" "SHA256:host" "offline" None None now sample_tables
     else t = sample_tables)).
Proof.
  split_and!; [done..|].
  apply (heartbeat_commits_before_it_checks "device-1" "host-1" "elsewhere" "SHA256:host" "offline" None None node sample_world);
    [apply node_healthy|apply sample_wf].
Defined.

Definition sample_enroll : prog storeE (result Device) :=
  enroll "bulk" "endpoint-9" "" "m1" "SHA256:new" "device-key-9" "" 0 None.

(** The enrolment commits, its answer is lost, and the retry returns it. *)
Lemma enrolment_happens_once_witness :
  (let r := fst (store_run (losing_node 8) (let! first := sample_enroll in let! retry := sample_enroll in Ret (first, retry))
                   sample_world) in
   (is_Ok (fst r), Device_SerialNumber <$> (match snd r with Ok d => Some d | Err _ => None end))) =
    (false, Some "sn-000002") ∧
  outcome (losing_node 8) (let! first := sample_enroll in let! retry := sample_enroll in Ret (first, retry)) sample_world
    (λ x t, once "bulk" "endpoint-9" "" "m1" "SHA256:new" "device-key-9" "" 0 None sample_tables t x) ∧
  (working (losing_node 8) → outcome (losing_node 8) sample_enroll sample_world (λ r t,
     match r with
     | Ok d => t = sample_tables ∨ enrolled "bulk" "endpoint-9" "" "m1" "SHA256:new" "device-key-9" "" 0 None sample_tables t d
     | Err _ => t = sample_tables ∧ refusal "bulk" "" "SHA256:new" "device-key-9" "" 1000 t
     end)).
Proof.
  split; [by vm_compute|].
  apply (enrolment_happens_once "bulk" "endpoint-9" "" "m1" "SHA256:new" "device-key-9" "" 0 None (losing_node 8) sample_world);
    [apply losing_node_faulty|apply sample_wf].
Defined.

Lemma publication_is_stable_witness :
  outcome node (let! a := AuthorizedKeysGeneration "host-1" "ubuntu" "digest" ["grant-1"] in
                let! b := AuthorizedKeysGeneration "host-1" "ubuntu" "digest" ["grant-1"] in Ret (a, b)) sample_world
    (λ x t,
      x = (Ok 1%Z, Ok 1%Z) ∧ t = with_snapshot "host-1" "ubuntu" "digest" ["grant-1"] sample_tables ∧
      current "host-1" "ubuntu" t = Some (SnapshotRow "host-1" "ubuntu" 1 "digest")).
Proof.
  apply (publication_is_stable "host-1" "ubuntu" node sample_world "digest" ["grant-1"]);
    [apply node_healthy|apply sample_wf|].
  apply (bool_decide_unpack _). by vm_compute.
Defined.

Lemma acknowledgement_installs_what_was_published_witness :
  outcome node (s ←? PublishAuthorizedKeysSnapshot "host-1" "ubuntu";
                let '(body, digest, generation) := s in
                let! e := AcknowledgeAuthorizedKeys "host-1" "ubuntu" generation digest in
                Ret (Ok (body, generation, e))) sample_world
    (λ x t', ∃ now1 now2 now3, (1000 ≤ now1 ≤ now2)%Z ∧ (now2 ≤ now3)%Z ∧
      match renderAuthorizedKeysBody (entries_at "host-1" "ubuntu" now1 sample_tables) with
      | Err e => x = Err e ∧ t' = sample_tables
      | Ok body =>
        let grants := grant_rows "host-1" "ubuntu" now2 sample_tables in
        let digest := hex_encode (Sum256 body) in
        x = Ok (body, next_generation "host-1" "ubuntu" digest grants sample_tables, None) ∧
        (Z.of_nat (String.length body) ≤ MaxAuthorizedKeysBodyBytes)%Z ∧
        access_grants t' =
          (λ g, if bool_decide (g_id g ∈ grants) && live_grant "host-1" "ubuntu" now3 g && has_key (g_user_id g) sample_tables
                then install g else g) <$> access_grants sample_tables
      end).
Proof.
  apply (acknowledgement_installs_what_was_published "host-1" "ubuntu" node sample_world);
    [apply node_healthy|apply sample_wf|each; by vm_compute].
Defined.

(** A snapshot is acknowledged as it was published, but a key that bob adds in
    between is not in its body, while bob's grant is marked as installed. *)
Definition late_key : prog storeE (result (string * option error * list Z)) :=
  s ←? PublishAuthorizedKeysSnapshot "host-1" "ubuntu";
  let '(body, digest, generation) := s in
  k ←? CreateSSHKey "bob" "ssh-ed25519 BBBB" "SHA256:bob";
  let! e := AcknowledgeAuthorizedKeys "host-1" "ubuntu" generation digest in
  Ret (Ok (body, e, [generation])).

Example late_key_is_marked_installed :
  let (r, w) := store_run node late_key sample_world in
  match r with
  | Ok (body, None, [1%Z]) =>
      existsb (λ k, same (k_user_id k) "bob") (ssh_keys (data (sw_db w))) = true ∧
      body = "expiry-time=" +:+ String dquote ("19700101012320Z" +:+ String dquote " ssh-ed25519 AAAA") +:+ String newline "" ∧
      (g_key_installed <$> access_grants (data (sw_db w))) = [1%Z; 1%Z]
  | _ => False
  end.
Proof. by vm_compute. Qed.

(** ** The parameters *)

(** URLs of one origin. *)
#[export] Instance sample_urls : NetURL := {|
  url_Parse s := if strings.HasPrefix s "https://ternal.example"
                 then Some (mkURL "https" "ternal.example" "ternal.example" "" "" "" "" "" "" false false s) else None;
  EqualFold a b := bool_decide (strings.ToLowerASCII a = strings.ToLowerASCII b);
  ToLower := strings.ToLowerASCII |}.

(** A signature of 64 bytes that depends on the key and the message. *)
Definition toy_sign (public message : string) : string :=
  Sum256 (public +:+ message) +:+ Sum256 (message +:+ public).

#[export] Instance toy_signatures : Ed25519 := λ public message sig, bool_decide (sig = toy_sign public message).

(** A provider with one user, whose token endpoint does not say when its token
    expires. *)
#[export] Instance sample_provider : IdentityProvider := {|
  NewProvider issuer := Ok (print (JObj [("issuer", JStr issuer);
    ("authorization_endpoint", JStr "https://ternal.example/authorize"); ("token_endpoint", JStr "https://ternal.example/token")]));
  AuthCodeURL _ metadata state nonce _ := pm_AuthorizationEndpoint metadata +:+ "?state=" +:+ state +:+ "&nonce=" +:+ nonce;
  Exchange _ _ code _ := if bool_decide (code = "code-1") then Ok (Some "token") else Err (Errorf "bad code");
  VerifyIDToken clientID token :=
    if bool_decide (token = "token")
    then Some (print (JObj [("aud", JStr clientID); ("sub", JStr "alice"); ("groups", JArr [JStr "dev"]);
                            ("nonce", JStr "nonce-1")]))
    else None;
  DeviceAuth _ _ := Err (Errorf "no device flow");
  PostForm _ _ := Ok (200%Z, print (JObj [("access_token", JStr "opaque"); ("id_token", JStr "token")]));
  first_nanos := 300000000;
  last_nanos := 400000000 |}.

Definition no_keys : string → option (string * string * string * string) := λ _, None.

Definition sample_key : string := "0123456789abcdef0123456789abcdef".

Definition sample_server : Server :=
  mkServer sample_key "" 3600 true
    (mkOIDCConfig "https://ternal.example/" "ternal" "secret" "https://ternal.example/auth/callback" "ternal-admins" "groups" [])
    true.

Definition bare_request (method body : string) (header : string → string) : Request :=
  mkRequest method "ternal.example" header (λ _, None) (λ _, "") (λ _, "") (λ _, "") false body.

(** ** Sessions *)

Definition sample_session : SessionData :=
  mkSessionData (mkAuthClaims "https://ternal.example" "alice" (slice_of ["dev"; "ops"])
    (Some {["team" := slice_of ["web"]]})) "csrf" 2000.

Definition sample_cookie : string :=
  match SignSession sample_session sample_key with Ok c => c | Err _ => "" end.

Lemma sample_session_valid : valid_session sample_session.
Proof.
  split; [|split; [done|unfold in_int64, min_int64, max_int64; simpl; lia]].
  split; [done|]. split; [done|]. split; [split; [by repeat constructor|done]|]. split.
  - apply insert_non_empty.
  - apply map_Forall_singleton. split; [done|]. split; [|done]. by apply Forall_singleton.
Qed.

Lemma session_cookie_is_its_session_witness :
  (String.length sample_cookie ≤ maxSessionCookieBytes ∧ verifySessionAt sample_cookie sample_key 1000 = Ok sample_session) ∧
  ∃ encoded text, sample_cookie = "v1." +:+ encoded +:+ "." +:+ signature sample_key encoded ∧
    RawURLEncoding.DecodeString encoded = Some text ∧
    Unmarshal (decode_struct session_fields) zero_session text = Some sample_session ∧ (1000 < 2000)%Z.
Proof.
  assert (H : String.length sample_cookie ≤ maxSessionCookieBytes ∧ verifySessionAt sample_cookie sample_key 1000 = Ok sample_session).
  { apply (session_cookie_is_its_session sample_key sample_cookie sample_session 1000); [apply sample_session_valid|by vm_compute|done]. }
  split; [exact H|]. apply (session_cookie_is_its_session sample_key sample_cookie sample_session 1000), H.
Defined.

(** ** Logins *)

Definition sample_login : loginState :=
  mkLoginState "state-1" "nonce-1" "0123456789abcdef0123456789abcdef0123456789abcdef" 1300.

Definition sample_state : string :=
  match signValue (json_of_login sample_login) sample_key with Ok c => c | Err _ => "" end.

Definition callback_request : Request :=
  mkRequest "GET" "ternal.example" (λ _, "") (λ name, if bool_decide (name = OIDCStateCookie) then Some sample_state else None)
    (λ _, "") (λ name, if bool_decide (name = "code") then "code-1" else if bool_decide (name = "state") then "state-1" else "")
    (λ _, "") false "".

Example login_completes :
  let resp := fst (store_run node (handleAuthCallback sample_server callback_request None) sample_world) in
  Response_Status resp = 302%Z ∧ (Cookie_Name <$> Cookies resp) = [OIDCStateCookie; SessionCookie].
Proof. by vm_compute. Qed.

Lemma login_is_vouched_for_witness :
  outcome (losing_node 2) (handleAuthCallback sample_server callback_request None) sample_world (λ resp t,
    t = sample_tables ∧ (no_session resp ∨ logged_in sample_server callback_request 1000 resp)).
Proof.
  apply (login_is_vouched_for sample_server (losing_node 2) sample_world callback_request None), losing_node_faulty.
Defined.

Lemma login_state_is_no_login_witness :
  (verifySessionAt sample_state sample_key 1200 = Ok (mkSessionData zero_claims "" 1300) ∧
   ∀ adminGroup expectedIssuer revoked o w, expectedIssuer ≠ "" →
     fst (store_run o (authenticate_cookie sample_key adminGroup expectedIssuer revoked sample_state) w) = Anonymous) ∧
  ∀ `(NetURL) `(IdentityProvider) c code state o w,
    is_Ok (fst (store_run o (CompleteLogin c code state sample_cookie sample_key) w)) = false.
Proof.
  split.
  - apply (login_state_is_no_login sample_key sample_state) with (l := sample_login).
    + split_and!; [done..|unfold in_int64, min_int64, max_int64; simpl; lia].
    + by vm_compute.
    + apply Nat.leb_le. by vm_compute.
    + done.
  - apply (login_state_is_no_login sample_key sample_cookie) with (d := sample_session);
      [apply sample_session_valid|by vm_compute].
Defined.

(** The provider left expires_in out, so the session has expired already when
    it is handed to the device. *)
Example device_session_is_expired :
  let request := bare_request "POST" (print (JObj [("device_code", JStr "device-code")])) (λ _, "") in
  let (resp, w) := store_run node (handleDeviceToken sample_server request None) sample_world in
  match Written resp with
  | V_session cookie _ _ => fst (store_run node (VerifySession cookie sample_key) w) = Err (Errorf "session expired")
  | _ => False
  end.
Proof. by vm_compute. Qed.

(** ** Routes *)

Definition create_host_route : Route := mkRoute "POST" "/hosts/" [GAuth; GAdmin; GCSRF] handleCreateHost.

(** Nobody asks for a new host. *)
Definition anonymous_request : Request := bare_request "POST" "{}" (λ _, "").


Lemma locks_are_released_witness :
  let p := forget (DeleteHost "host-1" "ops") in
  disciplined (Some max_calls) None p ends_unlocked ∧
  (let w' := snd (store_run (losing_node 4) p sample_world) in
   sw_calls w' ≤ sw_calls sample_world + max_calls ∧ sw_readers w' = 0%Z ∧ sw_writers w' = 0%Z) ∧
  (let w' := snd (store_run (losing_node 4) (serve sample_server create_host_route anonymous_request) sample_world) in
   sw_readers w' = 0%Z ∧ sw_writers w' = 0%Z).
Proof.
  apply (locks_are_released no_keys sample_server (losing_node 4) sample_world None (forget (DeleteHost "host-1" "ops"))
    create_host_route anonymous_request).
  - by apply op_DeleteHost.
  - do 10 apply list_elem_of_further. apply list_elem_of_here.
Defined.

(** ** Signed requests *)

Definition device_public : string := "the device's public key, 32 byte".

Definition signing_device : devices_row :=
  DeviceRow "device-1" "host-1" "endpoint-1" "SHA256:host" (StdEncoding.EncodeToString device_public) "manufactured"
    (Some "sn-0001") None 500 (Some 900%Z).

Definition agent_db : database := set_data (with_rows Devices [signing_device] sample_tables) sample_db.
Definition agent_world : store_world := StoreWorld agent_db 0 0 0.

Lemma agent_faulty k : faulty (losing_node k) agent_world.
Proof. destruct (losing_node_faulty k). by split. Qed.

(** A heartbeat of the device, of time 1100. *)
Definition sample_heartbeat : Request :=
  let text := HeartbeatPayload "sn-0001" "endpoint-1" "SHA256:host" 1100 "healthy" None in
  bare_request "POST" (print (JObj
    [("service_status", JStr "healthy"); ("serial", JStr "sn-0001"); ("endpoint_id", JStr "endpoint-1");
     ("ssh_host_key_fingerprint", JStr "SHA256:host"); ("timestamp", JNum "1100");
     ("signature", JStr (StdEncoding.EncodeToString (toy_sign device_public text)))])) (λ _, "").

(** It is answered, and it sets the status of its host. *)
Example heartbeat_is_served :
  let (resp, w) := store_run node (handleHeartbeat sample_heartbeat None) agent_world in
  Response_Status resp = 200%Z ∧ (h_status <$> hosts (data (sw_db w))) = ["healthy"].
Proof. by vm_compute. Qed.


(** ** Issued access *)

Definition hex64 : string := "0123456789abcdef0123456789abcdef0123456789abcdef0123456789abcdef".

Definition routed_tables : tables :=
  with_rows Hosts [HostRow "host-1" "web-1" hex64 "ubuntu" "[]" 22 "online" "ops" (Some 900%Z) 500 500]
  (with_rows Policies [PolicyRow "policy-1" "devs" "dev" "web-*" (Marshal_list (Some ["ubuntu"])) (Some 5000%Z) 500 500]
  (with_rows EndpointDiscoveries [EndpointDiscoveryRow "host-1" (Marshal_list (Some ["10.0.0.1:7000"])) (Marshal_list None) 900]
  (with_rows Devices
     [DeviceRow "device-1" "host-1" hex64 "SHA256:0123456789abcdefghijABCDEFGHIJ0123456789abc" "device-key-1" "manufactured"
        (Some "sn-0001") None 500 (Some 900%Z)] sample_tables))).

Definition routed_db : database := set_data routed_tables sample_db.
Definition routed_world : store_world := StoreWorld routed_db 0 0 0.

Lemma routed_faulty k : faulty (losing_node k) routed_world.
Proof.
  destruct (losing_node_faulty k). by split.
Qed.

Lemma routed_wf : wf routed_tables.
Proof.
  destruct sample_wf. split; simpl; try assumption.
  all: try (split; [reflexivity|each; try exact I; try done; try by left]).
  - split_and!; [by exists "sn-0001"|done|by left].
  - apply singleton_rows. apply list_elem_of_here.

Qed.

(** Alice, who is in the group the policy names, asks for access. *)
Definition alice : AuthContext := mkAuthContext (mkAuthClaims "" "alice" (slice_of ["dev"]) None) false "csrf".

Definition access_request : Request :=
  bare_request "POST" (print (JObj [("host_id", JStr "host-1"); ("ssh_user", JStr "")])) (λ _, "").

Example access_is_issued :
  let (resp, w) := store_run node (handleIssueSSHCommand access_request (Some alice)) routed_world in
  Response_Status resp = 200%Z ∧ (g_user_id <$> access_grants (data (sw_db w))) = ["alice"; "bob"; "alice"].
Proof. by vm_compute. Qed.


(** ** The portal *)

(** A rendering that is only the texts of a page. *)
Fixpoint texts (n : Node) : string :=
  match n with
  | Text s => s +:+ " "
  | Attr _ _ => ""
  | El _ l | Group l => foldr (λ n s, texts n +:+ s) "" l
  end.

#[export] Instance sample_render : Gomponents := λ n, (texts n, None).

Definition portal_request (name : string) : Request :=
  mkRequest "GET" "ternal.example" (λ _, "") (λ _, None) (λ _, "") (λ _, name) (λ _, "") false "".

Definition administrator : AuthContext := mkAuthContext (mkAuthClaims "" "root" (slice_of ["ternal-admins"]) None) true "csrf".

(** Whether Index tells [who] of a name, and with which status. *)
Definition tells (o : oracle) (who : AuthContext) (view name : string) : Z * bool :=
  let resp := fst (store_run o (Index (portal_request view) (Some who)) routed_world) in
  (Web_Status resp, strings.Contains (Web_Body resp) name).

Example portal_pages :
  tells node administrator "access" "bob" = (200%Z, true) ∧ tells node alice "access" "alice" = (200%Z, true) ∧
  tells node alice "access" "bob" = (200%Z, false) ∧ tells node alice "audit" "bob" = (403%Z, false) ∧
  tells node alice "" "web-1" = (200%Z, true) ∧ tells node alice "other" "bob" = (500%Z, false).
Proof. by vm_compute. Qed.

Lemma portal_shows_what_its_caller_may_see_witness :
  tells (losing_node 9) alice "access" "alice" = (200%Z, true) ∧
  outcome (losing_node 9) (Index (portal_request "access") (Some alice)) routed_world (λ resp t, t = routed_tables ∧
    (resp = http_Error "Unable to load the workspace." 500 ∨
     ∃ x, "access" = shown_name x ∧ may_see alice 1000 t x ∧
       resp = rendered (page_of (portal_request "access") alice (shown_section x)))).
Proof.
  split; [by vm_compute|].
  apply (portal_shows_what_its_caller_may_see (losing_node 9) routed_world (portal_request "access") (Some alice));
    [apply routed_faulty|apply routed_wf].
Defined.
