(* ===== verification/TrustAnchor.v ===== *)
(** * The external trust anchor record (internal/store/trust_anchor.go)

    The record kept outside the object store, its structural validation and
    the binding check of one deployment.  The types [recoveryanchor.Transition]
    and [recoveryanchor.Receipt] belong to a module the repository only
    imports: they are fields of the class [Recovery], with the two projections
    the code reads. *)

From S2P Require Export Prelude Effects.

(** What the code uses of github.com/mrchypark/rhiza/pkg/recoveryanchor. *)
Class Recovery := {
  Transition : Type;
  Receipt : Type;
  Transition_eq_dec : EqDecision Transition;
  Receipt_eq_dec : EqDecision Receipt;
  Transition_Generation : Transition → Z;
  Transition_AnchorID : Transition → string;
  Receipt_Generation : Receipt → Z;
}.
#[export] Existing Instance Transition_eq_dec.
#[export] Existing Instance Receipt_eq_dec.

Record trustAnchorRecord {R : Recovery} := mkRecord {
  Format : string;
  ClusterID : string;
  StorageID : string;
  Epoch : Z;
  Token : string;
  PendingEpoch : option Z;
  PendingID : string;
  Bootstrap : bool;
  Generation : Z;
  Transition_ : option Transition;
  Receipt_ : option Receipt;
}.

#[export] Instance trustAnchorRecord_eq_dec {R : Recovery} : EqDecision trustAnchorRecord.
Proof. solve_decision. Defined.

Record trustAnchor {R : Recovery} := mkTrustAnchor {
  binding : trustAnchorRecord;
  anchor_name : string;
  anchor_namespace : string;
}.

(** Lower-case hexadecimal groups of 8-4-4-4-12.  A multi-byte rune can be
    neither a dash nor a digit, so the loop over runes is a loop over bytes. *)
Definition uuid_dash (i : nat) : bool :=
  bool_decide (i = 8) || bool_decide (i = 13) || bool_decide (i = 18) || bool_decide (i = 23).

Definition uuid_digit (c : ascii) : bool := between "0" "9" c || between "a" "f" c.

Fixpoint uuid_loop (i : nat) (s : string) : bool :=
  match s with
  | EmptyString => true
  | String c s' =>
    (if uuid_dash i then char_eqb c "-" else uuid_digit c) && uuid_loop (S i) s'
  end.

Definition validUUID (s : string) : bool :=
  bool_decide (String.length s = 36) && uuid_loop 0 s.

Section with_recovery.
Context {R : Recovery}.

(** [trustAnchorRecord.validateStructure]. *)
Definition validateStructure (r : trustAnchorRecord) : option error :=
  if negb (bool_decide (Format r = "1")) || bool_decide (ClusterID r = "") ||
     bool_decide (StorageID r = "") || bool_decide (Epoch r < 0)%Z || negb (validUUID (Token r))
  then Some (Errorf "invalid trust anchor") else
  let pending_ok :=
    match PendingEpoch r with
    | Some e => bool_decide (e = wrap64 (Epoch r + 1)) && validUUID (PendingID r)
    | None => bool_decide (PendingID r = "")
    end in
  if negb pending_ok then Some (Errorf "invalid pending trust anchor") else
  match Transition_ r with
  | Some t =>
    if negb (bool_decide (Transition_Generation t = Generation r)) ||
       bool_decide (Transition_AnchorID t = "")
    then Some (Errorf "invalid recovery transition") else None
  | None =>
    match Receipt_ r with
    | Some c =>
      if negb (bool_decide (Receipt_Generation c = Generation r))
      then Some (Errorf "invalid recovery receipt") else None
    | None => None
    end
  end.

(** [trustAnchor.validate]. *)
Definition validate (a : trustAnchor) (r : trustAnchorRecord) : option error :=
  match validateStructure r with
  | Some e => Some e
  | None =>
    if negb (bool_decide (ClusterID r = ClusterID (binding a))) ||
       negb (bool_decide (StorageID r = StorageID (binding a)))
    then Some (Errorf "invalid or mismatched trust anchor") else
    match Transition_ r with
    | Some _ => Some (Errorf "trust anchor has a pending recovery transition")
    | None => None
    end
  end.

(** ** What the fencing code does to a record *)

(** The pair a record publishes, and the pair it reserves. *)
Definition pair_of (r : trustAnchorRecord) : Z * string := (Epoch r, Token r).

(** [pending := current; pending.PendingEpoch = &next; pending.PendingID = id]. *)
Definition reserve (r : trustAnchorRecord) (next : Z) (id : string) : trustAnchorRecord :=
  mkRecord R (Format r) (ClusterID r) (StorageID r) (Epoch r) (Token r) (Some next) id
    (Bootstrap r) (Generation r) (Transition_ r) (Receipt_ r).

(** [final := current] with the pair moved and the bootstrap spent. *)
Definition finalize (r : trustAnchorRecord) (epoch : Z) (token : string) : trustAnchorRecord :=
  mkRecord R (Format r) (ClusterID r) (StorageID r) epoch token None ""
    false (Generation r) (Transition_ r) (Receipt_ r).

(** [final := current] with the reservation removed. *)
Definition clear (r : trustAnchorRecord) : trustAnchorRecord :=
  mkRecord R (Format r) (ClusterID r) (StorageID r) (Epoch r) (Token r) None ""
    (Bootstrap r) (Generation r) (Transition_ r) (Receipt_ r).

(** What no write of this code may change. *)
Definition same_frame (r r' : trustAnchorRecord) : Prop :=
  Format r' = Format r ∧ ClusterID r' = ClusterID r ∧ StorageID r' = StorageID r ∧
  Generation r' = Generation r ∧ Transition_ r' = Transition_ r ∧ Receipt_ r' = Receipt_ r.

End with_recovery.
