(* ===== verification/Services.v ===== *)
(** * The services the store depends on

    The signature of the calls the store makes outside the process, and the
    documented behaviour the code relies on, as the state and the answers of
    an abstract service:
    - the anchor backend is a linearizable register with compare-and-swap on
      an opaque, never reused resource version;
    - the data node applies a request atomically and at most once per request
      ID: the first decision for an ID is final, a rejected request changed
      nothing, and a query is linearizable;
    - any call may fail without effect, take effect although it reports an
      error, or take effect later, after it reported an error.
    [how] chooses between these for each call; nothing else is assumed. *)

From S2P Require Export Prelude Effects Schema TrustAnchor.

(** Whose deadline a call runs under: the caller's context, or the detached
    context of a write that has started fencing. *)
Inductive context := Caller | Fenced.

#[export] Instance context_eq_dec : EqDecision context.
Proof. solve_decision. Defined.

(** Acquiring a lock fails only when the context is done; the answer is then
    the context's error. *)
Inductive svcE {R : Recovery} : Type → Type :=
  | AnchorGet (c : context) : svcE (result (trustAnchorRecord * string))
  | AnchorCAS (c : context) (rv : string) (next : trustAnchorRecord) : svcE (result string)
  | DBExecute (c : context) (req : ExecuteRequest) : svcE (ExecuteResponse * option error)
  | DBQuery (c : context) {X : Type} (q : database → option X) : svcE (result X)
  | DBRequestStatus (c : context) (id : string) : svcE (result MutationStatus)
  | DBMigrate (c : context) (l : list SQLStatement) : svcE (option error)
  | NewUUID : svcE string
  | CtxErr (c : context) : svcE (option error)
  | TrustRLock (c : context) : svcE (option error)
  | TrustRUnlock : svcE unit
  | TrustLock (c : context) : svcE (option error)
  | TrustUnlock : svcE unit
  | TrustLoad : svcE (option trustAnchor)
  | TrustStore (a : trustAnchor) : svcE unit
  | Sleep (c : context) : svcE bool.

(** Parameters: the data node's request validation, and the text of the n-th
    resource version. *)
Class ServiceParams := {
  ValidateExecuteRequest : ExecuteRequest → option error;
  rv_name : nat → string;
  rv_name_inj : Inj (=) (=) rv_name;
}.
#[export] Existing Instance rv_name_inj.

(** How the service deals with one call. *)
Inductive outcome :=
  | Answered (note : option error)
  | Failed (e : error)
  | Unknown (e : error)
  | Delayed (e : error).

(** [legacy]: the backend first rewrites a record still stored in the
    pre-migration shape, under a version of its own. *)
Record answer := Answer { how : outcome; fresh : string; legacy : bool }.

Section with_services.
Context {R : Recovery} {P : ServiceParams}.

Record services := Services {
  history : list trustAnchorRecord;
  db : database;
  log : gmap string bool;
  late_cas : list (string * trustAnchorRecord);
  late_exec : list ExecuteRequest;
  late_migrations : list (list SQLStatement);
  minted : gset string;
  spent : gset string;
  proposed : gset string;
  published : option trustAnchor;
  readers_held : Z;
  writer_held : Z;
}.

(** The anchor's versions are the indices of its history. *)
Definition current_version (σ : services) : nat := pred (length (history σ)).
Definition anchor_at (σ : services) (v : nat) : option trustAnchorRecord := history σ !! v.
Definition anchor_now (σ : services) : option trustAnchorRecord := last (history σ).

Definition set_history h (σ : services) : services :=
  Services h (db σ) (log σ) (late_cas σ) (late_exec σ) (late_migrations σ) (minted σ)
    (spent σ) (proposed σ) (published σ) (readers_held σ) (writer_held σ).
Definition set_db d l (σ : services) : services :=
  Services (history σ) d l (late_cas σ) (late_exec σ) (late_migrations σ) (minted σ)
    (spent σ) (proposed σ) (published σ) (readers_held σ) (writer_held σ).
Definition set_late c x m (σ : services) : services :=
  Services (history σ) (db σ) (log σ) c x m (minted σ)
    (spent σ) (proposed σ) (published σ) (readers_held σ) (writer_held σ).
Definition set_ids mi sp pr (σ : services) : services :=
  Services (history σ) (db σ) (log σ) (late_cas σ) (late_exec σ) (late_migrations σ) mi
    sp pr (published σ) (readers_held σ) (writer_held σ).
Definition set_local p r w (σ : services) : services :=
  Services (history σ) (db σ) (log σ) (late_cas σ) (late_exec σ) (late_migrations σ) (minted σ)
    (spent σ) (proposed σ) p r w.

(** ** Effects of the calls, when they take effect *)

(** The compare-and-swap: [None] is a version conflict. *)
Definition apply_cas (touch : bool) (rv : string) (next : trustAnchorRecord) (σ : services) : option services :=
  if bool_decide (rv = rv_name (current_version σ)) then
    let h := if touch then history σ ++ option_list (anchor_now σ) else history σ in
    Some (set_history (h ++ [next]) σ)
  else None.

(** What is sent late when the answer never comes: the write, or, after the
    rewrite of a record in the old shape, the write against the version the
    rewrite made. *)
Definition send_late (touch : bool) (rv : string) (next : trustAnchorRecord) (σ : services) : services :=
  let σ' := if touch && bool_decide (rv = rv_name (current_version σ))
            then set_history (history σ ++ option_list (anchor_now σ)) σ else σ in
  let rv' := if touch && bool_decide (rv = rv_name (current_version σ)) then rv_name (current_version σ') else rv in
  set_late ((rv', next) :: late_cas σ') (late_exec σ') (late_migrations σ') σ'.

(** A request whose ID was decided before is not applied again. *)
Definition apply_request (req : ExecuteRequest) (σ : services) : services :=
  match log σ !! RequestID req with
  | Some _ => σ
  | None =>
    match run_statements (all_statements req) (db σ) with
    | Some (db', _) => set_db db' (<[RequestID req := true]> (log σ)) σ
    | None => set_db (db σ) (<[RequestID req := false]> (log σ)) σ
    end
  end.

(** The receipt of a request: results of the statements when the request asks
    for rows, totals always. *)
Definition receipt (req : ExecuteRequest) (σ : services) : ExecuteResponse :=
  match log σ !! RequestID req with
  | Some false => mkExecuteResponse MutationRejected "rejected" 0 0 []
  | Some true => mkExecuteResponse MutationCommitted "" 0 0 []
  | None =>
    match run_statements (all_statements req) (db σ) with
    | Some (_, rs) =>
      mkExecuteResponse MutationCommitted "" (sum_rows rs)
        (match last rs with Some r => sr_LastInsertID r | None => 0%Z end)
        (if req_WantRows req || existsb WantRows (all_statements req) then rs else [])
    | None => mkExecuteResponse MutationRejected "rejected" 0 0 []
    end
  end.

Definition apply_migration (l : list SQLStatement) (σ : services) : services :=
  match run_statements l (db σ) with
  | Some (db', _) => set_db db' (log σ) σ
  | None => σ
  end.

(** ** One call *)

(** Bookkeeping: IDs that have left the process. *)
Definition spend (id : string) (σ : services) : services :=
  set_ids (minted σ) ({[id]} ∪ spent σ) (proposed σ) σ.
Definition propose (id : string) (σ : services) : services :=
  set_ids (minted σ) ({[id]} ∪ spent σ) ({[id]} ∪ proposed σ) σ.

Definition serve_cas (w : answer) (rv : string) (next : trustAnchorRecord) (σ0 : services) :
    result string * services :=
  let σ := match PendingEpoch next with Some _ => propose (PendingID next) σ0 | None => σ0 end in
  match how w with
  | Answered _ =>
    match apply_cas (legacy w) rv next σ with
    | Some σ' => (Ok (rv_name (current_version σ')), σ')
    | None => (Err (Errorf "trust anchor resource version conflict"), σ)
    end
  | Failed e => (Err e, σ)
  | Unknown e => (Err e, default σ (apply_cas (legacy w) rv next σ))
  | Delayed e => (Err e, send_late (legacy w) rv next σ)
  end.

Definition serve_execute (w : answer) (req : ExecuteRequest) (σ0 : services) :
    (ExecuteResponse * option error) * services :=
  let σ := spend (RequestID req) σ0 in
  match how w with
  | Answered note => ((receipt req σ, note), apply_request req σ)
  | Failed e => ((zero_response, Some e), σ)
  | Unknown e => ((zero_response, Some e), apply_request req σ)
  | Delayed e =>
      ((zero_response, Some e), set_late (late_cas σ) (req :: late_exec σ) (late_migrations σ) σ)
  end.

Definition serve_migrate (w : answer) (l : list SQLStatement) (σ : services) : option error * services :=
  match how w with
  | Answered _ =>
    match run_statements l (db σ) with
    | Some _ => (None, apply_migration l σ)
    | None => (Some (Errorf "migration was rejected"), σ)
    end
  | Failed e => (Some e, σ)
  | Unknown e => (Some e, apply_migration l σ)
  | Delayed e =>
      (Some e, set_late (late_cas σ) (late_exec σ) (l :: late_migrations σ) σ)
  end.

(** A read has no effect, and its only other outcome is an error. *)
Definition answered {A} (w : answer) (a : A) : result A :=
  match how w with
  | Answered _ => Ok a
  | Failed e | Unknown e | Delayed e => Err e
  end.

Definition serve (w : answer) {X} (e : svcE X) : services → X * services :=
  match e in svcE X return services → X * services with
  | AnchorGet _ => λ σ,
      (match anchor_now σ with
       | Some r => answered w (r, rv_name (current_version σ))
       | None => Err (Errorf "kubernetes status 404")
       end, σ)
  | AnchorCAS _ rv next => serve_cas w rv next
  | DBExecute _ req => serve_execute w req
  | DBQuery _ q => λ σ,
      (match q (db σ) with
       | Some x => answered w x
       | None => Err (Errorf "SQL query failed")
       end, σ)
  | DBRequestStatus _ id => λ σ,
      (match log σ !! id with
       | Some true => answered w MutationCommitted
       | Some false => answered w MutationRejected
       | None => answered w MutationNone
       end, σ)
  | DBMigrate _ l => serve_migrate w l
  | NewUUID => λ σ, (fresh w, set_ids ({[fresh w]} ∪ minted σ) (spent σ) (proposed σ) σ)
  | CtxErr _ => λ σ, (match answered w tt with Ok _ => None | Err e => Some e end, σ)
  | TrustRLock _ => λ σ,
      match answered w tt with
      | Ok _ => (None, set_local (published σ) (readers_held σ + 1) (writer_held σ) σ)
      | Err e => (Some e, σ)
      end
  | TrustRUnlock => λ σ, (tt, set_local (published σ) (readers_held σ - 1) (writer_held σ) σ)
  | TrustLock _ => λ σ,
      match answered w tt with
      | Ok _ => (None, set_local (published σ) (readers_held σ) (writer_held σ + 1) σ)
      | Err e => (Some e, σ)
      end
  | TrustUnlock => λ σ, (tt, set_local (published σ) (readers_held σ) (writer_held σ - 1) σ)
  | TrustLoad => λ σ, (published σ, σ)
  | TrustStore a => λ σ, (tt, set_local (Some a) (readers_held σ) (writer_held σ) σ)
  | Sleep _ => λ σ, (is_Ok (answered w tt), σ)
  end.

(** Whose deadline a call depends on; the others cannot be cancelled. *)
Definition call_context {X} (e : svcE X) : option context :=
  match e with
  | AnchorGet c | AnchorCAS c _ _ | DBExecute c _ | DBQuery c _ | DBRequestStatus c _
  | DBMigrate c _ | CtxErr c | TrustRLock c | TrustLock c | Sleep c => Some c
  | _ => None
  end.

(** ** Sequential runs

    The world of a sequential run: the services, a counter of the calls made,
    and the script that says how each call is dealt with.  A script chooses
    per context, so that cancelling the caller is a script that fails every
    later [Caller] call. *)
Record script := Script {
  script_how : context → nat → outcome;
  script_uuid : nat → string;
  script_legacy : nat → bool;
}.

Definition world : Type := services * nat.

Definition seq_handler (s : script) : handler svcE world := λ X e w,
  let (σ, n) := w in
  let o := match call_context e with Some c => script_how s c n | None => Answered None end in
  let (x, σ') := serve (Answer o (script_uuid s n) (script_legacy s n)) e σ in
  (x, (σ', S n)).

(** Every call under the given context answers. *)
Definition healthy (s : script) (c : context) : Prop := ∀ n, script_how s c n = Answered None.

(** ** Concurrent runs

    What the service may do on its own: deliver a delayed call, or rewrite
    the record in the current shape under a new version. *)
Inductive delivers (σ : services) : services → Prop :=
  | deliver_cas l1 rv next l2 σ' :
      late_cas σ = l1 ++ (rv, next) :: l2 →
      apply_cas false rv next (set_late (l1 ++ l2) (late_exec σ) (late_migrations σ) σ) = Some σ' →
      delivers σ σ'
  | deliver_exec l1 req l2 :
      late_exec σ = l1 ++ req :: l2 →
      delivers σ (apply_request req (set_late (late_cas σ) (l1 ++ l2) (late_migrations σ) σ))
  | deliver_migration l1 m l2 :
      late_migrations σ = l1 ++ m :: l2 →
      delivers σ (apply_migration m (set_late (late_cas σ) (late_exec σ) (l1 ++ l2) σ))
  | touch_anchor r :
      anchor_now σ = Some r → delivers σ (set_history (history σ ++ [r]) σ).

(** One call of a program: any outcome, and a uuid never handed out before. *)
Definition serves {X} (e : svcE X) (σ : services) (x : X) (σ' : services) : Prop :=
  ∃ w, fresh w ∉ minted σ ∧ serve w e σ = (x, σ').

End with_services.
