(* ===== verification/RhizaSQL.v ===== *)
(** * Fenced access to the database (internal/store/rhiza_sql.go)

    [rhizaSQL] is the only way the store reads and writes its database.  With
    a trust anchor configured every write is reserved in the external anchor
    before it is sent and finalized after it committed, and every read is
    bracketed by two reads of the anchor. *)

From S2P Require Export Prelude Effects Schema TrustAnchor Services.
Open Scope go_scope.

(** The node-local fields that never change after Open; the atomic pointer
    [trust] and the lock [trustMu] are calls of the services. *)
Record rhizaSQL := mkRhizaSQL { trustRequired : bool }.

Definition error_text (msg code : string) : error := Errorf (msg +:+ code).

(** [committedResponse]. *)
Definition committedResponse (r : ExecuteResponse * option error) : ExecuteResponse * option error :=
  let (response, err) := r in
  match err with
  | None =>
    if negb (bool_decide (Status response = MutationCommitted))
    then (response, Some (error_text "SQL mutation was rejected: " (ErrorCode response)))
    else (response, None)
  | Some _ => (response, err)
  end.

(** ** Statements on [trust_state] *)

(** [UPDATE trust_state SET epoch=?, token=? WHERE id=1 AND epoch=? AND
    token=?], with [RETURNING epoch] when [returning]. *)
Definition update_trust (returning : bool) (next current : Z * string) (db : database) :
    option (database * StatementResult) :=
  if negb (table_exists "trust_state" db) then None else
  if bool_decide (trust_state db = Some current)
  then Some (Database (sqlite_master db) (Some next) (ternal_schema db) (data db),
             mkStatementResult 1 0 (if returning then 1 else 0))
  else Some (db, mkStatementResult 0 0 0).

(** [SELECT epoch, token FROM trust_state WHERE id=1]. *)
Definition select_trust (db : database) : option (option (Z * string)) :=
  if table_exists "trust_state" db then Some (trust_state db) else None.

Section with_services.
Context {R : Recovery} {P : ServiceParams}.

(** ** trustAnchor.get and trustAnchor.cas (trust_anchor.go) *)

Definition anchor_get (a : trustAnchor) (c : context) : prog svcE (result (trustAnchorRecord * string)) :=
  let! r := call (AnchorGet c) in
  match r with
  | Err e => Ret (Err (ErrorWrap "read trust anchor" e))
  | Ok (record, rv) =>
    match validate a record with
    | Some e => Ret (Err e)
    | None => Ret (Ok (record, rv))
    end
  end.

Definition anchor_cas (a : trustAnchor) (c : context) (rv : string) (next : trustAnchorRecord) :
    prog svcE (result string) :=
  match validate a next with
  | Some e => Ret (Err e)
  | None =>
    let! r := call (AnchorCAS c rv next) in
    match r with
    | Err e => Ret (Err (ErrorWrap "update trust anchor" e))
    | Ok updated => Ret (Ok updated)
    end
  end.

(** ** Reads *)

Definition queryRaw {X} (c : context) (q : database → option X) : prog svcE (result X) :=
  call (DBQuery c q).

Definition verifyDBTrust (c : context) (epoch : Z) (token : string) : prog svcE (option error) :=
  let! r := queryRaw c select_trust in
  match r with
  | Err e => Ret (Some (ErrorWrap "read database trust state" e))
  | Ok None => Ret (Some (Errorf "missing database trust state"))
  | Ok (Some (actualEpoch, actualToken)) =>
    if negb (bool_decide (actualEpoch = epoch)) || negb (bool_decide (actualToken = token))
    then Ret (Some (Errorf "database trust state does not match trust anchor"))
    else Ret None
  end.

(** The body of [QueryContext] between the lock and the deferred unlock. *)
Definition fenced_query {X} (anchor : trustAnchor) (q : database → option X) : prog svcE (result X) :=
  let! g := anchor_get anchor Caller in
  match g with
  | Err e => Ret (Err e)
  | Ok (first, rv) =>
    if bool_decide (PendingEpoch first ≠ None)
    then Ret (Err (Errorf "trust anchor has unresolved pending write")) else
    rows ←? queryRaw Caller q;
    ensure verifyDBTrust Caller (Epoch first) (Token first);
    let! g2 := anchor_get anchor Caller in
    match g2 with
    | Err e => Ret (Err e)
    | Ok (second, rv2) =>
      if negb (bool_decide (rv = rv2)) || bool_decide (PendingEpoch second ≠ None) ||
         negb (bool_decide (Epoch second = Epoch first)) || negb (bool_decide (Token second = Token first))
      then Ret (Err (Errorf "trust anchor changed during read"))
      else Ret (Ok rows)
    end
  end.

Definition QueryContext {X} (d : rhizaSQL) (q : database → option X) : prog svcE (result X) :=
  let! anchor := call TrustLoad in
  match anchor with
  | None => if trustRequired d then Ret (Err ErrTrustUnsettled) else queryRaw Caller q
  | Some anchor =>
    let! lock := call (TrustRLock Caller) in
    match lock with
    | Some e => Ret (Err e)
    | None =>
      let! r := fenced_query anchor q in
      let! _ := call TrustRUnlock in
      Ret r
    end
  end.

(** ** Writes *)

(** The request that carries the caller's statements and, last, the update of
    the trust row; [one] is the row count the tail insists on. *)
Definition trust_tail (returning : bool) (next current : Z * string) : SQLStatement :=
  mkSQLStatement (update_trust returning next current) returning
    (if returning then None else Some 1%Z) (if returning then Some 1%Z else None).

Definition normal_statements (request : ExecuteRequest) : list SQLStatement :=
  match req_SQL request with
  | Some st => [mkSQLStatement (SQL st) (req_WantRows request) None None]
  | None => req_Statements request
  end.

Definition fenced_request (request : ExecuteRequest) (id : string) (current : trustAnchorRecord) : ExecuteRequest :=
  mkExecuteRequest id None
    (normal_statements request ++
     [trust_tail true (wrap64 (Epoch current + 1), id) (pair_of current)])
    (req_WantRows request).

(** The receipt without the tail, as the caller would have seen it. *)
Definition project_receipt (originalStatements : nat) (returnRows : bool) (response : ExecuteResponse) :
    ExecuteResponse :=
  let own := take originalStatements (resp_Statements response) in
  mkExecuteResponse (Status response) (ErrorCode response) (sum_rows own)
    (match resp_Statements response !! pred originalStatements with
     | Some st => sr_LastInsertID st | None => 0%Z end)
    (if returnRows then own else []).

Definition fail (e : error) : prog svcE (ExecuteResponse * option error) :=
  Ret (zero_response, Some e).

(** What [execute] does once the data node answered the reserved request. *)
Definition resolve_fence (anchor : trustAnchor) (current : trustAnchorRecord) (pendingRV id : string)
    (originalStatements : nat) (returnRows : bool) (answer : ExecuteResponse * option error) :
    prog svcE (ExecuteResponse * option error) :=
  let (response, err) := answer in
  if bool_decide (err = None) && bool_decide (Status response = MutationCommitted) then
    let! f := anchor_cas anchor Fenced pendingRV (finalize current (wrap64 (Epoch current + 1)) id) in
    match f with
    | Err e => fail (ErrorWrap "finalize trust anchor after committed write" e)
    | Ok _ =>
      if negb (bool_decide (length (resp_Statements response) = S originalStatements))
      then fail (Errorf "trust write result projection is unavailable")
      else Ret (project_receipt originalStatements returnRows response, None)
    end
  else
    let err := match err with
               | None => error_text "SQL mutation was rejected: " (ErrorCode response)
               | Some e => e
               end in
    if bool_decide (Status response = MutationRejected) then
      let! v := verifyDBTrust Fenced (Epoch current) (Token current) in
      match v with
      | Some _ => Ret (response, Some err)
      | None =>
        let! c := anchor_cas anchor Fenced pendingRV (clear current) in
        match c with
        | Err e => fail (ErrorWrap "clear rejected trust write" e)
        | Ok _ => Ret (response, Some err)
        end
      end
    else Ret (response, Some err).

(** The body of [execute] under the trust lock. *)
Definition fenced_execute (anchor : trustAnchor) (request : ExecuteRequest) (originalStatements : nat) :
    prog svcE (ExecuteResponse * option error) :=
  let! ctx := call (CtxErr Caller) in
  match ctx with Some e => fail e | None =>
  let! g := anchor_get anchor Fenced in
  match g with Err e => fail e | Ok (current, rv) =>
  if bool_decide (PendingEpoch current ≠ None)
  then fail (Errorf "trust anchor has unresolved pending write") else
  let! v := verifyDBTrust Fenced (Epoch current) (Token current) in
  match v with Some e => fail e | None =>
  let! id := call NewUUID in
  let request' := fenced_request request id current in
  let originalStatements :=
    if bool_decide (originalStatements = 0) then length (normal_statements request)
    else originalStatements in
  let returnRows := req_WantRows request || existsb WantRows (normal_statements request) in
  match ValidateExecuteRequest request' with
  | Some e => fail (ErrorWrap "validate fenced write" e)
  | None =>
    let! c := anchor_cas anchor Fenced rv (reserve current (wrap64 (Epoch current + 1)) id) in
    match c with Err e => fail e | Ok pendingRV =>
    let! answer := call (DBExecute Fenced request') in
    resolve_fence anchor current pendingRV id originalStatements returnRows answer
    end
  end end end end.

Definition execute (d : rhizaSQL) (request : ExecuteRequest) (originalStatements : nat) :
    prog svcE (ExecuteResponse * option error) :=
  let! anchor := call TrustLoad in
  match anchor with
  | None =>
    if trustRequired d then fail ErrTrustUnsettled else
    let! r := call (DBExecute Caller request) in
    Ret (committedResponse r)
  | Some anchor =>
    let! lock := call (TrustLock Caller) in
    match lock with
    | Some e => fail e
    | None =>
      let! r := fenced_execute anchor request originalStatements in
      let! _ := call TrustUnlock in
      Ret r
    end
  end.

Definition execRaw (c : context) (request : ExecuteRequest) : prog svcE (ExecuteResponse * option error) :=
  let! r := call (DBExecute c request) in Ret (committedResponse r).

Definition ExecTransactionResult (d : rhizaSQL) (statements : list SQLStatement) :
    prog svcE (ExecuteResponse * option error) :=
  match statements with
  | [] => fail (Errorf "transaction requires at least one statement")
  | _ =>
    let! id := call NewUUID in
    execute d (mkExecuteRequest id None statements false) (length statements)
  end.

Definition ExecTransaction (d : rhizaSQL) (statements : list SQLStatement) : prog svcE (option error) :=
  let! r := ExecTransactionResult d statements in Ret (snd r).

Definition ExecContext (d : rhizaSQL) (statement : SQLStatement) : prog svcE (ExecuteResponse * option error) :=
  let! id := call NewUUID in
  execute d (mkExecuteRequest id (Some statement) [] false) 1.

(** ** Startup helpers *)

(** [errors.Is] against a sentinel of the data node. *)
Fixpoint errors_Is (code : string) (e : error) : bool :=
  match e with
  | ErrService c => bool_decide (c = code)
  | ErrorWrap _ e' => errors_Is code e'
  | _ => false
  end.

Definition retryable (e : error) : bool :=
  negb (errors_Is "commit unknown" e || errors_Is "durability unavailable" e ||
        (negb (errors_Is "not ready" e) && negb (errors_Is "quorum unavailable" e))).

(** [retryRhizaStartup]: [attempts] bounds the turns of the loop; the context
    expires at the latest in the last one. *)
Fixpoint retryRhizaStartup (attempts : nat) (c : context) (operation : prog svcE (option error)) :
    prog svcE (option error) :=
  match attempts with
  | O => Ret (Some ErrContext)
  | S n =>
    let! err := operation in
    match err with
    | None => Ret None
    | Some e =>
      if retryable e then
        let! again := call (Sleep c) : prog svcE bool in
        if again then retryRhizaStartup n c operation else Ret (Some ErrContext)
      else Ret (Some e)
    end
  end.

Definition Migrate (attempts : nat) (c : context) (statements : list SQLStatement) : prog svcE (option error) :=
  retryRhizaStartup attempts c (call (DBMigrate c statements)).

(** [waitUntilReady], polling [ready]. *)
Fixpoint waitUntilReady (attempts : nat) (c : context) (ready : prog svcE bool) : prog svcE (option error) :=
  match attempts with
  | O => Ret (Some ErrContext)
  | S n =>
    let! r := ready in
    if r then Ret None else
    let! again := call (Sleep c) : prog svcE bool in
    if again then waitUntilReady n c ready else Ret (Some ErrContext)
  end.

End with_services.

#[global] Arguments anchor_get : simpl never.
#[global] Arguments anchor_cas : simpl never.
#[global] Arguments queryRaw : simpl never.
#[global] Arguments verifyDBTrust : simpl never.
