(* ===== verification/TrustStartup.v ===== *)
(** * Startup and trust settlement (internal/store/store.go, lines 45-858)

    The migration of the schema, the reservation and completion of the one
    bootstrap fence, the convergence of the other nodes, and the loop that
    retries until this node has proved the anchored pair.  Everything here
    runs under the startup context, [Caller]. *)

From S2P Require Export Prelude Effects Schema TrustAnchor Services RhizaSQL.
Open Scope go_scope.

Definition schemaVersion : Z := 1.

(** ** Schema (Store.migrate) *)

(** [CREATE TABLE IF NOT EXISTS name (...)]. *)
Definition create_table (name : string) : SQLStatement :=
  mkSQLStatement (λ db, Some (Database ({[name]} ∪ sqlite_master db) (trust_state db) (ternal_schema db) (data db),
                              mkStatementResult 0 0 0)) false None None.

(** [CREATE INDEX IF NOT EXISTS ... ON name (...)]: an index changes no row. *)
Definition create_index (name : string) : SQLStatement :=
  mkSQLStatement (λ db, if table_exists name db then Some (db, mkStatementResult 0 0 0) else None)
    false None None.

(** [INSERT INTO ternal_schema (version) SELECT 1 WHERE NOT EXISTS (SELECT 1 FROM ternal_schema)]. *)
Definition insert_marker : SQLStatement :=
  mkSQLStatement (λ db,
    if negb (table_exists "ternal_schema" db) then None else
    match ternal_schema db with
    | [] => Some (Database (sqlite_master db) (trust_state db) [1%Z] (data db), mkStatementResult 1 0 0)
    | _ => Some (db, mkStatementResult 0 0 0)
    end) false None None.

Definition migrations : list SQLStatement :=
  [create_table "ternal_schema"; create_table "hosts"; create_table "policies";
   create_table "ssh_keys"; create_table "access_requests"; create_table "access_grants";
   create_table "revoked_sessions"; create_index "revoked_sessions";
   create_table "audit_events"; create_table "manufacturing_tokens";
   create_table "manufacturing_batches"; create_table "devices";
   create_index "access_grants"; create_index "access_requests";
   create_table "endpoint_discovery"; create_table "relay_access_grants";
   create_table "authorized_keys_snapshots"; create_table "authorized_keys_snapshot_grants";
   insert_marker].

(** What one Open already did. *)
Record trustStartup := mkTrustStartup {
  attempted : string;
  reserved : bool;
  pendingID : string;
}.

Definition zero_startup : trustStartup := mkTrustStartup "" false "".

Section with_services.
Context {R : Recovery} {P : ServiceParams}.
(** How often the data node's migration is retried before its context ends. *)
Context (migrate_attempts : nat).

(** ** Introspection, on the raw path *)

Definition count_names (names : list string) (db : database) : Z :=
  Z.of_nat (size (sqlite_master db ∩ list_to_set names)).

Definition countTables (names : list string) : prog svcE (result Z) :=
  queryRaw Caller (λ db, Some (count_names names db)).

Definition tableExists (name : string) : prog svcE (result bool) :=
  count ←? countTables [name];
  Ret (Ok (bool_decide (count = 1%Z))).

Definition trustStateExists : prog svcE (result bool) := tableExists "trust_state".

(** [SELECT COUNT( * ), COALESCE(MAX(version), 0) FROM ternal_schema]. *)
Definition select_marker (db : database) : option (Z * Z) :=
  if table_exists "ternal_schema" db
  then Some (Z.of_nat (length (ternal_schema db)),
             match ternal_schema db with [] => 0%Z | v :: l => foldr Z.max v l end)
  else None.

Definition schemaMarker : prog svcE (result (Z * Z)) :=
  exists_ ←? tableExists "ternal_schema";
  if negb exists_ then Ret (Ok (0, 0)%Z) else queryRaw Caller select_marker.

Definition migrationPending : prog svcE (result bool) :=
  marker ←? schemaMarker;
  Ret (Ok (negb (bool_decide (fst marker = 1%Z)) || negb (bool_decide (snd marker = schemaVersion)))).

Definition requireMigrated : prog svcE (option error) :=
  marker ←! schemaMarker;
  if negb (bool_decide (fst marker = 1%Z)) || negb (bool_decide (snd marker = schemaVersion))
  then Ret (Some (Errorf "unsupported Ternal schema version")) else Ret None.

Definition wrap_error {A} (msg : string) (p : prog svcE (result A)) : prog svcE (result A) :=
  let! r := p in
  match r with Ok a => Ret (Ok a) | Err e => Ret (Err (ErrorWrap msg e)) end.

Definition migrate : prog svcE (option error) :=
  schemaTables ←! wrap_error "inspect schema marker" (countTables ["ternal_schema"]);
  legacyTables ←! wrap_error "inspect legacy schema"
    (countTables ["hosts"; "policies"; "access_grants"; "devices"; "relay_access_grants"]);
  if bool_decide (schemaTables = 0%Z) && negb (bool_decide (legacyTables = 0%Z))
  then Ret (Some (Errorf "unsupported pre-Go Ternal schema; use an empty greenfield data directory"))
  else
    let! m := Migrate migrate_attempts Caller migrations in
    match m with
    | Some e => Ret (Some (ErrorWrap "execute migration" e))
    | None => requireMigrated
    end.

Definition catchUpMigration : prog svcE (option error) :=
  behind ←! migrationPending;
  if behind then (must migrate; requireMigrated) else requireMigrated.

(** ** The bootstrap of the trust row *)

(** [CREATE TABLE trust_state (...)], which fails when the table exists. *)
Definition create_trust_state : SQLStatement :=
  mkSQLStatement (λ db,
    if table_exists "trust_state" db then None
    else Some (Database ({["trust_state"]} ∪ sqlite_master db) (trust_state db) (ternal_schema db) (data db),
               mkStatementResult 0 0 0)) false None None.

(** [INSERT INTO trust_state (id, epoch, token) VALUES (1, ?, ?)]. *)
Definition insert_trust_state (pair : Z * string) : SQLStatement :=
  mkSQLStatement (λ db,
    if negb (table_exists "trust_state" db) then None else
    match trust_state db with
    | Some _ => None
    | None => Some (Database (sqlite_master db) (Some pair) (ternal_schema db) (data db),
                    mkStatementResult 1 0 0)
    end) false None None.

Definition bootstrap_request (id : string) (pair : Z * string) : ExecuteRequest :=
  mkExecuteRequest id None [create_trust_state; insert_trust_state pair] false.

Definition prepareMigrationTrustState (pending : trustAnchorRecord) : prog svcE (option error) :=
  exists_ ←! trustStateExists;
  if exists_ then verifyDBTrust Caller (Epoch pending) (Token pending) else
  if negb (Bootstrap pending) then Ret (Some (Errorf "database trust state is missing")) else
  let! id := call NewUUID in
  let request := bootstrap_request id (pair_of pending) in
  match ValidateExecuteRequest request with
  | Some e => Ret (Some e)
  | None =>
    let! r := execRaw Caller request in
    match snd r with
    | Some e => Ret (Some (ErrorWrap "bootstrap trust state" e))
    | None => verifyDBTrust Caller (Epoch pending) (Token pending)
    end
  end.

(** ** Fences *)

(** The write that commits a reserved migration fence. *)
Definition migration_request (id : string) (next : Z) (current : Z * string) : ExecuteRequest :=
  mkExecuteRequest id None [trust_tail false (next, id) current] false.

Definition finalizeTrustFence (anchor : trustAnchor) (pending : trustAnchorRecord) : prog svcE (option error) :=
  g ←! anchor_get anchor Caller;
  let (current, rv) := g in
  match PendingEpoch current, PendingEpoch pending with
  | Some e, Some e' =>
    if negb (bool_decide (e = e')) || negb (bool_decide (PendingID current = PendingID pending))
    then Ret (Some (Errorf "migration trust fence changed")) else
    must verifyDBTrust Caller e' (PendingID pending);
    must requireMigrated;
    let! r := anchor_cas anchor Caller rv (finalize current e (PendingID current)) in
    match r with Ok _ => Ret None | Err e => Ret (Some e) end
  | _, _ => Ret (Some (Errorf "migration trust fence changed"))
  end.

Definition convergeFence (anchor : trustAnchor) (pending : trustAnchorRecord) : prog svcE (option error) :=
  must catchUpMigration;
  finalizeTrustFence anchor pending.

Definition completeMigrationFence (anchor : trustAnchor) (pending : trustAnchorRecord) : prog svcE (option error) :=
  match PendingEpoch pending with
  | None => Ret (Some (Errorf "missing migration trust fence"))
  | Some next =>
    let request := migration_request (PendingID pending) next (pair_of pending) in
    match ValidateExecuteRequest request with
    | Some e => Ret (Some e)
    | None =>
      let! r := execRaw Caller request in
      match snd r with
      | Some e => Ret (Some (ErrorWrap "commit migration trust tail" e))
      | None => finalizeTrustFence anchor pending
      end
    end
  end.

Definition finishMigrationFence (anchor : trustAnchor) (pending : trustAnchorRecord) : prog svcE (option error) :=
  match PendingEpoch pending with
  | None => Ret (Some (Errorf "missing migration trust fence"))
  | Some next =>
    let! v := verifyDBTrust Caller next (PendingID pending) in
    match v with
    | None => convergeFence anchor pending
    | Some _ =>
      must prepareMigrationTrustState pending;
      must migrate;
      completeMigrationFence anchor pending
    end
  end.

(** The reservation: the state keeps the proposed ID even when the
    compare-and-swap reports an error. *)
Definition beginMigrationFence (anchor : trustAnchor) (record : trustAnchorRecord) (rv : string)
    (state : trustStartup) : prog svcE (trustStartup * result trustAnchorRecord) :=
  if bool_decide (PendingEpoch record ≠ None)
  then Ret (state, Err (Errorf "trust anchor has unresolved pending write")) else
  if negb (Bootstrap record)
  then Ret (state, Err (Errorf "trust anchor bootstrap is already consumed")) else
  let! exists_ := trustStateExists in
  match exists_ with Err e => Ret (state, Err e) | Ok exists_ =>
  let! v := if exists_ then verifyDBTrust Caller (Epoch record) (Token record) else Ret None in
  match v with Some e => Ret (state, Err e) | None =>
  let next := wrap64 (Epoch record + 1) in
  let! id := if bool_decide (attempted state = "") then call NewUUID else Ret (attempted state) in
  let state := mkTrustStartup id (reserved state) (pendingID state) in
  let pending := reserve record next id in
  match ValidateExecuteRequest (migration_request id next (pair_of record)) with
  | Some e => Ret (state, Err e)
  | None =>
    let! c := anchor_cas anchor Caller rv pending in
    match c with
    | Err e => Ret (state, Err e)
    | Ok _ => Ret (mkTrustStartup id true id, Ok pending)
    end
  end end end.

Definition recoverPendingTrust (anchor : trustAnchor) (pending : trustAnchorRecord) (rv : string) :
    prog svcE (option error) :=
  let unresolved := Ret (Some (Errorf "trust anchor has unresolved pending write")) in
  let swap next :=
    let! r := anchor_cas anchor Caller rv next in
    match r with Ok _ => Ret None | Err e => Ret (Some e) end in
  let! status := call (DBRequestStatus Caller (PendingID pending)) in
  match status with
  | Err e => Ret (Some (ErrorWrap "read pending trust request" e))
  | Ok state =>
    let! committed :=
      match PendingEpoch pending with
      | Some next =>
        if bool_decide (state = MutationCommitted)
        then verifyDBTrust Caller next (PendingID pending) else Ret (Some ErrTrustUnsettled)
      | None => Ret (Some ErrTrustUnsettled)
      end in
    match committed, PendingEpoch pending with
    | None, Some next => swap (finalize pending next (PendingID pending))
    | _, _ =>
      if bool_decide (state = MutationRejected) then
        let! v := verifyDBTrust Caller (Epoch pending) (Token pending) in
        match v with
        | None => swap (clear pending)
        | Some _ => unresolved
        end
      else unresolved
    end
  end.

(** ** Settlement *)

Definition finishTrustStartup (anchor : trustAnchor) : prog svcE (option error) :=
  g ←! anchor_get anchor Caller;
  let (record, _) := g in
  if bool_decide (PendingEpoch record ≠ None)
  then Ret (Some (Errorf "trust anchor has unresolved pending write"))
  else verifyDBTrust Caller (Epoch record) (Token record).

Definition with_state (state : trustStartup) (p : prog svcE (option error)) :
    prog svcE (trustStartup * option error) :=
  let! e := p in Ret (state, e).

Definition settleTrustAnchorOnce (anchor : trustAnchor) (state : trustStartup) :
    prog svcE (trustStartup * option error) :=
  let! g := anchor_get anchor Caller in
  match g with Err e => Ret (state, Some e) | Ok (record, rv) =>
  match PendingEpoch record with
  | Some next =>
    if negb (bool_decide (attempted state = "")) && bool_decide (PendingID record = attempted state)
    then
      let state := mkTrustStartup (attempted state) true (PendingID record) in
      with_state state (finishMigrationFence anchor record)
    else
      let! v := verifyDBTrust Caller next (PendingID record) in
      with_state state
        (match v with
         | None => convergeFence anchor record
         | Some _ => recoverPendingTrust anchor record rv
         end)
  | None =>
    if reserved state then with_state state (finishTrustStartup anchor) else
    let! behind := migrationPending in
    match behind with Err e => Ret (state, Some e) | Ok behind =>
    if behind && Bootstrap record then
      let! b := beginMigrationFence anchor record rv state in
      match b with
      | (state, Err e) => Ret (state, Some e)
      | (state, Ok pending) => with_state state (finishMigrationFence anchor pending)
      end
    else
      with_state state
        (must (if behind then catchUpMigration else Ret None);
         finishTrustStartup anchor)
    end
  end end.

(** [attempts] bounds the turns of the loop; its context ends at the latest
    when they are used up. *)
Fixpoint settleTrustAnchor (attempts : nat) (anchor : trustAnchor) (state : trustStartup) :
    prog svcE (trustStartup * option error) :=
  match attempts with
  | O => Ret (state, Some (ErrorWrap "settle trust anchor" ErrContext))
  | S n =>
    let! r := settleTrustAnchorOnce anchor state in
    match r with
    | (state, None) => Ret (state, None)
    | (state, Some _) =>
      let! again := call (Sleep Caller) : prog svcE bool in
      if again then settleTrustAnchor n anchor state
      else Ret (state, Some (ErrorWrap "settle trust anchor" ErrContext))
    end
  end.

(** ** Open and readiness *)

(** The settlement flags of [Store]. *)
Record storeState := mkStoreState { trustNeeded : bool; trustSettled : bool }.

Definition trustReady (s : storeState) : option error :=
  if trustNeeded s && negb (trustSettled s) then Some (Errorf "trust anchor is not settled") else None.

Definition markTrustSettled (s : storeState) : storeState := mkStoreState (trustNeeded s) true.

(** The goroutine of [settleInBackground]. *)
Definition settle_background (attempts : nat) (anchor : trustAnchor) (state : trustStartup) (s : storeState) :
    prog svcE storeState :=
  let! r := settleTrustAnchor attempts anchor state in
  match snd r with
  | Some _ => Ret s
  | None =>
    let! _ := call (TrustStore anchor) in
    Ret (markTrustSettled s)
  end.

(** What [Open] does after the data node is readable.  [Ok None] is an open
    store; [Ok (Some state)] one that continues to settle in the background
    from [state]. *)
Definition open_trust (attempts : nat) (anchor : option trustAnchor) :
    prog svcE (result (rhizaSQL * storeState * option trustStartup)) :=
  match anchor with
  | None =>
    let! m := migrate in
    match m with
    | Some e => Ret (Err (ErrorWrap "migrate" e))
    | None => Ret (Ok (mkRhizaSQL false, mkStoreState false false, None))
    end
  | Some anchor =>
    let d := mkRhizaSQL true in
    let! r := settleTrustAnchor attempts anchor zero_startup in
    match r with
    | (state, Some _) => Ret (Ok (d, mkStoreState true false, Some state))
    | (_, None) =>
      let! _ := call (TrustStore anchor) in
      Ret (Ok (d, mkStoreState false false, None))
    end
  end.

(** [Store.Ready]. *)
Definition Ready (d : rhizaSQL) (s : storeState) : prog svcE (option error) :=
  match trustReady s with
  | Some e => Ret (Some e)
  | None =>
    let! r := QueryContext d (λ _, Some 1%Z) in
    match r with
    | Err e => Ret (Some (ErrorWrap "readiness query" e))
    | Ok value =>
      if bool_decide (value = 1%Z) then Ret None
      else Ret (Some (Errorf "readiness query returned another value"))
    end
  end.

End with_services.
