(* ===== verification/TrustInvariant.v ===== *)
(** * The invariant of the trust protocol

    What is true of the anchor, the database and the calls still under way in
    every state that Ternal processes can bring about together, and that every
    call a process is allowed to make ([permitted]) keeps it, whatever the
    service does with the call.  TrustSafety.v shows that the programs only
    make such calls. *)

From S2P Require Export Prelude Effects Schema TrustAnchor Services RhizaSQL TrustStartup.

Section with_services.
Context {R : Recovery} {P : ServiceParams}.

(** ** What only grows *)

Record le (σ σ' : services) : Prop := {
  le_history : history σ `prefix_of` history σ';
  le_log : ∀ id b, log σ !! id = Some b → log σ' !! id = Some b;
  le_minted : minted σ ⊆ minted σ';
  le_spent : spent σ ⊆ spent σ';
  le_proposed : proposed σ ⊆ proposed σ';
}.

#[global] Instance le_preorder : PreOrder le.
Proof.
  split.
  - intros σ. split; done.
  - intros σ1 σ2 σ3 [] []. split; [by etrans|eauto|by etrans..].
Qed.

Lemma le_lookup σ σ' v r : le σ σ' → history σ !! v = Some r → history σ' !! v = Some r.
Proof. intros [Hh _ _ _ _] Hv. by eapply prefix_lookup_Some. Qed.

Lemma le_elem σ σ' r : le σ σ' → r ∈ history σ → r ∈ history σ'.
Proof. intros Hle [v Hv]%list_elem_of_lookup. apply list_elem_of_lookup. eauto using le_lookup. Qed.

(** ** Shapes of requests *)

(** A statement that leaves the trust row alone. *)
Definition neutral (st : SQLStatement) : Prop :=
  ∀ db db' r, SQL st db = Some (db', r) →
    trust_state db' = trust_state db ∧ table_exists "trust_state" db' = table_exists "trust_state" db.

Definition fence_shape (req : ExecuteRequest) (p p' : Z * string) : Prop :=
  ∃ l ret, all_statements req = l ++ [trust_tail ret p' p] ∧ Forall neutral l.

Definition boot_shape (req : ExecuteRequest) (p : Z * string) : Prop :=
  all_statements req = [create_trust_state; insert_trust_state p].

Lemma run_statement_Some st d d' r : run_statement st d = Some (d', r) → SQL st d = Some (d', r).
Proof.
  unfold run_statement. destruct (SQL st d) as [[d1 r1]|]; [|done].
  destruct (_ && _); [|done]. intros ?. by simplify_eq.
Qed.

Lemma neutral_run l d d' rs :
  Forall neutral l → run_statements l d = Some (d', rs) →
  trust_state d' = trust_state d ∧ table_exists "trust_state" d' = table_exists "trust_state" d.
Proof.
  intros Hl. revert d rs. induction Hl as [|st l Hst _ IH]; simpl; intros d rs H; [by simplify_eq|].
  destruct (run_statement st d) as [[d1 r]|] eqn:E; [|done].
  destruct (run_statements l d1) as [[d2 rs1]|] eqn:E2; [|done]. simplify_eq.
  apply run_statement_Some, Hst in E as [<- <-]. eauto.
Qed.

(** The tail commits only from the pair it expects. *)
Lemma tail_run ret p p' d d' r :
  run_statement (trust_tail ret p' p) d = Some (d', r) →
  trust_state d = Some p ∧ table_exists "trust_state" d = true ∧
  trust_state d' = Some p' ∧ table_exists "trust_state" d' = true ∧ data d' = data d ∧
  r = mkStatementResult 1 0 (if ret then 1 else 0).
Proof.
  unfold run_statement, trust_tail, update_trust. simpl.
  destruct (table_exists "trust_state" d) eqn:E; simpl; [|done].
  case_bool_decide as Hp; simpl.
  - destruct ret; simpl; intros [= <- <-]; simpl; unfold table_exists in *; done.
  - destruct ret; done.
Qed.

Lemma fence_run req p p' d d' rs :
  fence_shape req p p' → run_statements (all_statements req) d = Some (d', rs) →
  trust_state d = Some p ∧ table_exists "trust_state" d = true ∧
  trust_state d' = Some p' ∧ table_exists "trust_state" d' = true.
Proof.
  intros (l & ret & -> & Hl). rewrite run_statements_app.
  destruct (run_statements l d) as [[d1 rs1]|] eqn:E; [|done].
  simpl. destruct (run_statement _ d1) as [[d2 r]|] eqn:E2; [|done]. intros [= <- <-].
  apply (neutral_run _ _ _ _ Hl) in E as [<- <-]. apply tail_run in E2. intuition congruence.
Qed.

Lemma boot_run req p d d' rs :
  boot_shape req p → run_statements (all_statements req) d = Some (d', rs) →
  trust_state d = None ∧ table_exists "trust_state" d = false ∧
  trust_state d' = Some p ∧ table_exists "trust_state" d' = true.
Proof.
  unfold boot_shape. intros ->. simpl. unfold run_statement. simpl.
  destruct (table_exists "trust_state" d) eqn:E; [done|]. simpl.
  assert (Ht : bool_decide ("trust_state" ∈ ({["trust_state"]} ∪ sqlite_master d : gset string)) = true)
    by (apply bool_decide_eq_true; set_solver).
  unfold table_exists. simpl. rewrite Ht. simpl.
  destruct (trust_state d); [done|]. intros [= <- <-]. simpl. done.
Qed.

(** ** The invariant *)

Definition was_pending (σ : services) (id : string) : Prop :=
  ∃ r e, r ∈ history σ ∧ PendingEpoch r = Some e ∧ PendingID r = id.

(** The database carries the pair the record publishes, or it is a database
    the deployment has not bootstrapped yet. *)
Definition trust_matches (σ : services) (r : trustAnchorRecord) : Prop :=
  (table_exists "trust_state" (db σ) = true ∧ trust_state (db σ) = Some (pair_of r)) ∨
  (table_exists "trust_state" (db σ) = false ∧ trust_state (db σ) = None ∧ Bootstrap r = true).

Definition agree (σ : services) (r : trustAnchorRecord) : Prop :=
  match PendingEpoch r with
  | None => trust_matches σ r
  | Some e =>
    (trust_matches σ r ∧ log σ !! PendingID r ≠ Some true) ∨
    (table_exists "trust_state" (db σ) = true ∧ trust_state (db σ) = Some (e, PendingID r) ∧
     log σ !! PendingID r = Some true)
  end.

(** The record updates the protocol makes; the first is the backend's own
    rewriting of a record into the current shape. *)
Inductive rec_step (r : trustAnchorRecord) : trustAnchorRecord → Prop :=
  | rec_same : rec_step r r
  | rec_reserve id :
      PendingEpoch r = None → rec_step r (reserve r (wrap64 (Epoch r + 1)) id)
  | rec_finalize e :
      PendingEpoch r = Some e → rec_step r (finalize r e (PendingID r))
  | rec_clear e : PendingEpoch r = Some e → rec_step r (clear r).

Fixpoint chain (l : list trustAnchorRecord) : Prop :=
  match l with
  | r :: (r' :: _) as l' => rec_step r r' ∧ chain l'
  | _ => True
  end.

(** What makes an update right when it is applied to the record [r]. *)
Inductive cas_ok (σ : services) (r : trustAnchorRecord) : trustAnchorRecord → Prop :=
  | cas_reserve id :
      PendingEpoch r = None → id ∈ proposed σ →
      cas_ok σ r (reserve r (wrap64 (Epoch r + 1)) id)
  | cas_finalize e :
      PendingEpoch r = Some e → log σ !! PendingID r = Some true →
      cas_ok σ r (finalize r e (PendingID r))
  | cas_clear e :
      PendingEpoch r = Some e → log σ !! PendingID r = Some false → cas_ok σ r (clear r).

(** Reserving the same ID again is only right while the bootstrap lasts. *)
Definition reserve_ok (σ : services) (r next : trustAnchorRecord) : Prop :=
  PendingEpoch next = None ∨ Bootstrap r = true ∨ ¬ was_pending σ (PendingID next).

Definition late_cas_ok (σ : services) (c : string * trustAnchorRecord) : Prop :=
  ∃ v r, c.1 = rv_name v ∧ history σ !! v = Some r ∧ cas_ok σ r c.2 ∧
    (v = current_version σ → reserve_ok σ r c.2).

Definition fence_authorized (σ : services) (req : ExecuteRequest) : Prop :=
  ∃ r e, r ∈ history σ ∧ PendingEpoch r = Some e ∧ RequestID req = PendingID r ∧
    fence_shape req (pair_of r) (e, PendingID r).

Definition boot_authorized (σ : services) (req : ExecuteRequest) : Prop :=
  ∃ r, r ∈ history σ ∧ Bootstrap r = true ∧ boot_shape req (pair_of r).

Definition exec_ok (σ : services) (req : ExecuteRequest) : Prop :=
  RequestID req ∈ spent σ ∧
  (fence_authorized σ req ∨ (boot_authorized σ req ∧ RequestID req ∉ proposed σ)).

Record Inv (σ : services) : Prop := {
  inv_now : ∃ r, anchor_now σ = Some r ∧ agree σ r;
  inv_chain : chain (history σ);
  inv_decided r e : r ∈ history σ → PendingEpoch r = Some e → log σ !! PendingID r = None →
    anchor_now σ = Some r;
  inv_boot r r' : anchor_now σ = Some r → Bootstrap r = true → r' ∈ history σ →
    Bootstrap r' = true → pair_of r' = pair_of r;
  inv_boot_log r r' e : anchor_now σ = Some r → Bootstrap r = true → r' ∈ history σ →
    PendingEpoch r' = Some e → log σ !! PendingID r' = Some true →
    PendingEpoch r ≠ None ∧ PendingID r = PendingID r';
  inv_token r : r ∈ history σ → Token r ∈ spent σ ∧
    (Token r ∈ proposed σ → log σ !! Token r = Some true);
  inv_pending r e : r ∈ history σ → PendingEpoch r = Some e → PendingID r ∈ proposed σ;
  inv_proposed : proposed σ ⊆ spent σ;
  inv_spent : spent σ ⊆ minted σ;
  inv_log id b : log σ !! id = Some b → id ∈ spent σ ∧ (id ∈ proposed σ → was_pending σ id);
  inv_late_cas : Forall (late_cas_ok σ) (late_cas σ);
  inv_late_exec : Forall (exec_ok σ) (late_exec σ);
  inv_late_migrations : Forall (Forall neutral) (late_migrations σ);
}.

(** ** New versions of the anchor *)

Definition append (x : trustAnchorRecord) (σ : services) : services :=
  set_history (history σ ++ [x]) σ.

Lemma append_now x σ : anchor_now (append x σ) = Some x.
Proof. apply last_snoc. Qed.

Lemma append_le x σ : le σ (append x σ).
Proof. split; simpl; try done. by exists [x]. Qed.

Lemma now_elem σ r : anchor_now σ = Some r → r ∈ history σ.
Proof. unfold anchor_now. intros [l Hl]%last_Some. rewrite Hl. set_solver. Qed.

Lemma was_pending_le σ σ' id : le σ σ' → was_pending σ id → was_pending σ' id.
Proof. intros Hle (r & e & ? & ? & ?). exists r, e. eauto using le_elem. Qed.

Lemma chain_snoc l r x : last l = Some r → chain l → rec_step r x → chain (l ++ [x]).
Proof.
  intros Hl Hc Hr. induction l as [|a l IH]; [done|]. destruct l as [|b l]; simpl in *.
  - by simplify_eq.
  - destruct Hc. split; [done|]. by apply IH.
Qed.

Lemma cas_ok_le σ σ' r x : le σ σ' → cas_ok σ r x → cas_ok σ' r x.
Proof.
  intros Hle. destruct 1; [eapply cas_reserve|eapply cas_finalize|eapply cas_clear];
    eauto using le_log. by apply (le_proposed _ _ Hle).
Qed.

Lemma fence_authorized_le σ σ' req : le σ σ' → fence_authorized σ req → fence_authorized σ' req.
Proof. intros Hle (r & e & ? & ?). exists r, e. eauto using le_elem. Qed.

Lemma boot_authorized_le σ σ' req : le σ σ' → boot_authorized σ req → boot_authorized σ' req.
Proof. intros Hle (r & ? & ?). exists r. eauto using le_elem. Qed.

(** A delayed update decided on an older version can only conflict. *)
Lemma late_cas_append x σ c :
  history σ ≠ [] → late_cas_ok σ c → late_cas_ok (append x σ) c.
Proof.
  intros Hne (v & r & Hv & Hr & Hok & _). exists v, r. split; [done|].
  split; [eapply le_lookup; [apply append_le|done]|].
  split; [eapply cas_ok_le; [apply append_le|done]|].
  intros ->. apply lookup_lt_Some in Hr. unfold current_version in Hr. simpl in Hr.
  rewrite length_app in Hr. simpl in Hr. lia.
Qed.

Record good_version (σ : services) (r x : trustAnchorRecord) : Prop := {
  gv_step : rec_step r x;
  gv_agree : agree σ x;
  gv_token : Token x ∈ spent σ ∧ (Token x ∈ proposed σ → log σ !! Token x = Some true);
  gv_pending e : PendingEpoch x = Some e → PendingID x ∈ proposed σ;
  gv_decided r' e : r' ∈ history σ → PendingEpoch r' = Some e → log σ !! PendingID r' = None → x = r';
  gv_boot : Bootstrap x = true → Bootstrap r = true ∧ pair_of x = pair_of r;
  gv_boot_log r' e : Bootstrap x = true → r' = x ∨ r' ∈ history σ → PendingEpoch r' = Some e →
    log σ !! PendingID r' = Some true → PendingEpoch x ≠ None ∧ PendingID x = PendingID r';
}.

Lemma append_inv σ r x :
  Inv σ → anchor_now σ = Some r → good_version σ r x → Inv (append x σ).
Proof.
  intros Hinv Hnow Hx. pose proof (append_le x σ) as Hle.
  assert (Hne : history σ ≠ []) by (intros E; unfold anchor_now in Hnow; by rewrite E in Hnow).
  destruct Hx as [X1 X2 X3 X4 X5 X6 X7]. destruct Hinv as [I1 I2 I3 I4 I5 I6 I7 I8 I9 I10 I11 I12 I13].
  split; simpl.
  - exists x. split; [apply append_now|exact X2].
  - by eapply chain_snoc.
  - intros r' e. rewrite append_now, elem_of_app, list_elem_of_singleton.
    intros [H| ->] Hp Hl; [|done]. by rewrite (X5 r' e).
  - rewrite append_now. intros ? r' [= <-] Hb. rewrite elem_of_app, list_elem_of_singleton.
    intros [H| ->] Hb'; [|done]. destruct (X6 Hb) as [? ->]. by apply (I4 r).
  - rewrite append_now. intros ? r' e [= <-] Hb. rewrite elem_of_app, list_elem_of_singleton.
    intros [H| ->] Hp Hl; eauto.
  - intros r'. rewrite elem_of_app, list_elem_of_singleton. intros [H| ->]; [by apply I6|done].
  - intros r' e. rewrite elem_of_app, list_elem_of_singleton. intros [H| ->]; eauto.
  - done.
  - done.
  - intros id b Hid. destruct (I10 id b Hid) as [? H]. split; [done|].
    intros Hp. eapply was_pending_le; [exact Hle|by apply H].
  - eapply Forall_impl; [exact I11|]. intros c. by apply late_cas_append.
  - eapply Forall_impl; [exact I12|]. intros req [Hs [H|[H Hn]]]; split; try done.
    + left. by eapply fence_authorized_le.
    + right. split; [by eapply boot_authorized_le|done].
  - done.
Qed.

Lemma good_touch σ r : Inv σ → anchor_now σ = Some r → good_version σ r r.
Proof.
  intros Hinv Hnow. pose proof (now_elem _ _ Hnow) as Hel.
  destruct (inv_now _ Hinv) as (r0 & Hr0 & Hag). rewrite Hnow in Hr0. simplify_eq.
  split; try done.
  - apply rec_same.
  - by apply (inv_token _ Hinv).
  - intros e. by apply (inv_pending _ Hinv).
  - intros r' e ? ? Hl. pose proof (inv_decided _ Hinv r' e). naive_solver.
  - intros r' e ? [->|?] ? ?; eapply inv_boot_log; eauto.
Qed.

Lemma good_reserve σ r id :
  Inv σ → anchor_now σ = Some r → PendingEpoch r = None → id ∈ proposed σ →
  Bootstrap r = true ∨ ¬ was_pending σ id →
  good_version σ r (reserve r (wrap64 (Epoch r + 1)) id).
Proof.
  intros Hinv Hnow Hp Hid Hre. pose proof (now_elem _ _ Hnow) as Hel.
  destruct (inv_now _ Hinv) as (r0 & Hr0 & Hag). rewrite Hnow in Hr0. simplify_eq.
  assert (Hlog : log σ !! id ≠ Some true).
  { intros Hl. destruct (inv_log _ Hinv _ _ Hl) as [_ Hw]. destruct (Hw Hid) as (r' & e & Hr' & He & Hi).
    destruct Hre as [Hb|Hn]; [|apply Hn; exists r', e; auto].
    subst id. destruct (inv_boot_log _ Hinv r0 r' e Hnow Hb Hr' He Hl) as [? _]. congruence. }
  assert (Hold : ∀ r' e, r' ∈ history σ → PendingEpoch r' = Some e → log σ !! PendingID r' = None → False).
  { intros r' e H1 H2 H3. pose proof (inv_decided _ Hinv _ _ H1 H2 H3). congruence. }
  split; simpl; try done.
  - by constructor.
  - unfold agree in *. rewrite Hp in Hag. simpl. left. done.
  - by apply (inv_token _ Hinv r0).
  - intros r' e H1 H2 H3. by destruct (Hold r' e).
  - intros r' e Hb [->|H1] H2 H3; simpl in *; [done|].
    destruct (inv_boot_log _ Hinv r0 r' e Hnow Hb H1 H2 H3). congruence.
Qed.

Lemma decided_not_pending σ r r' e b :
  Inv σ → anchor_now σ = Some r → log σ !! PendingID r = Some b →
  r' ∈ history σ → PendingEpoch r' = Some e → log σ !! PendingID r' = None → False.
Proof. intros Hinv Hnow Hl H1 H2 H3. pose proof (inv_decided _ Hinv _ _ H1 H2 H3). congruence. Qed.

Lemma good_finalize σ r e :
  Inv σ → anchor_now σ = Some r → PendingEpoch r = Some e → log σ !! PendingID r = Some true →
  good_version σ r (finalize r e (PendingID r)).
Proof.
  intros Hinv Hnow Hp Hl. pose proof (now_elem _ _ Hnow) as Hel.
  destruct (inv_now _ Hinv) as (r0 & Hr0 & Hag). rewrite Hnow in Hr0. simplify_eq.
  unfold agree in Hag. rewrite Hp in Hag.
  split; simpl; try done.
  - by econstructor.
  - unfold agree. simpl. left. destruct Hag as [[_ ?]|(? & ? & _)]; done.
  - split; [|done]. apply (inv_proposed _ Hinv). by eapply (inv_pending _ Hinv).
  - intros r' e' H1 H2 H3. by destruct (decided_not_pending _ _ _ _ _ Hinv Hnow Hl H1 H2 H3).
Qed.

Lemma good_clear σ r e :
  Inv σ → anchor_now σ = Some r → PendingEpoch r = Some e → log σ !! PendingID r = Some false →
  good_version σ r (clear r).
Proof.
  intros Hinv Hnow Hp Hl. pose proof (now_elem _ _ Hnow) as Hel.
  destruct (inv_now _ Hinv) as (r0 & Hr0 & Hag). rewrite Hnow in Hr0. simplify_eq.
  unfold agree in Hag. rewrite Hp in Hag.
  split; simpl; try done.
  - by econstructor.
  - unfold agree. simpl. destruct Hag as [[? _]|(_ & _ & ?)]; [done|congruence].
  - by apply (inv_token _ Hinv r0).
  - intros r' e' H1 H2 H3. by destruct (decided_not_pending _ _ _ _ _ Hinv Hnow Hl H1 H2 H3).
  - intros r' e' Hb [->|H1] H2 H3; simpl in *; [done|].
    destruct (inv_boot_log _ Hinv r0 r' e' Hnow Hb H1 H2 H3) as [_ Hi]. rewrite <- Hi in H3. congruence.
Qed.

(** An update that was right when it was decided is right when it lands. *)
Lemma good_cas σ r x :
  Inv σ → anchor_now σ = Some r → cas_ok σ r x → reserve_ok σ r x → good_version σ r x.
Proof.
  intros Hinv Hnow Hok Hre. destruct Hok as [id Hp Hid|e Hp Hl|e Hp Hl].
  - apply good_reserve; try done. destruct Hre as [?|?]; [done|]. naive_solver.
  - by apply good_finalize.
  - by eapply good_clear.
Qed.

(** ** Deciding a request *)

(** The database and the log after a decision, when the decision is right. *)
Record good_decision (σ : services) (id : string) (b : bool) (d : database) : Prop := {
  gd_new : log σ !! id = None;
  gd_spent : id ∈ spent σ;
  gd_fence : id ∈ proposed σ → was_pending σ id;
  gd_agree r : anchor_now σ = Some r → agree (set_db d (<[id := b]> (log σ)) σ) r;
  gd_boot r r' e : anchor_now σ = Some r → b = true → r' ∈ history σ → PendingEpoch r' = Some e →
    PendingID r' = id → PendingEpoch r ≠ None ∧ PendingID r = id;
}.

Lemma log_insert_le (l : gmap string bool) id b id' b' :
  l !! id = None → l !! id' = Some b' → <[id := b]> l !! id' = Some b'.
Proof. intros ??. rewrite lookup_insert_ne by congruence. done. Qed.

Lemma decide_le σ id b d : log σ !! id = None → le σ (set_db d (<[id := b]> (log σ)) σ).
Proof. intros Hn. split; simpl; try done. intros. by apply log_insert_le. Qed.

Lemma late_cas_le σ σ' c :
  le σ σ' → history σ' = history σ → late_cas_ok σ c → late_cas_ok σ' c.
Proof.
  intros Hle Hh (v & r & Hv & Hr & Hok & Hre). exists v, r.
  unfold current_version, reserve_ok, was_pending in *. rewrite Hh.
  split_and!; try done. by eapply cas_ok_le.
Qed.

Lemma decide_inv σ id b d :
  Inv σ → good_decision σ id b d → Inv (set_db d (<[id := b]> (log σ)) σ).
Proof.
  intros Hinv [G1 G2 G3 G4 G5]. pose proof (decide_le σ id b d G1) as Hle.
  set (σ' := set_db _ _ _) in *.
  destruct Hinv as [I1 I2 I3 I4 I5 I6 I7 I8 I9 I10 I11 I12 I13].
  assert (Hold : ∀ id', log σ' !! id' = None → log σ !! id' = None).
  { intros id' H. destruct (log σ !! id') as [b'|] eqn:E; [|done].
    apply (le_log _ _ Hle) in E. congruence. }
  split; simpl.
  - destruct I1 as (r & Hr & _). exists r. split; [done|by apply G4].
  - done.
  - intros r e ? ? ?%Hold. eauto.
  - done.
  - intros r r' e Hr Hb Hr' He Hl. destruct (decide (PendingID r' = id)) as [Hid|Hid].
    + rewrite Hid in Hl. rewrite lookup_insert_eq in Hl. rewrite Hid. eapply G5; eauto. congruence.
    + rewrite lookup_insert_ne in Hl by done. eauto.
  - intros r Hr. destruct (I6 r Hr). split; [done|]. intros Hp. by apply (le_log _ _ Hle); auto.
  - done.
  - done.
  - done.
  - intros id' b'. destruct (decide (id' = id)) as [->|Hne]; [done|].
    rewrite lookup_insert_ne by done. apply I10.
  - eapply Forall_impl; [exact I11|]. intros c. by apply late_cas_le.
  - done.
  - done.
Qed.

(** The tail of a reserved request. *)
Lemma fence_decision σ req :
  Inv σ → RequestID req ∈ spent σ → fence_authorized σ req → log σ !! RequestID req = None →
  match run_statements (all_statements req) (db σ) with
  | Some (d, _) => good_decision σ (RequestID req) true d
  | None => good_decision σ (RequestID req) false (db σ)
  end.
Proof.
  intros Hinv Hsp (r & e & Hr & He & Hid & Hsh) Hn.
  pose proof (inv_decided _ Hinv r e Hr He ltac:(congruence)) as Hnow.
  destruct (inv_now _ Hinv) as (r0 & Hr0 & Hag). rewrite Hnow in Hr0. simplify_eq.
  unfold agree in Hag. rewrite He in Hag.
  destruct (run_statements _ _) as [[d rs]|] eqn:E.
  - apply (fence_run _ _ _ _ _ _ Hsh) in E as (T1 & T2 & T3 & T4).
    split; try done.
    + intros _. exists r0, e. auto.
    + intros r' Hr'. rewrite Hnow in Hr'. simplify_eq. unfold agree. rewrite He. right. simpl.
      rewrite <- Hid, lookup_insert_eq. split_and!; [done| |done]. by rewrite T3, Hid.
    + intros r' r'' e' Hr' _ _ _ _. rewrite Hnow in Hr'. simplify_eq. split; [congruence|done].
  - split; try done.
    + intros _. exists r0, e. auto.
    + intros r' Hr'. rewrite Hnow in Hr'. simplify_eq. unfold agree. rewrite He. left. simpl.
      rewrite <- Hid, lookup_insert_eq. split; [|done].
      destruct Hag as [[? _]|(_ & _ & ?)]; [done|congruence].
Qed.

(** The creation of the trust row. *)
Lemma boot_decision σ req :
  Inv σ → RequestID req ∈ spent σ → boot_authorized σ req → RequestID req ∉ proposed σ →
  log σ !! RequestID req = None →
  match run_statements (all_statements req) (db σ) with
  | Some (d, _) => good_decision σ (RequestID req) true d
  | None => good_decision σ (RequestID req) false (db σ)
  end.
Proof.
  intros Hinv Hsp (r & Hr & Hb & Hsh) Hnp Hn.
  assert (Hpend : ∀ r' e, r' ∈ history σ → PendingEpoch r' = Some e → PendingID r' ≠ RequestID req).
  { intros r' e H1 H2 H3. apply Hnp. rewrite <- H3. by eapply inv_pending. }
  destruct (inv_now _ Hinv) as (r0 & Hnow & Hag).
  assert (Hag' : ∀ b, (b = true → trust_matches σ r0) → True) by done. clear Hag'.
  destruct (run_statements _ _) as [[d rs]|] eqn:E.
  - apply (boot_run _ _ _ _ _ Hsh) in E as (T1 & T2 & T3 & T4).
    split; try done.
    + intros r' Hr'. rewrite Hnow in Hr'. simplify_eq.
      assert (Hm : trust_matches (set_db d (<[RequestID req:=true]> (log σ)) σ) r').
      { left. simpl. split; [done|]. rewrite T3. f_equal.
        apply (inv_boot _ Hinv r' r); try done.
        unfold agree in Hag. destruct (PendingEpoch r') as [e|]; [destruct Hag as [[Hm _]|(? & _)]; [|congruence]|];
          unfold trust_matches in *; intuition congruence. }
      unfold agree in *. destruct (PendingEpoch r') as [e|] eqn:He; [|done].
      left. split; [done|]. simpl. rewrite lookup_insert_ne.
      * destruct Hag as [[_ ?]|(? & _)]; [done|congruence].
      * intros H. by apply (Hpend r' e (now_elem _ _ Hnow) He).
    + intros r1 r2 e _ _ H1 H2 H3. by destruct (Hpend r2 e H1 H2).
  - split; try done.
    intros r' Hr'. rewrite Hnow in Hr'. simplify_eq.
    unfold agree in *. destruct (PendingEpoch r') as [e|] eqn:He; [|done]. simpl.
    rewrite lookup_insert_ne; [done|].
    intros H. by apply (Hpend r' e (now_elem _ _ Hnow) He).
Qed.

Lemma request_inv σ req :
  Inv σ → exec_ok σ req → Inv (apply_request req σ) ∧ le σ (apply_request req σ).
Proof.
  intros Hinv [Hsp Hok]. unfold apply_request.
  destruct (log σ !! RequestID req) eqn:Hn; [done|].
  assert (Hd : match run_statements (all_statements req) (db σ) with
               | Some (d, _) => good_decision σ (RequestID req) true d
               | None => good_decision σ (RequestID req) false (db σ)
               end).
  { destruct Hok as [?|[? ?]]; [by apply fence_decision|by apply boot_decision]. }
  destruct (run_statements _ _) as [[d rs]|]; (split; [by apply decide_inv|by apply decide_le]).
Qed.

Lemma migration_inv σ l :
  Inv σ → Forall neutral l → Inv (apply_migration l σ) ∧ le σ (apply_migration l σ).
Proof.
  intros Hinv Hl. unfold apply_migration.
  destruct (run_statements l (db σ)) as [[d rs]|] eqn:E; [|done].
  apply (neutral_run _ _ _ _ Hl) in E as [E1 E2].
  split; [|by split].
  destruct Hinv as [(r & Hr & Hag) I2 I3 I4 I5 I6 I7 I8 I9 I10 I11 I12 I13]. split; try done.
  - exists r. split; [done|]. unfold agree, trust_matches in *. simpl. by rewrite E1, E2.
  - eapply Forall_impl; [exact I11|]. intros c. by apply late_cas_le.
Qed.

(** ** Identifiers and delayed calls *)

Lemma ids_le σ mi sp pr :
  minted σ ⊆ mi → spent σ ⊆ sp → proposed σ ⊆ pr → le σ (set_ids mi sp pr σ).
Proof. by split. Qed.

Lemma ids_inv σ mi sp pr :
  Inv σ → minted σ ⊆ mi → spent σ ⊆ sp → proposed σ ⊆ pr → pr ⊆ sp → sp ⊆ mi →
  (∀ id, id ∈ pr → id ∈ proposed σ ∨ id ∉ spent σ) → Inv (set_ids mi sp pr σ).
Proof.
  intros Hinv Hmi Hsp Hpr Hps Hsm Hnew. pose proof (ids_le σ mi sp pr Hmi Hsp Hpr) as Hle.
  destruct Hinv as [I1 I2 I3 I4 I5 I6 I7 I8 I9 I10 I11 I12 I13]. split; simpl; try done.
  - intros r Hr. destruct (I6 r Hr) as [H1 H2]. split; [by apply Hsp|].
    intros Hp. apply H2. by destruct (Hnew _ Hp).
  - intros r e Hr He. apply Hpr. eauto.
  - intros id b Hid. destruct (I10 id b Hid) as [H1 H2]. split; [by apply Hsp|].
    intros Hp. apply H2. by destruct (Hnew _ Hp).
  - eapply Forall_impl; [exact I11|]. intros c. by apply late_cas_le.
  - eapply Forall_impl; [exact I12|]. intros req [H1 H2]. split; [by apply Hsp|].
    destruct H2 as [?|[? Hn]]; [by left|right]. split; [done|]. simpl. intros Hp. by destruct (Hnew _ Hp).
Qed.

Lemma late_inv σ c x m :
  Inv σ → Forall (late_cas_ok σ) c → Forall (exec_ok σ) x → Forall (Forall neutral) m →
  Inv (set_late c x m σ).
Proof.
  intros [I1 I2 I3 I4 I5 I6 I7 I8 I9 I10 I11 I12 I13] Hc ??. split; try done.
  eapply Forall_impl; [exact Hc|]. intros c'. by apply late_cas_le.
Qed.

Lemma late_le σ c x m : le σ (set_late c x m σ).
Proof. by split. Qed.

Lemma local_inv σ p r w : Inv σ → Inv (set_local p r w σ) ∧ le σ (set_local p r w σ).
Proof.
  intros [I1 I2 I3 I4 I5 I6 I7 I8 I9 I10 I11 I12 I13]. split; [|done]. split; try done.
  eapply Forall_impl; [exact I11|]. intros c'. by apply late_cas_le.
Qed.

(** ** Calls *)

Lemma now_at σ r : anchor_now σ = Some r ↔ history σ !! current_version σ = Some r.
Proof. unfold anchor_now, current_version. by rewrite last_lookup. Qed.

(** The rewrite of the current record. *)
Lemma touch_spec σ r : Inv σ → anchor_now σ = Some r →
  Inv (append r σ) ∧ le σ (append r σ) ∧ anchor_now (append r σ) = Some r ∧
  (∀ id, was_pending (append r σ) id → was_pending σ id).
Proof.
  intros Hinv Hnow. split_and!; [|apply append_le|apply append_now|].
  - eapply append_inv; [done|done|]. by apply good_touch.
  - intros id (r' & e & Hr' & He). exists r', e. split; [|done]. simpl in Hr'.
    apply elem_of_app in Hr' as [?|Hr']; [done|]. apply list_elem_of_singleton in Hr' as ->. by apply now_elem.
Qed.

Lemma apply_cas_inv touch rv next σ σ' :
  Inv σ → late_cas_ok σ (rv, next) → apply_cas touch rv next σ = Some σ' →
  Inv σ' ∧ le σ σ' ∧ spent σ' = spent σ ∧ minted σ' = minted σ ∧
  history σ' !! current_version σ' = Some next.
Proof.
  intros Hinv (v & r & Hv & Hr & Hok & Hre). simpl in *. unfold apply_cas.
  case_bool_decide as Hrv; [|done]. intros [= <-].
  assert (v = current_version σ) as -> by (apply rv_name_inj; congruence).
  assert (Hnow := Hr). apply now_at in Hnow. specialize (Hre eq_refl).
  assert (Hstep : ∀ σ1, Inv σ1 → le σ σ1 → anchor_now σ1 = Some r →
            (∀ id, was_pending σ1 id → was_pending σ id) →
            Inv (append next σ1) ∧ le σ (append next σ1)).
  { intros σ1 H1 H2 H3 H4. split; [|etrans; [done|apply append_le]].
    eapply append_inv; [done|exact H3|]. apply good_cas; try done; [by eapply cas_ok_le|].
    unfold reserve_ok in *. naive_solver. }
  set (h := if touch then _ else _).
  assert (∃ σ1, set_history (h ++ [next]) σ = append next σ1 ∧ Inv σ1 ∧ le σ σ1 ∧
            anchor_now σ1 = Some r ∧ (∀ id, was_pending σ1 id → was_pending σ id) ∧
            spent σ1 = spent σ ∧ minted σ1 = minted σ) as (σ1 & E & H1 & H2 & H3 & H4 & H5 & H6).
  { subst h. destruct touch.
    - exists (append r σ). rewrite Hnow. destruct (touch_spec σ r Hinv Hnow) as (? & ? & ? & ?). by split_and!.
    - exists σ. split; [by destruct σ|]. done. }
  rewrite E. destruct (Hstep σ1 H1 H2 H3 H4). split_and!; try done.
  apply now_at, append_now.
Qed.

(** The identifiers a process holds: handed out to it, never sent anywhere. *)
Definition owned (own : gset string) (σ : services) : Prop :=
  own ⊆ minted σ ∧ own ## spent σ.

Inductive cas_allowed (own : gset string) (σ : services) (r : trustAnchorRecord) : trustAnchorRecord → Prop :=
  | allowed_reserve id :
      PendingEpoch r = None → id ∈ own ∨ (id ∈ proposed σ ∧ Bootstrap r = true) →
      cas_allowed own σ r (reserve r (wrap64 (Epoch r + 1)) id)
  | allowed_finalize e :
      PendingEpoch r = Some e → log σ !! PendingID r = Some true →
      cas_allowed own σ r (finalize r e (PendingID r))
  | allowed_clear e :
      PendingEpoch r = Some e → log σ !! PendingID r = Some false →
      cas_allowed own σ r (clear r).

Definition permitted (own : gset string) (σ : services) {X} (e : svcE X) : Prop :=
  match e with
  | AnchorCAS _ rv next =>
      ∃ v r, rv = rv_name v ∧ history σ !! v = Some r ∧ cas_allowed own σ r next
  | DBExecute _ req =>
      fence_authorized σ req ∨ (boot_authorized σ req ∧ RequestID req ∈ own)
  | DBMigrate _ l => Forall neutral l
  | _ => True
  end.

(** What the process still holds after the call. *)
Definition next_own (own : gset string) {X} (e : svcE X) : X → gset string :=
  match e in svcE X return X → gset string with
  | AnchorCAS _ _ next => λ _,
      match PendingEpoch next with Some _ => own ∖ {[PendingID next]} | None => own end
  | DBExecute _ req => λ _, own ∖ {[RequestID req]}
  | NewUUID => λ x, {[x]} ∪ own
  | _ => λ _, own
  end.

(** What a call of one process does to the others' identifiers. *)
Record advances (own : gset string) (σ : services) (own' : gset string) (σ' : services) : Prop := {
  adv_inv : Inv σ';
  adv_le : le σ σ';
  adv_owned : owned own' σ';
  adv_spent : spent σ' ⊆ spent σ ∪ own;
  adv_own : own' ⊆ own ∪ (minted σ' ∖ minted σ);
}.

Lemma advances_keep own σ σ' :
  owned own σ → Inv σ' → le σ σ' → spent σ' = spent σ → minted σ' = minted σ → advances own σ own σ'.
Proof. intros [] ?? Hs Hm. split; try done; unfold owned; rewrite ?Hs, ?Hm; set_solver. Qed.

Lemma advances_refl own σ : owned own σ → Inv σ → advances own σ own σ.
Proof. intros. by apply advances_keep. Qed.

Lemma advances_step own σ own1 σ1 σ2 :
  advances own σ own1 σ1 → Inv σ2 → le σ1 σ2 → spent σ2 = spent σ1 → minted σ2 = minted σ1 →
  advances own σ own1 σ2.
Proof.
  intros [A1 A2 [A3 A4] A5 A6] H1 H2 H3 H4. split; try done; [by etrans|..].
  - split; rewrite ?H3, ?H4; done.
  - by rewrite H3.
  - by rewrite H4.
Qed.

(** The identifier of a request or a reservation leaves the process. *)
Lemma spend_advances own σ id pr :
  Inv σ → owned own σ → id ∈ own ∨ id ∈ spent σ →
  proposed σ ⊆ pr → pr ⊆ {[id]} ∪ proposed σ → (id ∈ pr → id ∈ proposed σ ∨ id ∈ own) →
  advances own σ (own ∖ {[id]}) (set_ids (minted σ) ({[id]} ∪ spent σ) pr σ).
Proof.
  intros Hinv [Ho1 Ho2] Hid Hp1 Hp2 Hp3.
  pose proof (inv_proposed _ Hinv). pose proof (inv_spent _ Hinv). split.
  - apply ids_inv; [done|done|set_solver|done|set_solver|set_solver|].
    intros id' Hid'. destruct (decide (id' ∈ proposed σ)); [by left|].
    assert (id' = id) as -> by set_solver. right. destruct (Hp3 Hid'); set_solver.
  - apply ids_le; set_solver.
  - split; simpl; set_solver.
  - simpl. set_solver.
  - simpl. set_solver.
Qed.

Lemma cas_allowed_late own σ0 σ r v next :
  Inv σ0 → owned own σ0 → le σ0 σ → history σ = history σ0 →
  (∀ e, PendingEpoch next = Some e → PendingID next ∈ proposed σ) →
  history σ0 !! v = Some r → cas_allowed own σ0 r next → late_cas_ok σ (rv_name v, next).
Proof.
  intros Hinv [Ho1 Ho2] Hle Hh Hp Hr Hok. exists v, r. split_and!; try done.
  - by rewrite Hh.
  - destruct Hok; [apply cas_reserve; [done|by eapply (Hp _ eq_refl)]|eapply cas_finalize|eapply cas_clear];
      eauto using le_log.
  - intros _. unfold reserve_ok. destruct Hok as [id Hn Hid|e|e]; simpl; [|by left|by left].
    right. destruct Hid as [Hid|[_ Hb]]; [right|by left].
    intros (r' & e & Hr' & He & <-). rewrite Hh in Hr'.
    pose proof (inv_pending _ Hinv _ _ Hr' He). pose proof (inv_proposed _ Hinv). set_solver.
Qed.

Lemma send_late_inv touch rv next σ : Inv σ → late_cas_ok σ (rv, next) →
  Inv (send_late touch rv next σ) ∧ le σ (send_late touch rv next σ) ∧
  spent (send_late touch rv next σ) = spent σ ∧ minted (send_late touch rv next σ) = minted σ.
Proof.
  intros Hinv Hl. unfold send_late. destruct (touch && _) eqn:E.
  - apply andb_true_iff in E as [_ E]. apply bool_decide_eq_true in E.
    destruct Hl as (v & r & Hv & Hr & Hok & Hre). simpl in *.
    assert (v = current_version σ) as -> by (apply rv_name_inj; congruence).
    apply now_at in Hr as Hnow. rewrite Hnow. simpl option_list. fold (append r σ).
    destruct (touch_spec σ r Hinv Hnow) as (H1 & H2 & H3 & H4).
    split_and!; [|etrans; [exact H2|apply late_le]|done|done].
    apply late_inv; [done|constructor; [|apply H1]|apply H1|apply H1].
    exists (current_version (append r σ)), r. split_and!; [done|by apply now_at|by eapply cas_ok_le|].
    intros _. specialize (Hre eq_refl). unfold reserve_ok in *. simpl. naive_solver.
  - split_and!; [|apply late_le|done|done]. apply late_inv; [done|constructor; [done|apply Hinv]|apply Hinv|apply Hinv].
Qed.

Lemma serve_cas_inv own w rv next σ x σ' :
  Inv σ → owned own σ → permitted own σ (AnchorCAS Caller rv next) →
  serve_cas w rv next σ = (x, σ') →
  advances own σ (match PendingEpoch next with Some _ => own ∖ {[PendingID next]} | None => own end) σ' ∧
  (∀ rv', x = Ok rv' → ∃ v, rv' = rv_name v ∧ history σ' !! v = Some next).
Proof.
  intros Hinv Ho (v & r & -> & Hr & Hok). unfold serve_cas.
  set (σ1 := match PendingEpoch next with Some _ => _ | None => _ end).
  set (own' := match PendingEpoch next with Some _ => _ | None => _ end).
  assert (Hadv : advances own σ own' σ1).
  { subst own' σ1. destruct (PendingEpoch next) as [e|] eqn:He; [|by apply advances_refl].
    pose proof (inv_proposed _ Hinv).
    assert (PendingID next ∈ own ∨ PendingID next ∈ proposed σ) as Hid
      by (destruct Hok as [? ? [?|[? ?]]|?|?]; simpl in *; auto; done).
    apply spend_advances; try done; [destruct Hid; [by left|right; set_solver]|set_solver|].
    intros _. destruct Hid; auto. }
  assert (Hl : late_cas_ok σ1 (rv_name v, next)).
  { eapply cas_allowed_late; try done; [apply Hadv| |].
    - subst σ1. by destruct (PendingEpoch next).
    - intros e He. subst σ1. rewrite He. simpl. set_solver. }
  pose proof (adv_inv _ _ _ _ Hadv) as Hinv1.
  destruct (how w).
  - destruct (apply_cas _ _ _ _) as [σ2|] eqn:E; intros [= <- <-]; [|by split].
    apply apply_cas_inv in E as (E1 & E2 & E3 & E4 & E5); [|done..].
    split; [by eapply advances_step|]. intros ? [= <-]. eauto.
  - intros [= <- <-]. by split.
  - intros [= <- <-]. split; [|done]. destruct (apply_cas _ _ _ _) as [σ2|] eqn:E; [|done].
    apply apply_cas_inv in E as (E1 & E2 & E3 & E4 & E5); [|done..]. simpl. by eapply advances_step.
  - intros [= <- <-]. split; [|done]. destruct (send_late_inv (legacy w) _ _ _ Hinv1 Hl) as (H1 & H2 & H3 & H4).
    by eapply advances_step.
Qed.

Lemma serve_execute_inv own w req σ x σ' :
  Inv σ → owned own σ → permitted own σ (DBExecute Caller req) →
  serve_execute w req σ = (x, σ') →
  advances own σ (own ∖ {[RequestID req]}) σ' ∧
  (Status x.1 = MutationCommitted → log σ' !! RequestID req = Some true) ∧
  (Status x.1 = MutationRejected → log σ' !! RequestID req = Some false).
Proof.
  intros Hinv Ho Hp. unfold serve_execute. set (σ1 := spend (RequestID req) σ).
  assert (Hadv : advances own σ (own ∖ {[RequestID req]}) σ1).
  { apply spend_advances; try done; [|set_solver|by left].
    destruct Hp as [(r & e & Hr & He & Hi & _)|[_ ?]]; [right|by left].
    rewrite Hi. apply (inv_proposed _ Hinv). by eapply inv_pending. }
  assert (Hok : exec_ok σ1 req).
  { split; [simpl; set_solver|]. destruct Hp as [?|[? Hown]].
    - left. eapply fence_authorized_le; [apply Hadv|done].
    - right. split; [eapply boot_authorized_le; [apply Hadv|done]|].
      pose proof (inv_proposed _ Hinv). destruct Ho. simpl. set_solver. }
  pose proof (adv_inv _ _ _ _ Hadv) as Hinv1.
  assert (Hreq : advances own σ (own ∖ {[RequestID req]}) (apply_request req σ1)).
  { destruct (request_inv σ1 req Hinv1 Hok) as [? ?]. eapply advances_step; try done;
      unfold apply_request; (destruct (log σ1 !! RequestID req); [done|]);
      by destruct (run_statements _ _) as [[? ?]|]. }
  destruct (how w); intros [= <- <-].
  - split; [done|]. simpl. unfold receipt, apply_request.
    destruct (log σ1 !! RequestID req) as [[]|] eqn:E; [by split|by split|].
    destruct (run_statements _ _) as [[? ?]|]; simpl; rewrite lookup_insert_eq; by split.
  - by split.
  - by split.
  - split; [|by split]. eapply advances_step; [exact Hadv| |apply late_le|done|done].
    apply late_inv; [done|apply Hinv1|constructor; [done|apply Hinv1]|apply Hinv1].
Qed.

End with_services.
