(* ===== verification/TrustSafety.v ===== *)
(** * Safety of the fencing protocol under concurrency

    A weakest precondition for programs over the shared services: every call
    is [permitted] in whatever state the other processes have left, and the
    rest of the program is safe after every answer.  Each program of
    RhizaSQL.v and TrustStartup.v is safe, so any number of nodes that run
    them, interleaved call by call, with calls lost, delayed and delivered
    late, and processes stopping anywhere, keep the invariant of
    TrustInvariant.v. *)

From S2P Require Export TrustInvariant.
Open Scope go_scope.

Section with_services.
Context {R : Recovery} {P : ServiceParams}.

Lemma serve_advances own σ {X} (e : svcE X) x σ' :
  Inv σ → owned own σ → permitted own σ e → serves e σ x σ' →
  advances own σ (next_own own e x) σ'.
Proof.
  intros Hinv Ho Hp (w & Hf & Hs). destruct e; simpl in *; try (injection Hs as <- <-).
  all: try by apply advances_refl.
  - by apply (serve_cas_inv _ _ _ _ _ _ _ Hinv Ho Hp) in Hs as [? _].
  - by apply (serve_execute_inv _ _ _ _ _ _ Hinv Ho Hp) in Hs as [? _].
  - unfold serve_migrate in Hs.
    assert (Ha : advances own σ own (apply_migration l σ)).
    { destruct (migration_inv σ l Hinv Hp). apply advances_keep; try done;
        unfold apply_migration; by destruct (run_statements _ _) as [[? ?]|]. }
    destruct (how w); [destruct (run_statements l (db σ)) as [[? ?]|] eqn:E| | |];
      injection Hs as <- <-; try done; try by apply advances_refl.
    apply advances_keep; try done.
    apply late_inv; try done; try apply Hinv. constructor; [done|apply Hinv].
  - pose proof (inv_spent _ Hinv). pose proof (inv_proposed _ Hinv). destruct Ho as [Ho1 Ho2]. split.
    + apply ids_inv; try done; set_solver.
    + apply ids_le; set_solver.
    + split; simpl; set_solver.
    + simpl. set_solver.
    + simpl. set_solver.
  - destruct (answered w tt) in Hs; injection Hs as <- <-; [|by apply advances_refl].
    destruct (local_inv σ (published σ) (readers_held σ + 1) (writer_held σ) Hinv). by apply advances_keep.
  - destruct (local_inv σ (published σ) (readers_held σ - 1) (writer_held σ) Hinv). by apply advances_keep.
  - destruct (answered w tt) in Hs; injection Hs as <- <-; [|by apply advances_refl].
    destruct (local_inv σ (published σ) (readers_held σ) (writer_held σ + 1) Hinv). by apply advances_keep.
  - destruct (local_inv σ (published σ) (readers_held σ) (writer_held σ - 1) Hinv). by apply advances_keep.
  - destruct (local_inv σ (Some a) (readers_held σ) (writer_held σ) Hinv). by apply advances_keep.
Qed.

(** ** Weakest preconditions

    [σ0] is the last state the program saw; its knowledge is what is true of
    every later state. *)
Fixpoint wp {A} (p : prog svcE A) (own : gset string) (σ0 : services)
    (Q : A → gset string → services → Prop) : Prop :=
  match p with
  | Ret a => Q a own σ0
  | Call e k => ∀ σ, le σ0 σ → Inv σ → owned own σ →
      permitted own σ e ∧
      ∀ x σ', serves e σ x σ' → Inv σ' → le σ σ' → wp (k x) (next_own own e x) σ' Q
  end.

Lemma wp_bind {A B} (p : prog svcE A) (f : A → prog svcE B) own σ0 Q :
  wp p own σ0 (λ a own' σ', wp (f a) own' σ' Q) → wp (prog_bind p f) own σ0 Q.
Proof.
  revert own σ0. induction p as [a|X e k IH]; intros own σ0; simpl; [done|].
  intros H σ Hle Hinv Ho. destruct (H σ Hle Hinv Ho) as [Hp Hk]. split; [done|].
  intros x σ' Hs Hi Hl. apply IH, Hk; done.
Qed.

Lemma wp_mono {A} (p : prog svcE A) own σ0 (Q Q' : A → gset string → services → Prop) :
  (∀ a own' σ', le σ0 σ' → Q a own' σ' → Q' a own' σ') → wp p own σ0 Q → wp p own σ0 Q'.
Proof.
  revert own σ0. induction p as [a|X e k IH]; intros own σ0 HQ; simpl; [by apply HQ|].
  intros H σ Hle Hinv Ho. destruct (H σ Hle Hinv Ho) as [Hp Hk]. split; [done|].
  intros x σ' Hs Hi Hl. eapply IH; [|by apply Hk].
  intros a own' σ'' Hle'. apply HQ. etrans; [done|]. by etrans.
Qed.

(** A call that moves no identifier and changes no shared state. *)
Definition benign {X} (e : svcE X) : bool :=
  match e with
  | CtxErr _ | TrustRLock _ | TrustRUnlock | TrustLock _ | TrustUnlock | TrustLoad
  | TrustStore _ | Sleep _ => true
  | _ => false
  end.

Lemma wp_benign {X} (e : svcE X) own σ0 Q :
  benign e = true → (∀ x σ, le σ0 σ → Q x own σ) → wp (call e) own σ0 Q.
Proof.
  intros Hb HQ. unfold call. simpl. intros σ Hle Hinv Ho.
  destruct e; try done; (split; [done|]); simpl; intros x σ' _ _ Hl; apply HQ; by etrans.
Qed.

Lemma wp_query {X} c (q : database → option X) own σ0 Q :
  (∀ e σ, le σ0 σ → Q (Err e) own σ) →
  (∀ x σ, le σ0 σ → Inv σ → q (db σ) = Some x → Q (Ok x) own σ) →
  wp (call (DBQuery c q)) own σ0 Q.
Proof.
  intros He Hok. unfold call. simpl. intros σ Hle Hinv Ho. split; [done|].
  intros x σ' (w & _ & Hs) _ _. simpl in Hs. injection Hs as <- <-.
  destruct (q (db σ)) as [x'|] eqn:E; [|by apply He].
  unfold answered. destruct (how w); try (by apply He). by apply Hok.
Qed.

Lemma wp_status c id own σ0 Q :
  (∀ e σ, le σ0 σ → Q (Err e) own σ) →
  (∀ st σ, le σ0 σ → (st = MutationCommitted → log σ !! id = Some true) →
     (st = MutationRejected → log σ !! id = Some false) → Q (Ok st) own σ) →
  wp (call (DBRequestStatus c id)) own σ0 Q.
Proof.
  intros He Hok. unfold call. simpl. intros σ Hle Hinv Ho. split; [done|].
  intros x σ' (w & _ & Hs) _ _. simpl in Hs. injection Hs as <- <-.
  unfold answered. destruct (log σ !! id) as [[]|] eqn:E; destruct (how w);
    try (by apply He); by apply Hok.
Qed.

Lemma wp_uuid own σ0 Q :
  (∀ id σ, le σ0 σ → Q id ({[id]} ∪ own) σ) → wp (call NewUUID) own σ0 Q.
Proof.
  intros HQ. unfold call. simpl. intros σ Hle Hinv Ho. split; [done|].
  intros x σ' _ _ Hl. apply HQ. by etrans.
Qed.

Lemma wp_migrate c l own σ0 Q :
  Forall neutral l → (∀ x σ, le σ0 σ → Q x own σ) → wp (call (DBMigrate c l)) own σ0 Q.
Proof.
  intros Hl HQ. unfold call. simpl. intros σ Hle Hinv Ho. split; [done|].
  intros x σ' _ _ Hl'. apply HQ. by etrans.
Qed.

Lemma wp_execute_call c req own σ0 Q :
  fence_authorized σ0 req ∨ (boot_authorized σ0 req ∧ RequestID req ∈ own) →
  (∀ r note σ, le σ0 σ → (Status r = MutationCommitted → log σ !! RequestID req = Some true) →
     (Status r = MutationRejected → log σ !! RequestID req = Some false) →
     Q (r, note) (own ∖ {[RequestID req]}) σ) →
  wp (call (DBExecute c req)) own σ0 Q.
Proof.
  intros Hp HQ. unfold call. simpl. intros σ Hle Hinv Ho.
  assert (Hp' : permitted own σ (DBExecute c req)).
  { destruct Hp as [?|[? ?]]; [left; by eapply fence_authorized_le|].
    right. split; [by eapply boot_authorized_le|done]. }
  split; [done|]. intros [r note] σ' (w & _ & Hs) _ Hl. simpl in Hs.
  apply (serve_execute_inv _ _ _ _ _ _ Hinv Ho Hp') in Hs as (_ & H1 & H2).
  apply HQ; try done. by etrans.
Qed.

Lemma wp_cas_call c v next own σ0 Q r :
  history σ0 !! v = Some r →
  (∀ σ, le σ0 σ → cas_allowed own σ r next) →
  (∀ e own' σ, le σ0 σ → own ⊆ {[PendingID next]} ∪ own' →
    (PendingEpoch next ≠ None → PendingID next ∈ proposed σ) → Q (Err e) own' σ) →
  (∀ v' own' σ, le σ0 σ → own ⊆ {[PendingID next]} ∪ own' →
    (PendingEpoch next ≠ None → PendingID next ∈ proposed σ) →
    history σ !! v' = Some next → Q (Ok (rv_name v')) own' σ) →
  wp (call (AnchorCAS c (rv_name v) next)) own σ0 Q.
Proof.
  intros Hr Hok He HQ. unfold call. simpl. intros σ Hle Hinv Ho.
  assert (Hp : permitted own σ (AnchorCAS c (rv_name v) next)).
  { exists v, r. split; [done|]. split; [by eapply le_lookup|by apply Hok]. }
  split; [done|]. intros x σ' (w & _ & Hs) _ Hl. simpl in Hs.
  assert (Hprop : PendingEpoch next ≠ None → PendingID next ∈ proposed σ').
  { revert Hs. unfold serve_cas. destruct (PendingEpoch next) as [e|]; [|done].
    destruct (how w); try (destruct (apply_cas _ _ _ _) as [σ2|] eqn:E); intros [= <- <-] _; simpl;
      try (unfold apply_cas in E; case_bool_decide; simplify_eq; simpl);
      try (unfold send_late; destruct (legacy w && _); simpl); set_solver. }
  apply (serve_cas_inv _ _ _ _ _ _ _ Hinv Ho Hp) in Hs as (_ & H1).
  set (own' := match PendingEpoch next with Some _ => _ | None => _ end).
  assert (own ⊆ {[PendingID next]} ∪ own').
  { subst own'. destruct (PendingEpoch next); [|set_solver].
    intros id Hid. destruct (decide (id = PendingID next)); set_solver. }
  destruct x as [rv|e].
  - destruct (H1 _ eq_refl) as (v' & -> & Hv'). apply HQ; try done. by etrans.
  - apply He; try done. by etrans.
Qed.

Lemma wp_get_call c own σ0 Q :
  (∀ e σ, le σ0 σ → Q (Err e) own σ) →
  (∀ r σ, le σ0 σ → Inv σ → history σ !! current_version σ = Some r → anchor_now σ = Some r →
     Q (Ok (r, rv_name (current_version σ))) own σ) →
  wp (call (AnchorGet c)) own σ0 Q.
Proof.
  intros He HQ. unfold call. simpl. intros σ Hle Hinv Ho. split; [done|].
  intros x σ' (w & _ & Hs) _ _. simpl in Hs. injection Hs as <- <-.
  destruct (anchor_now σ) as [r|] eqn:Hn; [|by apply He].
  unfold answered. destruct (how w); try (by apply He).
  apply HQ; try done. by apply now_at.
Qed.

(** ** The common building blocks *)

Lemma wp_anchor_get_now a c own σ0 Q :
  (∀ e σ, le σ0 σ → Q (Err e) own σ) →
  (∀ r σ, le σ0 σ → Inv σ → anchor_now σ = Some r →
     Q (Ok (r, rv_name (current_version σ))) own σ) →
  wp (anchor_get a c) own σ0 Q.
Proof.
  intros He HQ. apply wp_bind, wp_get_call; [intros e σ Hle; simpl; by apply He|].
  intros r σ Hle Hinv Hv Hn. destruct (validate a r); simpl; [by apply He|]. by apply HQ.
Qed.

Lemma wp_anchor_get a c own σ0 Q :
  (∀ e σ, le σ0 σ → Q (Err e) own σ) →
  (∀ r v σ, le σ0 σ → Inv σ → history σ !! v = Some r → r ∈ history σ →
     Q (Ok (r, rv_name v)) own σ) →
  wp (anchor_get a c) own σ0 Q.
Proof.
  intros He HQ. apply wp_anchor_get_now; [done|]. intros r σ Hle Hinv Hn.
  apply HQ; try done; [by apply now_at|by apply now_elem].
Qed.

Lemma wp_anchor_cas a c v next own σ0 Q r :
  history σ0 !! v = Some r →
  (∀ σ, le σ0 σ → cas_allowed own σ r next) →
  (∀ e own' σ, le σ0 σ → own ⊆ {[PendingID next]} ∪ own' →
    (PendingEpoch next ≠ None → PendingID next ∈ own' ∨ PendingID next ∈ proposed σ) → Q (Err e) own' σ) →
  (∀ v' own' σ, le σ0 σ → own ⊆ {[PendingID next]} ∪ own' →
    (PendingEpoch next ≠ None → PendingID next ∈ proposed σ) →
    history σ !! v' = Some next → Q (Ok (rv_name v')) own' σ) →
  wp (anchor_cas a c (rv_name v) next) own σ0 Q.
Proof.
  intros Hr Hok He HQ. unfold anchor_cas. destruct (validate a next).
  - apply He; [done|set_solver|]. intros Hp. specialize (Hok σ0 ltac:(done)).
    destruct Hok as [id ? [?|[? _]]|e'|e']; simpl in *; [by left|by right|done|done].
  - apply wp_bind. eapply wp_cas_call; [done|done| |].
    + intros e own' σ Hle Ho Hp. simpl. apply He; try done. intros. right. by apply Hp.
    + intros v' own' σ Hle Ho Hp Hv. simpl. by apply HQ.
Qed.

Lemma wp_verify c e t own σ0 Q :
  (∀ err σ, le σ0 σ → Q (Some err) own σ) →
  (∀ σ, le σ0 σ → Inv σ → trust_state (db σ) = Some (e, t) → Q None own σ) →
  wp (verifyDBTrust c e t) own σ0 Q.
Proof.
  intros He HQ. apply wp_bind, wp_query; [intros err σ Hle; simpl; by apply He|].
  intros x σ Hle Hinv Hx. unfold select_trust in Hx.
  destruct (table_exists _ _); [|done]. simplify_eq.
  destruct (trust_state (db σ)) as [[e' t']|] eqn:E; simpl; [|by apply He].
  case_bool_decide; simpl; [|by apply He]. case_bool_decide; simpl; [|by apply He].
  subst. by apply HQ.
Qed.

(** A database that carries a reserved pair proves the request committed. *)
Lemma trust_row_committed σ r e e' :
  Inv σ → r ∈ history σ → PendingEpoch r = Some e → trust_state (db σ) = Some (e', PendingID r) →
  log σ !! PendingID r = Some true.
Proof.
  intros Hinv Hr He Ht. destruct (inv_now _ Hinv) as (r0 & Hnow & Hag).
  assert (Hm : trust_matches σ r0 → log σ !! PendingID r = Some true).
  { intros [[_ Hp]|(_ & Hn & _)]; [|congruence]. rewrite Hp in Ht. unfold pair_of in Ht.
    injection Ht as _ Ht. rewrite <- Ht. apply (inv_token _ Hinv r0 (now_elem _ _ Hnow)).
    rewrite Ht. by eapply (inv_pending _ Hinv). }
  unfold agree in Hag. destruct (PendingEpoch r0) as [e0|]; [|by apply Hm].
  destruct Hag as [[? _]|(_ & Hp & Hl)]; [by apply Hm|].
  rewrite Hp in Ht. injection Ht as _ Ht. by rewrite <- Ht.
Qed.

End with_services.
