(* ===== verification/TrustPool.v ===== *)
(** * Ternal nodes as a pool of programs

    Every program of RhizaSQL.v and TrustStartup.v that a node with a trust
    anchor runs is safe in the sense of TrustSafety.v; a deployment is any
    number of them started at any time and interleaved call by call.  The
    properties of the fencing protocol follow. *)

From S2P Require Export TrustSafety.
Open Scope go_scope.

Section with_services.
Context {R : Recovery} {P : ServiceParams}.

(** The postcondition of programs that only have to be safe. *)
Definition later {A} (σ0 : services) : A → gset string → services → Prop :=
  λ _ _ σ, le σ0 σ.

Lemma wp_ret {A} (a : A) own σ Q : Q a own σ → wp (Ret a) own σ Q.
Proof. done. Qed.

#[global] Arguments wp : simpl never.

Ltac done_later :=
  unfold fail; simpl; try lazymatch goal with |- wp _ _ _ _ => apply wp_ret end; unfold later in *;
  repeat (etrans; [eassumption|]); done.

(** ** Writes *)

(** What the answer of a write tells: success means the request committed and
    the anchor published its pair; a rejection means it never takes effect. *)
Definition honest (res : ExecuteResponse * option error) (σ : services) : Prop :=
  (res.2 = None → ∃ r, r ∈ history σ ∧ PendingEpoch r = None ∧ log σ !! Token r = Some true) ∧
  (Status res.1 = MutationRejected → res.2 ≠ None ∧ ∃ id, log σ !! id = Some false).

Definition outcome_post (σ0 : services) : (ExecuteResponse * option error) → gset string → services → Prop :=
  λ res _ σ, le σ0 σ ∧ honest res σ.

Lemma honest_le res σ σ' : le σ σ' → honest res σ → honest res σ'.
Proof.
  intros Hle [H1 H2]. split.
  - intros E. destruct (H1 E) as (r & ? & ? & ?). exists r. eauto using le_elem, le_log.
  - intros E. destruct (H2 E) as (? & id & ?). split; [done|]. exists id. eauto using le_log.
Qed.

Lemma honest_fail e σ : honest (zero_response, Some e) σ.
Proof. by split. Qed.

Ltac done_fail := apply wp_ret; split; [repeat (first [eassumption|etrans; [eassumption|]]); done|apply honest_fail].

Lemma wp_resolve_fence a current v id n rows r note own σ0 :
  PendingEpoch current = None →
  history σ0 !! v = Some (reserve current (wrap64 (Epoch current + 1)) id) →
  (Status r = MutationCommitted → log σ0 !! id = Some true) →
  (Status r = MutationRejected → log σ0 !! id = Some false) →
  wp (resolve_fence a current (rv_name v) id n rows (r, note)) own σ0 (outcome_post σ0).
Proof.
  intros Hp Hv Hc Hr. set (pending := reserve _ _ _) in *. unfold resolve_fence.
  assert (Hrej : ∀ e σ, le σ0 σ → outcome_post σ0 (r, Some e) own σ).
  { intros e σ Hle. split; [done|]. split; [done|]. intros Hst. split; [done|]. exists id.
    apply (le_log _ _ Hle). by apply Hr. }
  destruct (_ && _) eqn:Hcond; bool_prop.
  - assert (log σ0 !! id = Some true) by (apply Hc; by bool_prop).
    apply wp_bind, (wp_anchor_cas _ _ v _ _ _ _ pending); try done.
    + intros σ Hle. apply (allowed_finalize own σ pending _ eq_refl).
      by apply (le_log _ _ Hle).
    + intros v' own' σ Hle _ _ Hv'. case_bool_decide; simpl; [|done_fail].
      apply wp_ret. split; [done|]. split; [|by intros Hst; simpl in Hst; congruence].
      intros _. eexists. split; [by eapply list_elem_of_lookup_2|].
      split; [done|]. by apply (le_log _ _ Hle).
  - clear Hcond. case_bool_decide as Hst; [|by apply wp_ret, Hrej].
    apply wp_bind, wp_verify; [intros e σ Hle; by apply wp_ret, Hrej|]. intros σ Hle _ _.
    apply wp_bind, (wp_anchor_cas _ _ v _ _ _ _ pending).
    + by eapply le_lookup.
    + intros σ' Hle'. eapply (allowed_clear own σ' pending _ eq_refl).
      apply (le_log _ _ Hle'), (le_log _ _ Hle). by apply Hr.
    + intros e own' σ' Hle' _ _. done_fail.
    + intros v' own' σ' Hle' _ _ _. apply wp_ret, Hrej. by etrans.
Qed.

Lemma wp_fenced_execute a req n own σ0 :
  Forall neutral (normal_statements req) →
  wp (fenced_execute a req n) own σ0 (outcome_post σ0).
Proof.
  intros Hneu. unfold fenced_execute.
  apply wp_bind, wp_benign; [done|]. intros [e|] σ1 L1; [done_fail|].
  apply wp_bind, wp_anchor_get; [intros e σ L; done_fail|].
  intros current v σ2 L2 _ Hv Hel. case_bool_decide as Hp; [done_fail|].
  apply wp_bind, wp_verify; [intros e σ L; done_fail|]. intros σ3 L3 _ _.
  apply wp_bind, wp_uuid. intros id σ4 L4.
  destruct (ValidateExecuteRequest _); [done_fail|].
  apply wp_bind, (wp_anchor_cas _ _ v _ _ _ _ current).
  - by do 2 (eapply le_lookup; [done|]).
  - intros σ L. apply allowed_reserve; [by destruct (PendingEpoch current)|left; set_solver].
  - intros e own' σ L _ _. done_fail.
  - intros v' own' σ5 L5 _ _ Hv'. apply wp_bind, wp_execute_call.
    + left. exists (reserve current (wrap64 (Epoch current + 1)) id), (wrap64 (Epoch current + 1)).
      split_and!; try done; [by eapply list_elem_of_lookup_2|].
      exists (normal_statements req), true. done.
    + intros r note σ6 L6 Hc Hr. eapply wp_mono; [|apply wp_resolve_fence; try done].
      * intros x own'' σ' L [_ Hx]. split; [|done]. repeat (first [eassumption|etrans; [eassumption|]]).
      * by eapply le_lookup.
Qed.

Lemma wp_execute d req n own σ0 :
  trustRequired d = true → Forall neutral (normal_statements req) →
  wp (execute d req n) own σ0 (outcome_post σ0).
Proof.
  intros Hd Hneu. unfold execute. apply wp_bind, wp_benign; [done|].
  intros [a|] σ1 L1; [|rewrite Hd; done_fail].
  apply wp_bind, wp_benign; [done|]. intros [e|] σ2 L2; [done_fail|].
  apply wp_bind. eapply wp_mono; [|by apply wp_fenced_execute].
  intros r own' σ3 _ [L3 H3]. apply wp_bind, wp_benign; [done|]. intros [] σ4 L4. apply wp_ret.
  split; [|by eapply honest_le]. repeat (first [eassumption|etrans; [eassumption|]]).
Qed.

(** ** Reads *)

Lemma wp_fenced_query {X} a (q : database → option X) own σ0 :
  wp (fenced_query a q) own σ0 (later σ0).
Proof.
  unfold fenced_query. apply wp_bind, wp_anchor_get; [done|]. intros r v σ1 L1 _ _ _.
  case_bool_decide; [done|]. apply wp_bind, wp_query; [intros e σ L; done_later|].
  intros x σ2 L2 _ _. apply wp_bind, wp_verify; [intros e σ L; done_later|].
  intros σ3 L3 _ _. apply wp_bind, wp_anchor_get; [intros e σ L; done_later|].
  intros r' v' σ4 L4 _ _ _. destruct (_ || _); done_later.
Qed.

Lemma wp_QueryContext {X} d (q : database → option X) own σ0 :
  trustRequired d = true → wp (QueryContext d q) own σ0 (later σ0).
Proof.
  intros Hd. unfold QueryContext. apply wp_bind, wp_benign; [done|].
  intros [a|] σ1 L1; [|rewrite Hd; done].
  apply wp_bind, wp_benign; [done|]. intros [e|] σ2 L2; [done_later|].
  apply wp_bind. eapply wp_mono; [|apply wp_fenced_query].
  intros r own' σ3 _ L3. apply wp_bind, wp_benign; [done|]. intros [] σ4 L4. done_later.
Qed.

(** ** Startup *)

Lemma wp_try_bind {A B} (p : prog svcE (result A)) (f : A → prog svcE (result B)) own σ0 Q :
  wp p own σ0 (λ r own' σ', match r with Ok a => wp (f a) own' σ' Q | Err e => Q (Err e) own' σ' end) →
  wp (try_bind p f) own σ0 Q.
Proof. intros H. apply wp_bind. eapply wp_mono; [|exact H]. by intros [a|e] own' σ' _. Qed.

Lemma wp_need_bind {A} (p : prog svcE (result A)) (f : A → prog svcE (option error)) own σ0 Q :
  wp p own σ0 (λ r own' σ', match r with Ok a => wp (f a) own' σ' Q | Err e => Q (Some e) own' σ' end) →
  wp (need_bind p f) own σ0 Q.
Proof. intros H. apply wp_bind. eapply wp_mono; [|exact H]. by intros [a|e] own' σ' _. Qed.

Lemma wp_check_bind (p k : prog svcE (option error)) own σ0 Q :
  wp p own σ0 (λ r own' σ', match r with None => wp k own' σ' Q | Some e => Q (Some e) own' σ' end) →
  wp (check_bind p k) own σ0 Q.
Proof. intros H. apply wp_bind. eapply wp_mono; [|exact H]. by intros [e|] own' σ' _. Qed.

(** A program that leaves the held identifiers alone. *)
Definition quiet {A} (own : gset string) (σ0 : services) : A → gset string → services → Prop :=
  λ _ own' σ, own' = own ∧ le σ0 σ.

(** A program that sends no reservation of its own. *)
Definition keeps {A} (own : gset string) (σ0 : services) : A → gset string → services → Prop :=
  λ _ own' σ, own ⊆ {[""]} ∪ own' ∧ le σ0 σ.

Lemma quiet_refl {A} own σ (a : A) : quiet own σ a own σ.
Proof. done. Qed.

Lemma quiet_trans {A B} own σ0 σ1 own2 σ2 (a : A) (b : B) :
  quiet own σ0 a own σ1 → quiet own σ1 b own2 σ2 → quiet own σ0 b own2 σ2.
Proof. intros [_ ?] [-> ?]. split; [done|by etrans]. Qed.

(** Sequencing after a quiet program. *)
Lemma wp_quiet_bind {A B} (p : prog svcE A) (f : A → prog svcE B) own σ0 Q :
  wp p own σ0 (quiet own σ0) → (∀ a σ, le σ0 σ → wp (f a) own σ Q) → wp (prog_bind p f) own σ0 Q.
Proof.
  intros Hp Hf. apply wp_bind. eapply wp_mono; [|exact Hp]. intros a own' σ _ [-> Hle]. by apply Hf.
Qed.

Ltac done_quiet :=
  simpl; try lazymatch goal with |- wp _ _ _ _ => apply wp_ret end; unfold quiet, keeps, later in *;
  repeat match goal with |- _ ∧ _ => split end; try done;
  try lazymatch goal with |- _ ⊆ _ => set_solver end;
  repeat (etrans; [eassumption|]); done.

Lemma wp_query_quiet {X} c (q : database → option X) own σ0 :
  wp (queryRaw c q) own σ0 (quiet own σ0).
Proof. apply wp_query; intros; done_quiet. Qed.

Lemma wp_verify_quiet c e t own σ0 : wp (verifyDBTrust c e t) own σ0 (quiet own σ0).
Proof. apply wp_verify; intros; done_quiet. Qed.

Lemma wp_sub {A} (p : prog svcE A) own σ0 σ1 Q :
  le σ0 σ1 → wp p own σ1 (quiet own σ1) →
  (∀ a σ, le σ1 σ → quiet own σ0 a own σ → Q a own σ) → wp p own σ1 Q.
Proof.
  intros Hle Hp HQ. eapply wp_mono; [|exact Hp]. intros a own' σ _ [-> H]. apply HQ; [done|].
  split; [done|by etrans].
Qed.

Lemma wp_tableExists name own σ0 : wp (tableExists name) own σ0 (quiet own σ0).
Proof.
  apply wp_try_bind. eapply wp_mono; [|apply wp_query_quiet]. intros [c|e] own' σ _ [-> H]; done_quiet.
Qed.

Lemma wp_schemaMarker own σ0 : wp schemaMarker own σ0 (quiet own σ0).
Proof.
  apply wp_try_bind. eapply wp_mono; [|apply wp_tableExists]. intros [b|e] own' σ _ [-> H]; [|done_quiet].
  destruct b; simpl; [|done_quiet]. apply (wp_sub _ own σ0); [done|apply wp_query_quiet|done].
Qed.

Lemma wp_migrationPending own σ0 : wp migrationPending own σ0 (quiet own σ0).
Proof.
  apply wp_try_bind. eapply wp_mono; [|apply wp_schemaMarker].
  intros [m|e] own' σ _ [-> H]; done_quiet.
Qed.

Lemma wp_requireMigrated own σ0 : wp requireMigrated own σ0 (quiet own σ0).
Proof.
  apply wp_need_bind. eapply wp_mono; [|apply wp_schemaMarker].
  intros [m|e] own' σ _ [-> H]; [destruct (_ || _)|]; done_quiet.
Qed.

Lemma create_table_neutral name : name ≠ "trust_state" → neutral (create_table name).
Proof.
  intros Hn d d' r. simpl. intros [= <- <-]. simpl. split; [done|]. unfold table_exists. simpl.
  apply bool_decide_ext. set_solver.
Qed.

Lemma create_index_neutral name : neutral (create_index name).
Proof. intros d d' r. simpl. destruct (table_exists name d); [|done]. by intros [= <- <-]. Qed.

Lemma insert_marker_neutral : neutral insert_marker.
Proof.
  intros d d' r. simpl. destruct (negb _); [done|].
  destruct (ternal_schema d); by intros [= <- <-].
Qed.

Lemma migrations_neutral : Forall neutral migrations.
Proof.
  unfold migrations.
  repeat (apply List.Forall_cons;
    [first [by apply create_table_neutral|apply create_index_neutral|apply insert_marker_neutral]|]).
  apply List.Forall_nil.
Qed.

Lemma wp_retry n c p own σ0 :
  (∀ σ, le σ0 σ → wp p own σ (quiet own σ)) → wp (retryRhizaStartup n c p) own σ0 (quiet own σ0).
Proof.
  revert σ0. induction n as [|n IH]; intros σ0 Hp; [done_quiet|]. simpl.
  apply wp_quiet_bind; [by apply Hp|]. intros [e|] σ1 L1; [|done_quiet].
  destruct (retryable e); [|done_quiet].
  apply wp_bind, wp_benign; [done|]. intros again σ2 L2. destruct again; [|done_quiet].
  apply (wp_sub _ own σ0); [by etrans| |done]. apply IH. intros σ Hle. apply Hp. by do 2 (etrans; [done|]).
Qed.

Lemma wp_migrate_prog n own σ0 : wp (migrate n) own σ0 (quiet own σ0).
Proof.
  assert (Hc : ∀ msg names σ, wp (wrap_error msg (countTables names)) own σ (quiet own σ)).
  { intros msg names σ. apply wp_quiet_bind; [apply wp_query_quiet|].
    intros [c|e] σ1 L1; done_quiet. }
  apply wp_need_bind. apply (wp_sub _ own σ0); [done|apply Hc|].
  intros [c1|e] σ1 L1 Hq1; [|done_quiet].
  apply wp_need_bind. apply (wp_sub _ own σ0); [done|apply Hc|].
  intros [c2|e] σ2 L2 Hq2; [|done_quiet].
  destruct (_ && _); [done_quiet|].
  apply wp_quiet_bind.
  { apply wp_retry. intros σ _. apply wp_migrate; [apply migrations_neutral|]. intros; done_quiet. }
  intros [e|] σ3 L3; [done_quiet|].
  apply (wp_sub _ own σ0); [by do 2 (etrans; [done|])|apply wp_requireMigrated|done].
Qed.

Lemma wp_catchUpMigration n own σ0 : wp (catchUpMigration n) own σ0 (quiet own σ0).
Proof.
  apply wp_need_bind. apply (wp_sub _ own σ0); [done|apply wp_migrationPending|].
  intros [b|e] σ1 L1 Hq1; [|done_quiet]. destruct b.
  - apply wp_check_bind. apply (wp_sub _ own σ0); [done|apply wp_migrate_prog|].
    intros [e|] σ2 L2 Hq2; [done_quiet|].
    apply (wp_sub _ own σ0); [by etrans|apply wp_requireMigrated|done].
  - apply (wp_sub _ own σ0); [done|apply wp_requireMigrated|done].
Qed.

Lemma wp_finalizeTrustFence a pending own σ0 :
  pending ∈ history σ0 → wp (finalizeTrustFence a pending) own σ0 (keeps own σ0).
Proof.
  intros Hin. unfold finalizeTrustFence.
  apply wp_need_bind, wp_anchor_get; [intros e σ L; done_quiet|].
  intros current v σ1 L1 _ Hv Hel. destruct (PendingEpoch current) as [e|] eqn:He; [|done_quiet].
  destruct (PendingEpoch pending) as [e'|] eqn:He'; [|done_quiet].
  case_bool_decide as E1; [|done_quiet]. case_bool_decide as E2; simpl; [|done_quiet]. subst e'.
  apply wp_check_bind, wp_verify; [intros err σ L; done_quiet|].
  intros σ2 L2 Hinv2 Ht. rewrite <- E2 in Ht.
  assert (Hel2 : current ∈ history σ2) by (by eapply le_elem).
  pose proof (trust_row_committed _ _ _ _ Hinv2 Hel2 He Ht) as Hl.
  apply wp_check_bind. apply (wp_sub _ own σ0); [by etrans|apply wp_requireMigrated|].
  intros [err|] σ3 L3 Hq3; [done_quiet|].
  apply wp_bind, (wp_anchor_cas _ _ v _ _ _ _ current).
  - by do 2 (eapply le_lookup; [done|]).
  - intros σ L. apply (allowed_finalize own σ current e He). apply (le_log _ _ L), (le_log _ _ L3), Hl.
  - intros err own' σ L Ho _. done_quiet.
  - intros v' own' σ L Ho _ _. done_quiet.
Qed.

Lemma wp_convergeFence n a pending own σ0 :
  pending ∈ history σ0 → wp (convergeFence n a pending) own σ0 (keeps own σ0).
Proof.
  intros Hin. apply wp_check_bind. apply (wp_sub _ own σ0); [done|apply wp_catchUpMigration|].
  intros [e|] σ1 L1 _; [done_quiet|]. eapply wp_mono; [|apply wp_finalizeTrustFence; by eapply le_elem].
  intros r own' σ _ [? ?]. done_quiet.
Qed.

(** The compare-and-swap that ends a recovery. *)
Lemma wp_swap a pending v next own σ0 σ :
  history σ !! v = Some pending → le σ0 σ → PendingEpoch next = None → PendingID next = "" →
  (∀ σ', le σ σ' → cas_allowed own σ' pending next) →
  wp (prog_bind (anchor_cas a Caller (rv_name v) next)
       (λ r, match r with Ok _ => Ret None | Err e => Ret (Some e) end)) own σ (keeps own σ0).
Proof.
  intros Hv L Hn Hi Ha. apply wp_bind, (wp_anchor_cas _ _ v _ _ _ _ pending); try done.
  - intros err own' σ' L' Ho _. rewrite Hi in Ho. done_quiet.
  - intros v' own' σ' L' Ho _ _. rewrite Hi in Ho. done_quiet.
Qed.

Lemma wp_recoverPendingTrust a pending next v own σ0 :
  history σ0 !! v = Some pending → PendingEpoch pending = Some next →
  wp (recoverPendingTrust a pending (rv_name v)) own σ0 (keeps own σ0).
Proof.
  intros Hv He. unfold recoverPendingTrust. rewrite He.
  apply wp_bind, wp_status; [intros e σ L; done_quiet|]. intros st σ1 L1 Hc Hr.
  assert (Hlook : ∀ σ, le σ1 σ → history σ !! v = Some pending).
  { intros σ L. by do 2 (eapply le_lookup; [done|]). }
  apply wp_bind. case_bool_decide as Hst.
  - apply wp_verify.
    + intros err σ2 L2. rewrite bool_decide_eq_false_2 by congruence. done_quiet.
    + intros σ2 L2 _ _. apply (wp_swap _ pending); try done; [by apply Hlook|by etrans|].
      intros σ' L. apply allowed_finalize; [done|].
      apply (le_log _ _ L), (le_log _ _ L2). by apply Hc.
  - apply wp_ret. case_bool_decide as Hst'; [|done_quiet].
    apply wp_bind, wp_verify; [intros err σ' L'; done_quiet|]. intros σ2 L2 _ _.
    apply (wp_swap _ pending); try done; [by apply Hlook|by etrans|].
    intros σ' L. eapply allowed_clear; [done|].
    apply (le_log _ _ L), (le_log _ _ L2). by apply Hr.
Qed.

Lemma wp_prepareMigrationTrustState pending own σ0 :
  pending ∈ history σ0 → wp (prepareMigrationTrustState pending) own σ0 (later σ0).
Proof.
  intros Hin. apply wp_need_bind. apply (wp_sub _ own σ0); [done|apply wp_tableExists|].
  intros [b|e] σ1 L1 _; [|done_later]. destruct b.
  { eapply wp_mono; [|apply wp_verify_quiet]. intros x own' σ _ [_ L]. done_later. }
  destruct (Bootstrap pending) eqn:Hb; simpl; [|done_later].
  apply wp_bind, wp_uuid. intros id σ2 L2.
  destruct (ValidateExecuteRequest _); [done_later|].
  apply wp_bind, wp_bind, wp_execute_call.
  - right. split; [|simpl; set_solver]. exists pending. split; [|done].
    eapply le_elem; [|done]. by etrans.
  - intros r note σ3 L3 _ _. apply wp_ret.
    destruct (snd (committedResponse (r, note))); [done_later|].
    eapply wp_mono; [|apply wp_verify_quiet]. intros x own' σ _ [_ L]. done_later.
Qed.

Lemma wp_completeMigrationFence a pending own σ0 :
  pending ∈ history σ0 → wp (completeMigrationFence a pending) own σ0 (later σ0).
Proof.
  intros Hin. unfold completeMigrationFence. destruct (PendingEpoch pending) as [next|] eqn:He; [|done_later].
  destruct (ValidateExecuteRequest _); [done_later|].
  apply wp_bind, wp_bind, wp_execute_call.
  - left. exists pending, next. split_and!; try done. by exists [], false.
  - intros r note σ1 L1 _ _. apply wp_ret.
    destruct (snd (committedResponse (r, note))); [done_later|].
    eapply wp_mono; [|apply wp_finalizeTrustFence; by eapply le_elem].
    intros x own' σ _ [_ L]. done_later.
Qed.

Lemma wp_finishMigrationFence n a pending own σ0 :
  pending ∈ history σ0 → wp (finishMigrationFence n a pending) own σ0 (later σ0).
Proof.
  intros Hin. unfold finishMigrationFence. destruct (PendingEpoch pending) as [next|] eqn:He; [|done_later].
  apply wp_quiet_bind; [apply wp_verify_quiet|]. intros [err|] σ1 L1.
  - assert (pending ∈ history σ1) by (by eapply le_elem).
    apply wp_check_bind. eapply wp_mono; [|by apply wp_prepareMigrationTrustState].
    intros [e|] own1 σ2 _ L2; [done_later|].
    apply wp_check_bind. eapply wp_mono; [|apply wp_migrate_prog].
    intros [e|] own2 σ3 _ [_ L3]; [done_later|].
    eapply wp_mono; [|apply wp_completeMigrationFence; eapply le_elem; [|done]; by etrans].
    intros x own' σ _ L. done_later.
  - eapply wp_mono; [|apply wp_convergeFence; by eapply le_elem]. intros x own' σ _ [_ L]. done_later.
Qed.

(** What a process knows about the reservation ID it keeps across retries. *)
Definition startup_ok (own : gset string) (σ : services) (state : trustStartup) : Prop :=
  attempted state = "" ∨ attempted state ∈ own ∨ attempted state ∈ proposed σ.

Lemma startup_ok_le own own' σ σ' st :
  le σ σ' → own ⊆ {[""]} ∪ own' → startup_ok own σ st → startup_ok own' σ' st.
Proof.
  intros Hle Ho [?|[?|?]]; [by left| |right; right; by apply (le_proposed _ _ Hle)].
  assert (attempted st ∈ ({[""]} ∪ own' : gset string)) as [?%elem_of_singleton|?]%elem_of_union by set_solver;
    [by left|by right; left].
Qed.

Lemma wp_beginMigrationFence a record v state own σ0 :
  history σ0 !! v = Some record → startup_ok own σ0 state →
  wp (beginMigrationFence a record (rv_name v) state) own σ0
    (λ r own' σ, le σ0 σ ∧ startup_ok own' σ r.1 ∧
       ∀ pending, r.2 = Ok pending → pending ∈ history σ ∧ attempted r.1 ∈ proposed σ).
Proof.
  intros Hv Hst. unfold beginMigrationFence. case_bool_decide as Hp; [done|].
  destruct (Bootstrap record) eqn:Hb; simpl; [|done].
  assert (Hquiet : ∀ σ own', le σ0 σ → own' = own → startup_ok own' σ state)
    by (intros σ own' L ->; eapply startup_ok_le; [exact L| |exact Hst]; set_solver).
  apply wp_quiet_bind; [apply wp_tableExists|]. intros [b|e] σ1 L1; [|by split_and!; auto].
  apply wp_quiet_bind; [destruct b; [apply wp_verify_quiet|done_quiet]|].
  intros [e|] σ2 L2; [apply wp_ret; split_and!; [done_later|apply Hquiet; [done_later|done]|done]|].
  apply wp_bind.
  assert (Hstep : ∀ id own' σ3, le σ0 σ3 → id ∈ own' ∨ id ∈ proposed σ3 →
            wp match ValidateExecuteRequest
                       (migration_request id (wrap64 (Epoch record + 1)) (pair_of record)) with
               | Some e => Ret (mkTrustStartup id (reserved state) (pendingID state), Err e)
               | None => prog_bind (anchor_cas a Caller (rv_name v) (reserve record (wrap64 (Epoch record + 1)) id))
                   (λ c, match c with
                         | Err e => Ret (mkTrustStartup id (reserved state) (pendingID state), Err e)
                         | Ok _ => Ret (mkTrustStartup id true id, Ok (reserve record (wrap64 (Epoch record + 1)) id))
                         end)
               end own' σ3
               (λ r own'' σ, le σ0 σ ∧ startup_ok own'' σ r.1 ∧
                  ∀ pending, r.2 = Ok pending → pending ∈ history σ ∧ attempted r.1 ∈ proposed σ)).
  { intros id own' σ3 L3 Hid. destruct (ValidateExecuteRequest _).
    { apply wp_ret. split_and!; [done|by right|done]. }
    apply wp_bind, (wp_anchor_cas _ _ v _ _ _ _ record); [by eapply le_lookup| | |].
    - intros σ L. apply allowed_reserve; [by destruct (PendingEpoch record)|].
      destruct Hid as [?|?]; [by left|right]. split; [by apply (le_proposed _ _ L)|done].
    - intros e own'' σ L _ Hi. apply wp_ret. simpl in *.
      split_and!; [by etrans|right; by apply Hi|done].
    - intros v' own'' σ L _ Hi Hv'. apply wp_ret. simpl in *. specialize (Hi ltac:(done)).
      split_and!; [by etrans|by right; right|]. intros pending [= <-].
      split; [by eapply list_elem_of_lookup_2|done]. }
  case_bool_decide as Ha.
  - apply wp_uuid. intros id σ3 L3. apply Hstep; [done_later|]. left. by apply elem_of_union_l, elem_of_singleton.
  - apply wp_ret, Hstep; [by etrans|].
    destruct (Hquiet σ2 own ltac:(by etrans) eq_refl) as [?|?]; [done|done].
Qed.

Lemma wp_with_state state (p : prog svcE (option error)) own σ0 Q :
  wp p own σ0 (λ r own' σ, Q (state, r) own' σ) → wp (with_state state p) own σ0 Q.
Proof. intros H. apply wp_bind. eapply wp_mono; [|exact H]. done. Qed.

Definition settled_post (σ0 : services) : (trustStartup * option error) → gset string → services → Prop :=
  λ r own σ, le σ0 σ ∧ startup_ok own σ r.1.

Lemma wp_settleTrustAnchorOnce n a state own σ0 :
  startup_ok own σ0 state →
  wp (settleTrustAnchorOnce n a state) own σ0 (settled_post σ0).
Proof.
  intros Hst. unfold settleTrustAnchorOnce.
  assert (Hkeep : ∀ own' σ, le σ0 σ → own ⊆ {[""]} ∪ own' → startup_ok own' σ state)
    by (intros; by eapply startup_ok_le).
  apply wp_bind, wp_anchor_get; [intros e σ L; split; [done|by apply Hkeep; [|set_solver]]|].
  intros record v σ1 L1 Hinv1 Hv Hel. destruct (PendingEpoch record) as [next|] eqn:He.
  - destruct (negb _ && _) eqn:Hmine.
    + bool_prop. apply wp_with_state. eapply wp_mono; [|by apply wp_finishMigrationFence].
      intros r own' σ _ L. split; [done_later|]. right; right. simpl.
      apply (le_proposed _ _ L). rewrite <- H0. by eapply inv_pending.
    + apply wp_quiet_bind; [apply wp_verify_quiet|]. intros [err|] σ2 L2; apply wp_with_state.
      * eapply wp_mono; [|eapply wp_recoverPendingTrust; [by eapply le_lookup|done]].
        intros r own' σ _ [Ho L]. split; [done_later|]. apply Hkeep; [done_later|done].
      * eapply wp_mono; [|eapply wp_convergeFence; by eapply le_elem].
        intros r own' σ _ [Ho L]. split; [done_later|]. apply Hkeep; [done_later|done].
  - assert (Hfin : ∀ σ, le σ0 σ → wp (finishTrustStartup a) own σ
              (λ r own' σ', settled_post σ0 (state, r) own' σ')).
    { intros σ L. apply wp_need_bind, wp_anchor_get.
      - intros e σ' L'. split; [done_later|]. apply Hkeep; [done_later|set_solver].
      - intros r v' σ2 L2 _ _ _. case_bool_decide.
        + split; [done_later|]. apply Hkeep; [done_later|set_solver].
        + eapply wp_mono; [|apply wp_verify_quiet]. intros x own' σ' _ [-> L'].
          split; [done_later|]. apply Hkeep; [done_later|set_solver]. }
    destruct (reserved state); [by apply wp_with_state, Hfin|].
    apply wp_quiet_bind; [apply wp_migrationPending|].
    intros [behind|e] σ2 L2; [|split; [done_later|]; apply Hkeep; [done_later|set_solver]].
    destruct (behind && Bootstrap record) eqn:Hboot.
    + apply wp_bind. eapply wp_mono; [|apply wp_beginMigrationFence; [by eapply le_lookup|]].
      2:{ apply Hkeep; [done_later|set_solver]. }
      intros [st [pending|e]] own' σ3 _ (L3 & Hok & Hpend); simpl in *; [|split; [done_later|done]].
      destruct (Hpend _ eq_refl) as [Hin Hprop]. apply wp_with_state.
      eapply wp_mono; [|by apply wp_finishMigrationFence]. intros r own'' σ _ L.
      split; [done_later|]. right; right. by apply (le_proposed _ _ L).
    + apply wp_with_state, wp_check_bind. apply (wp_sub _ own σ0); [done_later| |].
      { destruct behind; [apply wp_catchUpMigration|done_quiet]. }
      intros [e|] σ3 L3 _.
      * split; [done_later|]. apply Hkeep; [done_later|set_solver].
      * apply Hfin. done_later.
Qed.

Lemma wp_settleTrustAnchor n attempts a state own σ0 :
  startup_ok own σ0 state →
  wp (settleTrustAnchor n attempts a state) own σ0 (settled_post σ0).
Proof.
  revert state own σ0. induction attempts as [|k IH]; intros state own σ0 Hst; simpl; [done|].
  apply wp_bind. eapply wp_mono; [|by apply wp_settleTrustAnchorOnce].
  intros [st [e|]] own' σ1 _ [L1 H1]; [|done].
  apply wp_bind, wp_benign; [done|]. intros again σ2 L2.
  assert (startup_ok own' σ2 st) by (eapply startup_ok_le; [done| |done]; set_solver).
  destruct again; [|split; [done_later|done]].
  eapply wp_mono; [|by apply IH]. intros r own'' σ _ [L H']. split; [done_later|done].
Qed.

(** ** A deployment *)

Definition discard {A} (p : prog svcE A) : prog svcE unit := prog_bind p (λ _, Ret tt).

(** What a node with a configured trust anchor runs: requests, startup with
    any number of attempts, and the background continuation of a startup. *)
Inductive ternal_program : prog svcE unit → Prop :=
  | runs_execute d req n :
      trustRequired d = true → Forall neutral (normal_statements req) →
      ternal_program (discard (execute d req n))
  | runs_query d X (q : database → option X) :
      trustRequired d = true → ternal_program (discard (QueryContext d q))
  | runs_open m n a background s :
      ternal_program (discard
        (let! r := open_trust m n (Some a) in
         match r with
         | Ok (_, _, Some state) => settle_background m background a state s
         | _ => Ret s
         end)).

Lemma wp_discard {A} (p : prog svcE A) own σ0 Q :
  wp p own σ0 Q → wp (discard p) own σ0 (λ _ _ _, True).
Proof. intros H. apply wp_bind. eapply wp_mono; [|exact H]. done. Qed.

Lemma ternal_program_safe p own σ : ternal_program p → wp p own σ (λ _ _ _, True).
Proof.
  destruct 1 as [d req n Hd Hn|d X q Hd|m n a background s].
  - eapply wp_discard. by apply wp_execute.
  - eapply wp_discard. by apply wp_QueryContext.
  - eapply (wp_discard _ _ _ (λ _ _ _, True)), wp_bind, wp_bind.
    eapply wp_mono; [|apply wp_settleTrustAnchor; by left].
    intros [st [e|]] own1 σ1 _ [L1 H1].
    + apply wp_bind. eapply wp_mono; [|by apply wp_settleTrustAnchor].
      intros [st' [e'|]] own2 σ2 _ _; [done|]. apply wp_bind, wp_benign; [done|]. done.
    + apply wp_bind, wp_benign; [done|]. done.
Qed.

(** A deployment is the shared services and the programs under way; a program
    that never moves again is a crashed process. *)
Definition pool : Type := services * list (prog svcE unit).

Inductive pool_step : pool → pool → Prop :=
  | pool_start σ ts p : ternal_program p → pool_step (σ, ts) (σ, ts ++ [p])
  | pool_call σ ts i X (e : svcE X) k x σ' :
      ts !! i = Some (Call e k) → serves e σ x σ' →
      pool_step (σ, ts) (σ', <[i := k x]> ts)
  | pool_deliver σ ts σ' : delivers σ σ' → pool_step (σ, ts) (σ', ts).

(** A deployment as it is created: a settled record the deployment wrote, and
    a database that carries its pair, or no trust row yet while the record
    still allows the bootstrap. *)
Definition new_deployment (r : trustAnchorRecord) (d : database) : pool :=
  (Services [r] d ∅ [] [] [] {[Token r]} {[Token r]} ∅ None 0 0, []).

Definition deployable (r : trustAnchorRecord) (d : database) : Prop :=
  PendingEpoch r = None ∧
  ((table_exists "trust_state" d = true ∧ trust_state d = Some (pair_of r)) ∨
   (table_exists "trust_state" d = false ∧ trust_state d = None ∧ Bootstrap r = true)).

Inductive reachable (r : trustAnchorRecord) (d : database) : pool → Prop :=
  | reachable_init : reachable r d (new_deployment r d)
  | reachable_step s s' : reachable r d s → pool_step s s' → reachable r d s'.

Record pool_ok (s : pool) (owns : list (gset string)) : Prop := {
  pool_inv : Inv s.1;
  pool_length : length s.2 = length owns;
  pool_safe i p own : s.2 !! i = Some p → owns !! i = Some own →
    owned own s.1 ∧ ∃ σ0, le σ0 s.1 ∧ wp p own σ0 (λ _ _ _, True);
  pool_disjoint i j oi oj : owns !! i = Some oi → owns !! j = Some oj → i ≠ j → oi ## oj;
}.

Lemma inv_new_deployment r d : deployable r d → Inv (new_deployment r d).1.
Proof.
  intros [Hp Hm]. split; simpl; try done.
  - exists r. split; [done|]. unfold agree. by rewrite Hp.
  - intros r' e Hr' He _. apply list_elem_of_singleton in Hr' as ->. congruence.
  - intros r1 r2 H1 _ H2 _. injection H1 as <-. by apply list_elem_of_singleton in H2 as ->.
  - intros r' H1. apply list_elem_of_singleton in H1 as ->. split; set_solver.
  - intros r' e H1 H2. apply list_elem_of_singleton in H1 as ->. congruence.
Qed.

Lemma delivers_inv σ σ' :
  Inv σ → delivers σ σ' → Inv σ' ∧ le σ σ' ∧ spent σ' = spent σ ∧ minted σ' = minted σ.
Proof.
  intros Hinv Hd. destruct Hd as [l1 rv next l2 σ' Hl Ha|l1 req l2 Hl|l1 m l2 Hl|r Hr].
  - pose proof (inv_late_cas _ Hinv) as Hc. rewrite Hl in Hc.
    apply Forall_app in Hc as [Hc1 [Hc Hc2]%Forall_cons].
    assert (Hinv1 : Inv (set_late (l1 ++ l2) (late_exec σ) (late_migrations σ) σ)).
    { apply late_inv; try apply Hinv. by apply Forall_app. }
    apply apply_cas_inv in Ha as (H1 & H2 & H3 & H4 & _); [|done|eapply late_cas_le; [apply late_le|done|exact Hc]].
    split_and!; try done. etrans; [|exact H2]. apply late_le.
  - pose proof (inv_late_exec _ Hinv) as Hc. rewrite Hl in Hc.
    apply Forall_app in Hc as [Hc1 [Hc Hc2]%Forall_cons].
    assert (Hinv1 : Inv (set_late (late_cas σ) (l1 ++ l2) (late_migrations σ) σ)).
    { apply late_inv; try apply Hinv. by apply Forall_app. }
    destruct (request_inv _ req Hinv1 Hc) as [H1 H2].
    split_and!; [done|etrans; [apply late_le|done]|..];
      unfold apply_request; simpl; (destruct (log σ !! RequestID req); [done|]);
      by destruct (run_statements _ _) as [[? ?]|].
  - pose proof (inv_late_migrations _ Hinv) as Hc. rewrite Hl in Hc.
    apply Forall_app in Hc as [Hc1 [Hc Hc2]%Forall_cons].
    assert (Hinv1 : Inv (set_late (late_cas σ) (late_exec σ) (l1 ++ l2) σ)).
    { apply late_inv; try apply Hinv. by apply Forall_app. }
    destruct (migration_inv _ m Hinv1 Hc) as [H1 H2].
    split_and!; [done|etrans; [apply late_le|done]|..];
      unfold apply_migration; by destruct (run_statements _ _) as [[? ?]|].
  - split_and!; [|apply append_le|done|done]. eapply append_inv; [done..|]. by apply good_touch.
Qed.

Lemma pool_ok_le s σ' owns :
  pool_ok s owns → Inv σ' → le s.1 σ' → spent σ' = spent s.1 → minted σ' = minted s.1 →
  pool_ok (σ', s.2) owns.
Proof.
  intros [H1 Hlen H2 H3] Hi Hl Hs Hm. split; [done|done| |done]. simpl.
  intros i p own Hp Ho. destruct (H2 i p own Hp Ho) as [[O1 O2] (σ0 & L & Hw)].
  split; [split; rewrite ?Hs, ?Hm; done|]. exists σ0. split; [by etrans|done].
Qed.

Lemma pool_ok_start σ ts owns p :
  pool_ok (σ, ts) owns → ternal_program p → pool_ok (σ, ts ++ [p]) (owns ++ [∅]).
Proof.
  intros [H1 Hlen H2 H3] Hp. simpl in *. split; simpl; [done|by rewrite !length_app, Hlen| |].
  - intros i q own Hq Ho.
    apply lookup_app_Some in Hq as [Hq|[Hq1 Hq]]; apply lookup_app_Some in Ho as [Ho|[Ho1 Ho]].
    + by eapply H2.
    + apply lookup_lt_Some in Hq. lia.
    + apply lookup_lt_Some in Ho. lia.
    + apply list_lookup_singleton_Some in Hq as [_ <-].
      apply list_lookup_singleton_Some in Ho as [_ <-].
      split; [split; set_solver|]. exists σ. split; [done|by apply ternal_program_safe].
  - intros i j oi oj Hi Hj Hne.
    apply lookup_app_Some in Hi as [Hi|[_ Hi]]; apply lookup_app_Some in Hj as [Hj|[_ Hj]];
      [by eapply H3|..];
      first [apply list_lookup_singleton_Some in Hj as [_ <-]
            |apply list_lookup_singleton_Some in Hi as [_ <-]]; set_solver.
Qed.

(** What one call leaves of another process's identifiers. *)
Lemma others_keep own own' σ σ' other :
  advances own σ own' σ' → owned other σ → other ## own → owned other σ' ∧ other ## own'.
Proof.
  intros [A1 A2 A3 A4 A5] [O1 O2] Hd. pose proof (le_minted _ _ A2).
  split; [split|]; set_solver.
Qed.

Lemma pool_ok_call σ ts owns i X (e : svcE X) k x σ' :
  pool_ok (σ, ts) owns → ts !! i = Some (Call e k) → serves e σ x σ' →
  ∃ owns', pool_ok (σ', <[i := k x]> ts) owns'.
Proof.
  intros [H1 Hlen H2 H3] Hi Hs. simpl in *.
  destruct (lookup_lt_is_Some_2 owns i) as [own Ho];
    [rewrite <- Hlen; by eapply lookup_lt_Some|].
  destruct (H2 i _ own Hi Ho) as [Hown (σ0 & L0 & Hw)].
  destruct (Hw σ L0 H1 Hown) as [Hperm Hk].
  pose proof (serve_advances _ _ _ _ _ H1 Hown Hperm Hs) as A.
  exists (<[i := next_own own e x]> owns). split; simpl; [apply A|by rewrite !length_insert| |].
  - intros j p oj Hj Hoj.
    apply list_lookup_insert_Some in Hj as [(<- & <- & _)|[Hne Hj]].
    + rewrite list_lookup_insert_eq in Hoj by (by eapply lookup_lt_Some). simplify_eq.
      split; [apply A|]. exists σ'. split; [done|]. apply Hk; [done|apply A|apply A].
    + rewrite list_lookup_insert_ne in Hoj by done.
      destruct (H2 j p oj Hj Hoj) as [Hoo (σ1 & L1 & Hw1)].
      destruct (others_keep _ _ _ _ oj A Hoo) as [? _]; [by apply (H3 j i)|].
      split; [done|]. exists σ1. split; [etrans; [done|apply A]|done].
  - intros j1 j2 o1 o2 Hj1 Hj2 Hne.
    apply list_lookup_insert_Some in Hj1 as [(<- & <- & _)|[Hne1 Hj1]];
      apply list_lookup_insert_Some in Hj2 as [(<- & <- & _)|[Hne2 Hj2]]; try done.
    + destruct (lookup_lt_is_Some_2 ts j2) as [p2 Hp2]; [rewrite Hlen; by eapply lookup_lt_Some|].
      destruct (H2 j2 p2 o2 Hp2 Hj2) as [Hoo _].
      destruct (others_keep _ _ _ _ o2 A Hoo) as [_ ?]; [by apply (H3 j2 i)|]. done.
    + destruct (lookup_lt_is_Some_2 ts j1) as [p1 Hp1]; [rewrite Hlen; by eapply lookup_lt_Some|].
      destruct (H2 j1 p1 o1 Hp1 Hj1) as [Hoo _].
      by destruct (others_keep _ _ _ _ o1 A Hoo) as [_ ?]; [by apply (H3 j1 i)|].
    + by apply (H3 j1 j2).
Qed.

Lemma pool_step_ok s s' owns :
  pool_ok s owns → pool_step s s' → ∃ owns', pool_ok s' owns' ∧ le s.1 s'.1.
Proof.
  intros Hok Hs. destruct Hs as [σ ts p Hp|σ ts i X e k x σ' Hi Hs|σ ts σ' Hd].
  - exists (owns ++ [∅]). split; [by apply pool_ok_start|done].
  - destruct (pool_ok_call _ _ _ _ _ _ _ _ _ Hok Hi Hs) as [owns' Hok']. exists owns'. split; [done|].
    destruct Hok as [H1 Hlen H2 H3]. simpl in *.
    destruct (lookup_lt_is_Some_2 owns i) as [own Ho]; [rewrite <- Hlen; by eapply lookup_lt_Some|].
    destruct (H2 i _ own Hi Ho) as [Hown (σ0 & L0 & Hw)]. destruct (Hw σ L0 H1 Hown) as [Hperm Hk].
    apply (serve_advances _ _ _ _ _ H1 Hown Hperm Hs).
  - destruct (delivers_inv σ σ' (pool_inv _ _ Hok) Hd) as (H1 & H2 & H3 & H4).
    exists owns. split; [|done]. by apply (pool_ok_le (σ, ts)).
Qed.

Lemma reachable_ok r d s : deployable r d → reachable r d s → ∃ owns, pool_ok s owns.
Proof.
  intros Hd. induction 1 as [|s s' _ [owns IH] Hs].
  - exists []. split; simpl; [by apply inv_new_deployment|done|done|done].
  - destruct (pool_step_ok _ _ _ IH Hs) as (owns' & ? & _). eauto.
Qed.

Lemma pool_reachable_inv r d s : deployable r d → reachable r d s → Inv s.1.
Proof. intros Hd Hs. destruct (reachable_ok r d s Hd Hs) as [owns H]. apply H. Qed.

End with_services.
