(* ===== verification/TrustProps.v ===== *)
(** * Properties of the fencing protocol

    Agreement of the anchor and the database in every reachable state of a
    deployment, the honesty of what a call reports, and what a fenced read
    returns, under arbitrary interference of the other nodes. *)

From S2P Require Export TrustPool.
Open Scope go_scope.

Section with_services.
Context {R : Recovery} {P : ServiceParams}.

(** ** Interference

    A run of one program while other Ternal nodes act between its calls: they
    keep the invariant, nothing already known is undone, and they do not use
    identifiers this program holds. *)
Inductive irun {A} : gset string → prog svcE A → services → A → services → Prop :=
  | irun_ret own a σ : irun own (Ret a) σ a σ
  | irun_call own X (e : svcE X) k σ σ1 x σ2 a σ' :
      le σ σ1 → Inv σ1 → owned own σ1 → serves e σ1 x σ2 →
      irun (next_own own e x) (k x) σ2 a σ' →
      irun own (Call e k) σ a σ'.

Lemma irun_wp {A} own (p : prog svcE A) σ a σ' σ0 Q :
  irun own p σ a σ' → le σ0 σ → (∀ a own' σ1 σ2, le σ1 σ2 → Q a own' σ1 → Q a own' σ2) →
  wp p own σ0 Q → ∃ own', Q a own' σ'.
Proof.
  intros Hr. revert σ0. induction Hr as [own a σ|own X e k σ σ1 x σ2 a σ' H1 H2 H3 H4 _ IH];
    intros σ0 Hle Hmono Hw; simpl in Hw.
  - eauto.
  - destruct (Hw σ1 ltac:(by etrans) H2 H3) as [Hp Hk].
    pose proof (serve_advances _ _ _ _ _ H2 H3 Hp H4) as Ad.
    apply (IH σ2); [done|done|]. apply Hk; [done|apply Ad|apply Ad].
Qed.

(** ** What the database holds *)

Definition holds_pair (σ : services) (p : Z * string) : Prop :=
  table_exists "trust_state" (db σ) = true ∧ trust_state (db σ) = Some p.

Definition not_bootstrapped (σ : services) (r : trustAnchorRecord) : Prop :=
  table_exists "trust_state" (db σ) = false ∧ trust_state (db σ) = None ∧ Bootstrap r = true.

(** [C5] Agreement: whatever the nodes do, in whatever order their calls take
    effect, whichever answers are lost and wherever processes stop, an anchor
    without a reservation publishes exactly the pair the database holds (or
    the deployment has not created the trust row yet), and an anchor with a
    reservation is matched by the old pair or by the reserved one, the latter
    exactly when the reserved request committed. *)
Theorem trust_pair_agrees r0 d0 σ ts :
  deployable r0 d0 → reachable r0 d0 (σ, ts) →
  ∃ r, anchor_now σ = Some r ∧
    match PendingEpoch r with
    | None => holds_pair σ (pair_of r) ∨ not_bootstrapped σ r
    | Some e =>
      (log σ !! PendingID r = Some true ∧ holds_pair σ (e, PendingID r)) ∨
      (log σ !! PendingID r ≠ Some true ∧ (holds_pair σ (pair_of r) ∨ not_bootstrapped σ r))
    end.
Proof.
  intros Hd Hr. destruct (inv_now _ (pool_reachable_inv _ _ _ Hd Hr)) as (r & Hn & Hag).
  exists r. split; [done|]. unfold agree, trust_matches, holds_pair, not_bootstrapped in *.
  destruct (PendingEpoch r); naive_solver.
Qed.

(** ** The anchor's history *)

Definition pending_next (r : trustAnchorRecord) : Prop :=
  ∀ e, PendingEpoch r = Some e → e = wrap64 (Epoch r + 1).

Lemma rec_step_pending r r' : rec_step r r' → pending_next r → pending_next r'.
Proof. destruct 1; unfold pending_next; simpl; naive_solver. Qed.

Lemma chain_pending l r :
  chain (r :: l) → pending_next r → Forall pending_next (r :: l).
Proof.
  revert r. induction l as [|r' l IH]; intros r Hc Hp; constructor; try done.
  destruct Hc as [Hs Hc]. apply IH; [done|]. by eapply rec_step_pending.
Qed.

(** How a later record relates to an earlier one: [n] writes were finalized
    between them. *)
Definition advanced (r r' : trustAnchorRecord) (n : nat) : Prop :=
  same_frame r r' ∧ (Bootstrap r' = true → Bootstrap r = true ∧ n = 0 ∧ Token r' = Token r) ∧
  Epoch r' = wrap64 (Epoch r + Z.of_nat n).

Lemma wrap64_add x y : wrap64 (wrap64 x + y) = wrap64 (x + y).
Proof.
  unfold wrap64. f_equal.
  replace ((x + 2 ^ 63) mod 2 ^ 64 - 2 ^ 63 + y + 2 ^ 63)%Z with ((x + 2 ^ 63) mod 2 ^ 64 + y)%Z by lia.
  rewrite Zplus_mod_idemp_l. f_equal. lia.
Qed.

Lemma rec_step_advanced r r' r'' n :
  advanced r r' n → pending_next r' → rec_step r' r'' → ∃ n', (n ≤ n' ≤ S n) ∧ advanced r r'' n'.
Proof.
  intros (Hf & Hb & He) Hp Hs. destruct Hs as [|id Hn|e Hn|e Hn].
  - exists n. split; [lia|done].
  - exists n. split; [lia|done].
  - exists (S n). split; [lia|]. split; [exact Hf|]. split; [done|]. simpl.
    rewrite (Hp _ Hn), He, wrap64_add. f_equal. lia.
  - exists n. split; [lia|done].
Qed.

Lemma chain_advanced l r i r' :
  in_int64 (Epoch r) → chain (r :: l) → pending_next r → (r :: l) !! i = Some r' →
  ∃ n, n ≤ i ∧ advanced r r' n.
Proof.
  intros H64 Hc Hp. revert r'. induction i as [|i IH]; intros r' Hi.
  - simpl in Hi. simplify_eq. exists 0. split; [lia|]. split; [done|]. split; [done|].
    rewrite Z.add_0_r. by rewrite wrap64_id.
  - destruct (lookup_lt_is_Some_2 (r :: l) i) as [r1 H1]; [apply lookup_lt_Some in Hi; lia|].
    destruct (IH r1 H1) as (n & Hn & Ha).
    assert (Hp1 : pending_next r1).
    { pose proof (chain_pending _ _ Hc Hp) as HF. rewrite Forall_lookup in HF. eauto. }
    assert (Hs : rec_step r1 r').
    { clear -Hc H1 Hi. revert r l Hc H1 Hi. induction i as [|i IH]; intros r [|r2 l] Hc H1 Hi; try done.
      - simpl in *. simplify_eq. by destruct Hc.
      - destruct Hc as [_ Hc]. by apply (IH r2 l). }
    destruct (rec_step_advanced _ _ _ _ Ha Hp1 Hs) as (n' & ? & ?). exists n'. split; [lia|done].
Qed.

Lemma history_head r0 d0 s : reachable r0 d0 s → head (history s.1) = Some r0.
Proof.
  induction 1 as [|s s' _ IH Hs]; [done|].
  assert (Hh : history s.1 `prefix_of` history s'.1).
  { destruct Hs as [σ ts p Hp|σ ts i X e k x σ' Hi (w & _ & Hs)|σ ts σ' Hd]; simpl; [done| |].
    - destruct e; simpl in Hs; try (injection Hs as <- <-; done);
        try (destruct (answered w tt) in Hs; injection Hs as <- <-; done).
      + unfold serve_cas, apply_cas, send_late in Hs. destruct (PendingEpoch next), (how w); simpl in Hs;
          repeat case_bool_decide; destruct (legacy w); simplify_eq; simpl; try done;
          rewrite <- ?app_assoc; by eexists.
      + unfold serve_execute, apply_request in Hs.
        destruct (how w); injection Hs as <- <-; simpl; try done;
          destruct (log σ !! RequestID req); try done; by destruct (run_statements _ _) as [[? ?]|].
      + unfold serve_migrate, apply_migration in Hs.
        destruct (how w); [destruct (run_statements _ _) as [[? ?]|] eqn:E| | |];
          injection Hs as <- <-; simpl; try done. by destruct (run_statements _ _) as [[? ?]|].
    - destruct Hd as [l1 rv next l2 σ' Hl Ha|l1 req l2 Hl|l1 m l2 Hl|r Hr]; simpl.
      + unfold apply_cas in Ha. case_bool_decide; simplify_eq. by eexists.
      + unfold apply_request. simpl. destruct (log σ !! RequestID req); [done|].
        by destruct (run_statements _ _) as [[? ?]|].
      + unfold apply_migration. by destruct (run_statements _ _) as [[? ?]|].
      + by eexists. }
  destruct Hh as [k ->]. by destruct (history s.1).
Qed.

Lemma chain_drop i l : chain l → chain (drop i l).
Proof.
  revert l. induction i as [|i IH]; intros l Hc; [done|]. destruct l as [|r [|r' l]]; [done|simpl; by rewrite drop_nil|].
  destruct Hc as [_ Hc]. by apply (IH (r' :: l)).
Qed.

(** The anchor only moves forward: in every reachable state the record at
    a later version has the same binding, format and recovery fields as the
    record at an earlier one, its epoch is the earlier epoch plus the number
    of writes finalized in between (at most one per version, in 64-bit
    arithmetic), and it allows the bootstrap only if the earlier one did and
    no write was finalized since. *)
Theorem anchor_moves_forward r0 d0 σ ts i j r r' :
  deployable r0 d0 → in_int64 (Epoch r0) → reachable r0 d0 (σ, ts) →
  history σ !! i = Some r → history σ !! j = Some r' → i ≤ j →
  ∃ n, n ≤ j - i ∧ same_frame r r' ∧ Epoch r' = wrap64 (Epoch r + Z.of_nat n) ∧
    (Bootstrap r' = true → Bootstrap r = true ∧ n = 0 ∧ Token r' = Token r).
Proof.
  intros Hd H64 Hr Hi Hj Hle.
  pose proof (history_head _ _ _ Hr) as Hh. simpl in Hh.
  pose proof (inv_chain _ (pool_reachable_inv _ _ _ Hd Hr)) as Hc. simpl in Hc.
  destruct (history σ) as [|r1 l] eqn:El; [done|]. simpl in Hh. simplify_eq.
  assert (Hp0 : pending_next r0) by (destruct Hd as [Hd _]; intros e; congruence).
  assert (Hpi : pending_next r).
  { pose proof (chain_pending _ _ Hc Hp0) as HF. rewrite Forall_lookup in HF. eauto. }
  assert (H64i : in_int64 (Epoch r)).
  { destruct (chain_advanced _ _ _ _ H64 Hc Hp0 Hi) as (n & _ & _ & _ & ->). apply wrap64_in. }
  pose proof (chain_drop i _ Hc) as Hc'. rewrite (drop_S _ _ _ Hi) in Hc'.
  destruct (chain_advanced _ _ (j - i) r' H64i Hc' Hpi) as (n & Hn & Hf & Hb & He).
  { rewrite <- (drop_S _ _ _ Hi), lookup_drop. by replace (i + (j - i)) with j by lia. }
  exists n. done.
Qed.

(** ** Reads *)


(** ** Writes *)


End with_services.

(** ** Sequential runs of the fencing protocol

    What one node's call does when no other node interferes, for every script
    of failures the theorem allows: a fenced write is a plain transaction on
    the database plus one step of the anchor, a store that cannot prove the
    anchored pair is closed, and startup brings a node to a settled pair. *)

Section with_services.
Context {R : Recovery} {P : ServiceParams}.

Definition seq (s : script) {A} (p : prog svcE A) (w : world) : A * world := run (seq_handler s) p w.

Lemma seq_bind s {A B} (p : prog svcE A) (f : A → prog svcE B) w :
  seq s (prog_bind p f) w = let (a, w') := seq s p w in seq s (f a) w'.
Proof. apply run_bind. Qed.

Lemma seq_ret s {A} (a : A) w : seq s (Ret a) w = (a, w).
Proof. done. Qed.

Definition answer_of (s : script) {X} (e : svcE X) (n : nat) : answer :=
  Answer (match call_context e with Some c => script_how s c n | None => Answered None end)
    (script_uuid s n) (script_legacy s n).

Lemma seq_call s {X} (e : svcE X) σ n :
  seq s (call e) (σ, n) = let (x, σ') := serve (answer_of s e n) e σ in (x, (σ', S n)).
Proof. unfold seq. rewrite run_call. done. Qed.

(** What other processes can see. *)
Definition shared (σ σ' : services) : Prop :=
  history σ' = history σ ∧ db σ' = db σ ∧ log σ' = log σ ∧ late_cas σ' = late_cas σ ∧
  late_exec σ' = late_exec σ ∧ late_migrations σ' = late_migrations σ.

(** *** Runs of the building blocks, for any script *)

Lemma seq_anchor_get s a c σ n :
  ∃ res, seq s (anchor_get a c) (σ, n) = (res, (σ, S n)) ∧
    (∀ r rv, res = Ok (r, rv) →
       anchor_now σ = Some r ∧ rv = rv_name (current_version σ) ∧ validate a r = None) ∧
    (∀ r, healthy s c → anchor_now σ = Some r → validate a r = None →
       res = Ok (r, rv_name (current_version σ))).
Proof.
  unfold anchor_get. rewrite seq_bind, seq_call. simpl.
  destruct (anchor_now σ) as [r|] eqn:Hn; simpl.
  - unfold answered. simpl. destruct (script_how s c n) as [note|e|e|e] eqn:Hh; simpl.
    + destruct (validate a r) eqn:Hv; rewrite seq_ret; eexists; (split; [done|]); naive_solver.
    + rewrite seq_ret. eexists. split; [done|]. split; [done|]. intros r' H. rewrite H in Hh. done.
    + rewrite seq_ret. eexists. split; [done|]. split; [done|]. intros r' H. rewrite H in Hh. done.
    + rewrite seq_ret. eexists. split; [done|]. split; [done|]. intros r' H. rewrite H in Hh. done.
  - rewrite seq_ret. eexists. split; [done|]. split; done.
Qed.

Lemma seq_query s c {X} (q : database → option X) σ n :
  ∃ res, seq s (call (DBQuery c q)) (σ, n) = (res, (σ, S n)) ∧
    (∀ x, res = Ok x → q (db σ) = Some x) ∧
    (∀ x, healthy s c → q (db σ) = Some x → res = Ok x).
Proof.
  rewrite seq_call. simpl. eexists. split; [done|]. unfold answered. simpl. split.
  - intros x. destruct (q (db σ)); [|done]. destruct (script_how s c n); naive_solver.
  - intros x Hh ->. by rewrite Hh.
Qed.

Lemma seq_verify s c e t σ n :
  ∃ res, seq s (verifyDBTrust c e t) (σ, n) = (res, (σ, S n)) ∧
    (res = None → holds_pair σ (e, t)) ∧
    (healthy s c → holds_pair σ (e, t) → res = None).
Proof.
  unfold verifyDBTrust, queryRaw. rewrite seq_bind.
  destruct (seq_query s c select_trust σ n) as (res & -> & H1 & H2).
  unfold holds_pair, select_trust in *.
  destruct res as [[[e' t']|]|err]; rewrite ?seq_ret.
  - specialize (H1 _ eq_refl). destruct (table_exists _ _) eqn:Ht; simplify_eq.
    do 2 case_bool_decide; simpl; rewrite seq_ret; eexists; (split; [done|]); naive_solver.
  - specialize (H1 _ eq_refl). destruct (table_exists _ _) eqn:Ht; simplify_eq.
    eexists. split; [done|]. split; [done|]. intros _ [_ ?]. congruence.
  - eexists. split; [done|]. split; [done|]. intros Hh [Ht Hp]. rewrite Ht, Hp in H2.
    by specialize (H2 _ Hh eq_refl).
Qed.

(** ** A store that cannot prove the anchored pair is closed *)

Lemma seq_fenced_query_closed s a {X} (q : database → option X) σ n :
  (∀ r, anchor_now σ = Some r → PendingEpoch r ≠ None ∨ ¬ holds_pair σ (pair_of r)) →
  ∃ e n', seq s (fenced_query a q) (σ, n) = (Err e, (σ, n')).
Proof.
  intros Hbad. unfold fenced_query. rewrite seq_bind.
  destruct (seq_anchor_get s a Caller σ n) as (res & -> & H1 & _).
  destruct res as [[r rv]|e]; [|eauto]. destruct (H1 _ _ eq_refl) as (Hn & _ & _).
  case_bool_decide as Hp; [eauto|].
  unfold try_bind, queryRaw. rewrite seq_bind.
  destruct (seq_query s Caller q σ (S n)) as (res2 & -> & _).
  destruct res2 as [x|e]; [|eauto]. unfold guard_bind. rewrite seq_bind.
  destruct (seq_verify s Caller (Epoch r) (Token r) σ (S (S n))) as (res3 & -> & H3 & _).
  destruct res3 as [e|]; [eauto|]. exfalso.
  destruct (Hbad r Hn) as [?|Hno]; [done|]. apply Hno. by apply H3.
Qed.

Lemma seq_fenced_execute_closed s a req k σ n :
  (∀ r, anchor_now σ = Some r → PendingEpoch r ≠ None ∨ ¬ holds_pair σ (pair_of r)) →
  ∃ e n', seq s (fenced_execute a req k) (σ, n) = ((zero_response, Some e), (σ, n')).
Proof.
  intros Hbad. unfold fenced_execute. rewrite seq_bind, seq_call. simpl.
  destruct (answered _ tt) as [[]|e]; [|eauto]. rewrite seq_bind.
  destruct (seq_anchor_get s a Fenced σ (S n)) as (res & -> & H1 & _).
  destruct res as [[r rv]|e]; [|eauto]. destruct (H1 _ _ eq_refl) as (Hn & _ & _).
  case_bool_decide as Hp; [eauto|]. rewrite seq_bind.
  destruct (seq_verify s Fenced (Epoch r) (Token r) σ (S (S n))) as (res3 & -> & H3 & _).
  destruct res3 as [e|]; [eauto|]. exfalso.
  destruct (Hbad r Hn) as [?|Hno]; [done|]. apply Hno. by apply H3.
Qed.

Lemma shared_local σ p r w : shared σ (set_local p r w σ).
Proof. done. Qed.

Ltac closed_now := do 3 eexists; split; [reflexivity|]; done.

(** [C31] Closed by default: while the store has not published its anchored
    pair, or the anchor carries a reservation, or the database does not hold
    the pair the anchor publishes (a restored or foreign snapshot), every
    query and every write fails, whatever the services answer; nothing the
    other nodes can see is changed, no reservation is left behind and the
    trust lock is free again. *)
Theorem unproved_store_is_closed s d X (q : database → option X) req k σ n :
  trustRequired d = true →
  published σ = None ∨
    (∀ r, anchor_now σ = Some r → PendingEpoch r ≠ None ∨ ¬ holds_pair σ (pair_of r)) →
  (∃ e σ' n', seq s (QueryContext d q) (σ, n) = (Err e, (σ', n')) ∧ shared σ σ' ∧
     readers_held σ' = readers_held σ) ∧
  (∃ e σ' n', seq s (execute d req k) (σ, n) = ((zero_response, Some e), (σ', n')) ∧ shared σ σ' ∧
     writer_held σ' = writer_held σ).
Proof.
  intros Hd Hbad. unfold QueryContext, execute. rewrite !seq_bind, !seq_call. simpl.
  destruct (published σ) as [a|] eqn:Hpub; [|rewrite Hd; split; closed_now].
  destruct Hbad as [?|Hbad]; [done|]. rewrite !seq_bind, !seq_call. simpl. unfold answered; simpl.
  split.
  - destruct (script_how s Caller (S n)); simpl; rewrite ?seq_ret; try closed_now.
    rewrite seq_bind. edestruct seq_fenced_query_closed as (err & n' & ->); [exact Hbad|].
    rewrite seq_bind, seq_call. simpl. rewrite seq_ret. do 3 eexists. split; [done|].
    split; [done|]. simpl. lia.
  - destruct (script_how s Caller (S n)); simpl; rewrite ?seq_ret; try closed_now.
    rewrite seq_bind. edestruct seq_fenced_execute_closed as (err & n' & ->); [exact Hbad|].
    rewrite seq_bind, seq_call. simpl. rewrite seq_ret. do 3 eexists. split; [done|].
    split; [done|]. simpl. lia.
Qed.

(** ** A fenced write is a transaction *)

Lemma validate_frame a r r' :
  validate a r = None → same_frame r r' → (0 ≤ Epoch r')%Z → validUUID (Token r') = true →
  (match PendingEpoch r' with
   | Some e => e = wrap64 (Epoch r' + 1) ∧ validUUID (PendingID r') = true
   | None => PendingID r' = ""
   end) →
  validate a r' = None.
Proof.
  unfold validate, validateStructure. intros Hv (Hf & Hc & Hs & Hg & Ht & Hr) He Hu Hp.
  rewrite Hf, Hc, Hs, Hg, Ht, Hr, Hu, (bool_decide_eq_false_2 (Epoch r' < 0)%Z) by lia.
  assert (Hpend : match PendingEpoch r' with
            | Some e => bool_decide (e = wrap64 (Epoch r' + 1)) && validUUID (PendingID r')
            | None => bool_decide (PendingID r' = "") end = true).
  { destruct (PendingEpoch r'); [destruct Hp as [-> ->]|rewrite Hp]; by rewrite bool_decide_eq_true_2. }
  rewrite Hpend. destruct (negb (bool_decide (Format r = "1"))); [done|]. simpl in *.
  destruct (bool_decide (ClusterID r = "")); [done|]. simpl in *.
  destruct (bool_decide (StorageID r = "")); [done|]. simpl in *.
  destruct (bool_decide (Epoch r < 0)%Z); [done|]. simpl in *.
  destruct (validUUID (Token r)); [|done]. simpl in *.
  destruct (negb (match PendingEpoch r with Some _ => _ | None => _ end)); [done|].
  destruct (Transition_ r) as [t|]; [destruct (_ || _); [done|]; by destruct (_ || _)|].
  destruct (Receipt_ r) as [c|]; [|done]. by destruct (negb _).
Qed.

Lemma validate_facts a r :
  validate a r = None →
  (0 ≤ Epoch r)%Z ∧ validUUID (Token r) = true ∧ (PendingEpoch r = None → PendingID r = "").
Proof.
  unfold validate, validateStructure. intros Hv.
  destruct (negb (bool_decide (Format r = "1"))); [done|]. simpl in *.
  destruct (bool_decide (ClusterID r = "")); [done|]. simpl in *.
  destruct (bool_decide (StorageID r = "")); [done|]. simpl in *.
  case_bool_decide; [done|]. simpl in *.
  destruct (validUUID (Token r)); [|done]. simpl in *. split_and!; [lia|done|].
  intros Hp. rewrite Hp in Hv. case_bool_decide; [done|]. done.
Qed.

(** Only the anchor differs, and it now is [next]. *)
Record moved (σ σ' : services) (next : trustAnchorRecord) : Prop := {
  mv_now : anchor_now σ' = Some next;
  mv_db : db σ' = db σ;
  mv_log : log σ' = log σ;
  mv_late : late_cas σ' = late_cas σ ∧ late_exec σ' = late_exec σ ∧
    late_migrations σ' = late_migrations σ;
  mv_local : published σ' = published σ ∧ readers_held σ' = readers_held σ ∧
    writer_held σ' = writer_held σ;
}.

Lemma seq_anchor_cas s a c σ n next :
  healthy s c → validate a next = None →
  ∃ σ', seq s (anchor_cas a c (rv_name (current_version σ)) next) (σ, n) =
          (Ok (rv_name (current_version σ')), (σ', S n)) ∧ moved σ σ' next.
Proof.
  intros Hh Hv. unfold anchor_cas. rewrite Hv, seq_bind, seq_call. simpl. unfold serve_cas, apply_cas.
  simpl. rewrite Hh.
  destruct (PendingEpoch next); rewrite bool_decide_eq_true_2 by done; simpl; rewrite seq_ret;
    eexists; (split; [done|]); split; try done; apply last_snoc.
Qed.

Record ready_to_write (s : script) (σ : services) (a : trustAnchor) (r : trustAnchorRecord)
    (req : ExecuteRequest) : Prop := {
  rw_published : published σ = Some a;
  rw_now : anchor_now σ = Some r;
  rw_settled : PendingEpoch r = None;
  rw_pair : holds_pair σ (pair_of r);
  rw_valid : validate a r = None;
  rw_epoch : (Epoch r < max_int64)%Z;
  rw_uuid n : validUUID (script_uuid s n) = true;
  rw_fresh n : log σ !! script_uuid s n = None;
  rw_request id : ValidateExecuteRequest (fenced_request req id r) = None;
  rw_neutral : Forall neutral (normal_statements req);
}.

(** The receipt of the statements on their own. *)
Definition plain_receipt (req : ExecuteRequest) (rs : list StatementResult) : ExecuteResponse :=
  mkExecuteResponse MutationCommitted "" (sum_rows rs)
    (match last rs with Some r => sr_LastInsertID r | None => 0%Z end)
    (if req_WantRows req || existsb WantRows (normal_statements req) then rs else []).

Definition with_trust (p : Z * string) (d : database) : database :=
  Database (sqlite_master d) (Some p) (ternal_schema d) (data d).

Lemma epoch_next r : (0 ≤ Epoch r < max_int64)%Z → wrap64 (Epoch r + 1) = (Epoch r + 1)%Z.
Proof. intros H. apply wrap64_id. unfold in_int64, min_int64, max_int64 in *. lia. Qed.

(** The database after the caller's statements and the tail. *)
Lemma fenced_statements_run req id r d :
  Forall neutral (normal_statements req) →
  table_exists "trust_state" d = true → trust_state d = Some (pair_of r) →
  run_statements (all_statements (fenced_request req id r)) d =
    match run_statements (normal_statements req) d with
    | Some (d1, rs) =>
        Some (with_trust (wrap64 (Epoch r + 1), id) d1, rs ++ [mkStatementResult 1 0 1])
    | None => None
    end.
Proof.
  intros Hneu Ht Hp. unfold fenced_request, all_statements. simpl. rewrite run_statements_app.
  destruct (run_statements (normal_statements req) d) as [[d1 rs]|] eqn:E; [|done].
  apply (neutral_run _ _ _ _ Hneu) in E as [E1 E2]. simpl. unfold run_statement. simpl.
  unfold update_trust. rewrite E2, Ht, E1, Hp. simpl. by rewrite bool_decide_eq_true_2.
Qed.

Lemma pending_valid a r id :
  validate a r = None → PendingEpoch r = None → validUUID id = true →
  validate a (reserve r (wrap64 (Epoch r + 1)) id) = None.
Proof. intros Hv Hp Hi. destruct (validate_facts a r Hv) as (? & ? & _). by eapply validate_frame. Qed.

Lemma final_valid a r id :
  validate a r = None → (Epoch r < max_int64)%Z → validUUID id = true →
  validate a (finalize r (wrap64 (Epoch r + 1)) id) = None.
Proof.
  intros Hv He Hi. destruct (validate_facts a r Hv) as (? & ? & _).
  eapply validate_frame; try done. simpl. rewrite epoch_next by lia. lia.
Qed.

Lemma clear_settled a r : validate a r = None → PendingEpoch r = None → clear r = r.
Proof.
  intros Hv Hp. destruct (validate_facts a r Hv) as (_ & _ & Hi). specialize (Hi Hp).
  destruct r; simpl in *. by subst.
Qed.

Lemma seq_fenced_execute s a r req σ n :
  ready_to_write s σ a r req → healthy s Fenced → normal_statements req ≠ [] →
  ∃ res σ' n', seq s (fenced_execute a req (length (normal_statements req))) (σ, n) = (res, (σ', n')) ∧
    writer_held σ' = writer_held σ ∧
    ((∃ e, res = (zero_response, Some e) ∧ σ' = σ ∧ script_how s Caller n ≠ Answered None) ∨
     match run_statements (normal_statements req) (db σ) with
     | Some (d1, rs) =>
         ∃ id, res = (plain_receipt req rs, None) ∧
           anchor_now σ' = Some (finalize r (wrap64 (Epoch r + 1)) id) ∧
           db σ' = with_trust (wrap64 (Epoch r + 1), id) d1 ∧ log σ' !! id = Some true
     | None =>
         ∃ e, res.2 = Some e ∧ Status res.1 = MutationRejected ∧
           anchor_now σ' = Some r ∧ db σ' = db σ
     end).
Proof.
  intros [H1 H2 H3 [H4 H4'] H5 H6 H7 H8 H9 H10] Hh Hne. unfold fenced_execute.
  rewrite seq_bind, seq_call. simpl. unfold answered; simpl.
  destruct (script_how s Caller n) as [note|e|e|e] eqn:Hc; simpl.
  2-4: do 3 eexists; (split; [reflexivity|]); split; [done|]; left; eexists; split_and!; try done; congruence.
  rewrite seq_bind. destruct (seq_anchor_get s a Fenced σ (S n)) as (res & -> & _ & Hg).
  rewrite (Hg _ Hh H2 H5). rewrite (bool_decide_eq_false_2 (PendingEpoch r ≠ None)) by (rewrite H3; intros Hx; by apply Hx).
  rewrite seq_bind. destruct (seq_verify s Fenced (Epoch r) (Token r) σ (S (S n))) as (res2 & -> & _ & Hv).
  rewrite (Hv Hh (conj H4 H4')). rewrite seq_bind, seq_call. simpl. rewrite H9.
  set (id := script_uuid s (S (S (S n)))). set (σ1 := set_ids _ _ _ σ).
  rewrite seq_bind. destruct (seq_anchor_cas s a Fenced σ1 (S (S (S (S n))))
    (reserve r (wrap64 (Epoch r + 1)) id)) as (σ2 & E2 & M2); [done|apply pending_valid; [done|done|apply H7]|].
  change (current_version σ) with (current_version σ1). rewrite E2.
  rewrite seq_bind, seq_call. simpl. unfold serve_execute. simpl. rewrite Hh.
  set (σ3 := spend id σ2).
  assert (Hlog3 : log σ3 !! id = None) by (simpl; rewrite (mv_log _ _ _ M2); apply H8).
  assert (Hdb3 : db σ3 = db σ) by apply (mv_db _ _ _ M2).
  assert (Hrun : run_statements (all_statements (fenced_request req id r)) (db σ3) =
    match run_statements (normal_statements req) (db σ) with
    | Some (d1, rs) => Some (with_trust (wrap64 (Epoch r + 1), id) d1, rs ++ [mkStatementResult 1 0 1])
    | None => None end).
  { rewrite Hdb3. by apply fenced_statements_run. }
  unfold receipt, apply_request. cbn [RequestID fenced_request]. rewrite Hlog3, Hrun.
  destruct (run_statements (normal_statements req) (db σ)) as [[d1 rs]|] eqn:Erun.
  - set (σ4 := set_db _ _ σ3).
    set (resp := mkExecuteResponse MutationCommitted _ _ _ _).
    assert (Hresp : resp_Statements resp = rs ++ [mkStatementResult 1 0 1]).
    { subst resp. unfold fenced_request, all_statements. simpl. rewrite existsb_app. simpl. by rewrite !orb_true_r. }
    assert (Hlen : length rs = length (normal_statements req)) by by eapply run_statements_length.
    unfold resolve_fence. rewrite (bool_decide_eq_true_2 (None = None)) by done.
    rewrite (bool_decide_eq_true_2 (Status resp = _)) by done. cbn [andb].
    rewrite seq_bind. change (current_version σ2) with (current_version σ4).
    destruct (seq_anchor_cas s a Fenced σ4 (S (S (S (S (S (S n))))))
      (finalize r (wrap64 (Epoch r + 1)) id)) as (σ5 & E5 & M5); [done|apply final_valid; [done|done|apply H7]|].
    rewrite E5, Hresp, length_app, bool_decide_eq_true_2 by
      (case_bool_decide; simpl; [by destruct (normal_statements req)|lia]).
    simpl. rewrite (bool_decide_eq_false_2 (_ = 0)) by (destruct (normal_statements req); simpl; [done|lia]).
    do 3 eexists. split; [reflexivity|]. split; [rewrite (proj2 (proj2 (mv_local _ _ _ M5))); simpl;
      rewrite (proj2 (proj2 (mv_local _ _ _ M2))); done|].
    right. exists id. split_and!.
    + f_equal. unfold project_receipt, plain_receipt. rewrite Hresp, <- Hlen, take_app_length.
      f_equal. rewrite lookup_app_l by (destruct rs; simpl in *; [by destruct (normal_statements req)|lia]).
      by rewrite last_lookup.
    + apply M5.
    + by rewrite (mv_db _ _ _ M5).
    + rewrite (mv_log _ _ _ M5). simpl. apply lookup_insert_eq.
  - set (σ4 := set_db _ _ σ3).
    unfold resolve_fence. simpl.
    rewrite seq_bind. destruct (seq_verify s Fenced (Epoch r) (Token r) σ4 (S (S (S (S (S (S n))))))) as (res4 & -> & _ & Hv4).
    rewrite Hv4; [|done|]. 2:{ unfold holds_pair, σ4. simpl. rewrite (mv_db _ _ _ M2). done. }
    rewrite seq_bind. change (current_version σ2) with (current_version σ4).
    assert (Hclear : clear r = r) by by eapply clear_settled.
    destruct (seq_anchor_cas s a Fenced σ4 (S (S (S (S (S (S (S n)))))))
      (clear r)) as (σ5 & E5 & M5); [done|by rewrite Hclear|].
    rewrite E5. do 3 eexists. split; [reflexivity|]. split; [rewrite (proj2 (proj2 (mv_local _ _ _ M5))); simpl;
      rewrite (proj2 (proj2 (mv_local _ _ _ M2))); done|].
    right. eexists. split_and!; try done.
    + rewrite (mv_now _ _ _ M5). by rewrite Hclear.
    + rewrite (mv_db _ _ _ M5). simpl. apply (mv_db _ _ _ M2).
Qed.

(** [C29] A fenced write is a transaction: with the store settled and the data
    node and the anchor answering, a write runs the caller's statements, all
    or none, and returns the receipt those statements alone would have given;
    the database then carries the next pair and the anchor publishes it, or
    nothing changed at all and the anchor is as before.  The caller's context
    may end at any time: either nothing was started, or the write completes.
    The trust lock is released on every path. *)
Theorem fenced_write_is_a_transaction s d a r req σ n :
  ready_to_write s σ a r req → healthy s Fenced → normal_statements req ≠ [] →
  ∃ res σ' n', seq s (execute d req (length (normal_statements req))) (σ, n) = (res, (σ', n')) ∧
    writer_held σ' = writer_held σ ∧
    ((∃ e m, res = (zero_response, Some e) ∧ shared σ σ' ∧ script_how s Caller m ≠ Answered None) ∨
     match run_statements (normal_statements req) (db σ) with
     | Some (d1, rs) =>
         ∃ id, res = (plain_receipt req rs, None) ∧
           anchor_now σ' = Some (finalize r (Epoch r + 1) id) ∧
           db σ' = with_trust ((Epoch r + 1)%Z, id) d1 ∧ log σ' !! id = Some true
     | None =>
         ∃ e, res.2 = Some e ∧ Status res.1 = MutationRejected ∧
           anchor_now σ' = Some r ∧ db σ' = db σ
     end).
Proof.
  intros Hr Hh Hne. unfold execute. rewrite seq_bind, seq_call. simpl.
  rewrite (rw_published _ _ _ _ _ Hr), seq_bind, seq_call. simpl. unfold answered; simpl.
  destruct (script_how s Caller (S n)) as [note|e|e|e] eqn:Hc; simpl.
  2-4: do 3 eexists; (split; [reflexivity|]); split; [done|]; left; do 2 eexists; split_and!; try done;
    rewrite Hc; done.
  rewrite seq_bind. set (σ1 := set_local _ _ _ σ).
  assert (Hr1 : ready_to_write s σ1 a r req) by by destruct Hr.
  destruct (seq_fenced_execute s a r req σ1 (S (S n)) Hr1 Hh Hne) as (res & σ2 & n2 & -> & Hw & Hres).
  rewrite seq_bind, seq_call. simpl. rewrite seq_ret.
  do 3 eexists. split; [reflexivity|]. split; [simpl; rewrite Hw; simpl; lia|].
  assert (He : wrap64 (Epoch r + 1) = (Epoch r + 1)%Z).
  { apply epoch_next. destruct (validate_facts a r (rw_valid _ _ _ _ _ Hr)).
    split; [done|apply (rw_epoch _ _ _ _ _ Hr)]. }
  rewrite He in Hres. destruct Hres as [(e & -> & -> & Hm)|Hres]; [left|right; exact Hres].
  do 2 eexists. split_and!; try done.
Qed.

End with_services.
