(* ===== verification/TrustSettle.v ===== *)
(** * Startup settles

    With the services answering, one turn of the settlement loop brings a node
    from any state a deployment can be found in - empty database, schema
    behind, a fence some node reserved and committed or had rejected, or
    already settled - to a settled anchor the database agrees with. *)

From S2P Require Export TrustProps.
Open Scope go_scope.

Section with_services.
Context {R : Recovery} {P : ServiceParams}.

(** ** The migration *)

Definition migrated (d : database) : Prop :=
  table_exists "ternal_schema" d = true ∧ ternal_schema d = [1%Z].

Definition legacy_names : list string :=
  ["hosts"; "policies"; "access_grants"; "devices"; "relay_access_grants"].

(** A database this binary can migrate: its own schema, or no table of the
    earlier program; rows of [ternal_schema] only if the table exists. *)
Definition migratable (d : database) : Prop :=
  (table_exists "ternal_schema" d = true ∧ (ternal_schema d = [] ∨ ternal_schema d = [1%Z])) ∨
  (table_exists "ternal_schema" d = false ∧ ternal_schema d = [] ∧ count_names legacy_names d = 0%Z).

(** Equal but for the existence of tables and the schema marker. *)
Definition same_rows (d d' : database) : Prop :=
  trust_state d' = trust_state d ∧ data d' = data d ∧
  table_exists "trust_state" d' = table_exists "trust_state" d.

Definition add_table (name : string) (d : database) : database :=
  Database ({[name]} ∪ sqlite_master d) (trust_state d) (ternal_schema d) (data d).

Lemma table_exists_add n m d : table_exists n (add_table m d) = bool_decide (n = m) || table_exists n d.
Proof.
  unfold table_exists. simpl. destruct (bool_decide (n = m)) eqn:E; bool_prop; simpl.
  - subst. apply bool_decide_eq_true. set_solver.
  - apply bool_decide_ext. set_solver.
Qed.

Lemma run_create_table n d :
  run_statement (create_table n) d = Some (add_table n d, mkStatementResult 0 0 0).
Proof. done. Qed.

Lemma run_create_index n d :
  table_exists n d = true → run_statement (create_index n) d = Some (d, mkStatementResult 0 0 0).
Proof. intros H. unfold run_statement, create_index. simpl. by rewrite H. Qed.

Definition created_tables : list string :=
  ["ternal_schema"; "hosts"; "policies"; "ssh_keys"; "access_requests"; "access_grants";
   "revoked_sessions"; "audit_events"; "manufacturing_tokens"; "manufacturing_batches"; "devices";
   "endpoint_discovery"; "relay_access_grants"; "authorized_keys_snapshots";
   "authorized_keys_snapshot_grants"].

Lemma run_migrations d :
  ternal_schema d = [] ∨ ternal_schema d = [1%Z] →
  ∃ d' rs, run_statements migrations d = Some (d', rs) ∧ migrated d' ∧ same_rows d d' ∧
    Forall (λ n, table_exists n d' = true) created_tables.
Proof.
  intros Hs. unfold migrations. cbn [run_statements].
  repeat first
    [ rewrite run_create_table; cbn [run_statements]
    | rewrite run_create_index by (rewrite ?table_exists_add; reflexivity); cbn [run_statements] ].
  set (d1 := add_table "authorized_keys_snapshot_grants" _).
  assert (Hm : table_exists "ternal_schema" d1 = true)
    by (unfold d1; rewrite !table_exists_add; reflexivity).
  assert (Hall : Forall (λ n, table_exists n d1 = true) created_tables).
  { unfold created_tables, d1. repeat (apply List.Forall_cons; [rewrite !table_exists_add; reflexivity|]).
    apply List.Forall_nil. }
  assert (Ht : table_exists "trust_state" d1 = table_exists "trust_state" d)
    by (unfold d1; rewrite !table_exists_add; reflexivity).
  unfold run_statement, insert_marker. simpl. rewrite Hm. simpl.
  change (ternal_schema d1) with (ternal_schema d).
  destruct Hs as [Hs|Hs]; rewrite Hs; simpl; do 2 eexists; (split; [reflexivity|]);
    unfold migrated, same_rows; simpl; split_and!; done.
Qed.

#[local] Opaque migrations.

(** ** Healthy runs of the reads *)

Lemma count_one name d : count_names [name] d = if table_exists name d then 1%Z else 0%Z.
Proof.
  unfold count_names, table_exists. simpl. rewrite union_empty_r_L.
  case_bool_decide as H.
  - replace (sqlite_master d ∩ {[name]}) with ({[name]} : gset string) by set_solver. by rewrite size_singleton.
  - replace (sqlite_master d ∩ {[name]}) with (∅ : gset string) by set_solver. by rewrite size_empty.
Qed.

Section healthy.
Context (s : script) (Hs : healthy s Caller).

Lemma hseq_query {X} (q : database → option X) σ n x :
  q (db σ) = Some x → seq s (queryRaw Caller q) (σ, n) = (Ok x, (σ, S n)).
Proof.
  intros Hq. unfold queryRaw. destruct (seq_query s Caller q σ n) as (res & -> & _ & H).
  by rewrite (H x Hs Hq).
Qed.

Lemma hseq_verify e t σ n :
  holds_pair σ (e, t) → seq s (verifyDBTrust Caller e t) (σ, n) = (None, (σ, S n)).
Proof. intros H. destruct (seq_verify s Caller e t σ n) as (res & -> & _ & H'). by rewrite H'. Qed.

Lemma hseq_verify_no e t σ n :
  ¬ holds_pair σ (e, t) → ∃ err, seq s (verifyDBTrust Caller e t) (σ, n) = (Some err, (σ, S n)).
Proof.
  intros H. destruct (seq_verify s Caller e t σ n) as (res & -> & H' & _).
  destruct res; [eauto|]. destruct H. by apply H'.
Qed.

Lemma hseq_get a σ n r :
  anchor_now σ = Some r → validate a r = None →
  seq s (anchor_get a Caller) (σ, n) = (Ok (r, rv_name (current_version σ)), (σ, S n)).
Proof.
  intros Hn Hv. destruct (seq_anchor_get s a Caller σ n) as (res & -> & _ & H). by rewrite (H r).
Qed.

Lemma hseq_tableExists name σ n :
  seq s (tableExists name) (σ, n) = (Ok (table_exists name (db σ)), (σ, S n)).
Proof.
  unfold tableExists, countTables, try_bind. rewrite seq_bind. erewrite hseq_query by reflexivity.
  rewrite seq_ret, count_one. by destruct (table_exists name (db σ)).
Qed.

Lemma hseq_marker σ n :
  ∃ n', seq s schemaMarker (σ, n) =
    (Ok (if table_exists "ternal_schema" (db σ)
         then (Z.of_nat (length (ternal_schema (db σ))),
               match ternal_schema (db σ) with [] => 0%Z | v :: l => foldr Z.max v l end)
         else (0, 0)%Z), (σ, n')) ∧ n' ≤ 2 + n.
Proof.
  unfold schemaMarker, try_bind. rewrite seq_bind, hseq_tableExists.
  destruct (table_exists "ternal_schema" (db σ)) eqn:E; simpl; [|eexists; split; [done|lia]].
  erewrite hseq_query; [eexists; split; [done|lia]|]. unfold select_marker. by rewrite E.
Qed.

Lemma hseq_pending σ n :
  migratable (db σ) →
  ∃ n', seq s migrationPending (σ, n) = (Ok (negb (bool_decide (ternal_schema (db σ) = [1%Z]))), (σ, n')) ∧
    n' ≤ 2 + n.
Proof.
  intros Hm. unfold migrationPending, try_bind. rewrite seq_bind.
  destruct (hseq_marker σ n) as (n' & -> & Hn'). rewrite seq_ret. exists n'. split; [|done]. do 3 f_equal.
  destruct Hm as [[-> [->| ->]]|(-> & -> & _)]; reflexivity.
Qed.

Lemma hseq_requireMigrated σ n :
  migrated (db σ) → ∃ n', seq s requireMigrated (σ, n) = (None, (σ, n')).
Proof.
  intros [H1 H2]. unfold requireMigrated, need_bind. rewrite seq_bind.
  destruct (hseq_marker σ n) as (n' & -> & _). rewrite H1, H2. by exists n'.
Qed.

(** Only the database differs, in tables and marker. *)
Record migrated_to (σ σ' : services) : Prop := {
  mt_migrated : migrated (db σ');
  mt_rows : same_rows (db σ) (db σ');
  mt_history : history σ' = history σ;
  mt_log : log σ' = log σ;
  mt_local : published σ' = published σ;
}.

Lemma hseq_migrate k σ n :
  migratable (db σ) →
  ∃ σ' n', seq s (migrate (S k)) (σ, n) = (None, (σ', n')) ∧ migrated_to σ σ'.
Proof.
  intros Hm. unfold migrate, wrap_error, countTables, need_bind.
  rewrite !seq_bind. erewrite hseq_query by reflexivity. cbn beta iota. rewrite seq_ret. cbn beta iota.
  rewrite !seq_bind. erewrite hseq_query by reflexivity. cbn beta iota. rewrite seq_ret. cbn beta iota.
  rewrite count_one.
  assert (bool_decide ((if table_exists "ternal_schema" (db σ) then 1%Z else 0%Z) = 0%Z) &&
          negb (bool_decide (count_names ["hosts"; "policies"; "access_grants"; "devices"; "relay_access_grants"] (db σ) = 0%Z)) = false) as ->.
  { destruct Hm as [[-> _]|(-> & _ & Hc)]; [done|]. fold legacy_names. by rewrite Hc. }
  unfold Migrate. simpl. rewrite !seq_bind, seq_call. simpl. unfold serve_migrate. simpl. rewrite Hs.
  destruct (run_migrations (db σ)) as (d' & rs & Hrun & Hmig & Hsame & _);
    [destruct Hm as [[_ ?]|(_ & ? & _)]; auto|].
  unfold apply_migration. rewrite Hrun. cbn beta iota. rewrite seq_ret. cbn beta iota.
  set (σ1 := set_db _ _ σ). destruct (hseq_requireMigrated σ1 (S (S (S n)))) as [n' ->]; [done|].
  do 2 eexists. split; [reflexivity|]. by split.
Qed.

Lemma holds_pair_same σ σ' p : same_rows (db σ) (db σ') → holds_pair σ p → holds_pair σ' p.
Proof. intros (H1 & _ & H3) [H4 H5]. split; congruence. Qed.

Lemma hseq_catchUp k σ n :
  migratable (db σ) →
  ∃ σ' n', seq s (catchUpMigration (S k)) (σ, n) = (None, (σ', n')) ∧ migrated_to σ σ'.
Proof.
  intros Hm. unfold catchUpMigration, need_bind. rewrite seq_bind.
  destruct (hseq_pending σ n Hm) as (n1 & -> & _). case_bool_decide as Hone; simpl.
  - destruct (hseq_requireMigrated σ n1) as [n2 ->].
    { split; [|done]. destruct Hm as [[? _]|(_ & ? & _)]; congruence. }
    exists σ, n2. split; [done|]. split; try done.
    split; [|done]. destruct Hm as [[? _]|(_ & ? & _)]; congruence.
  - unfold check_bind. rewrite seq_bind. destruct (hseq_migrate k σ n1 Hm) as (σ1 & n2 & -> & M).
    destruct (hseq_requireMigrated σ1 n2) as [n3 ->]; [apply M|]. eauto.
Qed.


(** ** Healthy runs of the fence *)

Context (a : trustAnchor).
Context (Hvalidate : ∀ req, ValidateExecuteRequest req = None).

(** The anchor publishes [r'] and the database carries its pair; the rows of
    the application are those of [σ]. *)
Record settled_as (σ σ' : services) (r' : trustAnchorRecord) : Prop := {
  sa_now : anchor_now σ' = Some r';
  sa_settled : PendingEpoch r' = None;
  sa_pair : holds_pair σ' (pair_of r');
  sa_data : data (db σ') = data (db σ);
}.

Lemma pending_facts r e :
  validate a r = None → PendingEpoch r = Some e →
  (0 ≤ Epoch r)%Z ∧ e = wrap64 (Epoch r + 1) ∧ validUUID (PendingID r) = true.
Proof.
  unfold validate, validateStructure. intros Hv Hp. rewrite Hp in Hv.
  destruct (negb (bool_decide (Format r = "1"))); [done|]. simpl in *.
  destruct (bool_decide (ClusterID r = "")); [done|]. simpl in *.
  destruct (bool_decide (StorageID r = "")); [done|]. simpl in *.
  case_bool_decide; [done|]. simpl in *.
  destruct (validUUID (Token r)); [|done]. simpl in *.
  case_bool_decide; simpl in *; [|done]. destruct (validUUID (PendingID r)); [|done]. split; [lia|done].
Qed.

Lemma finalized_valid r e :
  validate a r = None → PendingEpoch r = Some e → (Epoch r < max_int64)%Z →
  validate a (finalize r e (PendingID r)) = None.
Proof.
  intros Hv Hp He. destruct (pending_facts r e Hv Hp) as (H0 & -> & Hi).
  eapply validate_frame; try done. simpl. rewrite epoch_next by lia. lia.
Qed.

Lemma hseq_cas σ n next :
  validate a next = None →
  ∃ σ', seq s (anchor_cas a Caller (rv_name (current_version σ)) next) (σ, n) =
          (Ok (rv_name (current_version σ')), (σ', S n)) ∧ moved σ σ' next.
Proof. intros Hv. by apply seq_anchor_cas. Qed.

Lemma hseq_finalize r e σ n :
  anchor_now σ = Some r → validate a r = None → (Epoch r < max_int64)%Z → PendingEpoch r = Some e →
  holds_pair σ (e, PendingID r) → migrated (db σ) →
  ∃ σ' n', seq s (finalizeTrustFence a r) (σ, n) = (None, (σ', n')) ∧
    moved σ σ' (finalize r e (PendingID r)).
Proof.
  intros Hn Hv He Hp Ht Hm. unfold finalizeTrustFence, need_bind. rewrite seq_bind, (hseq_get _ _ _ _ Hn Hv).
  cbn beta iota. rewrite Hp. rewrite !bool_decide_eq_true_2 by done. cbn [negb orb].
  unfold check_bind. rewrite seq_bind, hseq_verify by done. cbn beta iota. rewrite seq_bind.
  destruct (hseq_requireMigrated σ (S (S n)) Hm) as [n1 ->]. rewrite seq_bind.
  destruct (hseq_cas σ n1 (finalize r e (PendingID r))) as (σ' & -> & M); [by apply finalized_valid|].
  eauto.
Qed.

Lemma moved_settled σ σ0 σ' r e :
  moved σ σ' (finalize r e (PendingID r)) → holds_pair σ (e, PendingID r) → data (db σ) = data (db σ0) →
  settled_as σ0 σ' (finalize r e (PendingID r)).
Proof.
  intros M [H1 H2] Hd. split; [apply M|done| |by rewrite (mv_db _ _ _ M)].
  split; by rewrite (mv_db _ _ _ M).
Qed.

Lemma hseq_converge k r e σ n :
  anchor_now σ = Some r → validate a r = None → (Epoch r < max_int64)%Z → PendingEpoch r = Some e →
  holds_pair σ (e, PendingID r) → migratable (db σ) →
  ∃ σ' n', seq s (convergeFence (S k) a r) (σ, n) = (None, (σ', n')) ∧
    settled_as σ σ' (finalize r e (PendingID r)) ∧ migrated (db σ').
Proof.
  intros Hn Hv He Hp Ht Hm. unfold convergeFence, check_bind. rewrite seq_bind.
  destruct (hseq_catchUp k σ n Hm) as (σ1 & n1 & -> & [M1 M2 M3 M4 M5]).
  assert (Ht1 : holds_pair σ1 (e, PendingID r)) by by eapply holds_pair_same.
  destruct (hseq_finalize r e σ1 n1) as (σ2 & n2 & -> & M); try done.
  { unfold anchor_now in *. by rewrite M3. }
  do 2 eexists. split; [done|]. split; [|by rewrite (mv_db _ _ _ M)].
  eapply moved_settled; [done..|]. apply M2.
Qed.

(** A request of the startup code commits. *)
Lemma hseq_execRaw req σ n d rs :
  log σ !! RequestID req = None → run_statements (all_statements req) (db σ) = Some (d, rs) →
  ∃ r, seq s (execRaw Caller req) (σ, n) =
    ((r, None), (set_db d (<[RequestID req := true]> (log σ)) (spend (RequestID req) σ), S n)).
Proof.
  intros Hl Hr. unfold execRaw. rewrite seq_bind, seq_call. simpl. unfold serve_execute. simpl. rewrite Hs.
  unfold receipt, apply_request. simpl. rewrite Hl, Hr. eexists. done.
Qed.

Lemma hseq_complete r e σ n :
  anchor_now σ = Some r → validate a r = None → (Epoch r < max_int64)%Z → PendingEpoch r = Some e →
  holds_pair σ (pair_of r) → log σ !! PendingID r = None → migrated (db σ) →
  ∃ σ' n', seq s (completeMigrationFence a r) (σ, n) = (None, (σ', n')) ∧
    settled_as σ σ' (finalize r e (PendingID r)) ∧ migrated (db σ').
Proof.
  intros Hn Hv He Hp [Ht Ht'] Hl Hm. unfold completeMigrationFence. rewrite Hp, Hvalidate, seq_bind.
  set (req := migration_request (PendingID r) e (pair_of r)).
  set (d := with_trust (e, PendingID r) (db σ)).
  destruct (hseq_execRaw req σ n d [mkStatementResult 1 0 0]) as [resp ->]; [done| |].
  { unfold req. simpl. unfold run_statement. simpl. unfold update_trust. rewrite Ht, Ht'. simpl.
    by rewrite bool_decide_eq_true_2. }
  cbn beta iota. cbn [snd]. set (σ1 := set_db _ _ _).
  destruct (hseq_finalize r e σ1 (S n)) as (σ2 & n2 & -> & M); try done.
  do 2 eexists. split; [done|]. split; [|by rewrite (mv_db _ _ _ M)].
  by eapply moved_settled.
Qed.

(** The trust row exists with the record's pair, or is created. *)
Lemma hseq_prepare r σ n :
  log σ !! script_uuid s (S n) = None →
  holds_pair σ (pair_of r) ∨ not_bootstrapped σ r →
  ∃ σ' n', seq s (prepareMigrationTrustState r) (σ, n) = (None, (σ', n')) ∧
    holds_pair σ' (pair_of r) ∧ data (db σ') = data (db σ) ∧ history σ' = history σ ∧
    ternal_schema (db σ') = ternal_schema (db σ) ∧
    sqlite_master (db σ') = {["trust_state"]} ∪ sqlite_master (db σ) ∧
    (∀ id, id ≠ script_uuid s (S n) → log σ' !! id = log σ !! id).
Proof.
  intros Hl Ht. unfold prepareMigrationTrustState, trustStateExists, need_bind.
  rewrite seq_bind, hseq_tableExists. cbn beta iota. destruct Ht as [[Ht Ht']|(Ht & Ht' & Hb)].
  - rewrite Ht. rewrite hseq_verify by done. do 2 eexists. split; [done|].
    split_and!; try done. unfold table_exists in Ht. bool_prop. set_solver.
  - rewrite Ht, Hb. cbn [negb]. rewrite seq_bind, seq_call. simpl. rewrite Hvalidate, seq_bind.
    set (id := script_uuid s (S n)). set (σ1 := set_ids _ _ _ σ).
    set (d := Database ({["trust_state"]} ∪ sqlite_master (db σ)) (Some (pair_of r)) (ternal_schema (db σ)) (data (db σ))).
    assert (Hd : table_exists "trust_state" d = true)
      by (unfold table_exists; apply bool_decide_eq_true; simpl; set_solver).
    destruct (hseq_execRaw (bootstrap_request id (pair_of r)) σ1 (S (S n)) d
      [mkStatementResult 0 0 0; mkStatementResult 1 0 0]) as [resp ->]; [apply Hl| |].
    { simpl. unfold run_statement. simpl. rewrite Ht. simpl.
      change (table_exists "trust_state" _) with (table_exists "trust_state" d). rewrite Hd. simpl.
      by rewrite Ht'. }
    cbn beta iota. cbn [snd]. rewrite hseq_verify by done.
    do 2 eexists. split; [done|]. split_and!; try done.
    intros id' Hid'. simpl. by rewrite lookup_insert_ne.
Qed.

Lemma migratable_prepared d d' :
  ternal_schema d' = ternal_schema d → sqlite_master d' = {["trust_state"]} ∪ sqlite_master d →
  migratable d → migratable d'.
Proof.
  intros E1 E2. unfold migratable, count_names, table_exists. rewrite E1, E2.
  assert (bool_decide ("ternal_schema" ∈ ({["trust_state"]} ∪ sqlite_master d : gset string)) =
          bool_decide ("ternal_schema" ∈ sqlite_master d)) as -> by (apply bool_decide_ext; set_solver).
  replace (({["trust_state"]} ∪ sqlite_master d) ∩ list_to_set legacy_names)
    with (sqlite_master d ∩ list_to_set legacy_names : gset string); [done|].
  unfold legacy_names. simpl. set_solver.
Qed.

Lemma hseq_finish k r e σ n :
  anchor_now σ = Some r → validate a r = None → (Epoch r < max_int64)%Z → PendingEpoch r = Some e →
  log σ !! script_uuid s (2 + n) = None → PendingID r ≠ script_uuid s (2 + n) →
  log σ !! PendingID r = None →
  ¬ holds_pair σ (e, PendingID r) →
  holds_pair σ (pair_of r) ∨ not_bootstrapped σ r → migratable (db σ) →
  ∃ σ' n', seq s (finishMigrationFence (S k) a r) (σ, n) = (None, (σ', n')) ∧
    settled_as σ σ' (finalize r e (PendingID r)) ∧ migrated (db σ').
Proof.
  intros Hn Hv He Hp Hl Hid Hlog Hno Ht Hm. unfold finishMigrationFence. rewrite Hp, seq_bind.
  destruct (hseq_verify_no _ _ _ n Hno) as [err ->]. cbn beta iota.
  unfold check_bind. rewrite seq_bind.
  destruct (hseq_prepare r σ (S n) Hl Ht) as (σ1 & n1 & -> & Hp1 & Hd1 & Hh1 & Hs1 & Hm1 & Hl1).
  cbn beta iota. rewrite seq_bind.
  destruct (hseq_migrate k σ1 n1) as (σ2 & n2 & -> & [M1 M2 M3 M4 M5]); [by eapply migratable_prepared|].
  cbn beta iota.
  destruct (hseq_complete r e σ2 n2) as (σ3 & n3 & -> & [S1 S2 S3 S4] & Mig); try done.
  - unfold anchor_now in *. by rewrite M3, Hh1.
  - by eapply holds_pair_same.
  - rewrite M4, Hl1, Hlog; done.
  - do 2 eexists. split; [done|]. split; [|done]. split; try done.
    rewrite S4. destruct M2 as (_ & -> & _). done.
Qed.

Lemma hseq_begin r σ n :
  anchor_now σ = Some r → validate a r = None → PendingEpoch r = None → Bootstrap r = true →
  (∀ m, m < 3 + n → validUUID (script_uuid s m) = true) →
  holds_pair σ (pair_of r) ∨ not_bootstrapped σ r →
  ∃ id st σ' n', seq s (beginMigrationFence a r (rv_name (current_version σ)) zero_startup) (σ, n) =
      ((st, Ok (reserve r (wrap64 (Epoch r + 1)) id)), (σ', n')) ∧
    moved σ σ' (reserve r (wrap64 (Epoch r + 1)) id) ∧
    (∃ m, id = script_uuid s m ∧ m < n' ∧ n' ≤ 4 + n).
Proof.
  intros Hn Hv Hp Hb Huuid Ht. unfold beginMigrationFence.
  rewrite (bool_decide_eq_false_2 (PendingEpoch r ≠ None)) by (rewrite Hp; intros Hx; by apply Hx).
  rewrite Hb. cbn [negb]. rewrite seq_bind. unfold trustStateExists. rewrite hseq_tableExists. cbn beta iota.
  assert (Hver : ∃ n1, seq s (if table_exists "trust_state" (db σ)
            then verifyDBTrust Caller (Epoch r) (Token r) else Ret None) (σ, S n) = (None, (σ, n1)) ∧ S n ≤ n1 ≤ 2 + n).
  { destruct Ht as [[Ht Ht']|(Ht & _)]; rewrite Ht.
    - rewrite hseq_verify by done. eexists. split; [done|lia].
    - eexists. split; [done|lia]. }
  destruct Hver as (n1 & Hver & Hn1). rewrite seq_bind, Hver. cbn beta iota.
  rewrite (bool_decide_eq_true_2 (attempted zero_startup = "")) by done.
  rewrite seq_bind, seq_call. simpl. rewrite Hvalidate, seq_bind.
  set (σ1 := set_ids _ _ _ σ). change (current_version σ) with (current_version σ1).
  destruct (hseq_cas σ1 (S n1) (reserve r (wrap64 (Epoch r + 1)) (script_uuid s n1))) as (σ2 & -> & [M1 M2 M3 M4 M5]);
    [apply pending_valid; [done|done|apply Huuid; lia]|].
  cbn beta iota. rewrite seq_ret. do 4 eexists. split; [reflexivity|].
  split; [by split|]. exists n1. split_and!; [done|lia|lia].
Qed.

(** The states a node may start from. *)
Definition startable (σ : services) (r : trustAnchorRecord) : Prop :=
  match PendingEpoch r with
  | None => holds_pair σ (pair_of r) ∨ (not_bootstrapped σ r ∧ ternal_schema (db σ) = [])
  | Some e => holds_pair σ (e, PendingID r) ∨
      (holds_pair σ (pair_of r) ∧ log σ !! PendingID r = Some false)
  end.

(** The uuids of the next calls are well formed, distinct and new. *)
Record fresh_uuids (σ : services) (n : nat) : Prop := {
  fu_valid m : m < 32 + n → validUUID (script_uuid s m) = true;
  fu_new m : m < 32 + n → log σ !! script_uuid s m = None;
  fu_distinct m m' : m < m' → m' < 32 + n → script_uuid s m ≠ script_uuid s m';
}.

Lemma hseq_finishStartup r σ n :
  anchor_now σ = Some r → validate a r = None → PendingEpoch r = None → holds_pair σ (pair_of r) →
  ∃ n', seq s (finishTrustStartup a) (σ, n) = (None, (σ, n')).
Proof.
  intros Hn Hv Hp Ht. unfold finishTrustStartup, need_bind. rewrite seq_bind, (hseq_get _ _ _ _ Hn Hv).
  cbn beta iota. rewrite (bool_decide_eq_false_2 (PendingEpoch r ≠ None)) by (rewrite Hp; intros Hx; by apply Hx).
  rewrite hseq_verify by done. eauto.
Qed.

Lemma clear_valid r : validate a r = None → validate a (clear r) = None.
Proof. intros Hv. destruct (validate_facts a r Hv) as (? & ? & _). by eapply validate_frame. Qed.

Lemma hseq_recover r e σ n :
  anchor_now σ = Some r → validate a r = None → PendingEpoch r = Some e →
  holds_pair σ (pair_of r) → log σ !! PendingID r = Some false →
  ∃ σ' n', seq s (recoverPendingTrust a r (rv_name (current_version σ))) (σ, n) = (None, (σ', n')) ∧
    settled_as σ σ' (clear r).
Proof.
  intros Hn Hv Hp Ht Hl. unfold recoverPendingTrust. rewrite Hp, seq_bind, seq_call. simpl.
  unfold answered. simpl. rewrite Hl, Hs. cbn beta iota.
  rewrite seq_bind, (bool_decide_eq_false_2 (MutationRejected = MutationCommitted)), seq_ret by done.
  cbn beta iota. rewrite bool_decide_eq_true_2 by done.
  rewrite seq_bind, hseq_verify by done. cbn beta iota. rewrite seq_bind.
  destruct (hseq_cas σ (S (S n)) (clear r)) as (σ' & -> & M); [by apply clear_valid|].
  do 2 eexists. split; [reflexivity|]. destruct Ht as [Ht Ht'].
  split; [apply M|done|split; by rewrite (mv_db _ _ _ M)|by rewrite (mv_db _ _ _ M)].
Qed.

Lemma hseq_once_pending k r e σ n :
  anchor_now σ = Some r → validate a r = None → (Epoch r < max_int64)%Z →
  migratable (db σ) → startable σ r → PendingEpoch r = Some e →
  ∃ st σ' n' r', seq s (settleTrustAnchorOnce (S k) a zero_startup) (σ, n) = ((st, None), (σ', n')) ∧
    settled_as σ σ' r' ∧ (log σ !! PendingID r ≠ Some false → migrated (db σ')).
Proof.
  intros Hn Hv He Hm Hst Hp. unfold startable in Hst. rewrite Hp in Hst.
  unfold settleTrustAnchorOnce. rewrite seq_bind, (hseq_get _ _ _ _ Hn Hv). cbn beta iota. rewrite Hp.
  change (attempted zero_startup) with "". rewrite (bool_decide_eq_true_2 ("" = "")) by done. cbn [negb andb].
  rewrite seq_bind. unfold with_state.
  destruct (decide (holds_pair σ (e, PendingID r))) as [Ht|Ht].
  - rewrite hseq_verify by done. cbn beta iota. rewrite seq_bind.
    destruct (hseq_converge k r e σ (S (S n))) as (σ' & n' & -> & S & Mig); try done.
    cbn beta iota. rewrite seq_ret. do 4 eexists. split; [reflexivity|]. done.
  - destruct Hst as [?|[Ht' Hl]]; [done|].
    destruct (hseq_verify_no _ _ _ (S n) Ht) as [err ->]. cbn beta iota. rewrite seq_bind.
    destruct (hseq_recover r e σ (S (S n))) as (σ' & n' & -> & S); try done.
    cbn beta iota. rewrite seq_ret. do 4 eexists. split; [reflexivity|]. done.
Qed.

Lemma hseq_once_settled k r σ n :
  anchor_now σ = Some r → validate a r = None → (Epoch r < max_int64)%Z →
  fresh_uuids σ n →
  migratable (db σ) → startable σ r → PendingEpoch r = None →
  ∃ st σ' n' r', seq s (settleTrustAnchorOnce (S k) a zero_startup) (σ, n) = ((st, None), (σ', n')) ∧
    settled_as σ σ' r' ∧ migrated (db σ').
Proof.
  intros Hn Hv He [Huuid Hl Hinj] Hm Hst Hp. unfold startable in Hst. rewrite Hp in Hst.
  assert (Hmig1 : ternal_schema (db σ) = [1%Z] → migrated (db σ)).
  { intros E. split; [|done]. destruct Hm as [[? _]|(_ & ? & _)]; congruence. }
  unfold settleTrustAnchorOnce. rewrite seq_bind, (hseq_get _ _ _ _ Hn Hv). cbn beta iota. rewrite Hp.
  cbn [reserved zero_startup]. rewrite seq_bind.
  destruct (hseq_pending σ (S n) Hm) as (n1 & -> & Hn1). cbn beta iota. unfold with_state.
  case_bool_decide as Hone; cbn [negb andb].
  - assert (Ht : holds_pair σ (pair_of r)) by (destruct Hst as [?|[_ ?]]; [done|congruence]).
    rewrite seq_bind. unfold check_bind. rewrite seq_bind, seq_ret. cbn beta iota.
    destruct (hseq_finishStartup r σ n1 Hn Hv Hp Ht) as [n2 ->]. cbn beta iota. rewrite seq_ret.
    do 4 eexists. split; [reflexivity|]. split; [by split|by apply Hmig1].
  - destruct (Bootstrap r) eqn:Hb.
    + rewrite seq_bind.
      assert (Ht : holds_pair σ (pair_of r) ∨ not_bootstrapped σ r) by tauto.
      destruct (hseq_begin r σ n1 Hn Hv Hp Hb) as (id & st & σ1 & n2 & -> & [M1 M2 M3 M4 M5] & m & Hid & Hmn & Hn2);
        [intros; apply Huuid; lia|done|].
      cbn beta iota. rewrite seq_bind.
      destruct (validate_facts a r Hv) as (H0 & _ & _).
      destruct (hseq_finish k (reserve r (wrap64 (Epoch r + 1)) id) (wrap64 (Epoch r + 1)) σ1 n2)
        as (σ2 & n3 & -> & [S1 S2 S3 S4] & Mig); try done.
      * apply pending_valid; [done|done|]. rewrite Hid. apply Huuid. lia.
      * rewrite M3. apply Hl. lia.
      * simpl. rewrite Hid. apply Hinj; lia.
      * simpl. rewrite M3, Hid. apply Hl. lia.
      * simpl. intros [_ E]. rewrite M2 in E. rewrite epoch_next in E by lia.
        unfold holds_pair, not_bootstrapped, pair_of in Ht. destruct Ht as [[_ Ht]|(_ & Ht & _)]; rewrite Ht in E; [|done].
        injection E as E _. lia.
      * unfold holds_pair, not_bootstrapped in *. by rewrite M2.
      * by rewrite M2.
      * cbn beta iota. rewrite seq_ret. do 4 eexists. split; [reflexivity|]. split; [|done].
        split; try done. by rewrite S4, M2.
    + assert (Ht : holds_pair σ (pair_of r)) by (destruct Hst as [?|[(_ & _ & ?) _]]; [done|congruence]).
      rewrite seq_bind. unfold check_bind. rewrite seq_bind.
      destruct (hseq_catchUp k σ n1 Hm) as (σ1 & n2 & -> & [M1 M2 M3 M4 M5]). cbn beta iota.
      destruct (hseq_finishStartup r σ1 n2) as [n3 ->]; try done.
      { unfold anchor_now in *. by rewrite M3. }
      { by eapply holds_pair_same. }
      cbn beta iota. rewrite seq_ret. do 4 eexists. split; [reflexivity|].
      split; [|done]. split; try done; [unfold anchor_now in *; by rewrite M3|by eapply holds_pair_same|apply M2].
Qed.

End healthy.


End with_services.
