(* ===== verification/TrustExamples.v ===== *)
(** * Concrete deployments

    An instance of the parameters of the trust protocol and concrete states,
    on which the protocol's properties are applied. *)

From S2P Require Export TrustSettle.
Open Scope go_scope.

(** Stand-ins for the types of the recovery module, and a data node that
    accepts every request. *)
Definition ex_recovery : Recovery :=
  {| Transition := Z * string; Receipt := Z;
     Transition_eq_dec := _; Receipt_eq_dec := _;
     Transition_Generation := fst; Transition_AnchorID := snd; Receipt_Generation := λ z, z |}.
#[local] Existing Instance ex_recovery.

Definition ex_params : ServiceParams :=
  {| ValidateExecuteRequest := λ _, None; rv_name := pretty; rv_name_inj := _ |}.
#[local] Existing Instance ex_params.

Definition hex_digit (n : nat) : string :=
  stake 1 (sdrop n "0123456789abcdef").

(** The [n]-th uuid, for [n] below 256. *)
Definition ex_uuid (n : nat) : string :=
  "10000000-0000-0000-0000-0000000000" +:+ hex_digit ((n / 16) mod 16) +:+ hex_digit (n mod 16).

Definition ex_token : string := "00000000-0000-0000-0000-000000000000".

Definition ex_record (bootstrap : bool) : trustAnchorRecord :=
  mkRecord _ "1" "ternal" "storage" 0 ex_token None "" bootstrap 0 None None.

Definition ex_anchor : trustAnchor := mkTrustAnchor _ (ex_record false) "anchor" "default".

(** Every call answers. *)
Definition ex_script : script := Script (λ _ _, Answered None) ex_uuid (λ _, false).

Lemma ex_uuid_valid n : validUUID (ex_uuid n) = true.
Proof.
  unfold ex_uuid.
  assert (H : ∀ i j, i < 16 → j < 16 →
    validUUID ("10000000-0000-0000-0000-0000000000" +:+ hex_digit i +:+ hex_digit j) = true).
  { intros i j Hi Hj. do 16 (destruct i as [|i]; [do 16 (destruct j as [|j]; [reflexivity|]); lia|]). lia. }
  apply H; apply Nat.mod_upper_bound; lia.
Qed.

(** A database the deployment has bootstrapped and migrated. *)
Definition ex_database : database :=
  match run_statements (create_trust_state :: insert_trust_state (0%Z, ex_token) :: migrations) empty_database with
  | Some (d, _) => d
  | None => empty_database
  end.

Definition ex_services (r : trustAnchorRecord) (d : database) : services :=
  set_local (Some ex_anchor) 0 0 (new_deployment r d).1.

(** ** Playing a deployment *)

Definition play_call (s : pool) (i : nat) (w : answer) : option pool :=
  match s.2 !! i with
  | Some (Call e k) =>
    if decide (fresh w ∈ minted s.1) then None else
    let (x, σ') := serve w e s.1 in Some (σ', <[i := k x]> s.2)
  | _ => None
  end.

Fixpoint play (s : pool) (l : list (nat * answer)) : option pool :=
  match l with
  | [] => Some s
  | (i, w) :: l' => match play_call s i w with Some s' => play s' l' | None => None end
  end.

Lemma play_reachable r d s l s' : reachable r d s → play s l = Some s' → reachable r d s'.
Proof.
  revert s. induction l as [|[i w] l IH]; simpl; intros s Hs H; [by simplify_eq|].
  destruct s as [σ ts]. unfold play_call in H. simpl in H.
  destruct (ts !! i) as [[|X e k]|] eqn:Hi; try done.
  destruct (decide (fresh w ∈ minted σ)) as [|Hf]; [done|].
  destruct (serve w e σ) as [x σ'] eqn:Hw.
  eapply IH; [|exact H]. eapply reachable_step; [exact Hs|]. eapply pool_call; [exact Hi|]. by exists w.
Qed.

(** Two nodes: the first starts up on an empty database, the second finds the
    fence of the first while its answers get lost. *)
Definition ex_open : prog svcE unit :=
  discard (let! r := open_trust 1 1 (Some ex_anchor) in
           match r with
           | Ok (_, _, Some state) => settle_background 1 1 ex_anchor state (mkStoreState true false)
           | _ => Ret (mkStoreState true false)
           end).

Definition ex_start : pool :=
  ((new_deployment (ex_record true) empty_database).1, [ex_open; ex_open]).

Lemma ex_start_reachable : reachable (ex_record true) empty_database ex_start.
Proof.
  eapply reachable_step; [eapply reachable_step; [apply reachable_init|]|].
  - apply (pool_start _ [] ex_open). constructor.
  - apply (pool_start _ [ex_open] ex_open). constructor.
Qed.

Definition ok_answer (n : nat) : answer := Answer (Answered None) (ex_uuid n) false.
Definition lost_answer (n : nat) : answer := Answer (Unknown ErrContext) (ex_uuid n) false.

(** The first node reserves the fence; its compare-and-swap takes effect but
    the answer is lost; the second node then looks at the anchor. *)
Definition ex_moves : list (nat * answer) :=
  ((λ n, (0, ok_answer n)) <$> List.seq 0 5) ++ [(0, lost_answer 5); (1, ok_answer 6)].

Definition ex_pool : pool := default ex_start (play ex_start ex_moves).

Lemma ex_pool_reachable : reachable (ex_record true) empty_database ex_pool.
Proof.
  unfold ex_pool. destruct (play ex_start ex_moves) as [s|] eqn:E; simpl.
  - eapply play_reachable; [apply ex_start_reachable|exact E].
  - apply ex_start_reachable.
Qed.

Lemma ex_boot_deployable : deployable (ex_record true) empty_database.
Proof. split; [done|]. right. done. Qed.

Lemma ex_database_deployable : deployable (ex_record false) ex_database.
Proof. split; [done|]. left. by vm_compute. Qed.

Lemma trust_pair_agrees_witness :
  (PendingEpoch <$> anchor_now ex_pool.1) = Some (Some 1%Z) ∧
  ∃ r, anchor_now ex_pool.1 = Some r ∧
    match PendingEpoch r with
    | None => holds_pair ex_pool.1 (pair_of r) ∨ not_bootstrapped ex_pool.1 r
    | Some e =>
      (log ex_pool.1 !! PendingID r = Some true ∧ holds_pair ex_pool.1 (e, PendingID r)) ∨
      (log ex_pool.1 !! PendingID r ≠ Some true ∧
        (holds_pair ex_pool.1 (pair_of r) ∨ not_bootstrapped ex_pool.1 r))
    end.
Proof.
  split; [by vm_compute|].
  apply (trust_pair_agrees (ex_record true) empty_database ex_pool.1 ex_pool.2);
    [apply ex_boot_deployable|].
  rewrite <- surjective_pairing. apply ex_pool_reachable.
Defined.

Lemma anchor_moves_forward_witness :
  ∃ r', history ex_pool.1 !! 1 = Some r' ∧
  ∃ n, n ≤ 1 ∧ same_frame (ex_record true) r' ∧ Epoch r' = wrap64 (0 + Z.of_nat n) ∧
    (Bootstrap r' = true → true = true ∧ n = 0 ∧ Token r' = ex_token).
Proof.
  assert (H : is_Some (history ex_pool.1 !! 1)) by (vm_compute; eauto).
  destruct H as [r' Hr']. exists r'. split; [done|].
  apply (anchor_moves_forward (ex_record true) empty_database ex_pool.1 ex_pool.2 0 1 (ex_record true) r');
    [apply ex_boot_deployable|by vm_compute| |by vm_compute|done|lia].
  rewrite <- surjective_pairing. apply ex_pool_reachable.
Defined.

(** ** Playing one program *)

Fixpoint play_prog {A} (l : list answer) (p : prog svcE A) (σ : services) : option (A * services) :=
  match p, l with
  | Ret a, _ => Some (a, σ)
  | Call e k, w :: l' =>
    if decide (fresh w ∈ minted σ) then None else
    let (x, σ') := serve w e σ in play_prog l' (k x) σ'
  | Call _ _, [] => None
  end.

Lemma play_prog_irun {A} l (p : prog svcE A) own σ a σ' Q :
  play_prog l p σ = Some (a, σ') → wp p own σ Q → Inv σ → owned own σ → irun own p σ a σ'.
Proof.
  revert l own σ. induction p as [b|X e k IH]; intros l own σ H Hw Hinv Ho.
  - destruct l; simpl in H; simplify_eq; apply irun_ret.
  - destruct l as [|w l]; [done|]. simpl in H.
    destruct (decide (fresh w ∈ minted σ)) as [|Hf]; [done|].
    destruct (serve w e σ) as [x σ1] eqn:Hs.
    destruct (Hw σ ltac:(done) Hinv Ho) as [Hp Hk].
    assert (Hserves : serves e σ x σ1) by by exists w.
    pose proof (serve_advances _ _ _ _ _ Hinv Ho Hp Hserves) as [A1 A2 A3 _ _].
    eapply irun_call; [reflexivity|exact Hinv|exact Ho|exact Hserves|].
    eapply IH; [exact H|apply Hk; [exact Hserves|exact A1|exact A2]|exact A1|exact A3].
Qed.

Lemma owned_empty σ : owned ∅ σ.
Proof. split; set_solver. Qed.

Definition ex_σ : services := ex_services (ex_record false) ex_database.

Lemma ex_inv : Inv ex_σ.
Proof. apply local_inv, inv_new_deployment, ex_database_deployable. Qed.

Definition ex_answers : list answer := ok_answer <$> List.seq 0 20.

Definition ex_query (d : database) : option nat := Some (length (hosts (data d))).

Definition ex_node : rhizaSQL := mkRhizaSQL true.

Lemma ex_query_runs :
  ∃ σ', irun ∅ (QueryContext ex_node ex_query) ex_σ (Ok 0) σ'.
Proof.
  destruct (play_prog ex_answers (QueryContext ex_node ex_query) ex_σ) as [[r σ']|] eqn:E.
  - exists σ'. assert (r = Ok 0) as ->.
    { apply (f_equal (fmap fst)) in E. vm_compute in E. by simplify_eq. }
    apply (play_prog_irun _ _ _ _ _ _ (later ex_σ) E); [by apply wp_QueryContext|apply ex_inv|apply owned_empty].
  - exfalso. apply (f_equal (fmap fst)) in E. vm_compute in E. done.
Qed.


(** A statement on the application's tables. *)
Definition ex_statement : SQLStatement :=
  mkSQLStatement (λ d, Some (Database (sqlite_master d) (trust_state d) (ternal_schema d) empty_tables,
                             mkStatementResult 3 0 0)) false None None.

Definition ex_request : ExecuteRequest := mkExecuteRequest "r" None [ex_statement] false.

Lemma ex_neutral : Forall neutral (normal_statements ex_request).
Proof.
  apply List.Forall_cons; [|apply List.Forall_nil]. intros d d' r. simpl. by intros [= <- <-].
Qed.

Lemma ex_write_runs :
  ∃ r σ', irun ∅ (execute ex_node ex_request 1) ex_σ (r, None) σ'.
Proof.
  destruct (play_prog ex_answers (execute ex_node ex_request 1) ex_σ) as [[[r err] σ']|] eqn:E.
  - exists r, σ'. assert (err = None) as ->.
    { apply (f_equal (fmap (λ x, x.1.2))) in E. vm_compute in E. by simplify_eq. }
    apply (play_prog_irun _ _ _ _ _ _ (outcome_post ex_σ) E); [by apply wp_execute; [|apply ex_neutral]|apply ex_inv|apply owned_empty].
  - exfalso. apply (f_equal (fmap (λ x, x.1.2))) in E. vm_compute in E. done.
Qed.


Lemma unproved_store_is_closed_witness :
  let σ := (new_deployment (ex_record false) ex_database).1 in
  ∃ e σ' n', seq ex_script (QueryContext ex_node ex_query) (σ, 0) = (Err e, (σ', n')) ∧ shared σ σ' ∧
    readers_held σ' = readers_held σ.
Proof.
  apply (unproved_store_is_closed ex_script ex_node nat ex_query ex_request 1
    (new_deployment (ex_record false) ex_database).1 0); [reflexivity|left; reflexivity].
Defined.

Lemma ex_ready : ready_to_write ex_script ex_σ ex_anchor (ex_record false) ex_request.
Proof.
  split; [done|done|done|split; by vm_compute|by vm_compute|by vm_compute|intros n; apply ex_uuid_valid|done|done|apply ex_neutral].
Qed.

Lemma fenced_write_is_a_transaction_witness :
  ∃ res σ' n', seq ex_script (execute ex_node ex_request 1) (ex_σ, 0) = (res, (σ', n')) ∧
    res = (mkExecuteResponse MutationCommitted "" 3 0 [], None).
Proof.
  destruct (fenced_write_is_a_transaction ex_script ex_node ex_anchor (ex_record false) ex_request ex_σ 0
    ex_ready (λ _, eq_refl) ltac:(done)) as (res & σ' & n' & E & _ & H).
  exists res, σ', n'. split; [exact E|].
  destruct H as [(e & m & _ & _ & H)|H]; [by destruct H|].
  destruct H as (id & -> & _). reflexivity.
Defined.

