(* ===== verification/AnchorData.v ===== *)
(** * The written form of the trust anchor record (internal/store/trust_anchor.go,
    lines 51-76 and 205-357; internal/store/trust_anchor_composite.go, lines 12-97)

    The record is stored as the string map of a ConfigMap: eight flat keys, and
    four more in the shape shared with the anchor service, where the recovery
    fields and a JSON envelope of the flat state are stored beside it.  The
    JSON form of the recovery library's types is a parameter ([JSONType]). *)

From S2P Require Export GoPath GoDecode GoCrypto TrustAnchor.

(** ** Identities of storage roots *)

Definition storage_tuple (l : list string) : string := Marshal_list (Some l).

Definition AzureTrustAnchorStorageID (account endpoint container prefix clusterID : string) : string :=
  hashSecret (storage_tuple ["azure"; account; endpoint; container; prefix; clusterID]).

Definition TrustAnchorStorageID (provider endpoint bucket prefix clusterID : string) : string :=
  hashSecret (storage_tuple [provider; endpoint; bucket; prefix; clusterID]).

Definition localStorageDomain (legacy : string) : string :=
  if bool_decide (legacy = "") then "" else hashSecret ("ternal-local-v1" +:+ String (chr 0) legacy).

Definition LocalTrustAnchorStorageID (provider endpoint bucket prefix clusterID : string) : string :=
  localStorageDomain
    (TrustAnchorStorageID provider endpoint bucket (path.Join [prefix; clusterID; "local/v1"]) clusterID).

(** ** The evidence envelope *)

Definition trustAnchorEvidenceFormat : string := "ternal-trust-anchor/v1".

Record trustAnchorEvidence := mkEvidence {
  Evidence_Format : string;
  Evidence_Epoch : Z;
  Evidence_Token : string;
  Evidence_PendingEpoch : option Z;
  Evidence_PendingID : string;
  Evidence_Bootstrap : bool;
}.

#[export] Instance trustAnchorEvidence_eq_dec : EqDecision trustAnchorEvidence.
Proof. solve_decision. Defined.

Definition zero_evidence : trustAnchorEvidence := mkEvidence "" 0 "" None "" false.

Definition evidence_fields : list (struct_field trustAnchorEvidence) :=
  [at_field "format" Evidence_Format (λ x e, mkEvidence x (Evidence_Epoch e) (Evidence_Token e)
     (Evidence_PendingEpoch e) (Evidence_PendingID e) (Evidence_Bootstrap e)) decode_string;
   at_field "epoch" Evidence_Epoch (λ x e, mkEvidence (Evidence_Format e) x (Evidence_Token e)
     (Evidence_PendingEpoch e) (Evidence_PendingID e) (Evidence_Bootstrap e)) decode_int64;
   at_field "token" Evidence_Token (λ x e, mkEvidence (Evidence_Format e) (Evidence_Epoch e) x
     (Evidence_PendingEpoch e) (Evidence_PendingID e) (Evidence_Bootstrap e)) decode_string;
   at_field "pending_epoch" Evidence_PendingEpoch (λ x e, mkEvidence (Evidence_Format e) (Evidence_Epoch e)
     (Evidence_Token e) x (Evidence_PendingID e) (Evidence_Bootstrap e)) (decode_pointer 0%Z decode_int64);
   at_field "pending_id" Evidence_PendingID (λ x e, mkEvidence (Evidence_Format e) (Evidence_Epoch e)
     (Evidence_Token e) (Evidence_PendingEpoch e) x (Evidence_Bootstrap e)) decode_string;
   at_field "bootstrap" Evidence_Bootstrap (λ x e, mkEvidence (Evidence_Format e) (Evidence_Epoch e)
     (Evidence_Token e) (Evidence_PendingEpoch e) (Evidence_PendingID e) x) decode_bool].

Definition json_of_evidence (e : trustAnchorEvidence) : json :=
  JObj [("format", JStr (Evidence_Format e));
        ("epoch", JNum (strconv.FormatInt (Evidence_Epoch e)));
        ("token", JStr (Evidence_Token e));
        ("pending_epoch", match Evidence_PendingEpoch e with
                          | None => JNull | Some z => JNum (strconv.FormatInt z) end);
        ("pending_id", JStr (Evidence_PendingID e));
        ("bootstrap", JBool (Evidence_Bootstrap e))].

(** [trustAnchorEvidence.bytes]. *)
Definition evidence_bytes (e : trustAnchorEvidence) : string := print (json_of_evidence e).

Definition parseTrustAnchorEvidence (raw : string) : result trustAnchorEvidence :=
  match Unmarshal (decode_struct evidence_fields) zero_evidence raw with
  | None => Err (Errorf "parse trust-anchor evidence")
  | Some e =>
    if negb (bool_decide (evidence_bytes e = raw)) then Err (Errorf "non-canonical trust-anchor evidence") else Ok e
  end.

(** ** Decimals *)

Definition parseAnchorEpoch (raw : string) : result Z :=
  match strconv.ParseInt raw with
  | Some v => if bool_decide (strconv.FormatInt v = raw) then Ok v else Err (Errorf "not canonical decimal")
  | None => Err (Errorf "not canonical decimal")
  end.

Definition parseAnchorGeneration (raw : string) : result Z :=
  match strconv.ParseUint raw 64 with
  | Some v =>
    if bool_decide (strconv.FormatInt v = raw) then Ok v else Err (Errorf "parse trust-anchor recovery generation")
  | None => Err (Errorf "parse trust-anchor recovery generation")
  end.

Definition FormatBool (b : bool) : string := if b then "true" else "false".

(** ** Recovery projections *)

(** json.Marshal of a value, [None] when it fails; and the first value of a
    text as json.Decoder reads it with DisallowUnknownFields. *)
Class JSONType (T : Type) := {
  json_Marshal : T → option string;
  json_Decode : string → option T;
}.

Definition recoveryNull : string := "null".

Section projections.
Context {T : Type} `{!JSONType T} `{!EqDecision T}.

Definition recoveryProjection (value : option T) : string :=
  match value with
  | None => recoveryNull
  | Some v => default recoveryNull (json_Marshal v)
  end.

Definition parseRecoveryProjection (raw : string) : result (option T) :=
  if bool_decide (raw = recoveryNull) then Ok None else
  match json_Decode raw with
  | None => Err (Errorf "parse trust-anchor recovery projection")
  | Some v =>
    if negb (bool_decide (recoveryProjection (Some v) = raw))
    then Err (Errorf "non-canonical trust-anchor recovery projection") else Ok (Some v)
  end.

(** The value survives its JSON form. *)
Definition json_stable (v : T) : Prop :=
  ∃ s, json_Marshal v = Some s ∧ json_Decode s = Some v ∧ s ≠ recoveryNull.

End projections.

(** ** The string map *)

Definition trustAnchorLegacyKeys : nat := 8.
Definition trustAnchorCompositeKeys : nat := 12.

Definition anchorDataKeys : list string :=
  ["format"; "clusterID"; "storageID"; "epoch"; "token"; "pendingEpoch"; "pendingID"; "bootstrap";
   "recoveryGeneration"; "recoveryEvidence"; "recoveryTransition"; "recoveryReceipt"].

Definition anchorDataShape (data : gmap string string) : bool :=
  forallb (λ key, bool_decide (key ∈ anchorDataKeys) &&
             negb (bool_decide (size data = trustAnchorLegacyKeys) && strings.HasPrefix key "recovery"))
    (map_to_list data).*1 &&
  (bool_decide (size data = trustAnchorLegacyKeys) || bool_decide (size data = trustAnchorCompositeKeys)).

(** [data[key]]: the empty string when there is none. *)
Definition at_key (data : gmap string string) (key : string) : string := default "" (data !! key).

Section with_recovery.
Context {R : Recovery} `{!JSONType Transition} `{!JSONType Receipt}.

(** [trustAnchorRecord.evidence]. *)
Definition evidence (r : trustAnchorRecord) : trustAnchorEvidence :=
  mkEvidence (Format r) (Epoch r) (Token r) (PendingEpoch r) (PendingID r) (Bootstrap r).

(** [trustAnchorEvidence.agrees]. *)
Definition agrees (e : trustAnchorEvidence) (r : trustAnchorRecord) : bool :=
  if negb (bool_decide (Evidence_Format e = Format r)) || negb (bool_decide (Evidence_Epoch e = Epoch r)) ||
     negb (bool_decide (Evidence_Token e = Token r)) || negb (bool_decide (Evidence_PendingID e = PendingID r)) ||
     negb (bool_decide (Evidence_Bootstrap e = Bootstrap r))
  then false else
  match Evidence_PendingEpoch e, PendingEpoch r with
  | Some a, Some b => bool_decide (a = b)
  | None, None => true
  | _, _ => false
  end.

Definition flat_members (r : trustAnchorRecord) : list (string * string) :=
  [("format", Format r); ("clusterID", ClusterID r); ("storageID", StorageID r);
   ("epoch", strconv.FormatInt (Epoch r)); ("token", Token r);
   ("pendingEpoch", match PendingEpoch r with Some e => strconv.FormatInt e | None => "" end);
   ("pendingID", PendingID r); ("bootstrap", FormatBool (Bootstrap r))].

Definition recovery_members (r : trustAnchorRecord) : list (string * string) :=
  [("recoveryGeneration", strconv.FormatInt (Generation r));
   ("recoveryEvidence", StdEncoding.EncodeToString (evidence_bytes (evidence r)));
   ("recoveryTransition", recoveryProjection (Transition_ r));
   ("recoveryReceipt", recoveryProjection (Receipt_ r))].

Definition anchorData (r : trustAnchorRecord) : gmap string string :=
  list_to_map (flat_members r ++ recovery_members r).

(** The record of the flat keys. *)
Definition parse_flat (data : gmap string string) : result trustAnchorRecord :=
  match parseAnchorEpoch (at_key data "epoch") with
  | Err _ => Err (Errorf "parse trust-anchor epoch")
  | Ok epoch =>
    if negb (bool_decide (at_key data "bootstrap" = "true")) && negb (bool_decide (at_key data "bootstrap" = "false"))
    then Err (Errorf "parse trust-anchor bootstrap") else
    let bootstrap := bool_decide (at_key data "bootstrap" = "true") in
    let record pending := mkRecord R (at_key data "format") (at_key data "clusterID") (at_key data "storageID")
      epoch (at_key data "token") pending (at_key data "pendingID") bootstrap 0 None None in
    if bool_decide (at_key data "pendingEpoch" = "") then Ok (record None) else
    match parseAnchorEpoch (at_key data "pendingEpoch") with
    | Err _ => Err (Errorf "parse trust-anchor pending epoch")
    | Ok pending => Ok (record (Some pending))
    end
  end.

Definition with_recovery_fields (r : trustAnchorRecord) generation transition receipt : trustAnchorRecord :=
  mkRecord R (Format r) (ClusterID r) (StorageID r) (Epoch r) (Token r) (PendingEpoch r) (PendingID r)
    (Bootstrap r) generation transition receipt.

Definition parseAnchorData (data : gmap string string) : result trustAnchorRecord :=
  if negb (anchorDataShape data) then Err (Errorf "invalid trust-anchor data shape") else
  record ← parse_flat data;
  if bool_decide (size data = trustAnchorLegacyKeys) then Ok record else
  match StdEncoding.DecodeString (at_key data "recoveryEvidence") with
  | None => Err (Errorf "parse trust-anchor evidence")
  | Some raw =>
    e ← parseTrustAnchorEvidence raw;
    if negb (agrees e record) then Err (Errorf "trust-anchor representations disagree") else
    generation ← parseAnchorGeneration (at_key data "recoveryGeneration");
    transition ← parseRecoveryProjection (at_key data "recoveryTransition");
    receipt ← parseRecoveryProjection (at_key data "recoveryReceipt");
    let full := with_recovery_fields record generation transition receipt in
    match validateStructure full with
    | Some e => Err e
    | None => Ok full
    end
  end.

End with_recovery.

(** ** The record shared with the anchor service

    recoveryanchor.Record: the fields this code sets and reads.  Its version
    is a constant of the library. *)
Class RecordVersions := { Version1 : string }.

Record recoveryRecordT {R : Recovery} := mkRecoveryRecord {
  RR_Version : string;
  RR_EvidenceFormat : string;
  RR_ClusterID : string;
  RR_StorageID : string;
  RR_Evidence : string;
  RR_PendingWrite : bool;
  RR_Generation : Z;
  RR_Transition : option Transition;
  RR_LastTransition : option Receipt;
}.

Section recovery_record.
Context {R : Recovery} `{!RecordVersions}.

Definition recoveryRecord (r : trustAnchorRecord) : recoveryRecordT :=
  mkRecoveryRecord R Version1 trustAnchorEvidenceFormat (ClusterID r) (StorageID r) (evidence_bytes (evidence r))
    (match PendingEpoch r with Some _ => true | None => false end) (Generation r) (Transition_ r) (Receipt_ r).

Definition anchorRecordFromRecovery (record : recoveryRecordT) : result trustAnchorRecord :=
  if negb (bool_decide (RR_Version record = Version1)) ||
     negb (bool_decide (RR_EvidenceFormat record = trustAnchorEvidenceFormat))
  then Err (Errorf "unsupported recovery record") else
  e ← parseTrustAnchorEvidence (RR_Evidence record);
  let next := mkRecord R (Evidence_Format e) (RR_ClusterID record) (RR_StorageID record) (Evidence_Epoch e)
    (Evidence_Token e) (Evidence_PendingEpoch e) (Evidence_PendingID e) (Evidence_Bootstrap e)
    (RR_Generation record) (RR_Transition record) (RR_LastTransition record) in
  if negb (Bool.eqb (RR_PendingWrite record) (match PendingEpoch next with Some _ => true | None => false end))
  then Err (Errorf "recovery record disagrees with its evidence") else Ok next.

End recovery_record.
