(* ===== verification/AnchorDataFacts.v ===== *)
(** * What is written of the trust anchor record is read back *)

From S2P Require Export AnchorData.

(** ** The envelope *)

Lemma validUUID_valid s : validUUID s = true → ValidString s = true.
Proof.
  unfold validUUID. intros [_ H]%andb_true_iff. revert H. generalize 0 at 1. unfold ValidString.
  induction s as [|c s IH]; intros i H; [done|]. simpl in H. apply andb_true_iff in H as [Hc H].
  assert (Hb : (byte_of c <? 128)%N = true).
  { destruct (uuid_dash i); [apply bool_decide_eq_true in Hc as ->; done|]. revert Hc. unfold uuid_digit. by_byte c. }
  cbn [valid_go]. unfold invalid_rune. rewrite DecodeRune_ascii by done. simpl. rewrite bool_decide_eq_false_2; [eauto|].
  intros [= E]. rewrite E in Hb. discriminate Hb.
Qed.

(** What a record that passes [validateStructure] puts in its envelope. *)
Definition plain_evidence (e : trustAnchorEvidence) : Prop :=
  ValidString (Evidence_Format e) = true ∧ in_int64 (Evidence_Epoch e) ∧ ValidString (Evidence_Token e) = true ∧
  (∀ z, Evidence_PendingEpoch e = Some z → in_int64 z) ∧ ValidString (Evidence_PendingID e) = true.

Lemma printable_evidence e : plain_evidence e → printable 0 (json_of_evidence e).
Proof.
  intros (Hf & _ & Ht & Hp & Hi). apply printable_members_intro; [|done].
  members; (split; [done|]); try done; [by eexists|]. simpl. destruct (Evidence_PendingEpoch e); [by eexists|done].
Qed.

Lemma decode_evidence e :
  plain_evidence e → decode_struct evidence_fields zero_evidence (json_of_evidence e) = Some e.
Proof.
  intros (_ & He & _ & Hp & _). destruct e as [f ep t pe pi b]. simpl in *.
  unfold decode_struct, json_of_evidence. cbn [decode_members].
  erewrite (decode_member_at evidence_fields "epoch" _ _ _ _ _ ep); [|reflexivity|exact (ParseInt_FormatInt _ He)].
  cbn [mbind option_bind].
  erewrite (decode_member_at evidence_fields "pending_epoch" _ _ _ _ _ pe); cycle 1; [reflexivity| |done].
  destruct pe as [z|]; [|done]. cbn [decode_pointer default mbind option_bind].
  pose proof (ParseInt_FormatInt z (Hp z eq_refl)) as E. unfold decode_int64. by rewrite E.
Qed.

Lemma parse_evidence_bytes e : plain_evidence e → parseTrustAnchorEvidence (evidence_bytes e) = Ok e.
Proof.
  intros He. unfold parseTrustAnchorEvidence, Unmarshal, evidence_bytes. rewrite parse_print by by apply printable_evidence.
  cbn [mbind option_bind]. rewrite decode_evidence by done. by rewrite bool_decide_eq_true_2.
Qed.

Lemma parse_evidence_canonical raw e : parseTrustAnchorEvidence raw = Ok e → raw = evidence_bytes e.
Proof.
  unfold parseTrustAnchorEvidence. destruct (Unmarshal _ _ _); [|done]. case_bool_decide; simpl; [|done]. by intros [= ->].
Qed.

(** ** Decimals *)

Lemma parseAnchorEpoch_FormatInt z : in_int64 z → parseAnchorEpoch (strconv.FormatInt z) = Ok z.
Proof. intros H. unfold parseAnchorEpoch. rewrite ParseInt_FormatInt by done. by rewrite bool_decide_eq_true_2. Qed.

Lemma parseAnchorEpoch_canonical raw z : parseAnchorEpoch raw = Ok z → raw = strconv.FormatInt z.
Proof. unfold parseAnchorEpoch. destruct (strconv.ParseInt raw); [|done]. case_bool_decide; [|done]. by intros [= <-]. Qed.

Lemma parseAnchorGeneration_FormatUint z : (0 ≤ z < 2 ^ 64)%Z → parseAnchorGeneration (strconv.FormatInt z) = Ok z.
Proof.
  intros H. unfold parseAnchorGeneration. rewrite ParseUint_FormatInt by lia. by rewrite bool_decide_eq_true_2.
Qed.

Lemma parseAnchorGeneration_canonical raw z : parseAnchorGeneration raw = Ok z → raw = strconv.FormatInt z.
Proof. unfold parseAnchorGeneration. destruct (strconv.ParseUint raw 64); [|done]. case_bool_decide; [|done]. by intros [= <-]. Qed.

Lemma FormatInt_ne z : strconv.FormatInt z ≠ "".
Proof. destruct (FormatInt_first z) as (c & s & -> & _). done. Qed.

(** ** Projections *)

Section projections.
Context {T : Type} `{!JSONType T} `{!EqDecision T}.

Lemma parseRecoveryProjection_stable (v : option T) :
  (∀ t, v = Some t → json_stable t) → parseRecoveryProjection (recoveryProjection v) = Ok v.
Proof.
  destruct v as [t|]; [|done]. intros H. destruct (H t eq_refl) as (s & Hm & Hd & Hn).
  assert (E : recoveryProjection (Some t) = s) by (simpl; by rewrite Hm). unfold parseRecoveryProjection. rewrite E.
  rewrite bool_decide_eq_false_2 by done. rewrite Hd, E. by rewrite bool_decide_eq_true_2.
Qed.

Lemma parseRecoveryProjection_canonical raw (v : option T) :
  parseRecoveryProjection raw = Ok v → raw = recoveryProjection v.
Proof.
  unfold parseRecoveryProjection. case_bool_decide as E; [by intros [= <-]|].
  destruct (json_Decode raw); [|done]. case_bool_decide; simpl; [|done]. by intros [= <-].
Qed.

End projections.

(** ** The string map *)

Lemma at_key_list_to_map (l : list (string * string)) k v :
  NoDup l.*1 → (k, v) ∈ l → at_key (list_to_map l) k = v.
Proof. intros Hd Hk. unfold at_key. by rewrite (elem_of_list_to_map_1 _ k v) by done. Qed.

(** The shape fixes the keys. *)
Lemma anchorDataShape_keys (l : list (string * string)) :
  NoDup l.*1 → (∀ k, k ∈ l.*1 → k ∈ anchorDataKeys) → length l = trustAnchorCompositeKeys →
  anchorDataShape (list_to_map l) = true.
Proof.
  intros Hd Hk Hl. unfold anchorDataShape. assert (Hs : size (list_to_map l : gmap string string) = 12).
  { rewrite map_size_list_to_map by done. exact Hl. }
  rewrite Hs. simpl. rewrite andb_true_r. apply forallb_forall. intros k Hin%list_elem_of_In.
  rewrite (map_to_list_to_map l) in Hin by done. rewrite bool_decide_eq_true_2 by auto. done.
Qed.

Definition flat_keys : list string := take 8 anchorDataKeys.

(** What the shape check says of the keys. *)
Lemma shape_keys data : anchorDataShape data = true →
  (size data = trustAnchorLegacyKeys ∧ dom data = list_to_set flat_keys) ∨
  (size data = trustAnchorCompositeKeys ∧ dom data = list_to_set anchorDataKeys).
Proof.
  unfold anchorDataShape. intros [Hk Hs]%andb_true_iff.
  assert (Hin : ∀ k, k ∈ dom data → k ∈ anchorDataKeys ∧
            (size data = trustAnchorLegacyKeys → strings.HasPrefix k "recovery" = false)).
  { intros k [v Hv]%elem_of_dom. rewrite forallb_forall in Hk. specialize (Hk k). rewrite <- list_elem_of_In in Hk.
    destruct (proj1 (andb_true_iff _ _) (Hk ltac:(apply list_elem_of_fmap; exists (k, v); split; [done|by apply elem_of_map_to_list])))
      as [H1 H2]. apply bool_decide_eq_true in H1. split; [done|]. intros Hl.
    rewrite bool_decide_eq_true_2 in H2 by done. by apply negb_true_iff in H2. }
  apply orb_true_iff in Hs as [Hs|Hs]; apply bool_decide_eq_true in Hs; [left|right]; (split; [done|]);
    (apply set_subseteq_size_eq; [|rewrite size_dom, Hs; vm_compute; lia]); intros k Hd; apply elem_of_list_to_set;
    destruct (Hin k Hd) as [Ha Hp]; [|done].
  specialize (Hp Hs). clear -Ha Hp. simpl in Ha.
  repeat (apply elem_of_cons in Ha as [->|Ha]; [first [discriminate Hp|by apply (bool_decide_unpack _)]|]).
  by apply elem_of_nil in Ha.
Qed.

Section record.
Context {R : Recovery} `{!JSONType Transition} `{!JSONType Receipt}.

Lemma at_anchorData (r : trustAnchorRecord) k v :
  (k, v) ∈ flat_members r ++ recovery_members r → at_key (anchorData r) k = v.
Proof. apply at_key_list_to_map. by apply (bool_decide_unpack _). Qed.

Ltac at_member := simpl; repeat first [apply list_elem_of_here|apply list_elem_of_further].

Lemma anchorData_shape (r : trustAnchorRecord) : anchorDataShape (anchorData r) = true.
Proof. apply anchorDataShape_keys; [by apply (bool_decide_unpack _)|done|done]. Qed.

Lemma anchorData_size (r : trustAnchorRecord) : size (anchorData r) = trustAnchorCompositeKeys.
Proof. unfold anchorData. rewrite map_size_list_to_map; [done|]. by apply (bool_decide_unpack _). Qed.

(** The fields of a record are machine integers, and its recovery projections
    survive JSON. *)
Record storable (r : trustAnchorRecord) : Prop := {
  so_epoch : in_int64 (Epoch r);
  so_pending z : PendingEpoch r = Some z → in_int64 z;
  so_generation : (0 ≤ Generation r < 2 ^ 64)%Z;
  so_transition t : Transition_ r = Some t → json_stable t;
  so_receipt c : Receipt_ r = Some c → json_stable c;
}.

Lemma validateStructure_plain r : validateStructure r = None →
  Format r = "1" ∧ validUUID (Token r) = true ∧ (PendingID r = "" ∨ validUUID (PendingID r) = true).
Proof.
  unfold validateStructure. destruct (_ || _ || _ || _ || _) eqn:E1; [done|]. bool_prop.
  destruct (negb _) eqn:E2; [done|]. intros _. split_and!; try done.
  destruct (PendingEpoch r); bool_prop; auto.
Qed.

Lemma evidence_plain r : validateStructure r = None → storable r → plain_evidence (evidence r).
Proof.
  intros Hv Hs. destruct (validateStructure_plain r Hv) as (Hf & Ht & Hp). unfold evidence, plain_evidence. simpl.
  split_and!; [by rewrite Hf|apply Hs|by apply validUUID_valid|apply Hs|].
  destruct Hp as [->|Hp]; [done|by apply validUUID_valid].
Qed.

Lemma evidence_agrees r : agrees (evidence r) r = true.
Proof.
  unfold agrees, evidence. simpl. rewrite !bool_decide_eq_true_2 by done. simpl.
  destruct (PendingEpoch r); [by rewrite bool_decide_eq_true_2|done].
Qed.

Lemma parse_flat_anchorData r : storable r →
  parse_flat (anchorData r) = Ok (with_recovery_fields r 0 None None).
Proof.
  intros Hs. unfold parse_flat.
  rewrite (at_anchorData r "epoch" (strconv.FormatInt (Epoch r))) by at_member.
  rewrite (at_anchorData r "bootstrap" (FormatBool (Bootstrap r))) by at_member.
  rewrite (at_anchorData r "format" (Format r)), (at_anchorData r "clusterID" (ClusterID r)),
    (at_anchorData r "storageID" (StorageID r)), (at_anchorData r "token" (Token r)),
    (at_anchorData r "pendingID" (PendingID r)) by at_member.
  rewrite (at_anchorData r "pendingEpoch" (match PendingEpoch r with Some e => strconv.FormatInt e | None => "" end)) by at_member.
  rewrite parseAnchorEpoch_FormatInt by apply Hs. unfold with_recovery_fields.
  assert (Hp : match PendingEpoch r with
               | Some z => bool_decide (strconv.FormatInt z = "") = false ∧ parseAnchorEpoch (strconv.FormatInt z) = Ok z
               | None => True end).
  { destruct (PendingEpoch r) as [z|] eqn:E; [|done]. split; [apply bool_decide_eq_false_2, FormatInt_ne|].
    apply parseAnchorEpoch_FormatInt. by apply (so_pending r Hs). }
  destruct (Bootstrap r); simpl; (destruct (PendingEpoch r); [destruct Hp as [-> ->]|]; done).
Qed.

Lemma bind_Ok {A B} (m : result A) (f : A → result B) b : m ≫= f = Ok b → ∃ a, m = Ok a ∧ f a = Ok b.
Proof. destruct m as [a|e]; [|done]. eauto. Qed.

(** What the parser accepted, part by part. *)
Lemma parse_flat_inv data r : parse_flat data = Ok r →
  r = mkRecord R (at_key data "format") (at_key data "clusterID") (at_key data "storageID") (Epoch r)
        (at_key data "token") (PendingEpoch r) (at_key data "pendingID") (Bootstrap r) 0 None None ∧
  at_key data "epoch" = strconv.FormatInt (Epoch r) ∧ at_key data "bootstrap" = FormatBool (Bootstrap r) ∧
  at_key data "pendingEpoch" = match PendingEpoch r with Some z => strconv.FormatInt z | None => "" end.
Proof.
  unfold parse_flat. cbv zeta. destruct (parseAnchorEpoch (at_key data "epoch")) as [z|] eqn:Ez; [|done].
  apply parseAnchorEpoch_canonical in Ez. rewrite Ez. destruct (negb _ && negb _) eqn:Eb; [done|].
  assert (Hb : at_key data "bootstrap" = FormatBool (bool_decide (at_key data "bootstrap" = "true"))).
  { case_bool_decide; [done|]. simpl in Eb. by apply negb_false_iff, bool_decide_eq_true in Eb. }
  revert Hb. generalize (bool_decide (at_key data "bootstrap" = "true")). intros b Hb.
  clear Eb. case_bool_decide as Ep; [intros [= <-]; simpl; auto|].
  destruct (parseAnchorEpoch (at_key data "pendingEpoch")) as [p|] eqn:Epp; [|done].
  apply parseAnchorEpoch_canonical in Epp. intros [= <-]. simpl. auto.
Qed.

Lemma agrees_evidence e r : agrees e r = true → e = evidence r.
Proof.
  unfold agrees. destruct (_ || _ || _ || _ || _) eqn:E; [done|]. bool_prop. destruct e as [f ep t pe pi b], r as [? ? ? ? ? rpe]. simpl in *.
  intros Hp. unfold evidence. simpl. f_equal; try done.
  destruct pe, rpe; try done. apply bool_decide_eq_true in Hp. by subst.
Qed.

(** The composite shape, part by part. *)
Lemma parse_composite_inv data r : parseAnchorData data = Ok r → size data ≠ trustAnchorLegacyKeys →
  anchorDataShape data = true ∧ validateStructure r = None ∧
  parse_flat data = Ok (with_recovery_fields r 0 None None) ∧
  StdEncoding.DecodeString (at_key data "recoveryEvidence") = Some (evidence_bytes (evidence r)) ∧
  at_key data "recoveryGeneration" = strconv.FormatInt (Generation r) ∧
  at_key data "recoveryTransition" = recoveryProjection (Transition_ r) ∧
  at_key data "recoveryReceipt" = recoveryProjection (Receipt_ r).
Proof.
  intros H Hn. unfold parseAnchorData in H. destruct (anchorDataShape data); [|done]. simpl in H.
  apply bind_Ok in H as (flat & Hf & H). rewrite bool_decide_eq_false_2 in H by done.
  destruct (StdEncoding.DecodeString _) as [raw|] eqn:Er; [|done].
  apply bind_Ok in H as (e & He & H). apply parse_evidence_canonical in He as ->.
  destruct (agrees e flat) eqn:Ea; [|done]. simpl in H. apply agrees_evidence in Ea as ->.
  apply bind_Ok in H as (g & Hg & H). apply bind_Ok in H as (t & Ht & H). apply bind_Ok in H as (c & Hc & H).
  apply parseAnchorGeneration_canonical in Hg. apply parseRecoveryProjection_canonical in Ht, Hc.
  destruct (validateStructure _) eqn:Ev; [done|]. injection H as <-. rewrite Hf, Hg, Ht, Hc. split_and!; try done.
  f_equal. destruct (parse_flat_inv data flat Hf) as [-> _]. done.
Qed.

(** A map is rebuilt from its keys. *)
Definition of_keys (data : gmap string string) (keys : list string) : list (string * string) :=
  (λ k, (k, at_key data k)) <$> keys.

Lemma of_keys_keys data keys : (of_keys data keys).*1 = keys.
Proof. unfold of_keys. rewrite <- list_fmap_compose. by apply list_fmap_id. Qed.

Lemma rebuild (data : gmap string string) (keys : list string) :
  NoDup keys → dom data = list_to_set keys → list_to_map (of_keys data keys) = data.
Proof.
  intros Hn Hd. pose proof (of_keys_keys data keys) as Hk.
  apply map_eq. intros k. destruct (data !! k) as [v|] eqn:E.
  - apply elem_of_list_to_map_1; [by rewrite Hk|]. apply list_elem_of_fmap. exists k. unfold at_key. rewrite E.
    split; [done|]. apply elem_of_dom_2 in E. rewrite Hd in E. by apply elem_of_list_to_set in E.
  - apply not_elem_of_list_to_map_1. rewrite Hk. apply not_elem_of_dom in E. rewrite Hd in E.
    by rewrite elem_of_list_to_set in E.
Qed.

Lemma flat_members_of data r : parse_flat data = Ok r → flat_members r = of_keys data flat_keys.
Proof.
  intros H. destruct (parse_flat_inv data r H) as (Hr & He & Hb & Hp). unfold flat_members, of_keys. simpl.
  rewrite He, Hb, Hp, Hr. done.
Qed.

Lemma parse_anchorData r : validateStructure r = None → storable r → parseAnchorData (anchorData r) = Ok r.
Proof.
  intros Hv Hs. pose proof (parse_evidence_bytes _ (evidence_plain r Hv Hs)) as He.
  unfold parseAnchorData. rewrite anchorData_shape, parse_flat_anchorData by done. simpl negb. cbv iota.
  cbn [mbind result_bind]. rewrite anchorData_size. simpl bool_decide. cbv iota.
  rewrite (at_anchorData r "recoveryEvidence" (StdEncoding.EncodeToString (evidence_bytes (evidence r)))) by at_member.
  rewrite (at_anchorData r "recoveryGeneration" (strconv.FormatInt (Generation r))) by at_member.
  rewrite (at_anchorData r "recoveryTransition" (recoveryProjection (Transition_ r))) by at_member.
  rewrite (at_anchorData r "recoveryReceipt" (recoveryProjection (Receipt_ r))) by at_member.
  rewrite std_decode_encode, He. cbn [mbind result_bind].
  replace (agrees _ _) with true by (symmetry; exact (evidence_agrees r)). simpl negb. cbv iota.
  rewrite parseAnchorGeneration_FormatUint, !parseRecoveryProjection_stable by apply Hs. cbn [mbind result_bind].
  replace (with_recovery_fields _ _ _ _) with r by (by destruct r). by rewrite Hv.
Qed.

(** A trust anchor record that passes the structural check, whose numbers
    fit their machine integers and whose recovery projections survive their
    JSON form, is read back from the ConfigMap it is written to; and its
    projection onto the anchor service's record turns back into it. *)
Theorem anchor_record_reads_back `{!RecordVersions} (r : trustAnchorRecord) :
  validateStructure r = None → storable r →
  parseAnchorData (anchorData r) = Ok r ∧ anchorRecordFromRecovery (recoveryRecord r) = Ok r.
Proof.
  intros Hv Hs. split; [by apply parse_anchorData|]. pose proof (parse_evidence_bytes _ (evidence_plain r Hv Hs)) as He.
  unfold anchorRecordFromRecovery. simpl. rewrite !bool_decide_eq_true_2 by done. rewrite He. simpl.
  rewrite Bool.eqb_reflx. simpl. f_equal. by destruct r.
Qed.

(** A final line break changes nothing in base64. *)
Lemma strip_newlines_snoc s : strip_newlines (s +:+ String (chr 10) "") = strip_newlines s.
Proof. induction s as [|c s IH]; [done|]. rewrite app_cons_s. simpl. by rewrite IH. Qed.

Lemma anchorDataShape_dom d d' : dom d = dom d' → anchorDataShape d = anchorDataShape d'.
Proof.
  intros Hd. unfold anchorDataShape. assert (Hs : size d = size d') by (by rewrite <- !size_dom, Hd). rewrite Hs. f_equal.
  assert (Hk : ∀ (m1 m2 : gmap string string) f, dom m1 = dom m2 →
            forallb f (map_to_list m1).*1 = true → forallb f (map_to_list m2).*1 = true).
  { intros m1 m2 f Hm. rewrite !forallb_forall. intros H k Hin. apply H. rewrite <- list_elem_of_In in *.
    apply list_elem_of_fmap in Hin as ([k' v] & -> & Hin). apply elem_of_map_to_list, elem_of_dom_2 in Hin.
    rewrite <- Hm in Hin. apply elem_of_dom in Hin as [w Hw]. apply list_elem_of_fmap. exists (k', w).
    split; [done|by apply elem_of_map_to_list]. }
  apply eq_true_iff_eq. split; apply Hk; congruence.
Qed.

Lemma composite_members data r :
  parseAnchorData data = Ok r → size data ≠ trustAnchorLegacyKeys →
  dom data = list_to_set anchorDataKeys → data = <["recoveryEvidence" := at_key data "recoveryEvidence"]> (anchorData r).
Proof.
  intros H Hn Hd. destruct (parse_composite_inv data r H Hn) as (_ & _ & Hf & _ & Hg & Ht & Hr).
  apply flat_members_of in Hf. change (flat_members (with_recovery_fields r 0 None None)) with (flat_members r) in Hf.
  rewrite <- (rebuild data anchorDataKeys) at 1 by (done || by apply (bool_decide_unpack _)).
  unfold anchorData. rewrite Hf. change (of_keys data anchorDataKeys) with
    (of_keys data flat_keys ++ [("recoveryGeneration", at_key data "recoveryGeneration"); ("recoveryEvidence", at_key data "recoveryEvidence");
       ("recoveryTransition", at_key data "recoveryTransition"); ("recoveryReceipt", at_key data "recoveryReceipt")]).
  unfold recovery_members. rewrite Hg, Ht, Hr, !list_to_map_app.
  rewrite insert_union_r by (apply not_elem_of_list_to_map_1; rewrite of_keys_keys; by apply (bool_decide_unpack _)).
  match goal with |- ?a ∪ ?b = ?a ∪ ?c => enough (b = c) as ->; [done|] end.
  cbn [list_to_map foldr fst snd]. by rewrite (insert_insert_ne _ "recoveryEvidence" "recoveryGeneration"), insert_insert_eq by done.
Qed.

Lemma newline_in_evidence data r :
  parseAnchorData data = Ok r → size data ≠ trustAnchorLegacyKeys →
  parseAnchorData (<["recoveryEvidence" := at_key data "recoveryEvidence" +:+ String (chr 10) ""]> data) = Ok r.
Proof.
  intros H Hn. destruct (parse_composite_inv data r H Hn) as (Hs & _). destruct (shape_keys data Hs) as [[]|[_ Hd]]; [done|].
  set (data' := <[_ := _]> data).
  assert (Hd' : dom data' = dom data).
  { unfold data'. rewrite dom_insert_L, Hd. apply subseteq_union_1_L, singleton_subseteq_l, elem_of_list_to_set.
    by apply (bool_decide_unpack _). }
  assert (Hk : ∀ k, k ≠ "recoveryEvidence" → at_key data' k = at_key data k).
  { intros k Hk. unfold at_key, data'. by rewrite lookup_insert_ne. }
  assert (He : StdEncoding.DecodeString (at_key data' "recoveryEvidence") = StdEncoding.DecodeString (at_key data "recoveryEvidence")).
  { unfold data', at_key at 1. rewrite lookup_insert_eq. simpl. unfold StdEncoding.DecodeString. by rewrite strip_newlines_snoc. }
  revert H. unfold parseAnchorData, parse_flat. rewrite (anchorDataShape_dom data' data Hd'), He, !Hk by done.
  by rewrite <- !size_dom, Hd'.
Qed.



End record.
