(* ===== verification/AnchorBackend.v ===== *)
(** * Where the trust anchor is kept (internal/store/trust_anchor_kubernetes.go and
    internal/store/trust_anchor_composite.go, lines 92-143)

    The Kubernetes backend reads and replaces a ConfigMap with three kinds of
    calls: reading the service account token, GET and PUT.  The members of the
    metadata it carries over (json.RawMessage) are kept as JSON values. *)

From S2P Require Export AnchorData Effects Http.
Open Scope go_scope.

(** ** The wire format *)

Record configMapWire := mkWire {
  APIVersion : string;
  Kind : string;
  Metadata : option (gmap string json);
  Data : option (gmap string string);
}.

Definition zero_wire : configMapWire := mkWire "" "" None None.

Definition decode_raw : decoder json := λ _ j, Some j.

Definition wire_fields : list (struct_field configMapWire) :=
  [at_field "apiVersion" APIVersion (λ x w, mkWire x (Kind w) (Metadata w) (Data w)) decode_string;
   at_field "kind" Kind (λ x w, mkWire (APIVersion w) x (Metadata w) (Data w)) decode_string;
   at_field "metadata" Metadata (λ x w, mkWire (APIVersion w) (Kind w) x (Data w)) (decode_map JNull decode_raw);
   at_field "data" Data (λ x w, mkWire (APIVersion w) (Kind w) (Metadata w) x) (decode_map "" decode_string)].

(** A nil map is read as an empty one. *)
Definition wire_data (w : configMapWire) : gmap string string := default ∅ (Data w).

Definition metadataString (w : configMapWire) (key : string) : string :=
  match default ∅ (Metadata w) !! key with Some (JStr s) => s | _ => "" end.

Definition setMetadataString (key value : string) (w : configMapWire) : configMapWire :=
  mkWire (APIVersion w) (Kind w) (Some (<[key := JStr value]> (default ∅ (Metadata w)))) (Data w).

Definition json_of_map (m : option (gmap string json)) : json :=
  match m with None => JNull | Some m => JObj (sort_keys (map_to_list m)) end.

Definition json_of_wire (w : configMapWire) : json :=
  JObj ((if bool_decide (APIVersion w = "") then [] else [("apiVersion", JStr (APIVersion w))]) ++
        (if bool_decide (Kind w = "") then [] else [("kind", JStr (Kind w))]) ++
        [("metadata", json_of_map (Metadata w)); ("data", json_of_map ((λ m : gmap string string, JStr <$> m) <$> Data w))]).

Definition wire_limit : nat := Z.to_nat (Z.shiftl 1 20).

Definition decode_wire (body : string) : option configMapWire :=
  Decode wire_limit (decode_struct wire_fields) zero_wire body.

(** ** Calls

    [HTTPDo] sends a request with its bearer token; the answer is the status
    and what can be read of the body. *)
Inductive kubeE : Type → Type :=
  | ReadToken (path : string) : kubeE (result string)
  | HTTPDo (method url token : string) (body : option string) : kubeE (result (Z * string)).

(** ** The client *)

Definition environment : Type := string → string.

Definition envOr (env : environment) (key fallback : string) : string :=
  if bool_decide (env key = "") then fallback else env key.

Record kubernetesTrustAnchor := mkKubernetes {
  k_name : string; k_namespace : string; k_baseURL : string; k_tokenPath : string }.

Definition newKubernetesTrustAnchor (env : environment) (name namespace : string) : kubernetesTrustAnchor :=
  let port := envOr env "KUBERNETES_SERVICE_PORT_HTTPS" (envOr env "KUBERNETES_SERVICE_PORT" "443") in
  let host := envOr env "KUBERNETES_SERVICE_HOST" "kubernetes.default.svc" in
  mkKubernetes name namespace ("https://" +:+ host +:+ ":" +:+ port) "/var/run/secrets/kubernetes.io/serviceaccount/token".

Definition kube_path (k : kubernetesTrustAnchor) : string :=
  k_baseURL k +:+ "/api/v1/namespaces/" +:+ url.PathEscape (k_namespace k) +:+ "/configmaps/" +:+ url.PathEscape (k_name k).

Section with_recovery.
Context {R : Recovery} `{!JSONType Transition} `{!JSONType Receipt} {Hurl : NetURL}.

Definition kube_request (k : kubernetesTrustAnchor) (method : string) (body : option string) :
    prog kubeE (result (Z * string)) :=
  match url_Parse (kube_path k) with
  | None => Ret (Err (Errorf "invalid request URL"))
  | Some _ =>
    let! token := call (ReadToken (k_tokenPath k)) in
    match token with
    | Err e => Ret (Err (ErrorWrap "read service-account token" e))
    | Ok token => call (HTTPDo method (kube_path k) ("Bearer " +:+ strings.TrimSpace token) body)
    end
  end.

Definition kubernetes_status (status : Z) : error := Errorf ("kubernetes status " +:+ strconv.FormatInt status).

(** What a GET that was answered gives. *)
Definition get_response (k : kubernetesTrustAnchor) (response : Z * string) : result (configMapWire * string) :=
  let (status, body) := response in
  if negb (status =? 200)%Z then Err (kubernetes_status status) else
  match decode_wire body with
  | None => Err (Errorf "decode config map")
  | Some wire =>
    let rv := metadataString wire "resourceVersion" in
    if bool_decide (rv = "") || negb (bool_decide (metadataString wire "name" = k_name k)) ||
       negb (bool_decide (metadataString wire "namespace" = k_namespace k))
    then Err (Errorf "invalid trust-anchor metadata") else Ok (wire, rv)
  end.

Definition getWire (k : kubernetesTrustAnchor) : prog kubeE (result (configMapWire * string)) :=
  response ←? kube_request k "GET" None; Ret (get_response k response).

Definition kube_Get (k : kubernetesTrustAnchor) : prog kubeE (result (trustAnchorRecord * string)) :=
  got ←? getWire k;
  let (wire, rv) := got in
  Ret (match parseAnchorData (wire_data wire) with Ok record => Ok (record, rv) | Err e => Err e end).

(** The wire a PUT sends. *)
Definition put_wire (k : kubernetesTrustAnchor) (wire : configMapWire) (rv : string) (record : trustAnchorRecord) :
    configMapWire :=
  setMetadataString "namespace" (k_namespace k)
    (setMetadataString "name" (k_name k)
       (setMetadataString "resourceVersion" rv
          (mkWire (APIVersion wire) (Kind wire) (Metadata wire) (Some (anchorData record))))).

Definition put_response (response : Z * string) : result string :=
  let (status, body) := response in
  if negb (status =? 200)%Z then Err (kubernetes_status status) else
  match decode_wire body with
  | None => Err (Errorf "decode config map")
  | Some got =>
    let updated := metadataString got "resourceVersion" in
    if bool_decide (updated = "") then Err (Errorf "missing updated resource version") else Ok updated
  end.

Definition kube_put (k : kubernetesTrustAnchor) (wire : configMapWire) (rv : string) (record : trustAnchorRecord) :
    prog kubeE (result string) :=
  response ←? kube_request k "PUT" (Some (print (json_of_wire (put_wire k wire rv record))));
  Ret (put_response response).

Definition kube_CAS (k : kubernetesTrustAnchor) (rv : string) (next : trustAnchorRecord) : prog kubeE (result string) :=
  if bool_decide (rv = "") then Ret (Err (Errorf "missing resource version")) else
  got ←? getWire k;
  let (wire, actualRV) := got in
  if negb (bool_decide (actualRV = rv)) then Ret (Err (Errorf "trust anchor resource version conflict")) else
  if bool_decide (size (wire_data wire) = trustAnchorLegacyKeys) then
    match parseAnchorData (wire_data wire) with
    | Err e => Ret (Err e)
    | Ok legacy =>
      rv ←? kube_put k wire rv legacy;
      kube_put k wire rv next
    end
  else kube_put k wire rv next.

(** ** The backend interface, and its adapter for the anchor service *)

Record trustAnchorBackend (E : Type → Type) := mkBackend {
  backend_Get : prog E (result (trustAnchorRecord * string));
  backend_CAS : string → trustAnchorRecord → prog E (result string);
}.
Arguments backend_Get {E}. Arguments backend_CAS {E}. Arguments mkBackend {E}.

Definition kubernetesAnchorBackend (k : kubernetesTrustAnchor) : trustAnchorBackend kubeE :=
  mkBackend (kube_Get k) (kube_CAS k).

Context `{!RecordVersions}.

Record recoveryAnchorBackend (E : Type → Type) := mkRecoveryBackend {
  rb_anchor : trustAnchorBackend E; rb_id : string }.
Arguments rb_anchor {E}. Arguments rb_id {E}. Arguments mkRecoveryBackend {E}.

Definition NewRecoveryAnchorBackend (env : environment) (anchorID name namespace : string) :
    result (recoveryAnchorBackend kubeE) :=
  if bool_decide (anchorID = "") || bool_decide (name = "") || bool_decide (namespace = "")
  then Err (Errorf "recovery anchor requires an id, configmap name, and namespace")
  else Ok (mkRecoveryBackend (kubernetesAnchorBackend (newKubernetesTrustAnchor env name namespace)) anchorID).

Definition checkID {E} (b : recoveryAnchorBackend E) (id : string) : option error :=
  if bool_decide (id = rb_id b) then None else Some (Errorf "unknown recovery anchor").

Definition recovery_Read {E} (b : recoveryAnchorBackend E) (id : string) : prog E (result (recoveryRecordT * string)) :=
  match checkID b id with
  | Some e => Ret (Err e)
  | None =>
    got ←? backend_Get (rb_anchor b);
    let (record, rv) := got in
    match validateStructure record with
    | Some e => Ret (Err e)
    | None => Ret (Ok (recoveryRecord record, rv))
    end
  end.

Definition recovery_CAS {E} (b : recoveryAnchorBackend E) (id version : string) (record : recoveryRecordT) :
    prog E (option error) :=
  match checkID b id with
  | Some e => Ret (Some e)
  | None =>
    match anchorRecordFromRecovery record with
    | Err e => Ret (Some e)
    | Ok next =>
      match validateStructure next with
      | Some e => Ret (Some e)
      | None => _ ←! backend_CAS (rb_anchor b) version next; Ret None
      end
    end
  end.

End with_recovery.
