(* ===== verification/AnchorRefinement.v ===== *)
(** * The Kubernetes backend is the register the trust protocol relies on

    The API server is described by what it documents of a ConfigMap: reads
    return the object and its resource version, a replacement is applied when
    it names the current version and makes a new one, and any call may fail
    before or after it took effect, or take effect late.  Against such a server,
    shared with other writers, [kube_Get] and [kube_CAS] have the answers and
    effects of the calls [AnchorGet] and [AnchorCAS] of Services.v. *)

From S2P Require Export AnchorBackend AnchorDataFacts Services.
Open Scope go_scope.

(** ** The wire format is read back *)

Record wire_ok (w : configMapWire) : Prop := {
  wo_version : ValidString (APIVersion w) = true;
  wo_kind : ValidString (Kind w) = true;
  wo_metadata : map_Forall (λ k j, ValidString k = true ∧ printable 2 j) (default ∅ (Metadata w));
}.

Lemma printable_map (m : gmap string json) :
  map_Forall (λ k j, ValidString k = true ∧ printable 2 j) m → printable 1 (json_of_map (Some m)).
Proof.
  intros Hm. apply printable_members_intro; [|done]. rewrite sort_keys_perm. apply Forall_forall.
  intros [k j] Hkj. apply elem_of_map_to_list in Hkj. exact (Hm _ _ Hkj).
Qed.

Lemma Unmarshal_wire w md d :
  Metadata w = Some md → Data w = Some d → wire_ok w → valid_map d →
  Unmarshal (decode_struct wire_fields) zero_wire (print (json_of_wire w)) = Some w.
Proof.
  intros Hm Hd [Hv Hk Hmd] Hvd. destruct w as [av kd m dt]. simpl in Hm, Hd, Hv, Hk, Hmd. subst m dt. simpl in Hmd.
  assert (Hp : printable 0 (json_of_wire (mkWire av kd (Some md) (Some d)))).
  { apply printable_members_intro; [|done]. simpl. apply Forall_app. split; [case_bool_decide; by members|].
    apply Forall_app. split; [case_bool_decide; by members|]. members; (split; [done|]); apply printable_map; [done|].
    intros k j. rewrite lookup_fmap. intros (s & Hs & ->)%fmap_Some. exact (Hvd _ _ Hs). }
  unfold Unmarshal. rewrite parse_print by done. cbn [mbind option_bind]. unfold decode_struct, json_of_wire.
  cbn [APIVersion Kind Metadata Data option_fmap option_map fmap].
  rewrite decode_members_app.
  assert (E1 : decode_members wire_fields zero_wire (if bool_decide (av = "") then [] else [("apiVersion", JStr av)]) =
               Some (mkWire av "" None None)).
  { case_bool_decide as E; [by rewrite E|]. cbn [decode_members]. by erewrite decode_member_at by reflexivity. }
  rewrite E1. cbn [mbind option_bind].
  assert (E2 : decode_members wire_fields (mkWire av "" None None) (if bool_decide (kd = "") then [] else [("kind", JStr kd)]) =
               Some (mkWire av kd None None)).
  { clear E1. case_bool_decide as E; [by rewrite E|]. cbn [decode_members]. by erewrite decode_member_at by reflexivity. }
  rewrite decode_members_app, E2. cbn [mbind option_bind decode_members].
  erewrite (decode_member_at wire_fields "metadata"); cycle 1; [reflexivity| |].
  { change (json_of_map (Some md)) with (JObj (sort_keys (map_to_list md))). rewrite <- (map_fmap_id md) at 1.
    apply (decode_map_sorted JNull decode_raw id id md). intros k j _. done. }
  cbn [mbind option_bind].
  erewrite (decode_member_at wire_fields "data"); cycle 1; [reflexivity| |].
  { apply (decode_map_sorted "" decode_string JStr as_string d). intros k s _. done. }
  done.
Qed.

(** ** The API server *)

(** The versions of the object, oldest first, and the replacements on their way. *)
Record cluster := mkCluster { objects : list (gmap string string); late_puts : list string }.

Definition object_version (κ : cluster) : nat := pred (length (objects κ)).

Definition wire_of (body : string) : option configMapWire := Unmarshal (decode_struct wire_fields) zero_wire body.

Section server.
Context {R : Recovery} {P : ServiceParams} `{!JSONType Transition} `{!JSONType Receipt} {Hurl : NetURL}.

Definition apply_put (body : string) (κ : cluster) : option cluster :=
  w ← wire_of body;
  if bool_decide (metadataString w "resourceVersion" = rv_name (object_version κ))
  then Some (mkCluster (objects κ ++ [wire_data w]) (late_puts κ)) else None.

(** What a response shows of the object. *)
Definition shows (κ : cluster) (w : configMapWire) : Prop :=
  wire_ok w ∧ metadataString w "resourceVersion" = rv_name (object_version κ) ∧ Data w = last (objects κ).

Definition kube_serves {X} (e : kubeE X) : cluster → X → cluster → Prop :=
  match e in kubeE X return cluster → X → cluster → Prop with
  | ReadToken _ => λ κ _ κ', κ' = κ
  | HTTPDo _ _ _ None => λ κ x κ',
      κ' = κ ∧ ∀ text w, x = Ok (200%Z, text) → decode_wire text = Some w → shows κ w
  | HTTPDo _ _ _ (Some body) => λ κ x κ',
      (∃ text, x = Ok (200%Z, text) ∧ apply_put body κ = Some κ' ∧
         ∀ w, decode_wire text = Some w →
           wire_ok w ∧ metadataString w "resourceVersion" = rv_name (object_version κ')) ∨
      ((∀ text, x ≠ Ok (200%Z, text)) ∧
       (κ' = κ ∨ apply_put body κ = Some κ' ∨ κ' = mkCluster (objects κ) (body :: late_puts κ)))
  end.

(** A record that can be stored, and an object that stores one. *)
Definition good (r : trustAnchorRecord) : Prop :=
  validateStructure r = None ∧ storable r ∧ valid_map (anchorData r).

Definition sound (d : gmap string string) (r : trustAnchorRecord) : Prop := parseAnchorData d = Ok r ∧ good r.

(** What happens between two calls: others write records of [W], and late
    replacements arrive. *)
Inductive kube_env (W : trustAnchorRecord → Prop) (κ : cluster) : cluster → Prop :=
  | other_write d r : W r → sound d r → kube_env W κ (mkCluster (objects κ ++ [d]) (late_puts κ))
  | late_put l1 body l2 κ' :
      late_puts κ = l1 ++ body :: l2 → apply_put body (mkCluster (objects κ) (l1 ++ l2)) = Some κ' → kube_env W κ κ'.

(** A run of a program from one state to another, with its result. *)
Fixpoint runs_to {A} (W : trustAnchorRecord → Prop) (p : prog kubeE A) (κ : cluster) (x : A) (κ' : cluster) : Prop :=
  match p with
  | Ret a => x = a ∧ κ' = κ
  | Call e f => ∃ κ1 y κ2, rtc (kube_env W) κ κ1 ∧ kube_serves e κ1 y κ2 ∧ runs_to W (f y) κ2 x κ'
  end.

(** The same between two calls to the register of Services.v: [env_touch] and
    [env_deliver] are steps the service takes there. *)
Inductive anchor_env (W : trustAnchorRecord → Prop) (σ : services) : services → Prop :=
  | env_write r : W r → anchor_env W σ (set_history (history σ ++ [r]) σ)
  | env_touch r : anchor_now σ = Some r → anchor_env W σ (set_history (history σ ++ [r]) σ)
  | env_deliver l1 rv next l2 σ' :
      late_cas σ = l1 ++ (rv, next) :: l2 →
      apply_cas false rv next (set_late (l1 ++ l2) (late_exec σ) (late_migrations σ) σ) = Some σ' → anchor_env W σ σ'.

(** ** The abstraction *)

(** The late replacements: a late compare-and-swap, or a rewrite of the record
    at the version it names. *)
Inductive late_models (h : list trustAnchorRecord) : list string → list (string * trustAnchorRecord) → Prop :=
  | lm_nil : late_models h [] []
  | lm_cas b w rv next bs cs :
      wire_of b = Some w → metadataString w "resourceVersion" = rv → sound (wire_data w) next →
      late_models h bs cs → late_models h (b :: bs) ((rv, next) :: cs)
  | lm_touch b w v r bs cs :
      wire_of b = Some w → metadataString w "resourceVersion" = rv_name v → h !! v = Some r → sound (wire_data w) r →
      late_models h bs cs → late_models h (b :: bs) cs.

Record models (κ : cluster) (σ : services) : Prop := {
  mo_objects : Forall2 sound (objects κ) (history σ);
  mo_late : late_models (history σ) (late_puts κ) (late_cas σ);
}.

Lemma late_models_prefix h h' bs cs : h `prefix_of` h' → late_models h bs cs → late_models h' bs cs.
Proof.
  intros [k ->]. induction 1 as [|? ? ? ? ? ? ? ? ? ? IH|? ? ? ? ? ? ? ? Hv ? ? IH]; [constructor|by eapply lm_cas|].
  eapply lm_touch; [done|done| |done|done]. rewrite lookup_app_l; [done|]. by eapply lookup_lt_Some.
Qed.

Lemma late_models_split h l1 b l2 cs : late_models h (l1 ++ b :: l2) cs →
  (∃ w rv next c1 c2, wire_of b = Some w ∧ metadataString w "resourceVersion" = rv ∧ sound (wire_data w) next ∧
     cs = c1 ++ (rv, next) :: c2 ∧ late_models h (l1 ++ l2) (c1 ++ c2)) ∨
  (∃ w v r, wire_of b = Some w ∧ metadataString w "resourceVersion" = rv_name v ∧ h !! v = Some r ∧
     sound (wire_data w) r ∧ late_models h (l1 ++ l2) cs).
Proof.
  revert cs. induction l1 as [|b1 l1 IH]; intros cs H.
  - inversion H as [|? w rv next ? cs' Hw Hrv Hs Hl|? w v r ? ? Hw Hrv Hv Hs Hl]; subst; [left|right].
    + exists w, (metadataString w "resourceVersion"), next, [], cs'. by split_and!.
    + exists w, v, r. by split_and!.
  - inversion H as [|? w rv next ? cs' Hw Hrv Hs Hl|? w v r ? ? Hw Hrv Hv Hs Hl]; subst;
      destruct (IH _ Hl) as [(w' & rv' & n' & c1 & c2 & H1 & H2 & H3 & -> & H5)|(w' & v' & r' & H1 & H2 & H3 & H4 & H5)].
    + left. exists w', rv', n', ((metadataString w "resourceVersion", next) :: c1), c2. split_and!; try done. by eapply lm_cas.
    + right. exists w', v', r'. split_and!; try done. by eapply lm_cas.
    + left. exists w', rv', n', c1, c2. split_and!; try done. by eapply lm_touch.
    + right. exists w', v', r'. split_and!; try done. by eapply lm_touch.
Qed.

Lemma models_version κ σ : models κ σ → object_version κ = current_version σ.
Proof. intros [Ho _]. unfold object_version, current_version. by rewrite (Forall2_length _ _ _ Ho). Qed.

Lemma models_append κ σ d r bs cs :
  models κ σ → sound d r → late_models (history σ) bs cs →
  models (mkCluster (objects κ ++ [d]) bs) (set_late cs (late_exec σ) (late_migrations σ) (set_history (history σ ++ [r]) σ)).
Proof.
  intros [Ho _] Hs Hl. split; simpl; [apply Forall2_app; [done|by constructor]|].
  eapply late_models_prefix; [|exact Hl]. by eexists.
Qed.

Lemma set_late_same σ : set_late (late_cas σ) (late_exec σ) (late_migrations σ) σ = σ.
Proof. by destruct σ. Qed.

Lemma apply_put_Some body κ κ' : apply_put body κ = Some κ' →
  ∃ w, wire_of body = Some w ∧ metadataString w "resourceVersion" = rv_name (object_version κ) ∧
    κ' = mkCluster (objects κ ++ [wire_data w]) (late_puts κ).
Proof.
  unfold apply_put. destruct (wire_of body) as [w|]; [|done]. simpl. case_bool_decide; [|done]. intros [= <-]. eauto.
Qed.

(** Every step of the cluster is a step of the register. *)
Lemma kube_env_simulated W κ κ' σ : models κ σ → kube_env W κ κ' → ∃ σ', anchor_env W σ σ' ∧ models κ' σ'.
Proof.
  intros Hm Hs. pose proof (models_version _ _ Hm) as Hver. destruct Hs as [d r HW Hd|l1 body l2 κ' Hl Ha].
  - eexists. split; [by apply env_write|]. pose proof (models_append κ σ d r _ _ Hm Hd (mo_late _ _ Hm)) as H.
    by rewrite <- (set_late_same (set_history _ _)).
  - apply apply_put_Some in Ha as (w & Hw & Hrv & ->). simpl in *.
    pose proof (mo_late _ _ Hm) as Hlate. rewrite Hl in Hlate. change (object_version _) with (object_version κ) in Hrv.
    apply late_models_split in Hlate as [(w' & rv & next & c1 & c2 & Hw' & Hrv' & Hs & Hc & Hlate)|(w' & v & r & Hw' & Hrv' & Hv & Hs & Hlate)];
      rewrite Hw in Hw'; injection Hw' as <-.
    + exists (set_late (c1 ++ c2) (late_exec σ) (late_migrations σ) (set_history (history σ ++ [next]) σ)).
      split; [|by apply models_append]. eapply env_deliver; [exact Hc|]. unfold apply_cas.
      rewrite bool_decide_eq_true_2; [done|]. rewrite <- Hrv', Hrv, Hver. done.
    + rewrite Hrv in Hrv'. apply rv_name_inj in Hrv' as <-. rewrite Hver in Hv.
      exists (set_history (history σ ++ [r]) σ). split.
      * apply env_touch. unfold anchor_now. by rewrite last_lookup.
      * pose proof (models_append κ σ _ r _ _ Hm Hs Hlate). by rewrite <- (set_late_same (set_history _ _)).
Qed.

Lemma kube_envs_simulated W κ κ' σ :
  models κ σ → rtc (kube_env W) κ κ' → ∃ σ', rtc (anchor_env W) σ σ' ∧ models κ' σ'.
Proof.
  intros Hm Hs. revert σ Hm. induction Hs as [|κ κ1 κ2 Hstep _ IH]; intros σ Hm; [by exists σ|].
  destruct (kube_env_simulated W κ κ1 σ Hm Hstep) as (σ1 & H1 & Hm1). destruct (IH σ1 Hm1) as (σ2 & H2 & Hm2).
  exists σ2. split; [by eapply rtc_l|done].
Qed.

(** No version is forgotten. *)
Lemma kube_envs_prefix W κ κ' : rtc (kube_env W) κ κ' → objects κ `prefix_of` objects κ'.
Proof.
  induction 1 as [|κ κ1 κ2 Hs _ IH]; [done|]. etrans; [|exact IH].
  destruct Hs as [d r ? ?|l1 body l2 κ1 ? (w & ? & ? & ->)%apply_put_Some]; by eexists.
Qed.

(** Every step makes a new version. *)
Lemma kube_env_longer W κ κ' : kube_env W κ κ' → length (objects κ') = S (length (objects κ)).
Proof.
  intros [d r ? ?|l1 body l2 κ1 ? (w & ? & ? & ->)%apply_put_Some]; simpl; rewrite length_app; simpl; lia.
Qed.

Lemma kube_envs_same_version W κ κ' :
  rtc (kube_env W) κ κ' → objects κ ≠ [] → object_version κ' = object_version κ → κ' = κ.
Proof.
  intros Hs Hne. destruct Hs as [|κ κ1 κ2 Hstep Hs]; [done|]. intros Hv. exfalso.
  assert (Hle : ∀ a b, rtc (kube_env W) a b → length (objects a) ≤ length (objects b)).
  { induction 1 as [|a b c Hab _ IH]; [done|]. apply kube_env_longer in Hab. lia. }
  apply Hle in Hs. apply kube_env_longer in Hstep. unfold object_version in Hv.
  destruct (objects κ); [done|]. simpl in *. lia.
Qed.

(** ** The calls *)

Lemma runs_to_bind {A B} W (p : prog kubeE A) (f : A → prog kubeE B) κ x κ' :
  runs_to W (prog_bind p f) κ x κ' → ∃ y κ1, runs_to W p κ y κ1 ∧ runs_to W (f y) κ1 x κ'.
Proof.
  revert κ. induction p as [a|X e g IH]; intros κ; [intros H; by exists a, κ|].
  intros (κ1 & y & κ2 & H1 & H2 & H3). destruct (IH y κ2 H3) as (z & κ3 & H4 & H5).
  exists z, κ3. split; [|done]. by exists κ1, y, κ2.
Qed.

Lemma runs_to_try {A B} W (p : prog kubeE (result A)) (f : A → prog kubeE (result B)) κ x κ' :
  runs_to W (try_bind p f) κ x κ' →
  ∃ y κ1, runs_to W p κ y κ1 ∧
    ((∃ a, y = Ok a ∧ runs_to W (f a) κ1 x κ') ∨ (∃ e, y = Err e ∧ x = Err e ∧ κ' = κ1)).
Proof.
  intros H. unfold try_bind in H. apply runs_to_bind in H as (y & κ1 & H1 & H2). exists y, κ1. split; [done|].
  destruct y as [a|e]; [left; by exists a|right]. destruct H2 as [-> ->]. by exists e.
Qed.

(** A request is answered at once or after steps of the others, or not sent. *)
Lemma request_runs W k method body κ x κ' : runs_to W (kube_request k method body) κ x κ' →
  ∃ κ1, rtc (kube_env W) κ κ1 ∧
    ((κ' = κ1 ∧ ∃ e, x = Err e) ∨ (∃ url token, kube_serves (HTTPDo method url token body) κ1 x κ')).
Proof.
  unfold kube_request. destruct (url_Parse _); [|intros [-> ->]; exists κ; split; [done|left; eauto]].
  intros (κ1 & y & κ2 & H1 & Hk & H). simpl in Hk. subst κ2. destruct y as [token|e].
  - destruct H as (κ3 & z & κ4 & H3 & Hs & -> & ->). exists κ3. split; [by etrans|]. right. by eexists _, _.
  - destruct H as [-> ->]. exists κ1. split; [done|]. left. eauto.
Qed.

Lemma get_response_spec k x w rv : get_response k x = Ok (w, rv) →
  ∃ text, x = (200%Z, text) ∧ decode_wire text = Some w ∧ rv = metadataString w "resourceVersion" ∧
    metadataString w "name" = k_name k ∧ metadataString w "namespace" = k_namespace k.
Proof.
  unfold get_response. destruct x as [status text]. destruct (Z.eqb_spec status 200) as [->|]; [|done]. cbn [negb]. cbv iota.
  destruct (decode_wire text) as [w'|] eqn:E; [|done]. cbv zeta. destruct (_ || _ || _) eqn:Em; [done|].
  intros [= <- <-]. bool_prop. eauto 6.
Qed.

Lemma put_response_spec x v : put_response x = Ok v →
  ∃ text w, x = (200%Z, text) ∧ decode_wire text = Some w ∧ v = metadataString w "resourceVersion".
Proof.
  unfold put_response. destruct x as [status text]. destruct (Z.eqb_spec status 200) as [->|]; [|done]. cbn [negb]. cbv iota.
  destruct (decode_wire text) as [w|] eqn:E; [|done]. cbv zeta. case_bool_decide; [done|]. intros [= <-]. eauto.
Qed.

Lemma getWire_runs W k κ x κ' : runs_to W (getWire k) κ x κ' →
  rtc (kube_env W) κ κ' ∧
  ∀ w rv, x = Ok (w, rv) → shows κ' w ∧ rv = rv_name (object_version κ') ∧
    metadataString w "name" = k_name k ∧ metadataString w "namespace" = k_namespace k.
Proof.
  intros H. unfold getWire in H. apply runs_to_try in H as (y & κ1 & Hr & H).
  apply request_runs in Hr as (κ2 & He & Hr).
  destruct H as [(a & -> & -> & ->)|(e & -> & -> & ->)].
  - destruct Hr as [[_ [e [=]]]|(u & token & Hk & Hshow)]. subst κ1. split; [done|]. intros w rv Hx.
    apply get_response_spec in Hx as (text & -> & Hd & -> & Hn & Hns).
    pose proof (Hshow text w eq_refl Hd) as Hw. split; [done|]. by destruct Hw as (_ & ? & _).
  - split; [|done]. destruct Hr as [[-> _]|(u & token & -> & _)]; done.
Qed.

(** What a replacement does. *)
Definition put_outcome (body : string) (κ : cluster) (x : result string) (κ' : cluster) : Prop :=
  (∃ v, x = Ok v ∧ apply_put body κ = Some κ' ∧ v = rv_name (object_version κ') ∧ ValidString v = true) ∨
  ((∃ e, x = Err e) ∧ (κ' = κ ∨ apply_put body κ = Some κ' ∨ κ' = mkCluster (objects κ) (body :: late_puts κ))).

Lemma metadataString_valid w key : wire_ok w → ValidString (metadataString w key) = true.
Proof.
  intros [_ _ Hm]. unfold metadataString. destruct (default ∅ (Metadata w) !! key) as [j|] eqn:E; [|done].
  destruct (Hm _ _ E) as [_ Hj]. by destruct j.
Qed.

Lemma put_effect_cases body κ y κ' :
  kube_serves (HTTPDo "PUT" "" "" (Some body)) κ y κ' → κ' = κ ∨ apply_put body κ = Some κ' ∨ κ' = mkCluster (objects κ) (body :: late_puts κ).
Proof. intros [(text & _ & Ha & _)|[_ Ha]]; auto. Qed.

Lemma kube_put_runs W k w rv r κ x κ' : runs_to W (kube_put k w rv r) κ x κ' →
  ∃ κ1, rtc (kube_env W) κ κ1 ∧ put_outcome (print (json_of_wire (put_wire k w rv r))) κ1 x κ'.
Proof.
  intros H. unfold kube_put in H. set (body := print _) in *. clearbody body.
  apply runs_to_try in H as (y & κ1 & Hr & H). apply request_runs in Hr as (κ2 & He & Hr). exists κ2. split; [done|].
  destruct H as [(a & -> & -> & ->)|(e & -> & -> & ->)].
  - destruct Hr as [[_ [e [=]]]|(u & token & Hk)]. pose proof (put_effect_cases _ _ _ _ Hk) as Heff.
    destruct (put_response a) as [v|e] eqn:Ev; [left|right; eauto].
    apply put_response_spec in Ev as (text & w' & -> & Hd & ->).
    destruct Hk as [(text' & [= <-] & Ha & Hw)|[Hn _]]; [|by destruct (Hn text)].
    destruct (Hw w' Hd) as [Hok Hv]. eexists. split_and!; [done|done|done|]. by apply metadataString_valid.
  - right. split; [by eexists|]. destruct Hr as [[-> _]|(u & token & Hk)]; [by left|]. exact (put_effect_cases _ _ _ _ Hk).
Qed.

(** What the server reads in a replacement. *)
Lemma put_wire_read k w rv r :
  wire_ok w → ValidString rv = true → ValidString (k_name k) = true → ValidString (k_namespace k) = true → good r →
  wire_of (print (json_of_wire (put_wire k w rv r))) = Some (put_wire k w rv r).
Proof.
  intros [Hv Hk Hm] Hrv Hn Hns (_ & _ & Hd). unfold wire_of. eapply Unmarshal_wire; [reflexivity|reflexivity| |exact Hd].
  split; [done|done|]. simpl. repeat (apply map_Forall_insert_2; [done|]). done.
Qed.

Lemma put_wire_version k w rv r : metadataString (put_wire k w rv r) "resourceVersion" = rv.
Proof. unfold metadataString, put_wire. simpl. by rewrite !lookup_insert_ne, lookup_insert_eq by done. Qed.

Lemma put_wire_sound k w rv r : good r → sound (wire_data (put_wire k w rv r)) r.
Proof. intros Hg. destruct Hg as (Hv & Hs & Hd). split; [|by split_and!]. by apply parse_anchorData. Qed.

(** ** The refinement *)

Definition same_answer {A} (x y : result A) : Prop :=
  match x, y with Ok a, Ok b => a = b | Err _, Err _ => True | _, _ => False end.

(** The update of the register, between steps of the others, that a run is. *)
Definition cas_refines W (σ : services) (rv : string) (next : trustAnchorRecord) (x : result string) (κ' : cluster) : Prop :=
  ∃ w σ1 y σ2 σ', rtc (anchor_env W) σ σ1 ∧ serve_cas w rv next σ1 = (y, σ2) ∧ same_answer x y ∧
    rtc (anchor_env W) σ2 σ' ∧ models κ' σ'.

(** The identifiers a reservation publishes. *)
Definition proposing (next : trustAnchorRecord) (σ : services) : services :=
  match PendingEpoch next with Some _ => propose (PendingID next) σ | None => σ end.

Lemma models_proposing κ next σ : models κ σ → models κ (proposing next σ).
Proof. unfold proposing. destruct (PendingEpoch next); [|done]. intros [Ho Hl]. by split. Qed.

Lemma cas_refines_env W σ σ1 rv next x κ' :
  rtc (anchor_env W) σ σ1 → cas_refines W σ1 rv next x κ' → cas_refines W σ rv next x κ'.
Proof. intros H (w & σ2 & y & σ3 & σ' & H1 & H2). exists w, σ2, y, σ3, σ'. split; [by etrans|done]. Qed.

Lemma refines_failed W σ rv next e κ' : models κ' σ → cas_refines W σ rv next (Err e) κ'.
Proof.
  intros Hm. exists (Answer (Failed e) "" false), σ, (Err e), (proposing next σ), (proposing next σ).
  split_and!; try done. by apply models_proposing.
Qed.

(** The record in the register is the one the object shows. *)
Lemma models_last κ σ d : models κ σ → last (objects κ) = Some d → ∃ r, anchor_now σ = Some r ∧ sound d r.
Proof.
  intros Hm Hd. pose proof (models_version _ _ Hm) as Hv. destruct Hm as [Ho _]. rewrite last_lookup in Hd.
  destruct (Forall2_lookup_l _ _ _ _ _ Ho Hd) as (r & Hr & Hs). exists r. split; [|done].
  unfold anchor_now. rewrite last_lookup. unfold current_version, object_version in Hv. by rewrite <- Hv.
Qed.

Lemma sound_fun d r r' : sound d r → sound d r' → r = r'.
Proof. intros [H1 _] [H2 _]. congruence. Qed.

Lemma models_touch κ σ d r : models κ σ → sound d r →
  models (mkCluster (objects κ ++ [d]) (late_puts κ)) (set_history (history σ ++ [r]) σ).
Proof.
  intros Hm Hs. pose proof (models_append κ σ d r _ _ Hm Hs (mo_late _ _ Hm)).
  by rewrite <- (set_late_same (set_history _ _)).
Qed.

(** A write that takes effect. *)
Lemma refines_applied W κ σ (x : result string) rv next d touch :
  models κ σ → sound d next → rv = rv_name (object_version κ) →
  (∀ v, x = Ok v → v = rv_name (length (objects κ) + (length touch : nat))) →
  (touch = [] ∨ ∃ d' r', touch = [d'] ∧ sound d' r' ∧ anchor_now σ = Some r') →
  objects κ ≠ [] →
  cas_refines W σ rv next x (mkCluster (objects κ ++ touch ++ [d]) (late_puts κ)).
Proof.
  intros Hm Hd -> Hx Ht Hne. pose proof (models_version _ _ Hm) as Hv.
  set (leg := match touch with [] => false | _ => true end).
  set (how := match x with Ok _ => Answered None | Err e => Unknown e end).
  set (h := (if leg then history σ ++ option_list (anchor_now σ) else history σ) ++ [next]).
  set (σ2 := set_history h (proposing next σ)).
  assert (Ha : apply_cas leg (rv_name (object_version κ)) next (proposing next σ) = Some σ2).
  { unfold apply_cas. unfold proposing, σ2, h, proposing. rewrite Hv.
    destruct (PendingEpoch next); (rewrite bool_decide_eq_true_2 by done; by destruct leg). }
  assert (Hm2 : models (mkCluster (objects κ ++ touch ++ [d]) (late_puts κ)) σ2).
  { assert (Hm1 : models (mkCluster (objects κ ++ touch) (late_puts κ))
              (set_history (if leg then history σ ++ option_list (anchor_now σ) else history σ) (proposing next σ))).
    { destruct Ht as [->|(d' & r' & -> & Hs' & Hn')]; simpl.
      - rewrite app_nil_r. destruct κ. pose proof (models_proposing _ next σ Hm) as H. unfold leg, proposing in *.
        by destruct σ, (PendingEpoch next).
      - unfold leg. rewrite Hn'. simpl. pose proof (models_touch _ _ d' r' (models_proposing _ next σ Hm) Hs') as H.
        unfold proposing in *. by destruct (PendingEpoch next). }
    pose proof (models_touch _ _ d next Hm1 Hd) as H. simpl in H. rewrite <- app_assoc in H.
    unfold σ2, h. unfold proposing in *. by destruct (PendingEpoch next). }
  exists (Answer how "" leg), σ, (match x with Ok _ => Ok (rv_name (current_version σ2)) | Err e => Err e end), σ2, σ2.
  split_and!; [done| | |done|done].
  - unfold serve_cas. fold (proposing next σ). unfold how. destruct x; simpl; by rewrite Ha.
  - destruct x as [v|e]; [|done]. simpl. rewrite (Hx v eq_refl), <- (models_version _ _ Hm2). unfold object_version. simpl.
    rewrite !length_app. simpl. f_equal. lia.
Qed.

(** A write on its way does not disturb the others. *)
Definition delaying (c : string * trustAnchorRecord) (next : trustAnchorRecord) (σ : services) : services :=
  set_late (c :: late_cas (proposing next σ)) (late_exec (proposing next σ)) (late_migrations (proposing next σ))
    (proposing next σ).

Lemma delaying_env W c next σ σ' : anchor_env W σ σ' → anchor_env W (delaying c next σ) (delaying c next σ').
Proof.
  intros [r HW|r Hr|l1 rv n l2 σ'' Hl Ha].
  - pose proof (env_write W (delaying c next σ) r HW) as H. unfold delaying, proposing in *. by destruct (PendingEpoch next).
  - assert (Hr' : anchor_now (delaying c next σ) = Some r) by (unfold delaying, proposing; by destruct (PendingEpoch next)).
    pose proof (env_touch W _ r Hr') as H. unfold delaying, proposing in *. by destruct (PendingEpoch next).
  - unfold apply_cas in Ha. case_bool_decide as Hv; [|done]. injection Ha as <-.
    apply (env_deliver W _ (c :: l1) rv n l2).
    + unfold delaying, proposing. destruct (PendingEpoch next); simpl; by rewrite Hl.
    + unfold apply_cas, delaying, proposing in *. destruct (PendingEpoch next); simpl in *; by rewrite bool_decide_eq_true_2.
Qed.

Lemma delaying_envs W c next σ σ' :
  rtc (anchor_env W) σ σ' → rtc (anchor_env W) (delaying c next σ) (delaying c next σ').
Proof. induction 1 as [|σ σ1 σ2 H _ IH]; [done|]. eapply rtc_l; [by apply delaying_env|done]. Qed.

Lemma models_delaying κ σ b w rv next : models κ σ →
  wire_of b = Some w → metadataString w "resourceVersion" = rv → sound (wire_data w) next →
  models (mkCluster (objects κ) (b :: late_puts κ)) (delaying (rv, next) next σ).
Proof.
  intros Hm Hw Hrv Hs. destruct (models_proposing κ next σ Hm) as [Ho Hl]. split; [done|]. by eapply lm_cas.
Qed.

(** A write that may take effect later. *)
Lemma refines_late W κ σ e b w rv next : models κ σ →
  wire_of b = Some w → metadataString w "resourceVersion" = rv → sound (wire_data w) next →
  cas_refines W σ rv next (Err e) (mkCluster (objects κ) (b :: late_puts κ)).
Proof.
  intros Hm Hw Hrv Hs. exists (Answer (Delayed e) "" false), σ, (Err e), (delaying (rv, next) next σ), (delaying (rv, next) next σ).
  split_and!; [done|done|done|done|by eapply models_delaying].
Qed.

(** The same after the rewrite of a record in the old shape. *)
Lemma refines_touched_late W κ σ e b w d r rv next κ' :
  models κ σ → anchor_now σ = Some r → sound d r → rv = rv_name (object_version κ) →
  rtc (kube_env W) (mkCluster (objects κ ++ [d]) (late_puts κ)) κ' →
  wire_of b = Some w → metadataString w "resourceVersion" = rv_name (length (objects κ)) → sound (wire_data w) next →
  cas_refines W σ rv next (Err e) (mkCluster (objects κ') (b :: late_puts κ')).
Proof.
  intros Hm Hr Hd -> He Hw Hrv Hs. pose proof (models_version _ _ Hm) as Hv.
  pose proof (models_touch κ σ d r Hm Hd) as Ht. set (σt := set_history (history σ ++ [r]) σ) in *.
  destruct (kube_envs_simulated W _ _ _ Ht He) as (σ' & He' & Hm').
  set (c := (rv_name (length (objects κ)), next)).
  exists (Answer (Delayed e) "" true), σ, (Err e), (delaying c next σt), (delaying c next σ').
  split_and!; [done| |done|by apply delaying_envs|by eapply models_delaying].
  unfold serve_cas. fold (proposing next σ). simpl. f_equal. unfold send_late. rewrite bool_decide_eq_true_2.
  2:{ rewrite Hv. unfold proposing. by destruct (PendingEpoch next). }
  assert (Hn : anchor_now (proposing next σ) = Some r) by (unfold proposing; by destruct (PendingEpoch next)).
  rewrite Hn. simpl. unfold delaying, c, σt. replace (length (objects κ)) with (current_version (set_history (history σ ++ [r]) σ)).
  - unfold proposing. by destruct (PendingEpoch next).
  - fold σt. rewrite <- (models_version _ _ Ht). unfold object_version. simpl. rewrite length_app. simpl. lia.
Qed.

Lemma shows_last κ w : shows κ w → wire_data w ≠ ∅ → last (objects κ) = Some (wire_data w).
Proof. intros (_ & _ & Hd) Hne. rewrite <- Hd. unfold wire_data in *. by destruct (Data w). Qed.

(** What the server reads in the replacements of one call. *)
Lemma put_wire_ok k w rv r :
  wire_ok w → metadataString w "name" = k_name k → metadataString w "namespace" = k_namespace k →
  ValidString rv = true → good r →
  let b := print (json_of_wire (put_wire k w rv r)) in
  wire_of b = Some (put_wire k w rv r) ∧ metadataString (put_wire k w rv r) "resourceVersion" = rv ∧
  sound (wire_data (put_wire k w rv r)) r ∧
  ∀ κ κ', apply_put b κ = Some κ' →
    rv = rv_name (object_version κ) ∧ κ' = mkCluster (objects κ ++ [wire_data (put_wire k w rv r)]) (late_puts κ).
Proof.
  intros Hw Hn Hns Hrv Hr b.
  assert (Hb : wire_of b = Some (put_wire k w rv r)).
  { apply put_wire_read; try done; [rewrite <- Hn|rewrite <- Hns]; by apply metadataString_valid. }
  split_and!; [done|apply put_wire_version|by apply put_wire_sound|].
  intros κ κ' (w' & Hw' & Hv & ->)%apply_put_Some. rewrite Hb in Hw'. injection Hw' as <-.
  rewrite put_wire_version in Hv. done.
Qed.

(** One replacement is one update. *)
Lemma refines_put W κ σ x κ' k w rv next :
  wire_ok w → metadataString w "name" = k_name k → metadataString w "namespace" = k_namespace k → ValidString rv = true →
  good next → models κ σ → objects κ ≠ [] → put_outcome (print (json_of_wire (put_wire k w rv next))) κ x κ' →
  cas_refines W σ rv next x κ'.
Proof.
  intros Hw Hn Hns Hrv Hnext Hm Hne Hput.
  destruct (put_wire_ok k w rv next Hw Hn Hns Hrv Hnext) as (Hb & Hbv & Hs & Ha). set (d := put_wire k w rv next) in *.
  destruct Hput as [(v & -> & Hap & -> & _)|[[e ->] [->|[Hap| ->]]]].
  - destruct (Ha _ _ Hap) as [Hv ->]. apply (refines_applied W κ σ (Ok _) rv next (wire_data d) []); try done; [|by left].
    intros v [= <-]. unfold object_version. simpl. rewrite length_app. simpl. f_equal. lia.
  - by apply refines_failed.
  - destruct (Ha _ _ Hap) as [Hv ->]. apply (refines_applied W κ σ (Err e) rv next (wire_data d) []); try done. by left.
  - by eapply refines_late.
Qed.

(** The rewrite of a record in the old shape, and the replacement after it. *)
Lemma refines_two_puts W κ σ x κ' k w rv r next d :
  wire_ok w → metadataString w "name" = k_name k → metadataString w "namespace" = k_namespace k → ValidString rv = true →
  rv = rv_name (object_version κ) → last (objects κ) = Some d → sound d r → good next → models κ σ →
  runs_to W (rv' ←? kube_put k w rv r; kube_put k w rv' next) κ x κ' → cas_refines W σ rv next x κ'.
Proof.
  intros Hw Hn Hns Hval Hrv Hlast Hd Hnext Hm Hrun.
  assert (Hne : objects κ ≠ []) by (intros E; by rewrite E in Hlast).
  destruct (put_wire_ok k w rv r Hw Hn Hns Hval (proj2 Hd)) as (Hb & Hbv & Hs & Ha). set (dw := put_wire k w rv r) in *.
  apply runs_to_try in Hrun as (y & κ3 & Hput & Hrest). apply kube_put_runs in Hput as (κ2 & He & Hput). fold dw in Hput.
  assert (Happ : ∀ κ3, apply_put (print (json_of_wire dw)) κ2 = Some κ3 →
            κ2 = κ ∧ κ3 = mkCluster (objects κ ++ [wire_data dw]) (late_puts κ)).
  { intros κ3' Hap. destruct (Ha _ _ Hap) as [Hv2 ->]. rewrite Hrv in Hv2. apply rv_name_inj in Hv2.
    by rewrite (kube_envs_same_version W κ κ2 He Hne (eq_sym Hv2)). }
  destruct (models_last κ σ d Hm Hlast) as (r' & Hr' & Hd'). assert (r' = r) as -> by (by eapply sound_fun).
  destruct Hput as [(v & -> & Hap & -> & Hvv)|[[e ->] Hout]].
  - destruct (Happ _ Hap) as [-> ->]. destruct Hrest as [(a & [= <-] & Hrun)|(e & [=] & _)].
    assert (Hver : object_version (mkCluster (objects κ ++ [wire_data dw]) (late_puts κ)) = length (objects κ)).
    { unfold object_version. simpl. rewrite length_app. simpl. lia. }
    rewrite Hver in Hrun, Hvv. apply kube_put_runs in Hrun as (κ4 & He4 & Hput).
    destruct (put_wire_ok k w _ next Hw Hn Hns Hvv Hnext) as (Hb2 & Hbv2 & Hs2 & Ha2).
    set (d2 := put_wire k w (rv_name (length (objects κ))) next) in *.
    assert (Happ2 : ∀ κ', apply_put (print (json_of_wire d2)) κ4 = Some κ' →
              κ' = mkCluster (objects κ ++ [wire_data dw] ++ [wire_data d2]) (late_puts κ)).
    { intros κ5 Hap2. destruct (Ha2 _ _ Hap2) as [Hv2 ->]. apply rv_name_inj in Hv2.
      rewrite (kube_envs_same_version W _ κ4 He4); [simpl; by rewrite <- app_assoc|by destruct (objects κ)|].
      by rewrite Hver, <- Hv2. }
    assert (Hdone : ∀ y, (∀ v, y = Ok v → v = rv_name (length (objects κ) + 1)) →
              cas_refines W σ rv next y (mkCluster (objects κ ++ [wire_data dw] ++ [wire_data d2]) (late_puts κ))).
    { intros y Hy. apply (refines_applied W κ σ y rv next (wire_data d2) [wire_data dw]); try done.
      right. by exists (wire_data dw), r. }
    destruct Hput as [(v & -> & Hap2 & -> & _)|[[e ->] [->|[Hap2| ->]]]].
    + rewrite (Happ2 _ Hap2). apply Hdone. intros v [= <-]. unfold object_version. simpl. rewrite length_app. simpl. f_equal. lia.
    + destruct (kube_envs_simulated W _ _ _ (models_touch κ σ _ r Hm Hs) He4) as (σ' & He' & Hm').
      apply (cas_refines_env W σ σ'); [|by apply refines_failed]. eapply rtc_l; [by apply env_touch|done].
    + rewrite (Happ2 _ Hap2). by apply Hdone.
    + by apply (refines_touched_late W κ σ e _ d2 (wire_data dw) r rv next κ4).
  - destruct Hrest as [(a & [=] & _)|(e' & [= <-] & -> & ->)]. destruct Hout as [->|[Hap| ->]].
    + destruct (kube_envs_simulated W _ _ _ Hm He) as (σ' & He' & Hm'). apply (cas_refines_env W σ σ'); [done|by apply refines_failed].
    + destruct (Happ _ Hap) as [-> ->]. eapply cas_refines_env; [apply rtc_once; by apply env_touch|].
      apply refines_failed. by apply models_touch.
    + destruct (kube_envs_simulated W _ _ _ Hm He) as (σ' & He' & Hm'). apply (cas_refines_env W σ σ'); [done|].
      apply refines_failed. destruct Hm' as [Ho' Hl']. split; [done|].
      assert (Hv : objects κ2 !! object_version κ = Some d).
      { rewrite last_lookup in Hlast. eapply prefix_lookup_Some; [exact Hlast|by eapply kube_envs_prefix]. }
      destruct (Forall2_lookup_l _ _ _ _ _ Ho' Hv) as (r'' & Hr'' & Hd''). assert (r'' = r) as -> by (by eapply sound_fun).
      eapply lm_touch; [exact Hb| |exact Hr''|exact Hs|exact Hl']. by rewrite Hbv.
Qed.


(** [C8] The Kubernetes backend is the register that the trust protocol relies
    on.  Take an API server that behaves as documented, shared with other writers,
    and a register that models it, with the same history of records and the
    same updates on their way.  Whatever a run of the backend's Get or CAS
    meets, its answer is an answer of the register's call at one instant of
    the run, the effect is that call's effect at that instant (none, the whole
    update, or the update later), and before and after that instant the register
    only takes steps of the others or rewrites the current record. *)
Theorem kubernetes_backend_is_the_register W k κ σ κ' :
  models κ σ → objects κ ≠ [] →
  (∀ x, runs_to W (kube_Get k) κ x κ' → ∃ w σ',
     rtc (anchor_env W) σ σ' ∧ models κ' σ' ∧ same_answer x (serve w (AnchorGet Caller) σ').1) ∧
  (∀ rv next x, good next → runs_to W (kube_CAS k rv next) κ x κ' → ∃ w σ1 y σ2 σ',
     rtc (anchor_env W) σ σ1 ∧ serve w (AnchorCAS Caller rv next) σ1 = (y, σ2) ∧ same_answer x y ∧
     rtc (anchor_env W) σ2 σ' ∧ models κ' σ').
Proof.
  intros Hm Hne. split.
  - intros x Hrun. unfold kube_Get in Hrun. apply runs_to_try in Hrun as (y & κ1 & Hg & H).
    apply getWire_runs in Hg as [He Hshow].
    destruct (kube_envs_simulated W _ _ _ Hm He) as (σ' & He' & Hm').
    assert (Hfail : ∀ e : error, ∃ w, same_answer (Err e : result (trustAnchorRecord * string)) (serve w (AnchorGet Caller) σ').1).
    { intros e. exists (Answer (Failed e) "" false). simpl. by destruct (anchor_now σ'). }
    destruct H as [([w rv] & -> & H)|(e & -> & -> & ->)]; [|destruct (Hfail e) as [w Hf]; by exists w, σ'].
    destruct H as [-> ->]. destruct (Hshow w rv eq_refl) as (Hs & -> & _).
    destruct (parseAnchorData (wire_data w)) as [r|e] eqn:Ep; [|destruct (Hfail e) as [w' Hf]; by exists w', σ'].
    assert (Hd : last (objects κ1) = Some (wire_data w)).
    { apply shows_last; [done|]. intros E. rewrite E in Ep. by vm_compute in Ep. }
    destruct (models_last κ1 σ' _ Hm' Hd) as (r' & Hr' & Hd'). destruct Hd' as [Hp _]. rewrite Ep in Hp. injection Hp as <-.
    exists (Answer (Answered None) "" false), σ'. split_and!; [done|done|]. simpl. rewrite Hr'. simpl.
    by rewrite (models_version _ _ Hm').
  - intros rv next x Hnext Hrun. change (cas_refines W σ rv next x κ'). unfold kube_CAS in Hrun.
    case_bool_decide as Erv; [destruct Hrun as [-> ->]; by apply refines_failed|].
    apply runs_to_try in Hrun as (y & κ1 & Hg & H). apply getWire_runs in Hg as [He Hshow].
    destruct (kube_envs_simulated W _ _ _ Hm He) as (σ1 & He1 & Hm1). apply (cas_refines_env W σ σ1); [done|]. clear Hm He1.
    destruct H as [([w arv] & -> & H)|(e & -> & -> & ->)]; [|by apply refines_failed].
    destruct (Hshow w arv eq_refl) as (Hs & Harv & Hn & Hns). pose proof Hs as (Hwok & Hmv & _).
    case_bool_decide as Eq; [rewrite Eq in *; clear Eq arv|destruct H as [-> ->]; by apply refines_failed]. simpl in H.
    assert (Hval : ValidString rv = true) by (rewrite Harv, <- Hmv; by apply metadataString_valid).
    assert (Hne1 : objects κ1 ≠ []).
    { destruct (kube_envs_prefix W _ _ He) as [l ->]. by destruct (objects κ). }
    case_bool_decide as Esz.
    + destruct (parseAnchorData (wire_data w)) as [r|e] eqn:Ep; [|destruct H as [-> ->]; by apply refines_failed].
      assert (Hd : last (objects κ1) = Some (wire_data w)).
      { apply shows_last; [done|]. intros E. rewrite E in Ep. by vm_compute in Ep. }
      destruct (models_last κ1 σ1 _ Hm1 Hd) as (r' & _ & Hd'). assert (r' = r) as -> by (destruct Hd'; congruence).
      by eapply refines_two_puts.
    + apply kube_put_runs in H as (κ2 & He2 & Hput). destruct (kube_envs_simulated W _ _ _ Hm1 He2) as (σ2 & He2' & Hm2).
      apply (cas_refines_env W σ1 σ2); [done|]. eapply refines_put; try done.
      destruct (kube_envs_prefix W _ _ He2) as [l ->]. by destruct (objects κ1).
Qed.

End server.
