(* ===== verification/AnchorExamples.v ===== *)
(** * Concrete anchors, as they are written down

    A record in the old shape and one with a reservation and a recovery
    receipt, and a ConfigMap that holds the first, to which the properties of
    AnchorDataFacts and AnchorRefinement are applied. *)

From S2P Require Export TrustExamples AnchorRefinement ApiExamples.
Open Scope go_scope.

#[local] Existing Instance ex_recovery.
#[local] Existing Instance ex_params.

(** Stand-ins for the JSON form of the recovery library's types. *)
#[export] Instance ex_transition_json : JSONType (@Transition ex_recovery) :=
  {| json_Marshal t := Some (Marshal_list (Some [strconv.FormatInt t.1; t.2]));
     json_Decode s := if bool_decide (s = Marshal_list (Some ["3"; "anchor"])) then Some (3%Z, "anchor") else None |}.

#[export] Instance ex_receipt_json : JSONType (@Receipt ex_recovery) :=
  {| json_Marshal z := Some (strconv.FormatInt z); json_Decode := strconv.ParseInt |}.

#[export] Instance ex_versions : RecordVersions := {| Version1 := "1" |}.

Definition ex_reserved : trustAnchorRecord :=
  mkRecord ex_recovery "1" "ternal" "storage" 4 ex_token (Some 5%Z) (ex_uuid 7) false 3 None (Some 3%Z).

Lemma ex_reserved_storable : storable ex_reserved.
Proof.
  split.
  - by vm_compute.
  - intros z [= <-]. by vm_compute.
  - by vm_compute.
  - done.
  - intros c [= <-]. exists "3". split_and!; [done|by vm_compute|done].
Qed.

Lemma anchor_record_reads_back_witness :
  size (anchorData ex_reserved) = 12 ∧
  parseAnchorData (anchorData ex_reserved) = Ok ex_reserved ∧
  anchorRecordFromRecovery (recoveryRecord ex_reserved) = Ok ex_reserved.
Proof. split; [by vm_compute|]. apply (anchor_record_reads_back ex_reserved); [by vm_compute|apply ex_reserved_storable]. Defined.

Definition ex_text : string := at_key (anchorData ex_reserved) "recoveryEvidence".


(** ** A ConfigMap *)

Definition ex_kube : kubernetesTrustAnchor := mkKubernetes "anchor" "default" "https://ternal.example" "token".

Definition ex_cluster : cluster := mkCluster [list_to_map (flat_members (ex_record false))] [].

Definition ex_register : services := (new_deployment (ex_record false) ex_database).1.

Lemma ex_record_good : good (ex_record false).
Proof.
  split_and!; [by vm_compute| |].
  - split; [by vm_compute|done|by vm_compute|done|done].
  - apply (bool_decide_unpack _). by vm_compute.
Qed.

Lemma ex_models : models ex_cluster ex_register.
Proof.
  split; [|constructor]. constructor; [|constructor]. split; [by vm_compute|apply ex_record_good].
Qed.

(** What the API server shows of it. *)
Definition ex_wire (rv : string) (d : gmap string string) : configMapWire :=
  mkWire "v1" "ConfigMap"
    (Some (list_to_map [("name", JStr "anchor"); ("namespace", JStr "default"); ("resourceVersion", JStr rv)])) (Some d).

Lemma ex_wire_ok rv d : ValidString rv = true → wire_ok (ex_wire rv d).
Proof.
  intros H. split; [done|done|]. simpl.
  repeat (apply map_Forall_insert_2; [done|]). apply map_Forall_empty.
Qed.

Definition ex_shown : string := print (json_of_wire (ex_wire "0" (list_to_map (flat_members (ex_record false))))).

Lemma ex_shown_read : decode_wire ex_shown = Some (ex_wire "0" (list_to_map (flat_members (ex_record false)))).
Proof. by vm_compute. Qed.

Lemma ex_url : url_Parse (kube_path ex_kube) =
  Some (mkURL "https" "ternal.example" "ternal.example" "" "" "" "" "" "" false false (kube_path ex_kube)).
Proof. by vm_compute. Qed.

(** Runs, step by step. *)
Lemma runs_bind {A B} (W : @trustAnchorRecord ex_recovery → Prop) (p : prog kubeE A) (f : A → prog kubeE B) κ y κ1 x κ' :
  runs_to W p κ y κ1 → runs_to W (f y) κ1 x κ' → runs_to W (prog_bind p f) κ x κ'.
Proof.
  revert κ. induction p as [a|X e g IH]; intros κ; [by intros [-> ->]|].
  intros (κ2 & z & κ3 & H1 & H2 & H3) H. exists κ2, z, κ3. split_and!; [done|done|by apply IH].
Qed.

Lemma ex_request (W : @trustAnchorRecord ex_recovery → Prop) method body κ y κ' :
  kube_serves (HTTPDo method (kube_path ex_kube) "Bearer t" body) κ y κ' →
  runs_to W (kube_request ex_kube method body) κ y κ'.
Proof.
  intros Hs. unfold kube_request. rewrite ex_url.
  exists κ, (Ok "t"), κ. split_and!; [done|done|]. exists κ, y, κ'. by split_and!.
Qed.

Lemma ex_get_serves : kube_serves (HTTPDo "GET" (kube_path ex_kube) "Bearer t" None) ex_cluster (Ok (200%Z, ex_shown)) ex_cluster.
Proof.
  split; [done|]. intros text w [= <-] Hw. rewrite ex_shown_read in Hw. injection Hw as <-.
  split; [by apply ex_wire_ok|]. split; [by vm_compute|reflexivity].
Qed.

Lemma ex_getWire_run (W : @trustAnchorRecord ex_recovery → Prop) :
  runs_to W (getWire ex_kube) ex_cluster
    (Ok (ex_wire "0" (list_to_map (flat_members (ex_record false))), "0")) ex_cluster.
Proof. eapply runs_bind; [apply ex_request, ex_get_serves|]. split; [|done]. by vm_compute. Qed.

Lemma ex_get_run (W : @trustAnchorRecord ex_recovery → Prop) :
  runs_to W (kube_Get ex_kube) ex_cluster (Ok (ex_record false, "0")) ex_cluster.
Proof. eapply runs_bind; [apply ex_getWire_run|]. split; [|done]. by vm_compute. Qed.

(** A compare-and-swap on it: the record is first rewritten in the new shape. *)
Definition ex_next : trustAnchorRecord :=
  mkRecord ex_recovery "1" "ternal" "storage" 0 ex_token (Some 1%Z) (ex_uuid 7) false 0 None None.

Definition ex_touched : cluster := mkCluster (objects ex_cluster ++ [anchorData (ex_record false)]) [].
Definition ex_swapped : cluster := mkCluster (objects ex_touched ++ [anchorData ex_next]) [].

Lemma ex_put_serves rv v d κ κ' body :
  apply_put body κ = Some κ' → rv_name (object_version κ') = v → ValidString v = true →
  decode_wire (print (json_of_wire (ex_wire v d))) = Some (ex_wire v d) → metadataString (ex_wire v d) "resourceVersion" = v →
  kube_serves (HTTPDo "PUT" (kube_path ex_kube) rv (Some body)) κ (Ok (200%Z, print (json_of_wire (ex_wire v d)))) κ'.
Proof.
  intros Ha <- Hv Hd Hm. left. eexists. split; [done|]. split; [done|]. intros w Hw. rewrite Hd in Hw. injection Hw as <-.
  split; [by apply ex_wire_ok|done].
Qed.

Lemma ex_good_next : good ex_next.
Proof.
  split_and!; [by vm_compute| |].
  - split; [by vm_compute|intros z [= <-]; by vm_compute|by vm_compute|done|done].
  - apply (bool_decide_unpack _). by vm_compute.
Qed.

Lemma ex_put_run (W : @trustAnchorRecord ex_recovery → Prop) rv v r κ κ' :
  let w := ex_wire "0" (list_to_map (flat_members (ex_record false))) in
  apply_put (print (json_of_wire (put_wire ex_kube w rv r))) κ = Some κ' → rv_name (object_version κ') = v →
  ValidString v = true → v ≠ "" → decode_wire (print (json_of_wire (ex_wire v ∅))) = Some (ex_wire v ∅) →
  metadataString (ex_wire v ∅) "resourceVersion" = v → runs_to W (kube_put ex_kube w rv r) κ (Ok v) κ'.
Proof.
  intros w Ha Hv Hval Hne Hd Hm. eapply runs_bind; [by eapply ex_request, ex_put_serves|]. split; [|done].
  unfold put_response. cbn [Z.eqb negb]. rewrite Hd. cbv zeta. rewrite Hm. by rewrite bool_decide_eq_false_2.
Qed.

Lemma ex_cas_run (W : @trustAnchorRecord ex_recovery → Prop) :
  runs_to W (kube_CAS ex_kube "0" ex_next) ex_cluster (Ok "2") ex_swapped.
Proof.
  unfold kube_CAS. rewrite bool_decide_eq_false_2 by done. eapply runs_bind; [apply ex_getWire_run|].
  cbv iota beta. rewrite bool_decide_eq_true_2 by done. cbn [negb]. rewrite bool_decide_eq_true_2 by (by vm_compute).
  replace (parseAnchorData _) with (Ok (ex_record false)) by (by vm_compute).
  eapply runs_bind.
  - apply (ex_put_run W "0" "1" _ _ ex_touched); by vm_compute.
  - apply (ex_put_run W "1" "2" _ _ ex_swapped); by vm_compute.
Qed.

Lemma kubernetes_backend_is_the_register_witness :
  (∃ w σ1 y σ2 σ', rtc (anchor_env (λ _, False)) ex_register σ1 ∧ Services.serve w (AnchorCAS Caller "0" ex_next) σ1 = (y, σ2) ∧
     same_answer (Ok "2") y ∧ rtc (anchor_env (λ _, False)) σ2 σ' ∧ models ex_swapped σ') ∧
  ∃ w σ', rtc (anchor_env (λ _, False)) ex_register σ' ∧ models ex_cluster σ' ∧
     same_answer (Ok (ex_record false, "0")) (Services.serve w (AnchorGet Caller) σ').1.
Proof.
  split.
  - destruct (kubernetes_backend_is_the_register (λ _, False) ex_kube ex_cluster ex_register ex_swapped) as [_ H];
      [apply ex_models|done|]. apply (H "0" ex_next (Ok "2")); [apply ex_good_next|apply ex_cas_run].
  - destruct (kubernetes_backend_is_the_register (λ _, False) ex_kube ex_cluster ex_register ex_cluster) as [H _];
      [apply ex_models|done|]. apply (H (Ok (ex_record false, "0"))). apply ex_get_run.
Defined.
