(* ===== verification/Machine.v ===== *)
(** * The machine a command runs on

    What ternal-agent and ternalctl do outside their own memory is a call of
    [hostE]: files and directories, the clock, users, HTTP, child processes,
    locks, the terminal.  [serves] says what each call may answer and do, any
    call with an error result being free to fail; [wpc] is the logic of runs:
    an invariant of every state a run passes through, and what holds when it
    returns.

    Files are modelled with what a crash of the machine leaves of them: the
    content of a file is lost unless it was synced, and a change of a
    directory may be lost unless the directory was synced. *)

From S2P Require Export Effects GoPath.
Open Scope go_scope.

(** ed25519: the public half of a private key of 64 bytes, and signing. *)
Class Ed25519Keys := {
  ed25519_Public : string → string;
  ed25519_Sign : string → string → string;
}.

(** ** Calls *)

Record FileInfo := mkFileInfo { fi_Regular : bool; fi_Size : Z; fi_Perm : Z }.

Record HTTPRequest := mkHTTPRequest {
  rq_Method : string; rq_URL : string; rq_Headers : list (string * string); rq_Body : option string }.

(** The body as far as it can be read, and the error reading it ends with. *)
Record HTTPResponse := mkHTTPResponse {
  rs_Status : Z; rs_Header : string → string; rs_Body : string; rs_Broken : option error }.

(** What a select statement waits for, and what it was woken by. *)
Inductive wait := WaitDone | WaitExit | WaitTick | WaitAfter (d : Z).
Inductive event := IsDone | IsExit (e : option error) | IsTick | IsAfter.

Inductive hostE : Type → Type :=
  | ReadFile (p : string) : hostE (result string)
  | Stat (p : string) : hostE (result FileInfo)
  | Lstat (p : string) : hostE (result FileInfo)
  | MkdirAll (p : string) (mode : Z) : hostE (option error)
  | WriteFile (p data : string) (mode : Z) : hostE (option error)
  | Remove (p : string) : hostE (option error)
  | Rename (a b : string) : hostE (option error)
  | CreateTemp (dir pattern : string) : hostE (result (string * nat))
  | Chmod (h : nat) (mode : Z) : hostE (option error)
  | Write (h : nat) (data : string) : hostE (option error)
  | Sync (h : nat) : hostE (option error)
  | Close (h : nat) : hostE (option error)
  | OpenDir (p : string) : hostE (option error)
  | SyncDir (p : string) : hostE (option error)
  | OpenLock (p : string) (mode : Z) : hostE (result nat)
  | Flock (p : string) (h : nat) : hostE (option error)
  | Funlock (p : string) (h : nat) : hostE unit
  | CloseLock (p : string) (h : nat) : hostE unit
  | Owner (p : string) : hostE (option (Z * Z))
  | Chown (p : string) (uid gid : Z) : hostE (option error)
  | Geteuid : hostE Z
  | LookupUser (name : string) : hostE (result (string * string))
  | Now : hostE Z
  | Sleep (d : Z) : hostE unit
  | HTTPDo (q : HTTPRequest) : hostE (result HTTPResponse)
  | RunTo (h : nat) (program : string) (args : list string) : hostE (option error)
  | RunAttached (program : string) (args : list string) : hostE (result Z)
  | StartChild (program : string) (args : list string) : hostE (option error)
  | Interrupt : hostE unit
  | Kill : hostE unit
  | Await (ws : list wait) : hostE event
  | CacheGet (key : string) : hostE (option string)
  | CachePut (key value : string) : hostE unit
  | GenerateKeyPair : hostE (result (string * string))
  | Executable : hostE (result string)
  | LookPath (name : string) : hostE (result string)
  | UserConfigDir : hostE (result string)
  | UserHomeDir : hostE (result string)
  | Print (text : string) : hostE unit
  | Eprint (text : string) : hostE unit.

Definition environment : Type := string → string.

Definition getenv_or (env : environment) (key fallback : string) : string :=
  if bool_decide (env key = "") then fallback else env key.

Definition second : Z := 1000000000.

(** Time.Unix of a reading in nanoseconds. *)
Definition unix (now : Z) : Z := (now / second)%Z.

(** ** The machine *)

Record inode := mkInode { i_data : string; i_mode : Z; i_synced : bool }.

(** What others can see of a run: requests with their answers, children
    started, signalled and reaped, and what is printed. *)
Inductive action :=
  | Sent (q : HTTPRequest) (r : result HTTPResponse)
  | Started (program : string) (args : list string)
  | Signalled (kill : bool)
  | Reaped
  | Attached (program : string) (args : list string)
  | Printed (text : string).

Record machine := mkMachine {
  m_names : gmap string nat;
  m_stale : string → list (option nat);   (* entries a crash may bring back *)
  m_inodes : gmap nat inode;
  m_locks : gmap string nat;              (* who holds the lock on a file *)
  m_cache : gmap string string;
  m_now : Z;
  m_children : nat;                       (* started and not yet reaped *)
  m_log : list action;                    (* the latest first *)
}.

Definition set_files (n : gmap string nat) (s : string → list (option nat)) (i : gmap nat inode) (w : machine) : machine :=
  mkMachine n s i (m_locks w) (m_cache w) (m_now w) (m_children w) (m_log w).
Definition set_inodes (i : gmap nat inode) (w : machine) : machine := set_files (m_names w) (m_stale w) i w.
Definition set_locks (l : gmap string nat) (w : machine) : machine :=
  mkMachine (m_names w) (m_stale w) (m_inodes w) l (m_cache w) (m_now w) (m_children w) (m_log w).
Definition set_cache (c : gmap string string) (w : machine) : machine :=
  mkMachine (m_names w) (m_stale w) (m_inodes w) (m_locks w) c (m_now w) (m_children w) (m_log w).
Definition set_now (t : Z) (w : machine) : machine :=
  mkMachine (m_names w) (m_stale w) (m_inodes w) (m_locks w) (m_cache w) t (m_children w) (m_log w).
Definition set_children (n : nat) (w : machine) : machine :=
  mkMachine (m_names w) (m_stale w) (m_inodes w) (m_locks w) (m_cache w) (m_now w) n (m_log w).
Definition note (a : action) (w : machine) : machine :=
  mkMachine (m_names w) (m_stale w) (m_inodes w) (m_locks w) (m_cache w) (m_now w) (m_children w) (a :: m_log w).

(** A new entry for a name; the old one may come back in a crash. *)
Definition set_name (p : string) (e : option nat) (w : machine) : machine :=
  set_files (match e with Some h => <[p := h]> (m_names w) | None => delete p (m_names w) end)
    (λ q, if bool_decide (q = p) then (m_names w !! p) :: m_stale w p else m_stale w q) (m_inodes w) w.

(** The changes of a directory reach the disk. *)
Definition settle_dir (d : string) (w : machine) : machine :=
  set_files (m_names w) (λ q, if bool_decide (path.Dir q = d) then [] else m_stale w q) (m_inodes w) w.

Definition content (w : machine) (p : string) : option string :=
  h ← m_names w !! p; i_data <$> m_inodes w !! h.

(** The entries a name may have after a crash, and what the file may hold. *)
Definition entries (w : machine) (p : string) : list (option nat) := (m_names w !! p) :: m_stale w p.

Definition may_hold (w : machine) (p : string) (c : option string) : Prop :=
  ∃ e, e ∈ entries w p ∧
    match e with
    | None => c = None
    | Some h => ∃ s, c = Some s ∧ ∀ i, m_inodes w !! h = Some i → i_synced i = true → s = i_data i
    end.

(** ** What the calls answer and do *)

(** A call that either has an effect or fails without one. *)
Definition does (x : option error) (w w' done : machine) : Prop := (x = None ∧ w' = done) ∨ (x ≠ None ∧ w' = w).

Definition on_inode (h : nat) (f : inode → inode) (w : machine) : machine := set_inodes (base.alter f h (m_inodes w)) w.

(** A file created or truncated, and written to. *)
Definition overwrites (p data : string) (mode : Z) (w w' : machine) : Prop :=
  match m_names w !! p with
  | Some h => w' = on_inode h (λ i, mkInode data (i_mode i) false) w
  | None => ∃ h, h ∉ dom (m_inodes w) ∧ w' = set_name p (Some h) (set_inodes (<[h := mkInode data mode false]> (m_inodes w)) w)
  end.

Definition serves `{Ed25519Keys} {X} (e : hostE X) (w : machine) : X → machine → Prop :=
  match e in hostE X return X → machine → Prop with
  | ReadFile p => λ x w', w' = w ∧ (∀ c, x = Ok c → content w p = Some c) ∧ (x = Err ErrNotExist → content w p = None)
  | Stat p | Lstat p => λ x w', w' = w ∧ (x = Err ErrNotExist → m_names w !! p = None)
  | MkdirAll _ _ | OpenDir _ => λ _ w', w' = w
  | WriteFile p data mode => λ x w',
      (x = None ∧ overwrites p data mode w w') ∨ (x ≠ None ∧ (w' = w ∨ ∃ part, overwrites p part mode w w'))
  | Remove p => λ x w',
      does x w w' (set_name p None w) ∧ (x = Some ErrNotExist → m_names w !! p = None)
  | Rename a b => λ x w',
      does x w w' (set_name a None (set_name b (m_names w !! a) w)) ∧ (x = None → is_Some (m_names w !! a))
  | CreateTemp dir pattern => λ x w',
      (∃ name h, x = Ok (name, h) ∧ strings.HasPrefix (path.Base name) (strings.TrimSuffix pattern "*") = true ∧
         m_names w !! name = None ∧ h ∉ dom (m_inodes w) ∧
         w' = set_name name (Some h) (set_inodes (<[h := mkInode "" 384 false]> (m_inodes w)) w)) ∨
      (∃ e, x = Err e ∧ w' = w)
  | Chmod h mode => λ x w', does x w w' (on_inode h (λ i, mkInode (i_data i) mode false) w)
  | Write h data => λ x w',
      ∃ part, w' = on_inode h (λ i, mkInode (i_data i +:+ part) (i_mode i) false) w ∧ (x = None → part = data)
  | Sync h => λ x w', does x w w' (on_inode h (λ i, mkInode (i_data i) (i_mode i) true) w)
  | Close _ => λ _ w', w' = w
  | SyncDir p => λ x w', does x w w' (settle_dir p w)
  | OpenLock _ _ => λ x w', w' = w ∧ ∀ h, x = Ok h → ∀ q, m_locks w !! q ≠ Some h
  | Flock p h => λ x w', does x w w' (set_locks (<[p := h]> (m_locks w)) w) ∧ (x = None → m_locks w !! p = None)
  | Funlock p h | CloseLock p h => λ _ w',
      w' = if bool_decide (m_locks w !! p = Some h) then set_locks (delete p (m_locks w)) w else w
  | Owner _ | Chown _ _ _ | Geteuid | LookupUser _ => λ _ w', w' = w
  | Now => λ x w', (m_now w ≤ x)%Z ∧ w' = set_now x w
  | Sleep d => λ _ w', ∃ t, (m_now w + d ≤ t)%Z ∧ w' = set_now t w
  | HTTPDo q => λ x w', w' = note (Sent q x) w
  | RunTo h _ _ => λ _ w', ∃ part, w' = on_inode h (λ i, mkInode (i_data i +:+ part) (i_mode i) false) w
  | RunAttached program args => λ _ w', w' = note (Attached program args) w
  | StartChild program args => λ x w',
      does x w w' (set_children (S (m_children w)) (note (Started program args) w))
  | Interrupt => λ _ w', w' = note (Signalled false) w
  | Kill => λ _ w', w' = note (Signalled true) w
  | Await ws => λ x w',
      match x with
      | IsDone => WaitDone ∈ ws ∧ w' = w
      | IsTick => WaitTick ∈ ws ∧ w' = w
      | IsExit _ => WaitExit ∈ ws ∧ m_children w ≠ 0 ∧ w' = set_children (pred (m_children w)) (note Reaped w)
      | IsAfter => ∃ d t, WaitAfter d ∈ ws ∧ (m_now w + d ≤ t)%Z ∧ w' = set_now t w
      end
  | CacheGet key => λ x w', x = m_cache w !! key ∧ w' = w
  | CachePut key value => λ _ w', w' = set_cache (<[key := value]> (m_cache w)) w
  | GenerateKeyPair => λ x w',
      w' = w ∧ ∀ public private, x = Ok (public, private) → String.length private = 64 ∧ public = ed25519_Public private
  | Executable | LookPath _ | UserConfigDir | UserHomeDir => λ _ w', w' = w
  | Print text => λ _ w', w' = note (Printed text) w
  | Eprint _ => λ _ w', w' = w
  end.

(** ** Runs *)

Section runs.
Context {K : Ed25519Keys} (I : machine → Prop).

Fixpoint wpc {A} (p : prog hostE A) (w : machine) (Q : A → machine → Prop) : Prop :=
  I w ∧
  match p with
  | Ret a => Q a w
  | Call e k => ∀ x w', serves e w x w' → wpc (k x) w' Q
  end.

Lemma wpc_start {A} (p : prog hostE A) w Q : wpc p w Q → I w.
Proof. destruct p; by intros [? _]. Qed.

Lemma wpc_ret {A} (a : A) w (Q : A → machine → Prop) : I w → Q a w → wpc (Ret a) w Q.
Proof. by split. Qed.

Lemma wpc_mono {A} (p : prog hostE A) w (Q Q' : A → machine → Prop) :
  wpc p w Q → (∀ a w', I w' → Q a w' → Q' a w') → wpc p w Q'.
Proof.
  revert w. induction p as [a|X e k IH]; intros w [Hi H] HQ; (split; [done|]); [by apply HQ|].
  intros x w' Hs. by eapply IH; [apply H|].
Qed.

Lemma wpc_bind {A B} (p : prog hostE A) (f : A → prog hostE B) w (Q : B → machine → Prop) :
  wpc p w (λ a w', wpc (f a) w' Q) → wpc (prog_bind p f) w Q.
Proof.
  revert w. induction p as [a|X e k IH]; intros w; [by intros [_ ?]|]. intros [Hi H]. split; [done|].
  intros x w' Hs. apply IH. by apply H.
Qed.

Lemma wpc_call {X B} (e : hostE X) (f : X → prog hostE B) w (Q : B → machine → Prop) :
  I w → (∀ x w', serves e w x w' → wpc (f x) w' Q) → wpc (prog_bind (call e) f) w Q.
Proof. by split. Qed.

Lemma wpc_last {X} (e : hostE X) w (Q : X → machine → Prop) :
  I w → (∀ x w', serves e w x w' → I w' ∧ Q x w') → wpc (call e) w Q.
Proof. by split. Qed.

Lemma wpc_try {A B} (p : prog hostE (result A)) (f : A → prog hostE (result B)) w (Q : result B → machine → Prop) :
  wpc p w (λ r w', match r with Ok a => wpc (f a) w' Q | Err e => I w' → Q (Err e) w' end) → wpc (try_bind p f) w Q.
Proof.
  intros H. apply wpc_bind. eapply wpc_mono; [exact H|]. intros [a|e] w' Hi HQ; [done|]. split; [done|by apply HQ].
Qed.

Lemma wpc_check (p k : prog hostE (option error)) w (Q : option error → machine → Prop) :
  wpc p w (λ r w', match r with None => wpc k w' Q | Some e => I w' → Q (Some e) w' end) → wpc (check_bind p k) w Q.
Proof.
  intros H. apply wpc_bind. eapply wpc_mono; [exact H|]. intros [e|] w' Hi HQ; [|done]. split; [done|by apply HQ].
Qed.

Lemma wpc_guard {B} (p : prog hostE (option error)) (k : prog hostE (result B)) w (Q : result B → machine → Prop) :
  wpc p w (λ r w', match r with None => wpc k w' Q | Some e => I w' → Q (Err e) w' end) → wpc (guard_bind p k) w Q.
Proof.
  intros H. apply wpc_bind. eapply wpc_mono; [exact H|]. intros [e|] w' Hi HQ; [|done]. split; [done|by apply HQ].
Qed.

Lemma wpc_need {A} (p : prog hostE (result A)) (f : A → prog hostE (option error)) w (Q : option error → machine → Prop) :
  wpc p w (λ r w', match r with Ok a => wpc (f a) w' Q | Err e => I w' → Q (Some e) w' end) → wpc (need_bind p f) w Q.
Proof.
  intros H. apply wpc_bind. eapply wpc_mono; [exact H|]. intros [a|e] w' Hi HQ; [done|]. split; [done|by apply HQ].
Qed.

End runs.

Lemma wpc_inv {K : Ed25519Keys} {A} (I I' : machine → Prop) (p : prog hostE A) w Q :
  wpc I p w Q → (∀ w', I w' → I' w') → wpc I' p w Q.
Proof.
  intros H HI. revert w H. induction p as [a|X e k IH]; intros w [Hi H]; (split; [by apply HI|]); [done|].
  intros x w' Hs. apply IH. by apply H.
Qed.

(** ** Machines with the same files *)

(** Inodes in use exist. *)
Definition well_linked (w : machine) : Prop := ∀ p h, Some h ∈ entries w p → h ∈ dom (m_inodes w).


Lemma content_may_hold w p : well_linked w → may_hold w p (content w p).
Proof.
  intros Hl. unfold may_hold, content. exists (m_names w !! p). split; [apply list_elem_of_here|].
  destruct (m_names w !! p) as [h|] eqn:Eh; [|done]. simpl.
  assert (Hh : h ∈ dom (m_inodes w)) by (apply (Hl p); unfold entries; rewrite Eh; apply list_elem_of_here).
  apply elem_of_dom in Hh as [i Hi]. rewrite Hi. simpl. exists (i_data i). split; [done|]. by intros i' [= <-].
Qed.

(** Names CreateTemp makes up. *)
Definition is_temp (p : string) : bool :=
  strings.HasPrefix (path.Base p) ".ternal-" || strings.HasPrefix (path.Base p) "ternal-endpoint-id-".

(** Between two states nothing happened but to files. *)
Record same_rest (w w' : machine) : Prop := {
  sr_locks : m_locks w' = m_locks w;
  sr_cache : m_cache w' = m_cache w;
  sr_now : m_now w' = m_now w;
  sr_children : m_children w' = m_children w;
  sr_log : m_log w' = m_log w;
}.

(** The files with a name in [P] are as they were, up to temporary ones. *)
Record same_files (P : string → Prop) (w w' : machine) : Prop := {
  sf_linked : well_linked w';
  sf_inodes h : h ∈ dom (m_inodes w) → m_inodes w' !! h = m_inodes w !! h;
  sf_names q : P q → is_temp q = false → m_names w' !! q = m_names w !! q;
  sf_stale q : P q → is_temp q = false → m_stale w' q ⊆ m_stale w q;
}.

Lemma same_files_entries P w w' q : same_files P w w' → P q → is_temp q = false → entries w' q ⊆ entries w q.
Proof.
  intros Hs HP Ht. unfold entries. rewrite (sf_names _ _ _ Hs q HP Ht). intros e [->|He]%elem_of_cons;
    [apply list_elem_of_here|apply list_elem_of_further]. by apply (sf_stale _ _ _ Hs q HP Ht).
Qed.

Lemma same_files_content P w w' q : well_linked w → same_files P w w' → P q → is_temp q = false → content w' q = content w q.
Proof.
  intros Hl Hs HP Ht. unfold content. rewrite (sf_names _ _ _ Hs q HP Ht).
  destruct (m_names w !! q) as [h|] eqn:E; [|done]. simpl. rewrite (sf_inodes _ _ _ Hs); [done|].
  apply (Hl q). unfold entries. rewrite E. apply list_elem_of_here.
Qed.

Lemma same_files_may_hold P w w' q c :
  well_linked w → same_files P w w' → P q → is_temp q = false → may_hold w' q c → may_hold w q c.
Proof.
  intros Hl Hs HP Ht (e & He & Hc). pose proof (same_files_entries P w w' q Hs HP Ht e He) as He'.
  exists e. split; [done|]. destruct e as [h|]; [|done]. destruct Hc as (s & -> & Hd). exists s. split; [done|].
  intros i Hi. apply Hd. rewrite (sf_inodes _ _ _ Hs); [done|]. by apply (Hl q).
Qed.

Lemma same_files_refl P w : well_linked w → same_files P w w.
Proof. by split. Qed.

Lemma same_files_trans P w1 w2 w3 : well_linked w1 → same_files P w1 w2 → same_files P w2 w3 → same_files P w1 w3.
Proof.
  intros Hl H12 H23. split.
  - apply H23.
  - intros h Hh. rewrite (sf_inodes _ _ _ H23), (sf_inodes _ _ _ H12); [done..|].
    apply elem_of_dom. rewrite (sf_inodes _ _ _ H12) by done. by apply elem_of_dom.
  - intros q HP Ht. by rewrite (sf_names _ _ _ H23), (sf_names _ _ _ H12).
  - intros q HP Ht. etrans; [by apply H23|by apply H12].
Qed.

Lemma same_files_weaken (P P' : string → Prop) w w' : (∀ q, P' q → P q) → same_files P w w' → same_files P' w w'.
Proof. intros HP [H1 H2 H3 H4]. split; auto. Qed.

Lemma same_rest_trans w1 w2 w3 : same_rest w1 w2 → same_rest w2 w3 → same_rest w1 w3.
Proof. intros [] []. split; congruence. Qed.
