(* ===== verification/Traffic.v ===== *)
(** * What others see of a run

    The log of a run, apart from files: requests with their answers, children
    started and reaped, what is printed.  [wpt] is the logic of these traces;
    [sends] follows only the requests a program makes. *)

From S2P Require Export Machine.
Open Scope go_scope.

(** What a call adds to the log, given its answer. *)
Definition action_of {X} (e : hostE X) : X → option action :=
  match e in hostE X return X → option action with
  | HTTPDo q => λ x, Some (Sent q x)
  | RunAttached program args => λ _, Some (Attached program args)
  | StartChild program args => λ x, match x with None => Some (Started program args) | Some _ => None end
  | Interrupt => λ _, Some (Signalled false)
  | Kill => λ _, Some (Signalled true)
  | Await _ => λ x, match x with IsExit _ => Some Reaped | _ => None end
  | Print text => λ _, Some (Printed text)
  | _ => λ _, None
  end.

Definition logged (o : option action) (l : list action) : list action := match o with Some a => a :: l | None => l end.

(** Children started and not reaped. *)
Fixpoint alive (l : list action) : nat :=
  match l with
  | [] => 0
  | Started _ _ :: l => S (alive l)
  | Reaped :: l => pred (alive l)
  | _ :: l => alive l
  end.

(** Answers that the trace allows. *)
Definition possible {X} (e : hostE X) (l : list action) : X → Prop :=
  match e in hostE X return X → Prop with
  | Await ws => λ x,
      match x with
      | IsDone => WaitDone ∈ ws
      | IsTick => WaitTick ∈ ws
      | IsExit _ => WaitExit ∈ ws ∧ alive l ≠ 0
      | IsAfter => ∃ d, WaitAfter d ∈ ws
      end
  | _ => λ _, True
  end.

Lemma does_log x w w' done : m_log done = m_log w → does x w w' done → m_log w' = m_log w.
Proof. by intros E [[_ ->]|[_ ->]]. Qed.

Lemma does_children x w w' done : m_children done = m_children w → does x w w' done → m_children w' = m_children w.
Proof. by intros E [[_ ->]|[_ ->]]. Qed.

Lemma overwrites_rest p data mode w w' : overwrites p data mode w w' → m_log w' = m_log w ∧ m_children w' = m_children w.
Proof. unfold overwrites. destruct (m_names w !! p); [by intros ->|]. by intros (h & _ & ->). Qed.

Lemma serves_log {K : Ed25519Keys} {X} (e : hostE X) w x w' : serves e w x w' →
  m_log w' = logged (action_of e x) (m_log w) ∧
  ∀ l, m_children w = alive l → possible e l x ∧ m_children w' = alive (logged (action_of e x) l).
Proof.
  destruct e; cbn [serves action_of logged]; intros Hs;
    try (by destruct_and?; subst);
    try (by case_bool_decide; subst);
    try (split; [by eapply does_log; [|apply Hs]|intros l <-; cbn [possible logged]; split; [done|by eapply does_children; [|apply Hs]]]).
  - cbn [logged possible]. assert (m_log w' = m_log w ∧ m_children w' = m_children w) as [-> ->]; [|done].
    destruct Hs as [[_ Hs]|[_ [->|[part Hs]]]]; [by eapply overwrites_rest|done|by eapply overwrites_rest].
  - by destruct Hs as [(name & h & _ & _ & _ & _ & ->)|(e & _ & ->)].
  - by destruct Hs as (part & -> & _).
  - by destruct Hs as (t & _ & ->).
  - by destruct Hs as (part & ->).
  - destruct Hs as [[-> ->]|[Hx ->]]; [|by destruct x]. split; [done|]. intros l E. simpl. by rewrite E.
  - destruct x; [by destruct Hs as [? ->]| |by destruct Hs as [? ->]|].
    + destruct Hs as (? & ? & ->). split; [done|]. intros l E. simpl. by rewrite <- E.
    + destruct Hs as (d & t & ? & _ & ->). split; [done|]. intros l E. simpl. eauto.
Qed.

(** ** Traces *)

Section traces.
Context (I : list action → Prop).

(** From a state whose children and log are those of the trace [l]. *)
Fixpoint wpt {A} (p : prog hostE A) (l : list action) (Q : A → list action → Prop) : Prop :=
  I l ∧
  match p with
  | Ret a => Q a l
  | Call e k => ∀ x, possible e l x → wpt (k x) (logged (action_of e x) l) Q
  end.

Lemma wpt_mono {A} (p : prog hostE A) l (Q Q' : A → list action → Prop) :
  wpt p l Q → (∀ a l', I l' → Q a l' → Q' a l') → wpt p l Q'.
Proof.
  revert l. induction p as [a|X e k IH]; intros l [Hi H] HQ; (split; [done|]); [by apply HQ|].
  intros x Hx. by eapply IH; [apply H|].
Qed.

Lemma wpt_bind {A B} (p : prog hostE A) (f : A → prog hostE B) l (Q : B → list action → Prop) :
  wpt p l (λ a l', wpt (f a) l' Q) → wpt (prog_bind p f) l Q.
Proof.
  revert l. induction p as [a|X e k IH]; intros l; [by intros [_ ?]|]. intros [Hi H]. split; [done|].
  intros x Hx. apply IH. by apply H.
Qed.

Lemma wpt_ret {A} (a : A) l (Q : A → list action → Prop) : I l → Q a l → wpt (Ret a) l Q.
Proof. by split. Qed.

Lemma wpt_call {X B} (e : hostE X) (f : X → prog hostE B) l (Q : B → list action → Prop) :
  I l → (∀ x, possible e l x → wpt (f x) (logged (action_of e x) l) Q) → wpt (prog_bind (call e) f) l Q.
Proof. by split. Qed.

Lemma wpt_last {X} (e : hostE X) l (Q : X → list action → Prop) :
  I l → (∀ x, possible e l x → I (logged (action_of e x) l) ∧ Q x (logged (action_of e x) l)) → wpt (call e) l Q.
Proof. by split. Qed.

(** What holds of all traces of a program holds of its runs. *)
Lemma wpt_wpc {K : Ed25519Keys} {A} (p : prog hostE A) w l0 l (Q : A → list action → Prop) :
  m_log w = l ++ l0 → m_children w = alive l → wpt p l Q →
  wpc (λ w', ∃ l', m_log w' = l' ++ l0 ∧ m_children w' = alive l' ∧ I l') p w
    (λ a w', ∃ l', m_log w' = l' ++ l0 ∧ m_children w' = alive l' ∧ Q a l').
Proof.
  revert w l. induction p as [a|X e k IH]; intros w l El Ec [Hi H]; (split; [by eexists|]); [by eexists|].
  intros x w' Hs. destruct (serves_log e w x w' Hs) as [El' Hc]. destruct (Hc l Ec) as [Hp Ec'].
  apply (IH x w' (logged (action_of e x) l)); [|done|by apply H]. rewrite El', El. by destruct (action_of e x).
Qed.
End traces.

(** ** The calls of a program *)

Section only.
Context (C : ∀ X, hostE X → Prop).

(** Whatever the answers, every call is in [C], and what is returned in [Q]. *)
Fixpoint only {A} (p : prog hostE A) (Q : A → Prop) : Prop :=
  match p with
  | Ret a => Q a
  | Call e k => C _ e ∧ ∀ x, only (k x) Q
  end.

Lemma only_mono {A} (p : prog hostE A) (Q Q' : A → Prop) : only p Q → (∀ a, Q a → Q' a) → only p Q'.
Proof. intros H HQ. induction p as [a|X e k IH]; [by apply HQ|]. destruct H as [He Hk]. split; [done|]. intros x. by apply IH. Qed.

Lemma only_bind {A B} (p : prog hostE A) (f : A → prog hostE B) Q : only p (λ a, only (f a) Q) → only (prog_bind p f) Q.
Proof. induction p as [a|X e k IH]; [done|]. intros [He Hk]. split; [done|]. intros x. by apply IH. Qed.

(** The rest of the program does not depend on what was returned. *)
Lemma only_then {A B} (p : prog hostE A) (f : A → prog hostE B) Q :
  only p (λ _, True) → (∀ a, only (f a) Q) → only (prog_bind p f) Q.
Proof. intros Hp Hf. apply only_bind. by eapply only_mono; [exact Hp|]. Qed.

Lemma only_next {X B} (e : hostE X) (f : X → prog hostE B) Q : C X e → (∀ x, only (f x) Q) → only (prog_bind (call e) f) Q.
Proof. done. Qed.

Lemma only_try {A B} (p : prog hostE (result A)) (f : A → prog hostE (result B)) (Q : result B → Prop) :
  only p (λ r, match r with Ok a => only (f a) Q | Err e => Q (Err e) end) → only (try_bind p f) Q.
Proof. intros H. apply only_bind. eapply only_mono; [exact H|]. by intros [a|e]. Qed.

Lemma only_need {A} (p : prog hostE (result A)) (f : A → prog hostE (option error)) (Q : option error → Prop) :
  only p (λ r, match r with Ok a => only (f a) Q | Err e => Q (Some e) end) → only (need_bind p f) Q.
Proof. intros H. apply only_bind. eapply only_mono; [exact H|]. by intros [a|e]. Qed.
End only.

Lemma only_weaken (C C' : ∀ X, hostE X → Prop) {A} (p : prog hostE A) Q :
  only C p Q → (∀ X (e : hostE X), C X e → C' X e) → only C' p Q.
Proof. intros H HC. induction p as [a|X e k IH]; [done|]. destruct H as [He Hk]. split; [by apply HC|]. intros x. by apply IH. Qed.

(** One step of a sequence whose answer does not matter. *)
Ltac only_seq :=
  match goal with
  | |- only _ (need_bind _ _) _ => unfold need_bind at 1
  | |- only _ (try_bind _ _) _ => unfold try_bind at 1
  | |- only _ (check_bind _ _) _ => unfold check_bind at 1
  | |- only _ (guard_bind _ _) _ => unfold guard_bind at 1
  | _ => idtac
  end;
  match goal with
  | |- only _ (prog_bind (call ?e) ?f) _ => apply (only_next _ e f); cbv beta
  | |- only _ (prog_bind ?p ?f) _ => apply (only_then _ p f); cbv beta
  end.

(** Programs whose calls are known one by one, or by a hint. *)
Create HintDb only discriminated.

Ltac only_step :=
  match goal with
  | |- ?C _ _ => exact I
  | |- only _ (Ret _) _ => exact I
  | |- only _ (call _) _ => split; [exact I|intros ?; exact I]
  | |- only _ (let _ := _ in _) _ => cbv zeta
  | |- only _ _ _ => solve [auto with only nocore]
  | |- only _ _ _ => only_seq; [|intros ?]
  | |- only _ _ _ => case_match
  end.

Ltac only_steps := repeat only_step.

(** *** Requests *)

Definition sends_call (P : HTTPRequest → Prop) X (e : hostE X) : Prop := match e with HTTPDo q => P q | _ => True end.

Notation sends P := (only (sends_call P)).

(** A run of the program adds only such requests to the log. *)
Lemma sends_wpc {K : Ed25519Keys} P {A} (p : prog hostE A) (l0 : list action) w Q : sends P p Q →
  (∀ q x, Sent q x ∈ m_log w → Sent q x ∈ l0 ∨ P q) →
  wpc (λ w', ∀ q x, Sent q x ∈ m_log w' → Sent q x ∈ l0 ∨ P q) p w (λ a _, Q a).
Proof.
  revert w. induction p as [a|X e k IH]; intros w H Hl; (split; [done|]); [done|].
  intros x w' Hs. destruct H as [He Hk]. apply IH; [done|]. intros q r Hq.
  rewrite (proj1 (serves_log e w x w' Hs)) in Hq.
  destruct (action_of e x) as [a|] eqn:Ea; [|by apply (Hl q r)]. apply elem_of_cons in Hq as [<-|Hq]; [right|by apply (Hl q r)].
  destruct e; simpl in Ea; try discriminate Ea; try (by injection Ea as <-); by destruct x.
Qed.

(** *** Programs that log nothing *)

Definition mute_call X (e : hostE X) : Prop :=
  match e with
  | HTTPDo _ | RunAttached _ _ | StartChild _ _ | Interrupt | Kill | Await _ | Print _ => False
  | _ => True
  end.

Notation mute p := (only mute_call p (λ _, True)).

Lemma wpt_mute {I : list action → Prop} {A} (p : prog hostE A) l (Q : A → list action → Prop) :
  mute p → I l → (∀ a, Q a l) → wpt I p l Q.
Proof.
  intros H HI HQ. induction p as [a|X e k IH]; (split; [done|]); [by apply HQ|]. intros x _. destruct H as [He Hk].
  replace (logged (action_of e x) l) with l by (by destruct e). by apply IH.
Qed.

Lemma mute_sends P {A} (p : prog hostE A) : mute p → sends P p (λ _, True).
Proof. intros H. eapply only_weaken; [exact H|]. by intros X []. Qed.

(** *** Time *)

(** Calls that never turn the clock back. *)
Definition patient_call X (e : hostE X) : Prop :=
  match e with
  | Sleep d => (0 ≤ d)%Z
  | Await ws => Forall (λ x, match x with WaitAfter d => (0 ≤ d)%Z | _ => True end) ws
  | _ => True
  end.

Lemma does_now x w w' done : m_now done = m_now w → does x w w' done → m_now w' = m_now w.
Proof. by intros E [[_ ->]|[_ ->]]. Qed.

Lemma overwrites_now p data mode w w' : overwrites p data mode w w' → m_now w' = m_now w.
Proof. unfold overwrites. destruct (m_names w !! p); [by intros ->|]. by intros (h & _ & ->). Qed.

Lemma serves_now {K : Ed25519Keys} {X} (e : hostE X) w x w' : serves e w x w' → patient_call X e → (m_now w ≤ m_now w')%Z.
Proof.
  intros Hs He. assert (H : m_now w' = m_now w → (m_now w ≤ m_now w')%Z) by lia.
  destruct e; cbn [serves] in Hs; try (apply H; by destruct_and?; subst); try (apply H; by case_bool_decide; subst);
    try (apply H; by eapply does_now; [|apply Hs]).
  - apply H. destruct Hs as [[_ Hs]|[_ [->|[part Hs]]]]; [by eapply overwrites_now|done|by eapply overwrites_now].
  - apply H. by destruct Hs as [(name & h & _ & _ & _ & _ & ->)|(e & _ & ->)].
  - apply H. by destruct Hs as (part & -> & _).
  - destruct Hs as [Hn ->]. done.
  - destruct Hs as (t & Ht & ->). simpl in *. lia.
  - apply H. by destruct Hs as (part & ->).
  - destruct x; [by destruct Hs as [_ ->]|by destruct Hs as (_ & _ & ->)|by destruct Hs as [_ ->]|].
    destruct Hs as (d & t & Hin & Ht & ->). simpl in He. apply (proj1 (Forall_forall _ _) He) in Hin. simpl in *. lia.
Qed.

Lemma wpc_patient {K : Ed25519Keys} (I : machine → Prop) {A} (p : prog hostE A) w (Q : A → machine → Prop) :
  only patient_call p (λ _, True) → wpc I p w Q → wpc I p w (λ a w', Q a w' ∧ (m_now w ≤ m_now w')%Z).
Proof.
  intros Hp H. assert (Hgen : ∀ w1, (m_now w ≤ m_now w1)%Z → wpc I p w1 Q → wpc I p w1 (λ a w', Q a w' ∧ (m_now w ≤ m_now w')%Z)).
  { clear H. induction p as [a|X e k IH]; intros w1 Hw1 [Hi H]; (split; [done|]); [done|].
    destruct Hp as [He Hk]. intros x w2 Hs. apply IH; [done| |by apply H]. etrans; [exact Hw1|by eapply serves_now]. }
  by apply Hgen.
Qed.
