(* ===== verification/DeviceKeys.v ===== *)
(** * Files of a device (internal/deviceauth/deviceauth.go, lines 27-67 and
    107-168; fsync_unix.go)

    Keys and identities on disk, and the write that every file of the agent
    goes through.  [atomic_write_survives_crashes] is its contract. *)

From S2P Require Export Machine DeviceAuth.
Open Scope go_scope.

(** ** The write *)

(** [defer c]: run on every return. *)
Definition deferred {A X} (c : hostE X) (p : prog hostE A) : prog hostE A :=
  let! r := p in let! _ := call c in Ret r.

(** [if err := p; err != nil { temp.Close(); return err }]. *)
Definition or_close (h : nat) (p : prog hostE (option error)) (k : prog hostE (option error)) : prog hostE (option error) :=
  let! r := p in
  match r with
  | Some e => let! _ := call (Close h) in Ret (Some e)
  | None => k
  end.

Definition fsyncDir (p : string) : prog hostE (option error) :=
  must call (OpenDir p); call (SyncDir p).

Definition AtomicWriteFile (p data : string) (mode : Z) : prog hostE (option error) :=
  must call (MkdirAll (path.Dir p) 448);
  temp ←! call (CreateTemp (path.Dir p) ".ternal-*");
  let (tempPath, h) := temp : string * nat in
  deferred (Remove tempPath)
    (or_close h (call (Chmod h mode))
      (or_close h (call (Write h data))
        (or_close h (call (Sync h))
          (must call (Close h);
           must call (Rename tempPath p);
           fsyncDir (path.Dir p))))).

(** ** Keys and identities *)

Record Identity := mkIdentity { Identity_Serial : string; Identity_HostKeyFingerprint : string }.

Definition identity_fields : list (struct_field Identity) :=
  [at_field "serial" Identity_Serial (λ x i, mkIdentity x (Identity_HostKeyFingerprint i)) decode_string;
   at_field "ssh_host_key_fingerprint" Identity_HostKeyFingerprint (λ x i, mkIdentity (Identity_Serial i) x) decode_string].

Definition json_of_identity (i : Identity) : json :=
  JObj [("serial", JStr (Identity_Serial i)); ("ssh_host_key_fingerprint", JStr (Identity_HostKeyFingerprint i))].

Definition writePrivate (p private : string) : prog hostE (option error) :=
  AtomicWriteFile p (StdEncoding.EncodeToString private) 384.

Definition GenerateKey (p : string) : prog hostE (result string) :=
  if bool_decide (p = "") then Ret (Err (Errorf "device key path is required")) else
  let! found := call (Lstat p) in
  match found with
  | Ok _ => Ret (Err (Errorf ("device key already exists at " +:+ p +:+ "; remove it explicitly to replace")))
  | Err e =>
    if negb (bool_decide (e = ErrNotExist)) then Ret (Err e) else
    pair ←? call GenerateKeyPair;
    let (public, private) := pair : string * string in
    ensure writePrivate p private;
    Ret (Ok (StdEncoding.EncodeToString public))
  end.

Definition parsePrivate (data : string) : result string :=
  match StdEncoding.DecodeString data with
  | Some decoded => if bool_decide (String.length decoded = 64) then Ok decoded else Err (Errorf "invalid device private key")
  | None => Err (Errorf "invalid device private key")
  end.

Definition LoadPrivate (p : string) : prog hostE (result string) :=
  data ←? call (ReadFile p); Ret (parsePrivate data).

Definition PublicKey `{Ed25519Keys} (private : string) : string := StdEncoding.EncodeToString (ed25519_Public private).

Definition Sign `{Ed25519Keys} (private payload : string) : string := StdEncoding.EncodeToString (ed25519_Sign private payload).

Definition IdentityPath (keyPath : string) : string := keyPath +:+ ".identity.json".

Definition WriteIdentity (p : string) (i : Identity) : prog hostE (option error) :=
  if bool_decide (Identity_Serial i = "") || bool_decide (Identity_HostKeyFingerprint i = "")
  then Ret (Some (Errorf "invalid device identity"))
  else AtomicWriteFile p (print (json_of_identity i) +:+ String newline "") 384.

Definition parseIdentity (data : string) : result Identity :=
  match Unmarshal (decode_struct identity_fields) (mkIdentity "" "") data with
  | None => Err (Errorf "invalid device identity")
  | Some i =>
    if bool_decide (Identity_Serial i = "") || bool_decide (Identity_HostKeyFingerprint i = "")
    then Err (Errorf "invalid device identity") else Ok i
  end.

Definition ReadIdentity (p : string) : prog hostE (result Identity) :=
  data ←? call (ReadFile p); Ret (parseIdentity data).

(** ** What the write does *)

(** A state the write passes through: nothing but the file and temporary ones
    changes, and the file is the old one or, whole and on disk, the new one. *)
Record writes_file (p data : string) (mode : Z) (w w' : machine) : Prop := {
  wf_files : same_files (λ q, q ≠ p) w w';
  wf_rest : same_rest w w';
  wf_target :
    (m_names w' !! p = m_names w !! p ∧ m_stale w' p ⊆ m_stale w p) ∨
    (∃ h, m_names w' !! p = Some h ∧ h ∉ dom (m_inodes w) ∧ m_inodes w' !! h = Some (mkInode data mode true) ∧
       m_stale w' p ⊆ entries w p);
}.

(** The new file, and no other in a crash. *)
Definition installed (p data : string) (mode : Z) (w : machine) : Prop :=
  ∃ h, m_names w !! p = Some h ∧ m_inodes w !! h = Some (mkInode data mode true) ∧ m_stale w p = [].

(** The temporary file [t] is the inode [h]. *)
Record staged (t : string) (h : nat) (i : inode) (w w' : machine) : Prop := {
  st_files : same_files (λ _, True) w w';
  st_rest : same_rest w w';
  st_temp : is_temp t = true;
  st_name : m_names w' !! t = Some h;
  st_new : h ∉ dom (m_inodes w);
  st_inode : m_inodes w' !! h = Some i;
}.

Lemma names_ne (t q : string) : is_temp t = true → is_temp q = false → q ≠ t.
Proof. intros Ht Hq ->. congruence. Qed.

Lemma entries_set_name t e q w :
  entries (set_name t e w) q = if bool_decide (q = t) then e :: entries w t else entries w q.
Proof.
  unfold entries, set_name. simpl. case_bool_decide as E; [subst q|]; destruct e as [h|];
    by rewrite ?lookup_insert_eq, ?lookup_delete_eq, ?lookup_insert_ne, ?lookup_delete_ne by done.
Qed.

Lemma set_name_same t e q w : q ≠ t → m_names (set_name t e w) !! q = m_names w !! q ∧ m_stale (set_name t e w) q = m_stale w q.
Proof.
  intros Hq. unfold set_name. simpl. rewrite bool_decide_eq_false_2 by done. split; [|done].
  destruct e; [by rewrite lookup_insert_ne|by rewrite lookup_delete_ne].
Qed.

(** Only the names of temporary files change. *)
Lemma same_files_temp P t e w w' : is_temp t = true → (∀ h, e = Some h → h ∈ dom (m_inodes w')) →
  same_files P w w' → same_files P w (set_name t e w').
Proof.
  intros Ht He [Hl Hi Hn Hs]. split.
  - intros q h. rewrite entries_set_name. case_bool_decide as E; [|apply Hl].
    intros [Hh|Hh]%elem_of_cons; [by apply He|by apply (Hl t)].
  - done.
  - intros q HP Hq. destruct (set_name_same t e q w') as [-> _]; [by apply names_ne|auto].
  - intros q HP Hq. destruct (set_name_same t e q w') as [_ ->]; [by apply names_ne|auto].
Qed.

Lemma same_files_inode P h f w w' : h ∉ dom (m_inodes w) → same_files P w w' → same_files P w (on_inode h f w').
Proof.
  intros Hh [Hl Hi Hn Hs]. split; try done.
  - intros q h' Hq. unfold on_inode. simpl. rewrite dom_alter_L. by apply (Hl q).
  - intros h' Hh'. simpl. rewrite lookup_alter_ne by (intros ->; done). auto.
Qed.

Lemma same_files_new P h i w w' : h ∉ dom (m_inodes w) → same_files P w w' →
  same_files P w (set_inodes (<[h := i]> (m_inodes w')) w').
Proof.
  intros Hh [Hl Hi Hn Hs]. split; try done.
  - intros q h' Hq. simpl. rewrite dom_insert_L. apply elem_of_union_r. by apply (Hl q).
  - intros h' Hh'. simpl. rewrite lookup_insert_ne by (intros ->; done). auto.
Qed.

Lemma staged_create w t h : well_linked w → is_temp t = true → h ∉ dom (m_inodes w) →
  staged t h (mkInode "" 384 false) w (set_name t (Some h) (set_inodes (<[h := mkInode "" 384 false]> (m_inodes w)) w)).
Proof.
  intros Hl Ht Hh. split; try done.
  - apply same_files_temp; [done| |].
    + intros h' [= <-]. simpl. rewrite dom_insert_L. set_solver.
    + apply same_files_new; [done|by apply same_files_refl].
  - simpl. by rewrite lookup_insert_eq.
  - simpl. by rewrite lookup_insert_eq.
Qed.

Lemma staged_inode t h i f w w' : staged t h i w w' → staged t h (f i) w (on_inode h f w').
Proof.
  intros [Hf Hr Ht Hn Hh Hi]. split; [by apply same_files_inode|by destruct Hr|done|done|done|].
  simpl. by rewrite lookup_alter_eq, Hi.
Qed.

Lemma staged_writes p data mode t h i w w' : is_temp p = false → staged t h i w w' → writes_file p data mode w w'.
Proof.
  intros Hp [Hf Hr Ht Hn Hh Hi]. split; [by apply (same_files_weaken (λ _, True))|done|]. left.
  split; [by apply (sf_names _ _ _ Hf)|by apply (sf_stale _ _ _ Hf)].
Qed.

Lemma staged_rename p data mode t h w w' : is_temp p = false → staged t h (mkInode data mode true) w w' →
  let w2 := set_name t None (set_name p (m_names w' !! t) w') in
  writes_file p data mode w w2 ∧
  m_names w2 !! p = Some h ∧ m_inodes w2 !! h = Some (mkInode data mode true) ∧ m_stale w2 p ⊆ entries w p.
Proof.
  intros Hp [Hf Hr Ht Hn Hh Hi] w2. pose proof (names_ne t p Ht Hp) as Hne.
  assert (Htg : m_names w2 !! p = Some h ∧ m_inodes w2 !! h = Some (mkInode data mode true) ∧ m_stale w2 p ⊆ entries w p).
  { unfold w2. rewrite Hn. destruct (set_name_same t None p (set_name p (Some h) w') Hne) as [-> ->]. split_and!; [|done|].
    - simpl. by rewrite lookup_insert_eq.
    - simpl. rewrite bool_decide_eq_true_2 by done. rewrite (sf_names _ _ _ Hf p I Hp). unfold entries.
      intros e [->|He]%elem_of_cons; [apply list_elem_of_here|apply list_elem_of_further].
      by apply (sf_stale _ _ _ Hf p I Hp). }
  split; [|done]. split; [|by destruct Hr|right; exists h; destruct Htg as (? & ? & ?); done].
  unfold w2. rewrite Hn. apply same_files_temp; [done|done|]. destruct Hf as [Hl Hin Hnm Hst]. split; [|done|..].
  - intros q h'. rewrite entries_set_name. case_bool_decide as E; [|apply Hl].
    intros [[= <-]|Hh']%elem_of_cons; [simpl; apply elem_of_dom; eauto|by apply (Hl p)].
  - intros q Hq Htq. destruct (set_name_same p (Some h) q w' Hq) as [-> _]. auto.
  - intros q Hq Htq. destruct (set_name_same p (Some h) q w' Hq) as [_ ->]. auto.
Qed.

Lemma writes_file_remove p data mode t w w' : is_temp p = false → is_temp t = true →
  writes_file p data mode w w' → writes_file p data mode w (set_name t None w').
Proof.
  intros Hp Ht [Hf Hr Htg]. split; [by apply same_files_temp|by destruct Hr|].
  destruct (set_name_same t None p w' (names_ne t p Ht Hp)) as [-> ->]. done.
Qed.

Lemma installed_remove p data mode t w : is_temp p = false → is_temp t = true →
  installed p data mode w → installed p data mode (set_name t None w).
Proof.
  intros Hp Ht (h & Hn & Hi & Hs). exists h. destruct (set_name_same t None p w (names_ne t p Ht Hp)) as [-> ->]. done.
Qed.

Lemma settle_stale d w q : m_stale (settle_dir d w) q ⊆ m_stale w q.
Proof. simpl. case_bool_decide; [apply list_subseteq_nil|done]. Qed.

Lemma same_files_settle P d w w' : same_files P w w' → same_files P w (settle_dir d w').
Proof.
  intros [Hl Hi Hn Hs]. split; try done.
  - intros q h Hh. apply (Hl q). unfold entries in *. apply elem_of_cons in Hh as [Hh|Hh]; [rewrite Hh; apply list_elem_of_here|].
    apply list_elem_of_further. by eapply settle_stale.
  - intros q HP Ht. etrans; [apply settle_stale|auto].
Qed.

Lemma writes_file_settle p data mode d w w' : writes_file p data mode w w' → writes_file p data mode w (settle_dir d w').
Proof.
  intros [Hf Hr Htg]. split; [by apply same_files_settle|by destruct Hr|].
  destruct Htg as [[Hn Hs]|(h & Hn & Hh & Hi & Hs)]; [left|right].
  - split; [done|]. etrans; [apply settle_stale|done].
  - exists h. split_and!; try done. etrans; [apply settle_stale|done].
Qed.

Lemma installed_settle p data mode w w' :
  m_stale w' p ⊆ entries w p → (∃ h, m_names w' !! p = Some h ∧ m_inodes w' !! h = Some (mkInode data mode true)) →
  installed p data mode (settle_dir (path.Dir p) w').
Proof. intros Hs (h & Hn & Hi). exists h. simpl. by rewrite bool_decide_eq_true_2. Qed.

Section write.
Context {K : Ed25519Keys} (I : machine → Prop).
Context (p data : string) (mode : Z) (w : machine) (Q : option error → machine → Prop).
Hypothesis Hlinked : well_linked w.
Hypothesis Hp : is_temp p = false.
Hypothesis HI : ∀ w', writes_file p data mode w w' → I w'.
Hypothesis HQ : ∀ r w', writes_file p data mode w w' → (r = None → installed p data mode w') → Q r w'.

(** What is left when the temporary file [t] is in use: its removal. *)
Let finish (t : string) : option error → machine → Prop :=
  λ r w', wpc I (let! _ := call (Remove t) in Ret r) w' Q.

Lemma finish_wpc t r w' : is_temp t = true → writes_file p data mode w w' → (r = None → installed p data mode w') → finish t r w'.
Proof.
  intros Ht Hw Hr. apply wpc_call; [by apply HI|]. intros x w2 [Hd _].
  assert (Hw2 : writes_file p data mode w w2 ∧ (r = None → installed p data mode w2)).
  { destruct Hd as [[_ ->]|[_ ->]]; [|done]. split; [by apply writes_file_remove|].
    intros E. by apply installed_remove, Hr. }
  destruct Hw2. apply wpc_ret; [by apply HI|by apply HQ].
Qed.

Lemma staged_ok t h i w' : staged t h i w w' → I w' ∧ writes_file p data mode w w' ∧ is_temp t = true.
Proof. intros H. pose proof (staged_writes p data mode _ _ _ _ _ Hp H). split_and!; [by apply HI|done|apply H]. Qed.

Lemma or_close_wpc t h i (e : hostE (option error)) k w' :
  staged t h i w w' →
  (∀ x w2, serves e w' x w2 → ∃ i2, staged t h i2 w w2) →
  (∀ w2, serves e w' None w2 → wpc I k w2 (finish t)) → wpc I (or_close h (call e) k) w' (finish t).
Proof.
  intros Hst Herr Hok. destruct (staged_ok _ _ _ _ Hst) as (Hi & _). apply wpc_call; [done|].
  intros [x|] w2 Hs; [|by apply Hok]. destruct (Herr _ _ Hs) as [i2 Hi2]. destruct (staged_ok _ _ _ _ Hi2) as (H1 & H2 & H3).
  apply wpc_call; [done|]. intros y w3; cbn [serves]; intros ->. apply wpc_ret; [done|]. by apply finish_wpc.
Qed.

Lemma rename_wpc t h w' : staged t h (mkInode data mode true) w w' →
  wpc I (must call (Rename t p); fsyncDir (path.Dir p)) w' (finish t).
Proof.
  intros Hst. destruct (staged_ok _ _ _ _ Hst) as (H1 & H2 & H3). apply wpc_check, wpc_last; [done|].
  intros x w2 [[[-> ->]|[Hx ->]] _].
  2:{ split; [done|]. destruct x; [|done]. intros _. by apply finish_wpc. }
  destruct (staged_rename p data mode t h w w' Hp Hst) as (Hw2 & Htg). set (w2 := set_name t None _) in *.
  assert (Hfail : ∀ e, finish t (Some e) w2) by (intros; by apply finish_wpc).
  split; [by apply HI|]. apply wpc_check, wpc_last; [by apply HI|]. intros x w3; cbn [serves]; intros ->.
  split; [by apply HI|]. destruct x; [intros _; done|]. apply wpc_last; [by apply HI|].
  intros x w3 [[-> ->]|[Hx ->]]; [|split; [by apply HI|by destruct x]].
  pose proof (writes_file_settle p data mode (path.Dir p) w w2 Hw2) as Hw3. split; [by apply HI|].
  apply finish_wpc; [done|done|]. intros _. destruct Htg as (Hn & Hi & Hs). eapply installed_settle; eauto.
Qed.

(** The rule of the write: the invariant must hold of every state the write
    can pass through. *)
Lemma AtomicWriteFile_wpc : wpc I (AtomicWriteFile p data mode) w Q.
Proof.
  assert (Hw : writes_file p data mode w w) by (split; [by apply same_files_refl|by split|by left]).
  unfold AtomicWriteFile. apply wpc_check, wpc_last; [by apply HI|].
  intros x w1; cbn [serves]; intros ->. split; [by apply HI|]. destruct x as [e|]; [intros _; by apply HQ|].
  apply wpc_need, wpc_last; [by apply HI|]. intros x w1; cbn [serves];
    intros [(t & h & -> & Hbase & Hno & Hh & ->)|(e & -> & ->)]; [|split; [by apply HI|intros _; by apply HQ]].
  change (strings.TrimSuffix _ _) with ".ternal-" in Hbase.
  assert (Ht : is_temp t = true) by (unfold is_temp; by rewrite Hbase).
  pose proof (staged_create w t h Hlinked Ht Hh) as Hst. split; [apply (staged_ok _ _ _ _ Hst)|].
  unfold deferred. apply wpc_bind. fold (finish t). eapply or_close_wpc; [exact Hst| |].
  { intros x w2 [[_ ->]|[_ ->]]; eexists; [by apply staged_inode|done]. }
  intros w2 [[_ ->]|[[] _]]; [|done]. apply (staged_inode _ _ _ (λ i, mkInode (i_data i) mode false)) in Hst.
  eapply or_close_wpc; [exact Hst| |].
  { intros x w2 (part & -> & _). eexists. by apply staged_inode. }
  intros w2 (part & -> & Hpart). rewrite (Hpart eq_refl). clear Hpart part.
  apply (staged_inode _ _ _ (λ i, mkInode (i_data i +:+ data) (i_mode i) false)) in Hst.
  eapply or_close_wpc; [exact Hst| |].
  { intros x w2 [[_ ->]|[_ ->]]; eexists; [by apply staged_inode|done]. }
  intros w2 [[_ ->]|[[] _]]; [|done]. apply (staged_inode _ _ _ (λ i, mkInode (i_data i) (i_mode i) true)) in Hst.
  destruct (staged_ok _ _ _ _ Hst) as (H1 & H2 & H3). simpl in Hst.
  apply wpc_check, wpc_last; [done|]. intros x w2; cbn [serves]; intros ->. split; [done|].
  destruct x as [e|]; [intros _; by apply finish_wpc|]. by eapply rename_wpc.
Qed.

End write.

(** ** The contract of the write *)

Lemma writes_file_others p data mode w w' q : well_linked w → writes_file p data mode w w' → q ≠ p → is_temp q = false →
  content w' q = content w q ∧ ∀ c, may_hold w' q c → may_hold w q c.
Proof.
  intros Hl [Hf _ _] Hq Ht. split; [by eapply (same_files_content (λ q, q ≠ p))|].
  intros c. by apply (same_files_may_hold (λ q, q ≠ p)).
Qed.

Lemma writes_file_content p data mode w w' : well_linked w → writes_file p data mode w w' →
  content w' p = content w p ∨ content w' p = Some data.
Proof.
  intros Hl [Hf _ [[Hn _]|(h & Hn & _ & Hi & _)]]; unfold content; rewrite Hn; [left|right; simpl; by rewrite Hi].
  destruct (m_names w !! p) as [h|] eqn:E; [|done]. simpl. rewrite (sf_inodes _ _ _ Hf); [done|].
  apply (Hl p). unfold entries. rewrite E. apply list_elem_of_here.
Qed.

Lemma writes_file_may_hold p data mode w w' c : well_linked w → writes_file p data mode w w' →
  may_hold w' p c → may_hold w p c ∨ c = Some data.
Proof.
  intros Hl [Hf _ Htg] (e & He & Hc).
  assert (Hold : e ∈ entries w p → may_hold w p c).
  { intros Hin. exists e. split; [done|]. destruct e as [h|]; [|done]. destruct Hc as (s & -> & Hs). exists s. split; [done|].
    intros i Hi. apply Hs. rewrite (sf_inodes _ _ _ Hf); [done|by apply (Hl p)]. }
  destruct Htg as [[Hn Hs]|(h & Hn & _ & Hi & Hs)]; unfold entries in He; rewrite Hn in He.
  - left. apply Hold. unfold entries. apply elem_of_cons in He as [->|He]; [apply list_elem_of_here|].
    apply list_elem_of_further. by apply Hs.
  - apply elem_of_cons in He as [->|He]; [right|left; apply Hold; by apply Hs].
    destruct Hc as (s & -> & Hc). f_equal. by apply (Hc _ Hi).
Qed.

Lemma installed_holds p data mode w : installed p data mode w → content w p = Some data ∧ ∀ c, may_hold w p c → c = Some data.
Proof.
  intros (h & Hn & Hi & Hs). split; [unfold content; rewrite Hn; simpl; by rewrite Hi|].
  intros c (e & He & Hc). unfold entries in He. rewrite Hn, Hs in He. apply list_elem_of_singleton in He as ->.
  destruct Hc as (s & -> & Hc). f_equal. by apply (Hc _ Hi).
Qed.

(** [C13] AtomicWriteFile is atomic and durable.  At every moment of a run, with
    any of its calls failing, the file holds its old content or the whole new
    one, what a crash at that moment would leave of it is what a crash could
    have left before or the whole new content, and no other file changes.
    When it reports success the new content, with its mode, is what the file
    holds and all a crash can leave. *)
Theorem atomic_write_survives_crashes `{Ed25519Keys} p data mode w :
  well_linked w → is_temp p = false →
  wpc (λ w', (content w' p = content w p ∨ content w' p = Some data) ∧
             (∀ c, may_hold w' p c → may_hold w p c ∨ c = Some data) ∧
             ∀ q, q ≠ p → is_temp q = false → content w' q = content w q ∧ ∀ c, may_hold w' q c → may_hold w q c)
    (AtomicWriteFile p data mode) w
    (λ r w', r = None →
       (∃ h i, m_names w' !! p = Some h ∧ m_inodes w' !! h = Some i ∧ i_mode i = mode) ∧
       content w' p = Some data ∧ ∀ c, may_hold w' p c → c = Some data).
Proof.
  intros Hl Hp. apply AtomicWriteFile_wpc; [done|done| |].
  - intros w' Hw. split_and!; [by eapply writes_file_content|intros c; by eapply writes_file_may_hold|].
    intros q. by eapply writes_file_others.
  - intros r w' Hw Hr Hnone. pose proof (Hr Hnone) as Hi. split; [|by eapply installed_holds].
    destruct Hi as (h & Hn & Hi & _). by exists h, (mkInode data mode true).
Qed.

(** ** Keys and identities are read back *)

Lemma parse_print_newline j : printable 0 j → parse (print j +:+ String newline "") = Some j.
Proof.
  intros Hp. unfold parse. pose proof (need_le j 0 Hp). rewrite parse_value_print; [done|done| |done].
  rewrite length_app_s. simpl. lia.
Qed.

Lemma parse_identity i :
  ValidString (Identity_Serial i) = true → ValidString (Identity_HostKeyFingerprint i) = true →
  Identity_Serial i ≠ "" → Identity_HostKeyFingerprint i ≠ "" →
  parseIdentity (print (json_of_identity i) +:+ String newline "") = Ok i.
Proof.
  intros H1 H2 H3 H4. unfold parseIdentity, Unmarshal. rewrite parse_print_newline.
  2:{ apply printable_members_intro; [|done]. by members. }
  cbn [mbind option_bind]. destruct i as [s f]. simpl in *.
  by rewrite !bool_decide_eq_false_2.
Qed.

Lemma parse_private private : String.length private = 64 → parsePrivate (StdEncoding.EncodeToString private) = Ok private.
Proof. intros H. unfold parsePrivate. rewrite std_decode_encode. by rewrite bool_decide_eq_true_2. Qed.

(** A device key is generated once.  A run of GenerateKey touches the file
    only if it did not exist, and then every content it can show, now or after
    a crash, is a whole private key.  On success the key it returns is the
    public half of the key LoadPrivate finds there. *)
Theorem device_key_is_generated_once `{Ed25519Keys} p w :
  well_linked w → is_temp p = false →
  wpc (λ w', ∀ c, may_hold w' p c → may_hold w p c ∨
         m_names w !! p = None ∧ ∃ private, String.length private = 64 ∧ c = Some (StdEncoding.EncodeToString private))
    (GenerateKey p) w
    (λ r w', ∀ public, r = Ok public → m_names w !! p = None ∧
       ∃ private text, PublicKey private = public ∧ parsePrivate text = Ok private ∧ content w' p = Some text ∧
         ∀ c, may_hold w' p c → c = Some text).
Proof.
  intros Hl Hp. unfold GenerateKey. case_bool_decide; [by split; [auto|]|].
  apply wpc_call; [by auto|]. intros x w1 [-> Hx]. destruct x as [i|e]; [by split; [auto|]|].
  destruct (bool_decide (e = ErrNotExist)) eqn:Ee; [|by split; [auto|]]. bool_prop. subst e. cbn [negb].
  specialize (Hx eq_refl). apply wpc_try, wpc_last; [by auto|]. intros x w1 [-> Hpair]. split; [by auto|].
  destruct x as [[public private]|e]; [|done]. destruct (Hpair _ _ eq_refl) as [Hlen ->].
  apply wpc_guard. unfold writePrivate. apply AtomicWriteFile_wpc; [done|done| |].
  - intros w' Hw c Hc. destruct (writes_file_may_hold _ _ _ _ _ _ Hl Hw Hc) as [?| ->]; eauto.
  - intros [e|] w' Hw Hr; [done|]. destruct (installed_holds _ _ _ _ (Hr eq_refl)) as [Hc Hm].
    split; [intros c Hc'; right; split; [done|]; exists private; auto|]. intros public [= <-]. split; [done|].
    exists private, (StdEncoding.EncodeToString private). split_and!; [done|by apply parse_private|done|done].
Qed.

(** What package ed25519 promises of signing with the keys it generates. *)
Class Ed25519Laws `{Ed25519} `{Ed25519Keys} := {
  ed25519_Public_length private : String.length private = 64 → String.length (ed25519_Public private) = 32;
  ed25519_Sign_length private m : String.length private = 64 → String.length (ed25519_Sign private m) = 64;
  ed25519_Verify_Sign private m : String.length private = 64 →
    ed25519_Verify (ed25519_Public private) m (ed25519_Sign private m) = true;
}.

Lemma Verify_Sign `{Ed25519Laws} private m : String.length private = 64 → Verify (PublicKey private) m (Sign private m) = None.
Proof.
  intros Hl. unfold Verify, PublicKey, Sign. rewrite std_decode_encode, bool_decide_eq_true_2 by (by apply ed25519_Public_length).
  cbn [negb]. rewrite std_decode_encode, bool_decide_eq_true_2 by (by apply ed25519_Sign_length).
  by rewrite ed25519_Verify_Sign.
Qed.

(** ** Quiet programs

    Most of what a command does between two writes leaves the files, the
    locks, the children and the log alone, up to temporary files.  [Quiet]
    programs compose. *)

Record quiet (w w' : machine) : Prop := {
  qt_files : same_files (λ _, True) w w';
  qt_locks : m_locks w' = m_locks w;
  qt_children : m_children w' = m_children w;
  qt_log : m_log w' = m_log w;
}.

Lemma silent_refl w : well_linked w → quiet w w.
Proof. intros Hl. split; [by apply same_files_refl|done..]. Qed.

Lemma silent_trans w1 w2 w3 : well_linked w1 → quiet w1 w2 → quiet w2 w3 → quiet w1 w3.
Proof. intros Hl [] []. split; [by eapply same_files_trans|congruence..]. Qed.

Lemma quiet_linked w w' : quiet w w' → well_linked w'.
Proof. intros [Hf _ _ _]. apply Hf. Qed.

Section quiet.
Context {K : Ed25519Keys}.

Definition Quiet {A} (p : prog hostE A) : Prop :=
  ∀ (I : machine → Prop) w (Q : A → machine → Prop), well_linked w →
    (∀ w', quiet w w' → I w') → (∀ a w', quiet w w' → Q a w') → wpc I p w Q.

Definition quiet_call {X} (e : hostE X) : Prop := ∀ w x w', well_linked w → serves e w x w' → quiet w w'.

Lemma Quiet_ret {A} (a : A) : Quiet (Ret a).
Proof. intros I w Q Hl HI HQ. pose proof (silent_refl w Hl). split; auto. Qed.

Lemma Quiet_bind {A B} (p : prog hostE A) (f : A → prog hostE B) : Quiet p → (∀ a, Quiet (f a)) → Quiet (prog_bind p f).
Proof.
  intros Hp Hf I w Q Hl HI HQ. apply wpc_bind, Hp; [done|done|]. intros a w' Hq.
  apply Hf; [by eapply quiet_linked|..]; intros; [apply HI|apply HQ]; by eapply silent_trans.
Qed.

Lemma Quiet_call {X} (e : hostE X) : quiet_call e → Quiet (call e).
Proof.
  intros He I w Q Hl HI HQ. pose proof (silent_refl w Hl). apply wpc_last; [by apply HI|].
  intros x w' Hs. pose proof (He _ _ _ Hl Hs). split; auto.
Qed.

Lemma Quiet_try {A B} (p : prog hostE (result A)) (f : A → prog hostE (result B)) :
  Quiet p → (∀ a, Quiet (f a)) → Quiet (try_bind p f).
Proof. intros Hp Hf. apply Quiet_bind; [done|]. intros [a|e]; [done|apply Quiet_ret]. Qed.

Lemma Quiet_check (p k : prog hostE (option error)) : Quiet p → Quiet k → Quiet (check_bind p k).
Proof. intros Hp Hk. apply Quiet_bind; [done|]. intros [e|]; [apply Quiet_ret|done]. Qed.

Lemma Quiet_need {A} (p : prog hostE (result A)) (f : A → prog hostE (option error)) :
  Quiet p → (∀ a, Quiet (f a)) → Quiet (need_bind p f).
Proof. intros Hp Hf. apply Quiet_bind; [done|]. intros [a|e]; [done|apply Quiet_ret]. Qed.

(** Calls that change nothing this relation tracks. *)
Definition only_looks {X} (e : hostE X) : bool :=
  match e with
  | ReadFile _ | Stat _ | Lstat _ | MkdirAll _ _ | Close _ | OpenDir _ | OpenLock _ _ | Owner _ | Chown _ _ _ | Geteuid
  | LookupUser _ | Now | Sleep _ | CacheGet _ | CachePut _ _ | GenerateKeyPair | Executable | LookPath _ | UserConfigDir
  | UserHomeDir | Eprint _ => true
  | _ => false
  end.

Lemma set_now_quiet t w : well_linked w → quiet w (set_now t w).
Proof. intros Hl. split; [by split|done..]. Qed.

Lemma set_cache_quiet c w : well_linked w → quiet w (set_cache c w).
Proof. intros Hl. split; [by split|done..]. Qed.

Lemma looks_quiet {X} (e : hostE X) : only_looks e = true → quiet_call e.
Proof.
  intros He w x w' Hl Hs. pose proof (silent_refl w Hl) as Hr.
  destruct e; try discriminate He; simpl in Hs;
    repeat match goal with
    | H : _ ∧ _ |- _ => destruct H
    | H : ∃ _, _ |- _ => destruct H
    end; subst; auto using set_now_quiet, set_cache_quiet.
Qed.

Lemma temp_create_quiet dir pattern w name h w' :
  serves (CreateTemp dir pattern) w (Ok (name, h)) w' → well_linked w →
  (pattern = ".ternal-*" ∨ pattern = "ternal-endpoint-id-*") → is_temp name = true ∧ staged name h (mkInode "" 384 false) w w'.
Proof.
  intros [(name' & h' & [= <- <-] & Hb & Hno & Hh & ->)|(e & [=] & _)] Hl Hp.
  assert (Ht : is_temp name = true).
  { unfold is_temp. destruct Hp as [-> | ->]; [change (strings.TrimSuffix _ _) with ".ternal-" in Hb|
      change (strings.TrimSuffix _ _) with "ternal-endpoint-id-" in Hb]; rewrite Hb; [done|apply orb_true_r]. }
  split; [done|]. by apply staged_create.
Qed.

End quiet.

Create HintDb quiet discriminated.
#[export] Hint Resolve Quiet_ret Quiet_bind Quiet_call Quiet_try Quiet_check Quiet_need : quiet.
#[export] Hint Extern 1 (quiet_call _) => apply looks_quiet; reflexivity : quiet.
#[export] Hint Extern 2 (∀ _, Quiet _) => intro : quiet.

(** ** Temporary files *)

Lemma quiet_staged t h i w w' : staged t h i w w' → quiet w w'.
Proof. intros [Hf [] _ _ _ _]. by split. Qed.

Lemma quiet_inode h f w w' : h ∉ dom (m_inodes w) → quiet w w' → quiet w (on_inode h f w').
Proof. intros Hh [Hf ???]. split; [by apply same_files_inode|done..]. Qed.

Lemma quiet_remove t w w' : is_temp t = true → quiet w w' → quiet w (set_name t None w').
Proof. intros Ht [Hf ???]. split; [by apply same_files_temp|done..]. Qed.

(** The output of a program, by way of a temporary file. *)
Definition temp_output {K : Ed25519Keys} (pattern program : string) (args : list string)
    (rest : option error → option error → result string → prog hostE (result string)) : prog hostE (result string) :=
  temp ←? call (CreateTemp "" pattern);
  let (tmpName, h) := temp : string * nat in
  deferred (Remove tmpName)
    (let! runErr := call (RunTo h program args) in
     let! closeErr := call (Close h) in
     let! output := call (ReadFile tmpName) in
     rest runErr closeErr output).

Section programs.
Context {K : Ed25519Keys}.

Lemma LoadPrivate_quiet p : Quiet (LoadPrivate p).
Proof. unfold LoadPrivate. eauto 10 with quiet. Qed.

Lemma ReadIdentity_quiet p : Quiet (ReadIdentity p).
Proof. unfold ReadIdentity. eauto 10 with quiet. Qed.

Lemma temp_output_quiet program args rest :
  (∀ runErr closeErr output, Quiet (rest runErr closeErr output)) → Quiet (temp_output "ternal-endpoint-id-*" program args rest).
Proof.
  intros Hrest0. unfold temp_output.
  intros I w Q Hl HI HQ. pose proof (silent_refl w Hl) as Hr. apply wpc_try, wpc_last; [by apply HI|].
  intros [[t h]|e] w1 Hs.
  2:{ destruct Hs as [(? & ? & [=] & _)|(? & _ & ->)]. split; [by apply HI|]. intros _. by apply HQ. }
  destruct (temp_create_quiet _ _ _ _ _ _ Hs Hl ltac:(by right)) as [Ht Hst].
  pose proof (st_new _ _ _ _ _ Hst) as Hh. apply quiet_staged in Hst. split; [by apply HI|]. clear Hs.
  set (T := λ (r : result string) w2, quiet w w2).
  assert (Hdone : ∀ p w2, quiet w w2 → wpc I p w2 T → wpc I (deferred (X := option error) (Remove t) p) w2 Q).
  { intros p w2 Hq Hp. unfold deferred. apply wpc_bind. eapply wpc_mono; [exact Hp|]. intros a w3 _ Hq3.
    apply wpc_call; [by apply HI|]. intros x w4 [Hd _]. assert (Hq4 : quiet w w4).
    { destruct Hd as [[_ ->]|[_ ->]]; [by apply quiet_remove|done]. }
    apply wpc_ret; [by apply HI|by apply HQ]. }
  apply Hdone; [done|]. apply wpc_call; [by apply HI|]. intros runErr w2 (part & ->).
  assert (Hq2 : quiet w (on_inode h (λ i, mkInode (i_data i +:+ part) (i_mode i) false) w1)) by (by apply quiet_inode).
  revert Hq2. generalize (on_inode h (λ i, mkInode (i_data i +:+ part) (i_mode i) false) w1). intros w2 Hq2.
  assert (Hrest : ∀ p : prog hostE (result string), Quiet p → wpc I p w2 T).
  { intros p Hp. apply Hp; [by eapply quiet_linked|..]; intros; [apply HI|]; by eapply silent_trans. }
  apply Hrest. apply Quiet_bind; [eauto with quiet|]. intros closeErr. apply Quiet_bind; [eauto with quiet|]. intros output.
  apply Hrest0.
Qed.
End programs.
