(* ===== verification/Agent.v ===== *)
(** * The device's agent (cmd/ternal-agent/main.go, synclock_flock.go,
    owncheck_unix.go)

    The commands of ternal-agent as programs over [hostE]: configuration,
    enrolment, heartbeats and the synchronisation of authorized_keys.  The
    supervision loop is in Supervise.v. *)

From S2P Require Export DeviceKeys GoTime Auth.
Open Scope go_scope.

Definition defaultAPIURL : string := "http://127.0.0.1:3000".

Definition authorizedKeysMaxBytes : Z := Z.shiftl 1 20.

(** Durations are in nanoseconds. *)
Record config := mkConfig {
  c_APIURL : string; c_Pigeons : string; c_DeviceKey : string; c_IdentityFile : string;
  c_AuthorizedKeysPath : string; c_SSHUser : string; c_SSHPort : Z;
  c_RelayURLs : option (list string); c_ExtraRelayURLs : option (list string);
  c_HeartbeatEvery : Z; c_RestartBackoff : Z; c_StatusFile : string; c_ManufacturingTokenFile : string }.

Record enrollmentResponse := mkEnrollmentResponse { er_ID : string; er_HostID : string; er_SerialNumber : string }.

Record runtimeStatus := mkRuntimeStatus {
  rt_Service : string; rt_EndpointID : string; rt_Child : string; rt_LastError : string; rt_UpdatedAt : Z }.

Record authorizedKeysState := mkKeysState { ks_Generation : Z; ks_SHA256 : string }.

Definition enrollment_fields : list (struct_field enrollmentResponse) :=
  [at_field "id" er_ID (λ x r, mkEnrollmentResponse x (er_HostID r) (er_SerialNumber r)) decode_string;
   at_field "host_id" er_HostID (λ x r, mkEnrollmentResponse (er_ID r) x (er_SerialNumber r)) decode_string;
   at_field "serial_number" er_SerialNumber (λ x r, mkEnrollmentResponse (er_ID r) (er_HostID r) x) decode_string].

Definition state_fields : list (struct_field authorizedKeysState) :=
  [at_field "generation" ks_Generation (λ x s, mkKeysState x (ks_SHA256 s)) decode_int64;
   at_field "sha256" ks_SHA256 (λ x s, mkKeysState (ks_Generation s) x) decode_string].

Definition json_of_state (s : authorizedKeysState) : json :=
  JObj [("generation", JNum (strconv.FormatInt (ks_Generation s))); ("sha256", JStr (ks_SHA256 s))].

(** ** Settings *)

Definition parsePositiveDuration (env : environment) (key : string) (fallback : Z) : result Z :=
  if bool_decide (env key = "") then Ok fallback else
  match strconv.ParseUint (env key) 32 with
  | Some seconds => if bool_decide (seconds = 0%Z) then Err (Errorf (key +:+ " must be a positive integer")) else Ok (seconds * second)%Z
  | None => Err (Errorf (key +:+ " must be a positive integer"))
  end.

Definition parsePort (value : string) : result Z :=
  match strconv.ParseUint value 16 with
  | Some port => if bool_decide (port = 0%Z) then Err (Errorf "invalid SSH port") else Ok port
  | None => Err (Errorf "invalid SSH port")
  end.

(** A nil slice when there is no item. *)
Definition parseList (value : string) : option (list string) :=
  match filter (λ item, item ≠ "") (strings.TrimSpace <$> strings.Split value ",") with
  | [] => None
  | items => Some items
  end.

Definition hex_digit_any (c : ascii) : bool := between "0" "9" c || between "a" "f" c || between "A" "F" c.

(** hex.DecodeString accepts 64 characters when all are digits. *)
Definition validEndpointID (value : string) : bool :=
  bool_decide (String.length value = 64) && str_forallb hex_digit_any value.

(** " \t\r\n" *)
Definition blanks : string := " " +:+ String (chr 9) (String (chr 13) (String newline "")).

Definition validFingerprint (value : string) : bool :=
  strings.HasPrefix value "SHA256:" && (47 <=? String.length value) && (String.length value <=? 51) &&
  negb (strings.ContainsAny value blanks).

(** A rune outside ASCII is refused, and so is each of its bytes. *)
Definition validLocalUser (value : string) : bool :=
  if bool_decide (value = "") || (32 <? String.length value) || strings.HasPrefix value "-" then false else
  str_forallb (λ c, between "a" "z" c || between "A" "Z" c || between "0" "9" c || char_eqb c "_" || char_eqb c "-") value.

Definition isLoopback (host : string) : bool :=
  bool_decide (host = "localhost") || bool_decide (host = "127.0.0.1") || bool_decide (host = "::1").

Definition exitLabel (e : option error) : string := match e with None => "exit-0" | Some _ => "child-exited" end.

Definition pigeonsFileName (goos : string) : string := if bool_decide (goos = "windows") then "pigeons.exe" else "pigeons".

(** [info.Mode()&0111 != 0] *)
Definition isExecutableFile (goos : string) (info : FileInfo) : bool :=
  if negb (fi_Regular info) then false else
  if bool_decide (goos = "windows") then true else negb (bool_decide (Z.land (fi_Perm info) 73 = 0%Z)).

Definition runs_here (goos : string) (stat : result FileInfo) : bool :=
  match stat with Ok info => isExecutableFile goos info | Err _ => false end.

Definition look_up (name : string) : prog hostE (result string) :=
  let! found := call (LookPath name) in
  Ret (match found with Ok p => Ok p | Err _ => Err (Errorf "pigeons binary not found") end).

Definition findPigeons (env : environment) (goos : string) : prog hostE (result string) :=
  let name := pigeonsFileName goos in
  let configured := env "TERNAL_TRANSPORT_BIN" in
  if negb (bool_decide (configured = "")) then
    let refuse := Err (Errorf "configured pigeons binary is not executable") in
    if path.IsAbs configured then
      let! info := call (Stat configured) in
      Ret (if runs_here goos info then Ok configured else refuse)
    else Ret refuse
  else
    let! executable := call Executable in
    match executable with
    | Ok executable =>
      let candidate := path.Join [path.Dir executable; name] in
      let! info := call (Stat candidate) in
      if runs_here goos info then Ret (Ok candidate) else look_up name
    | Err _ => look_up name
    end.

Definition valid_api_url `{NetURL} (apiURL : string) : option error :=
  match url_Parse apiURL with
  | None => Some (Errorf "invalid TERNAL_API_URL")
  | Some u =>
    if bool_decide (URL_Scheme u = "") || bool_decide (URL_Host u = "") || URL_HasUser u ||
       negb (bool_decide (URL_RawQuery u = "")) || negb (bool_decide (URL_Fragment u = ""))
    then Some (Errorf "invalid TERNAL_API_URL") else
    if negb (bool_decide (URL_Scheme u = "https")) && negb (bool_decide (URL_Scheme u = "http") && isLoopback (URL_Hostname u))
    then Some (Errorf "TERNAL_API_URL must use HTTPS outside loopback development") else None
  end.

(** [if err != nil { return config{}, err }] on a pure step. *)
Definition or_return {A B} (r : result A) (k : A → prog hostE (result B)) : prog hostE (result B) :=
  match r with Ok a => k a | Err e => Ret (Err e) end.

Definition loadConfig `{NetURL} (env : environment) (goos : string) : prog hostE (result config) :=
  configHome ←? call UserConfigDir;
  let key := getenv_or env "TERNAL_DEVICE_KEY_FILE" (path.Join [configHome; "ternal"; "device.key"]) in
  let identityFile := getenv_or env "TERNAL_DEVICE_IDENTITY_FILE" (IdentityPath key) in
  or_return (parsePort (getenv_or env "TERNAL_AGENT_SSH_PORT" "22")) (λ sshPort,
  or_return (parsePositiveDuration env "TERNAL_AGENT_HEARTBEAT_SECONDS" (60 * second)) (λ heartbeatEvery,
  or_return (parsePositiveDuration env "TERNAL_AGENT_RESTART_BACKOFF_SECONDS" (5 * second)) (λ restartBackoff,
  let apiURL := strings.TrimSuffix (getenv_or env "TERNAL_API_URL" defaultAPIURL) "/" in
  match valid_api_url apiURL with
  | Some e => Ret (Err e)
  | None =>
    pigeons ←? findPigeons env goos;
    let sshUser := getenv_or env "TERNAL_AGENT_SSH_USER" "root" in
    if negb (validLocalUser sshUser) then Ret (Err (Errorf "invalid SSH user")) else
    Ret (Ok (mkConfig apiURL pigeons key identityFile (env "TERNAL_AGENT_AUTHORIZED_KEYS_PATH") sshUser sshPort
      (parseList (env "TERNAL_AGENT_RELAY_URLS")) (parseList (env "TERNAL_AGENT_EXTRA_RELAY_URLS"))
      heartbeatEvery restartBackoff
      (getenv_or env "TERNAL_AGENT_STATUS_FILE" (path.Join [configHome; "ternal"; "agent-status.json"]))
      (env "TERNAL_MANUFACTURING_TOKEN_FILE")))
  end))).

(** ** Requests *)

Definition response_limit : nat := Z.to_nat (Z.shiftl 1 20).

Definition signedHeaders (i : Identity) (endpointID : string) (timestamp : Z) (signature : string) : list (string * string) :=
  [("X-Ternal-Device-Serial", Identity_Serial i);
   ("X-Ternal-Device-Endpoint-Id", endpointID);
   ("X-Ternal-Device-Ssh-Host-Key-Fingerprint", Identity_HostKeyFingerprint i);
   ("X-Ternal-Device-Timestamp", strconv.FormatInt timestamp);
   ("X-Ternal-Device-Signature", signature)].

(** errors.As looks through wrapped errors. *)
Fixpoint as_status (e : error) : option Z :=
  match e with
  | ErrStatus code => Some code
  | ErrorWrap _ e => as_status e
  | _ => None
  end.

Definition isUnauthorized (err : option error) : bool :=
  match err with Some e => bool_decide (as_status e = Some 401%Z) | None => false end.

Section agent.
Context {Hurl : NetURL} {K : Ed25519Keys} (env : environment).

(** golang.org/x/crypto/ssh.ParseAuthorizedKey, as in Api.v. *)
Context (ParseAuthorizedKey : string → option (string * string * string * string)).

Definition request (base method p : string) (body : option string) (headers : list (string * string)) :
    prog hostE (result HTTPResponse) :=
  match url_Parse (base +:+ p) with
  | None => Ret (Err (Errorf "invalid request URL"))
  | Some _ =>
    let content := match body with Some _ => [("Content-Type", "application/json")] | None => [] end in
    response ←? call (HTTPDo (mkHTTPRequest method (base +:+ p) (content ++ headers) body));
    if (rs_Status response <? 200)%Z || (300 <=? rs_Status response)%Z
    then Ret (Err (ErrStatus (rs_Status response))) else Ret (Ok response)
  end.

(** The destination is a decoder and the value of the variable before; without
    one the body is thrown away. *)
Definition requestJSON {A} (base method p : string) (body : option json) (headers : list (string * string))
    (destination : option (decoder A)) (zero : A) : prog hostE (result A) :=
  response ←? request base method p (print <$> body) headers;
  match destination with
  | None => Ret (Ok zero)
  | Some d =>
    if (rs_Status response =? 204)%Z then Ret (Ok zero) else
    Ret (match Decode response_limit d zero (rs_Body response) with
         | Some a => Ok a
         | None => Err (Errorf "invalid API response")
         end)
  end.

(** [return requestJSON(..., nil)]. *)
Definition post (base p : string) (body : json) (headers : list (string * string)) : prog hostE (option error) :=
  _ ←! requestJSON base "POST" p (Some body) headers None tt; Ret None.

(** json.Marshal of a map: its keys in order. *)
Definition json_of_gomap (l : list (string * json)) : json := JObj (sort_keys l).

(** ** The device *)

Definition checkEndpointID (output : string) : result string :=
  let id := strings.TrimSpace output in
  if negb (validEndpointID id) then Err (Errorf "pigeons returned invalid roost endpoint id") else Ok (strings.ToLowerASCII id).

Definition roostEndpointID (cfg : config) : prog hostE (result string) :=
  let! cached := call (CacheGet (c_Pigeons cfg)) in
  match cached with
  | Some id => Ret (Ok id)
  | None =>
    temp ←? call (CreateTemp "" "ternal-endpoint-id-*");
    let (tmpName, h) := temp : string * nat in
    deferred (Remove tmpName)
      (let! runErr := call (RunTo h (c_Pigeons cfg) ["endpoint-id"]) in
       let! closeErr := call (Close h) in
       let! output := call (ReadFile tmpName) in
       match runErr, closeErr with
       | Some e, _ => Ret (Err (ErrorWrap "read persistent roost identity" e))
       | None, Some e => Ret (Err e)
       | None, None =>
         match output with
         | Err e => Ret (Err e)
         | Ok output =>
           or_return (checkEndpointID output) (λ id,
           let! _ := call (CachePut (c_Pigeons cfg) id) in Ret (Ok id))
         end
       end)
  end.

Definition loadDevice (cfg : config) : prog hostE (result (string * Identity * string)) :=
  private ←? LoadPrivate (c_DeviceKey cfg);
  identity ←? ReadIdentity (c_IdentityFile cfg);
  endpointID ←? roostEndpointID cfg;
  Ret (Ok (private, identity, endpointID)).

(** ** Enrolment *)

Definition readEnrollmentToken (p : string) : prog hostE (result string) :=
  if bool_decide (p = "") then Ret (Err (Errorf "TERNAL_MANUFACTURING_TOKEN_FILE is required for enrollment")) else
  info ←? call (Stat p);
  if negb (fi_Regular info) || (fi_Size info <? 1)%Z || (4096 <? fi_Size info)%Z
  then Ret (Err (Errorf "invalid manufacturing token file")) else
  data ←? call (ReadFile p);
  let token := strings.TrimSpace data in
  if bool_decide (token = "") || strings.ContainsAny token blanks
  then Ret (Err (Errorf "invalid manufacturing token")) else Ret (Ok token).

Definition enrollment_body (cfg : config) (serial token fingerprint endpointID private : string) : json :=
  json_of_gomap
    [("serial", JStr serial); ("token", JStr token); ("device_public_key", JStr (PublicKey private));
     ("endpoint_id", JStr endpointID); ("ssh_host_key_fingerprint", JStr fingerprint);
     ("ssh_user", JStr (c_SSHUser cfg)); ("ssh_port", JNum (strconv.FormatInt (c_SSHPort cfg)))].

Definition tab : string := String (chr 9) "".

Definition enroll (cfg : config) (serial token fingerprint : string) : prog hostE (option error) :=
  if bool_decide (token = "") || negb (validFingerprint fingerprint)
  then Ret (Some (Errorf "invalid enrollment arguments")) else
  let! loaded := LoadPrivate (c_DeviceKey cfg) in
  match loaded with
  | Err e => Ret (Some (ErrorWrap "load device key" e))
  | Ok private =>
    endpointID ←! roostEndpointID cfg;
    response ←! requestJSON (c_APIURL cfg) "POST" "/manufacturing/enroll"
      (Some (enrollment_body cfg serial token fingerprint endpointID private)) []
      (Some (decode_struct enrollment_fields)) (mkEnrollmentResponse "" "" "");
    let serial := if bool_decide (er_SerialNumber response = "") then serial else er_SerialNumber response in
    must WriteIdentity (c_IdentityFile cfg) (mkIdentity serial fingerprint);
    let! _ := call (Print ("device" +:+ tab +:+ er_ID response +:+ tab +:+ er_HostID response +:+ tab +:+ serial +:+ String newline "")) in
    Ret None
  end.

(** ** Heartbeats *)

(** [append(append([]string{}, a...), b...)]: not nil. *)
Definition append_all (a b : option (list string)) : option (list string) := Some (default [] a ++ default [] b).

Definition discovery_of (cfg : config) : DeviceDiscovery :=
  mkDeviceDiscovery ((λ l, (l, [])) <$> parseList (env "TERNAL_DIRECT_ADDRESSES"))
    ((λ l, (l, [])) <$> append_all (c_RelayURLs cfg) (c_ExtraRelayURLs cfg)).

Definition heartbeat_body (private : string) (identity : Identity) (endpointID : string) (timestamp : Z) (status : string)
    (discovery : DeviceDiscovery) : json :=
  json_of_gomap
    [("serial", JStr (Identity_Serial identity)); ("endpoint_id", JStr endpointID);
     ("ssh_host_key_fingerprint", JStr (Identity_HostKeyFingerprint identity));
     ("timestamp", JNum (strconv.FormatInt timestamp)); ("service_status", JStr status);
     ("discovery", json_of_discovery discovery);
     ("signature", JStr (Sign private (HeartbeatPayload (Identity_Serial identity) endpointID
        (Identity_HostKeyFingerprint identity) timestamp status (Some discovery))))].

Definition heartbeat (cfg : config) (status : string) : prog hostE (option error) :=
  device ←! loadDevice cfg;
  let '(private, identity, endpointID) := device in
  let! now := call Now in
  post (c_APIURL cfg) "/agents/heartbeat"
    (heartbeat_body private identity endpointID (unix now) status (discovery_of cfg)) [].

(** ** Lines with an expiry *)

Definition expiry_prefix : string := "expiry-time=" +:+ String dquote "".

(** time.Parse on the text without its final Z. *)
Definition validExpiryOption (option : string) : bool :=
  let '(ts, found) := strings.CutPrefix option expiry_prefix in
  if negb found || negb (strings.HasSuffix ts (String dquote "")) then false else
  let ts := strings.TrimSuffix ts (String dquote "") in
  if negb (bool_decide (String.length ts = 15)) || negb (strings.HasSuffix ts "Z") then false else
  match parse_compact (strings.TrimSuffix ts "Z") with Some _ => true | None => false end.

(** A line that is kept or accepted starts with an expiry. *)
Definition has_expiry (line : string) : bool :=
  let '(option, _, found) := strings.Cut (strings.TrimSpace line) " " in found && validExpiryOption option.

Definition key_lines (data : string) : list string :=
  filter (λ line, strings.TrimSpace line ≠ "") (strings.Split (strings.TrimSpace data) newline).

(** The lines kept, and whether one was removed. *)
Definition purged (data : string) : list string * bool :=
  let lines := key_lines data in
  (filter (λ line, has_expiry line = true) lines, negb (forallb has_expiry lines)).

Definition purged_body (kept : list string) : string :=
  match kept with [] => "" | _ => strings.Join kept (String newline "") +:+ String newline "" end.

Definition purgeLegacyAuthorizedKeys (p : string) : prog hostE (result bool) :=
  let! data := call (ReadFile p) in
  match data with
  | Err e => Ret (if bool_decide (e = ErrNotExist) then Ok false else Err e)
  | Ok data =>
    let (kept, removed) := purged data in
    if negb removed then Ret (Ok false) else
    ensure AtomicWriteFile p (purged_body kept) 384;
    Ret (Ok true)
  end.

(** One line of a snapshot. *)
Definition valid_line (line : string) : option error :=
  let '(option, remainder, found) := strings.Cut (strings.TrimSpace line) " " in
  if negb found || negb (validExpiryOption option)
  then Some (Errorf "server returned authorized_keys line without expiry-time") else
  match ParseAuthorizedKey remainder with
  | Some (_, _, rest, _) =>
    if bool_decide (strings.TrimSpace rest = "") then None
    else Some (Errorf "server returned invalid authorized_keys content")
  | None => Some (Errorf "server returned invalid authorized_keys content")
  end.

Fixpoint first_error (l : list string) : option error :=
  match l with
  | [] => None
  | line :: l => match valid_line line with Some e => Some e | None => first_error l end
  end.

Definition validateAuthorizedKeys (body : string) : option error := first_error (key_lines body).

(** ** The state file *)

Definition parseKeysState (data : string) : result authorizedKeysState :=
  match Unmarshal (decode_struct state_fields) (mkKeysState 0 "") data with
  | None => Err (Errorf "invalid authorized_keys synchronization state")
  | Some state =>
    if (ks_Generation state <? 1)%Z || negb (bool_decide (String.length (ks_SHA256 state) = 64))
    then Err (Errorf "invalid authorized_keys synchronization state") else Ok state
  end.

Definition readAuthorizedKeysState (p : string) : prog hostE (result (option authorizedKeysState)) :=
  let! data := call (ReadFile p) in
  Ret (match data with
       | Err e => if bool_decide (e = ErrNotExist) then Ok None else Err e
       | Ok data => state ← parseKeysState data; Ok (Some state)
       end).

(** ** Ownership *)

Definition rootOwned (p : string) : prog hostE bool :=
  let! owner := call (Owner p) in
  Ret (match owner with Some (uid, _) => bool_decide (uid = 0%Z) | None => false end).

Definition fileOwnedBy (p : string) (uid gid : Z) : prog hostE bool :=
  let! owner := call (Owner p) in Ret (bool_decide (owner = Some (uid, gid))).

Definition ensureUserOwned (p username : string) : prog hostE (option error) :=
  if bool_decide (username = "") then Ret None else
  let! euid := call Geteuid in
  if negb (bool_decide (euid = 0%Z)) then Ret None else
  u ←! call (LookupUser username);
  match strconv.Atoi (fst u), strconv.Atoi (snd u) with
  | None, _ | _, None => Ret (Some (Errorf "invalid syntax"))
  | Some uid, Some gid =>
    must call (Chown p uid gid);
    let dir := path.Dir p in
    let! root := rootOwned dir in
    must (if root then call (Chown dir uid gid) else Ret None);
    let! owned := fileOwnedBy p uid gid in
    Ret (if owned then None else Some (Errorf ("ownership of " +:+ p +:+ " could not be established")))
  end.

(** ** The lock *)

Definition acquireSyncLock (p : string) : prog hostE (result nat) :=
  let lockPath := p +:+ ".ternal-lock" in
  ensure call (MkdirAll (path.Dir lockPath) 448);
  h ←? call (OpenLock lockPath 384);
  let! r := call (Flock lockPath h) in
  match r with
  | Some _ =>
    let! _ := call (CloseLock lockPath h) in
    Ret (Err (Errorf "authorized_keys synchronization is already running"))
  | None => Ret (Ok h)
  end.

(** The function acquireSyncLock returns. *)
Definition unlock (p : string) (h : nat) : prog hostE unit :=
  let! _ := call (Funlock (p +:+ ".ternal-lock") h) in call (CloseLock (p +:+ ".ternal-lock") h).

(** ** Synchronisation *)

(** io.ReadAll(io.LimitReader(body, authorizedKeysMaxBytes+1)) and the check. *)
Definition read_snapshot (response : HTTPResponse) : result string :=
  if (authorizedKeysMaxBytes <? Z.of_nat (String.length (rs_Body response)))%Z
  then Err (Errorf "authorized_keys snapshot exceeds 1048576-byte budget") else
  match rs_Broken response with
  | Some e => Err e
  | None => Ok (rs_Body response)
  end.

(** What a snapshot must be to be installed; its generation and digest. *)
Definition checked_snapshot (response : HTTPResponse) : result (string * authorizedKeysState) :=
  body ← read_snapshot response;
  let digestHex := hex_encode (Sum256 body) in
  if negb (bool_decide (rs_Header response "X-Ternal-Authorized-Keys-Sha256" = digestHex))
  then Err (Errorf "authorized_keys digest mismatch") else
  match strconv.ParseInt (rs_Header response "X-Ternal-Authorized-Keys-Generation") with
  | None => Err (Errorf "invalid authorized_keys generation")
  | Some generation =>
    if (generation <? 0)%Z then Err (Errorf "invalid authorized_keys generation") else
    match validateAuthorizedKeys body with
    | Some e => Err e
    | None => Ok (body, mkKeysState generation digestHex)
    end
  end.

Definition goes_back (current : option authorizedKeysState) (next : authorizedKeysState) : bool :=
  match current with
  | None => false
  | Some c => (ks_Generation next <? ks_Generation c)%Z ||
              ((ks_Generation next =? ks_Generation c)%Z && negb (bool_decide (ks_SHA256 next = ks_SHA256 c)))
  end.

Definition state_text (s : authorizedKeysState) : string := print (json_of_state s) +:+ String newline "".

Definition ack_body (cfg : config) (s : authorizedKeysState) : json :=
  json_of_gomap [("ssh_user", JStr (c_SSHUser cfg)); ("generation", JNum (strconv.FormatInt (ks_Generation s)));
                 ("sha256", JStr (ks_SHA256 s))].

(** From the snapshot on: install, record, acknowledge. *)
Definition install_snapshot (cfg : config) (p private : string) (identity : Identity) (endpointID : string)
    (body : string) (next : authorizedKeysState) : prog hostE (option error) :=
  let statePath := p +:+ ".ternal-state" in
  current ←! readAuthorizedKeysState statePath;
  if goes_back current next
  then Ret (Some (Errorf "authorized_keys snapshot rollback or equivocation rejected")) else
  must AtomicWriteFile p body 384;
  must ensureUserOwned p (c_SSHUser cfg);
  must AtomicWriteFile statePath (state_text next) 384;
  must ensureUserOwned statePath (c_SSHUser cfg);
  let! now := call Now in
  let signature := Sign private (AuthorizedKeysAckPayload (Identity_Serial identity) endpointID
    (Identity_HostKeyFingerprint identity) (unix now) (c_SSHUser cfg) (ks_Generation next) (ks_SHA256 next)) in
  post (c_APIURL cfg) "/agents/authorized-keys/ack" (ack_body cfg next) (signedHeaders identity endpointID (unix now) signature).

(** Under the lock. *)
Definition sync_locked (cfg : config) (p : string) : prog hostE (option error) :=
  _ ←! purgeLegacyAuthorizedKeys p;
  device ←! loadDevice cfg;
  let '(private, identity, endpointID) := device in
  let! now := call Now in
  let signature := Sign private (AuthorizedKeysPayload (Identity_Serial identity) endpointID
    (Identity_HostKeyFingerprint identity) (unix now) (c_SSHUser cfg)) in
  response ←! request (c_APIURL cfg) "GET" ("/agents/authorized-keys?ssh_user=" +:+ url.QueryEscape (c_SSHUser cfg)) None
    (signedHeaders identity endpointID (unix now) signature);
  match checked_snapshot response with
  | Err e => Ret (Some e)
  | Ok (body, next) => install_snapshot cfg p private identity endpointID body next
  end.

Definition syncAuthorizedKeys (cfg : config) (p : string) : prog hostE (option error) :=
  if bool_decide (p = "") then Ret (Some (Errorf "TERNAL_AGENT_AUTHORIZED_KEYS_PATH is required")) else
  h ←! acquireSyncLock p;
  let! r := sync_locked cfg p in
  let! _ := unlock p h in
  Ret r.

Definition syncControlPlane (cfg : config) (status : string) : prog hostE (option error) :=
  let! heartbeatErr := heartbeat cfg status in
  if bool_decide (c_AuthorizedKeysPath cfg = "") then Ret heartbeatErr else
  let! syncErr := syncAuthorizedKeys cfg (c_AuthorizedKeysPath cfg) in
  if isUnauthorized syncErr || bool_decide (heartbeatErr = None) then Ret syncErr else Ret heartbeatErr.

End agent.
