(* ===== verification/Supervise.v ===== *)
(** * The agent's supervision loop and its command line
    (cmd/ternal-agent/main.go, lines 79-136, 383-461 and 539-548) *)

From S2P Require Export Agent Traffic.
Open Scope go_scope.

Definition childShutdownGrace : Z := 5 * second.

(** json.MarshalIndent of a struct of simple values, with two spaces. *)
Definition indent_member (kv : string * json) : string := "  " +:+ quote kv.1 +:+ ": " +:+ print kv.2.

Definition MarshalIndent (l : list (string * json)) : string :=
  "{" +:+ String newline "" +:+ strings.Join (indent_member <$> l) ("," +:+ String newline "") +:+ String newline "}".

Definition members_of_status (s : runtimeStatus) : list (string * json) :=
  [("service", JStr (rt_Service s)); ("endpoint_id", JStr (rt_EndpointID s)); ("child", JStr (rt_Child s))] ++
  (if bool_decide (rt_LastError s = "") then [] else [("last_error", JStr (rt_LastError s))]) ++
  [("updated_at", JNum (strconv.FormatInt (rt_UpdatedAt s)))].

Definition writeStatus (p : string) (s : runtimeStatus) : prog hostE (option error) :=
  AtomicWriteFile p (MarshalIndent (members_of_status s) +:+ String newline "") 384.

(** [_ = writeStatus(..., UpdatedAt: time.Now().Unix())]. *)
Definition report (cfg : config) (service endpointID child lastError : string) : prog hostE unit :=
  let! now := call Now in
  let! _ := writeStatus (c_StatusFile cfg) (mkRuntimeStatus service endpointID child lastError (unix now)) in
  Ret tt.

Definition roostArgs (cfg : config) : list string :=
  ["roost"; "--ssh-port"; strconv.FormatInt (c_SSHPort cfg)] ++
  concat ((λ value, ["--relay-url"; value]) <$> default [] (c_RelayURLs cfg)) ++
  concat ((λ value, ["--relay-url"; value]) <$> default [] (c_ExtraRelayURLs cfg)).

Definition stopChild (grace : Z) : prog hostE unit :=
  let! _ := call Interrupt in
  let! woken := call (Await [WaitExit; WaitAfter grace]) in
  match woken with
  | IsExit _ => Ret tt
  | _ =>
    let! _ := call Kill in
    let! _ := call (Await [WaitExit]) in
    Ret tt
  end.

(** Where a run of the loop is: about to start the child, or waiting. *)
Inductive phase := Starting | Watching.

Section supervise.
Context {Hurl : NetURL} {K : Ed25519Keys} (env : environment) (goos : string).
Context (ParseAuthorizedKey : string → option (string * string * string * string)).

Notation syncControlPlane := (syncControlPlane env ParseAuthorizedKey).

Definition revoked_text : string := "device authorization revoked".

(** The child is stopped for good. *)
Definition stop_with (cfg : config) (service endpointID lastError : string) (err : option error) :
    prog hostE (option (option error)) :=
  let! _ := stopChild childShutdownGrace in
  let! _ := report cfg service endpointID "stopped" lastError in
  Ret (Some err).

(** [None] when the fuel is used up: the loop has no end of its own. *)
Fixpoint supervise_loop (fuel : nat) (cfg : config) (endpointID : string) (ph : phase) : prog hostE (option (option error)) :=
  match fuel with
  | O => Ret None
  | S fuel =>
    match ph with
    | Starting =>
      let! started := call (StartChild (c_Pigeons cfg) (roostArgs cfg)) in
      match started with
      | Some e => Ret (Some (Some e))
      | None =>
        let! _ := report cfg "starting" endpointID "running" "" in
        let! err := syncControlPlane cfg "healthy" in
        if isUnauthorized err then stop_with cfg "revoked" endpointID revoked_text err
        else supervise_loop fuel cfg endpointID Watching
      end
    | Watching =>
      let! woken := call (Await [WaitDone; WaitExit; WaitTick]) in
      match woken with
      | IsDone | IsAfter => stop_with cfg "stopped" endpointID "" None
      | IsExit childErr =>
        let! _ := report cfg "degraded" endpointID "exited" (exitLabel childErr) in
        let! woken := call (Await [WaitDone; WaitAfter (c_RestartBackoff cfg)]) in
        match woken with
        | IsDone => Ret (Some None)
        | _ => supervise_loop fuel cfg endpointID Starting
        end
      | IsTick =>
        let! heartbeatErr := syncControlPlane cfg "healthy" in
        if isUnauthorized heartbeatErr then stop_with cfg "revoked" endpointID revoked_text heartbeatErr else
        let! _ := (match heartbeatErr with
                   | None => report cfg "healthy" endpointID "running" ""
                   | Some _ => report cfg "degraded" endpointID "running" "control-plane synchronization failed"
                   end) in
        supervise_loop fuel cfg endpointID Watching
      end
    end
  end.

Definition supervise (fuel : nat) (cfg : config) : prog hostE (option (option error)) :=
  let! roost := roostEndpointID cfg in
  match roost with
  | Err e => Ret (Some (Some e))
  | Ok endpointID =>
    let! err := heartbeat env cfg "starting" in
    if isUnauthorized err then
      let! _ := report cfg "revoked" endpointID "stopped" revoked_text in
      Ret (Some err)
    else supervise_loop fuel cfg endpointID Starting
  end.

(** ** The command line *)

Definition finished (p : prog hostE (option error)) : prog hostE (option (option error)) := let! r := p in Ret (Some r).

Definition usage (text : string) : prog hostE (option (option error)) := Ret (Some (Some (Errorf text))).

Definition run_command (fuel : nat) (cfg : config) (command : string) (args : list string) : prog hostE (option (option error)) :=
  if bool_decide (command = "device-keygen") then
    match args with
    | [] | [_] =>
      finished (public ←! GenerateKey (hd (c_DeviceKey cfg) args);
                let! _ := call (Print ("device_public_key" +:+ tab +:+ public +:+ String newline "")) in Ret None)
    | _ => usage "usage: ternal-agent device-keygen [path]"
    end
  else if bool_decide (command = "enroll") then
    match args with
    | [fingerprint] | [fingerprint; _] =>
      finished (token ←! readEnrollmentToken (c_ManufacturingTokenFile cfg);
                enroll cfg (nth 1 args "") token fingerprint)
    | _ => usage "usage: ternal-agent enroll <ssh-host-key-fingerprint> [serial] (token is read from TERNAL_MANUFACTURING_TOKEN_FILE)"
    end
  else if bool_decide (command = "heartbeat") then finished (heartbeat env cfg "healthy")
  else if bool_decide (command = "sync-authorized-keys") then
    match args with
    | [] | [_] => finished (syncAuthorizedKeys ParseAuthorizedKey cfg (hd (c_AuthorizedKeysPath cfg) args))
    | _ => usage "usage: ternal-agent sync-authorized-keys [path]"
    end
  else if bool_decide (command = "run") then supervise fuel cfg
  else if bool_decide (command = "status") then
    finished (data ←! call (ReadFile (c_StatusFile cfg)); let! _ := call (Print data) in Ret None)
  else usage "unknown command".

Definition run_agent (fuel : nat) (args : list string) : prog hostE (option (option error)) :=
  match args with
  | [] => usage "usage: ternal-agent device-keygen|enroll|heartbeat|sync-authorized-keys|run|status"
  | command :: args =>
    let! cfg := loadConfig env goos in
    match cfg with
    | Err e => Ret (Some (Some e))
    | Ok cfg => run_command fuel cfg command args
    end
  end.

End supervise.

(** ** The parts of the agent that nobody sees

    Reading and writing files, the lock and the endpoint's identity: they add
    nothing to the log of a run. *)

Section mute.
Context {K : Ed25519Keys} (cfg : config).

Lemma mute_write p data mode : mute (AtomicWriteFile p data mode).
Proof. unfold AtomicWriteFile, deferred, or_close, fsyncDir. only_steps. Qed.

Lemma mute_owner p user : mute (ensureUserOwned p user).
Proof. unfold ensureUserOwned, rootOwned, fileOwnedBy. only_steps. Qed.

Lemma mute_endpoint : mute (roostEndpointID cfg).
Proof. unfold roostEndpointID, deferred, or_return. only_steps. Qed.

Lemma mute_state p : mute (readAuthorizedKeysState p).
Proof. unfold readAuthorizedKeysState. only_steps. Qed.

Lemma mute_lock p : mute (acquireSyncLock p).
Proof. unfold acquireSyncLock. only_steps. Qed.

Lemma mute_unlock p h : mute (unlock p h).
Proof. unfold unlock. only_steps. Qed.

#[local] Hint Resolve mute_write mute_endpoint : only.

Lemma mute_purge p : mute (purgeLegacyAuthorizedKeys p).
Proof. unfold purgeLegacyAuthorizedKeys. only_steps. Qed.

Lemma mute_device : mute (loadDevice cfg).
Proof. unfold loadDevice, LoadPrivate, ReadIdentity. only_steps. Qed.

Lemma mute_report service endpointID child lastError : mute (report cfg service endpointID child lastError).
Proof. unfold report, writeStatus. only_steps. Qed.
End mute.

#[export] Hint Resolve mute_write mute_owner mute_endpoint mute_state mute_lock mute_unlock mute_purge mute_device mute_report : only.
