(* ===== verification/AgentSync.v ===== *)
(** * What a synchronisation of authorized_keys leaves on the device

    At every moment of a run of [syncAuthorizedKeys], with any call failing
    and any answer of the server, the keys file and its state file are old or
    come from one snapshot the server vouched for, in an order that a crash
    cannot upset. *)

From S2P Require Export DeviceKeys Supervise.
Open Scope go_scope.

(** ** The agent's quiet programs

    Reading the device's key and identity, its endpoint, and the ownership of a
    file leave the files, the locks, the children and the log alone. *)

Section agent.
Context {Hurl : NetURL} {K : Ed25519Keys} (env : environment).

Lemma ensureUserOwned_quiet p u : Quiet (ensureUserOwned p u).
Proof.
  unfold ensureUserOwned, rootOwned, fileOwnedBy. case_bool_decide; [eauto with quiet|].
  apply Quiet_bind; [eauto with quiet|]. intros euid. destruct (negb _); [eauto with quiet|].
  apply Quiet_need; [eauto with quiet|]. intros v. destruct (strconv.Atoi v.1), (strconv.Atoi v.2); try (eauto with quiet; fail).
  apply Quiet_check; [eauto with quiet|]. apply Quiet_bind; [eauto with quiet|]. intros root.
  apply Quiet_check; [destruct root; eauto with quiet|]. apply Quiet_bind; [eauto with quiet|].
  intros owned. eauto with quiet.
Qed.

Lemma roostEndpointID_quiet cfg : Quiet (roostEndpointID cfg).
Proof.
  unfold roostEndpointID. apply Quiet_bind; [eauto with quiet|]. intros [id|]; [eauto with quiet|].
  apply (temp_output_quiet (c_Pigeons cfg) ["endpoint-id"]). intros runErr closeErr output.
  destruct runErr; [eauto with quiet|]. destruct closeErr; [eauto with quiet|]. destruct output; [|eauto with quiet].
  destruct (checkEndpointID _); simpl; eauto with quiet.
Qed.

Lemma loadDevice_quiet cfg : Quiet (loadDevice cfg).
Proof.
  unfold loadDevice. apply Quiet_try; [apply LoadPrivate_quiet|]. intros private.
  apply Quiet_try; [apply ReadIdentity_quiet|]. intros identity.
  apply Quiet_try; [apply roostEndpointID_quiet|]. eauto with quiet.
Qed.

End agent.

Definition statePath (p : string) : string := p +:+ ".ternal-state".

Lemma statePath_ne p : statePath p ≠ p.
Proof. intros E. apply (f_equal String.length) in E. unfold statePath in E. rewrite length_app_s in E. simpl in E. lia. Qed.

(** Everything a crash could leave of the file is in [S]. *)
Definition within (S : option string → Prop) (w : machine) (p : string) : Prop := ∀ c, may_hold w p c → S c.

(** The file after the purge of the lines without expiry. *)
Definition purge_result (w : machine) (p : string) (c : option string) : Prop :=
  ∃ data, content w p = Some data ∧ c = Some (purged_body (purged data).1).

(** What the state file records. *)
Definition recorded (w : machine) (p : string) (current : option authorizedKeysState) : Prop :=
  match content w p with
  | None => current = None
  | Some data => ∃ s, parseKeysState data = Ok s ∧ current = Some s
  end.

Section sync.
Context {Hurl : NetURL} {K : Ed25519Keys} (env : environment).
Context (ParseAuthorizedKey : string → option (string * string * string * string)).

Definition good_line (line : string) : Prop :=
  has_expiry line = true ∧
  ∃ key comment rest fingerprint,
    ParseAuthorizedKey (strings.Cut (strings.TrimSpace line) " ").1.2 = Some (key, comment, rest, fingerprint) ∧
    strings.TrimSpace rest = "".

(** A snapshot after the recorded one, or the recorded one again. *)
Definition goes_forward (current : option authorizedKeysState) (next : authorizedKeysState) : Prop :=
  match current with
  | None => True
  | Some c => (ks_Generation c < ks_Generation next)%Z ∨ next = c
  end.

Lemma not_back_forward current next : goes_back current next = false → goes_forward current next.
Proof.
  destruct current as [[g d]|]; [|done]. destruct next as [g' d']. unfold goes_back. simpl.
  destruct (Z.ltb_spec g' g); [done|]. destruct (Z.eqb_spec g' g) as [->|]; [|left; lia].
  case_bool_decide as E; [|done]. intros _. right. by subst.
Qed.

(** A snapshot that may be installed over what the device has. *)
Record vouched (p : string) (w : machine) (log : list action) (body : string) (next : authorizedKeysState) : Prop := {
  vo_answer : ∃ q resp, Sent q (Ok resp) ∈ log ∧ rq_Method q = "GET" ∧ (200 ≤ rs_Status resp < 300)%Z ∧
    rs_Body resp = body ∧ rs_Header resp "X-Ternal-Authorized-Keys-Sha256" = ks_SHA256 next ∧
    strconv.ParseInt (rs_Header resp "X-Ternal-Authorized-Keys-Generation") = Some (ks_Generation next);
  vo_size : (Z.of_nat (String.length body) ≤ 2 ^ 20)%Z;
  vo_digest : ks_SHA256 next = hex_encode (Sum256 body);
  vo_lines : Forall good_line (key_lines body);
  vo_current : ∃ current, recorded w (statePath p) current ∧ goes_forward current next;
}.

(** The requests since the start. *)
Definition no_post (w : machine) (log : list action) : Prop :=
  ∃ l, log = l ++ m_log w ∧ ∀ q r, Sent q r ∈ l → rq_Method q ≠ "POST".

(** A state a synchronisation passes through: nothing installed yet, or one
    snapshot on its way, the keys before the state and the state before the
    acknowledgement. *)
Definition sync_state (p : string) (w w' : machine) : Prop :=
  same_files (λ q, q ≠ p ∧ q ≠ statePath p) w w' ∧
  ((no_post w (m_log w') ∧
    within (λ c, may_hold w p c ∨ purge_result w p c) w' p ∧ within (may_hold w (statePath p)) w' (statePath p)) ∨
   ∃ body next, vouched p w (m_log w') body next ∧
     within (λ c, may_hold w p c ∨ purge_result w p c ∨ c = Some body) w' p ∧
     within (λ c, may_hold w (statePath p) c ∨ c = Some (state_text next)) w' (statePath p) ∧
     (within (may_hold w (statePath p)) w' (statePath p) ∨ within (λ c, c = Some body) w' p) ∧
     (no_post w (m_log w') ∨
      within (λ c, c = Some body) w' p ∧ within (λ c, c = Some (state_text next)) w' (statePath p))).

(** ** Phases *)

Record at_phase (P : string → Prop) (p : string) (w : machine) (Sk Ss : option string → Prop) (log : list action)
    (locks : gmap string nat) (w' : machine) : Prop := {
  ph_files : same_files P w w';
  ph_keys : within Sk w' p;
  ph_state : within Ss w' (statePath p);
  ph_log : m_log w' = log;
  ph_locks : m_locks w' = locks;
}.

Section phases.
Context (p : string) (w : machine).
Hypothesis Hlinked : well_linked w.
Hypothesis Hp : is_temp p = false.
Hypothesis Hs : is_temp (statePath p) = false.

Lemma within_quiet S w1 w2 q : well_linked w1 → quiet w1 w2 → is_temp q = false → within S w1 q → within S w2 q.
Proof. intros Hl Hq Ht HS c Hc. apply HS. by apply (same_files_may_hold (λ _, True) w1 w2 q c Hl (qt_files _ _ Hq)). Qed.

Lemma phase_linked P Sk Ss log locks w' : at_phase P p w Sk Ss log locks w' → well_linked w'.
Proof. intros H. apply (ph_files _ _ _ _ _ _ _ _ H). Qed.

Lemma phase_quiet P Sk Ss log locks w1 w2 : at_phase P p w Sk Ss log locks w1 → quiet w1 w2 → at_phase P p w Sk Ss log locks w2.
Proof.
  intros H Hq. pose proof (phase_linked _ _ _ _ _ _ H) as Hl. destruct H as [Hf Hk Hst Hlog Hlk]. split.
  - eapply same_files_trans; [done|exact Hf|]. eapply same_files_weaken; [|apply Hq]. done.
  - by eapply within_quiet.
  - by eapply within_quiet.
  - by rewrite (qt_log _ _ Hq).
  - by rewrite (qt_locks _ _ Hq).
Qed.

Lemma phase_note P Sk Ss log locks a w1 : at_phase P p w Sk Ss log locks w1 → at_phase P p w Sk Ss (a :: log) locks (note a w1).
Proof. intros [[] Hk Hst Hlog Hlk]. split; [by split|done|done|simpl; by f_equal|done]. Qed.

Lemma phase_weaken (P P' : string → Prop) Sk Sk' (Ss Ss' : option string → Prop) log locks w1 :
  at_phase P p w Sk Ss log locks w1 → (∀ q, P' q → P q) → (∀ c, Sk c → Sk' c) → (∀ c, Ss c → Ss' c) →
  at_phase P' p w Sk' Ss' log locks w1.
Proof.
  intros [Hf Hk Hst Hlog Hlk] HP HSk HSs. split; [by eapply same_files_weaken|intros c Hc; auto|intros c Hc; auto|done|done].
Qed.

(** A write of one of the two files. *)
Lemma phase_write q data mode P Sk Ss log locks w1 w2 : at_phase P p w Sk Ss log locks w1 →
  q = p ∨ q = statePath p → writes_file q data mode w1 w2 →
  at_phase (λ q', P q' ∧ q' ≠ q) p w
    (λ c, Sk c ∨ (q = p ∧ c = Some data)) (λ c, Ss c ∨ (q = statePath p ∧ c = Some data)) log locks w2.
Proof.
  intros H Hq Hw. pose proof (phase_linked _ _ _ _ _ _ H) as Hl. destruct H as [Hf Hk Hst Hlog Hlk].
  assert (Hothers : ∀ q' (S : option string → Prop), is_temp q' = false → within S w1 q' → q' ≠ q → within S w2 q').
  { intros q' S Ht HS Hne c Hc. apply HS. destruct (writes_file_others _ _ _ _ _ q' Hl Hw Hne Ht) as [_ Hm]. by apply Hm. }
  assert (Hsame : ∀ q' (S : option string → Prop), within S w1 q' → q' = q → within (λ c, S c ∨ c = Some data) w2 q').
  { intros q' S HS -> c Hc. destruct (writes_file_may_hold _ _ _ _ _ _ Hl Hw Hc) as [?| ->]; [left; by apply HS|by right]. }
  destruct Hw as [Hwf [] _]. split; [|..|congruence|congruence].
  - eapply same_files_trans; [done|by eapply same_files_weaken; [|exact Hf]; intros ? []|].
    eapply same_files_weaken; [|exact Hwf]. by intros ? [].
  - destruct (decide (p = q)) as [E|E].
    + intros c Hc. destruct (Hsame p Sk Hk E c Hc) as [?| ->]; auto.
    + intros c Hc. left. by apply (Hothers p).
  - destruct (decide (statePath p = q)) as [E|E].
    + intros c Hc. destruct (Hsame _ Ss Hst E c Hc) as [?| ->]; auto.
    + intros c Hc. left. by apply (Hothers (statePath p)).
Qed.

Lemma phase_installed q data mode P Sk Ss log locks w1 : at_phase P p w Sk Ss log locks w1 →
  q = p ∨ q = statePath p → installed q data mode w1 →
  at_phase P p w (λ c, Sk c ∧ (q = p → c = Some data)) (λ c, Ss c ∧ (q = statePath p → c = Some data)) log locks w1.
Proof.
  intros [Hf Hk Hst Hlog Hlk] Hq Hi. destruct (installed_holds _ _ _ _ Hi) as [_ Hm].
  split; [done| | |done|done]; intros c Hc; (split; [auto|]); intros ->; by apply Hm.
Qed.

(** The phases of a synchronisation. *)
Definition fresh_phase : list action → gmap string nat → machine → Prop :=
  at_phase (λ q, q ≠ p) p w (λ c, may_hold w p c ∨ purge_result w p c) (may_hold w (statePath p)).

Definition keys_phase (body : string) : list action → gmap string nat → machine → Prop :=
  at_phase (λ q, q ≠ p ∧ q ≠ statePath p) p w (λ c, c = Some body) (may_hold w (statePath p)).

Definition done_phase (body : string) (next : authorizedKeysState) : list action → gmap string nat → machine → Prop :=
  at_phase (λ q, q ≠ p ∧ q ≠ statePath p) p w (λ c, c = Some body) (λ c, c = Some (state_text next)).

Lemma fresh_state log locks w' : no_post w log → fresh_phase log locks w' → sync_state p w w'.
Proof.
  intros Hno [Hf Hk Hst Hlog Hlk]. split; [eapply same_files_weaken; [|exact Hf]; by intros q []|]. left. by rewrite Hlog.
Qed.

Lemma keys_writing_state body next log locks w' : vouched p w log body next → no_post w log →
  at_phase (λ q, q ≠ p ∧ q ≠ statePath p) p w (λ c, may_hold w p c ∨ purge_result w p c ∨ c = Some body)
    (may_hold w (statePath p)) log locks w' → sync_state p w w'.
Proof.
  intros Hv Hno [Hf Hk Hst Hlog Hlk]. split; [done|]. right. exists body, next. rewrite Hlog. split_and!; try done.
  - intros c Hc. left. by apply Hst.
  - by left.
  - by left.
Qed.

Lemma keys_state body next log locks w' : vouched p w log body next → no_post w log →
  keys_phase body log locks w' → sync_state p w w'.
Proof.
  intros Hv Hno H. eapply (keys_writing_state body next); [done|done|]. eapply phase_weaken; [exact H|done| |done].
  intros c ->. by right; right.
Qed.

Lemma state_writing_state body next log locks w' : vouched p w log body next → no_post w log →
  at_phase (λ q, q ≠ p ∧ q ≠ statePath p) p w (λ c, c = Some body)
    (λ c, may_hold w (statePath p) c ∨ c = Some (state_text next)) log locks w' → sync_state p w w'.
Proof.
  intros Hv Hno [Hf Hk Hst Hlog Hlk]. split; [done|]. right. exists body, next. rewrite Hlog. split_and!; try done.
  - intros c Hc. right; right. by apply Hk.
  - by right.
  - by left.
Qed.

Lemma done_state body next log locks w' : vouched p w log body next →
  done_phase body next log locks w' → sync_state p w w'.
Proof.
  intros Hv [Hf Hk Hst Hlog Hlk]. split; [done|]. right. exists body, next. rewrite Hlog. split_and!; try done.
  - intros c Hc. right; right. by apply Hk.
  - intros c Hc. right. by apply Hst.
  - by right.
  - by right.
Qed.

End phases.

(** ** Requests *)

Definition sent_request (base method pth : string) (body : option string) (headers : list (string * string)) : HTTPRequest :=
  mkHTTPRequest method (base +:+ pth)
    (match body with Some _ => [("Content-Type", "application/json")] | None => [] end ++ headers) body.

Lemma request_wpc I base method pth body headers w (Q : result HTTPResponse → machine → Prop) :
  let q := sent_request base method pth body headers in
  I w → (∀ r, I (note (Sent q r) w)) → (∀ e, Q (Err e) w) →
  (∀ e r, Q (Err e) (note (Sent q r) w)) →
  (∀ resp, (200 ≤ rs_Status resp < 300)%Z → Q (Ok resp) (note (Sent q (Ok resp)) w)) →
  wpc I (request base method pth body headers) w Q.
Proof.
  intros q Hi Hi' Hbad Herr Hok. unfold request. destruct (url_Parse _); [|by apply wpc_ret].
  apply wpc_try, wpc_last; [done|]. intros r w'; cbn [serves]; intros ->. split; [by apply Hi'|].
  destruct r as [resp|e]; [|intros _; by apply Herr].
  destruct (_ || _)%bool eqn:E; (apply wpc_ret; [by apply Hi'|]); [by apply Herr|]. apply Hok.
  apply orb_false_iff in E as [E1%Z.ltb_ge E2%Z.leb_gt]. lia.
Qed.

Lemma post_wpc I base pth body headers w (Q : option error → machine → Prop) :
  let q := sent_request base "POST" pth (Some (print body)) headers in
  I w → (∀ r, I (note (Sent q r) w)) → (∀ e, Q (Some e) w) →
  (∀ e r, Q (Some e) (note (Sent q r) w)) →
  (∀ resp, (200 ≤ rs_Status resp < 300)%Z → Q None (note (Sent q (Ok resp)) w)) →
  wpc I (post base pth body headers) w Q.
Proof.
  intros q Hi Hi' Hbad Herr Hok. unfold post, requestJSON. apply wpc_need, wpc_try. simpl fmap.
  apply request_wpc; [done|done|done|done|]. intros resp Hr. cbv beta iota. apply wpc_ret; [apply Hi'|].
  apply wpc_ret; [apply Hi'|by apply Hok].
Qed.

(** ** The parts of a synchronisation *)

Lemma checked_snapshot_spec resp body next : checked_snapshot ParseAuthorizedKey resp = Ok (body, next) →
  rs_Body resp = body ∧ (Z.of_nat (String.length body) ≤ 2 ^ 20)%Z ∧
  rs_Header resp "X-Ternal-Authorized-Keys-Sha256" = ks_SHA256 next ∧
  strconv.ParseInt (rs_Header resp "X-Ternal-Authorized-Keys-Generation") = Some (ks_Generation next) ∧
  ks_SHA256 next = hex_encode (Sum256 body) ∧ Forall good_line (key_lines body).
Proof.
  unfold checked_snapshot, read_snapshot, authorizedKeysMaxBytes. change (Z.shiftl 1 20) with (2 ^ 20)%Z.
  destruct (Z.ltb_spec (2 ^ 20) (Z.of_nat (String.length (rs_Body resp)))) as [|Hsize]; [done|].
  destruct (rs_Broken resp); [done|]. cbn [mbind result_bind]. case_bool_decide as Ed; [|done]. cbn [negb].
  destruct (strconv.ParseInt _) as [g|] eqn:Eg; [|done]. destruct (g <? 0)%Z; [done|].
  destruct (validateAuthorizedKeys _ _) eqn:Ev; [done|]. intros [= <- <-]. split_and!; try done.
  revert Ev. unfold validateAuthorizedKeys. induction (key_lines (rs_Body resp)) as [|line l IH]; [by constructor|].
  simpl. destruct (valid_line _ line) eqn:El; [done|]. intros Ev. constructor; [|by apply IH].
  unfold valid_line in El. unfold good_line, has_expiry. destruct (strings.Cut _ _) as [[option remainder] found].
  destruct found; [|done]. destruct (validExpiryOption option); [|done]. simpl in *. split; [done|].
  destruct (ParseAuthorizedKey remainder) as [[[[k c] rest] f]|]; [|done]. case_bool_decide; [|done]. by eexists _, _, _, _.
Qed.

Lemma vouched_mono p w log log' body next : (∀ a, a ∈ log → a ∈ log') → vouched p w log body next → vouched p w log' body next.
Proof.
  intros Hsub [(q & resp & Hin & Hv) H2 H3 H4 H5]. split; [|done..]. exists q, resp. auto.
Qed.

(** What a successful synchronisation leaves. *)
Definition synced (p : string) (w w' : machine) : Prop :=
  ∃ body next, vouched p w (m_log w') body next ∧
    content w' p = Some body ∧ within (λ c, c = Some body) w' p ∧
    content w' (statePath p) = Some (state_text next) ∧ within (λ c, c = Some (state_text next)) w' (statePath p) ∧
    ∃ q resp, Sent q (Ok resp) ∈ m_log w' ∧ rq_Method q = "POST" ∧ (200 ≤ rs_Status resp < 300)%Z.

Section run.
Context (p : string) (w : machine) (I : machine → Prop).
Hypothesis Hlinked : well_linked w.
Hypothesis Hp : is_temp p = false.
Hypothesis Hs : is_temp (statePath p) = false.
Hypothesis HI : ∀ w', sync_state p w w' → I w'.

Lemma ack_wpc cfg private identity endpointID body next log locks w1 (Q : option error → machine → Prop) :
  done_phase p w body next log locks w1 → vouched p w log body next →
  (∀ r w', sync_state p w w' → m_locks w' = locks → (r = None → synced p w w') → Q r w') →
  wpc I (let! now := call Now in
         post (c_APIURL cfg) "/agents/authorized-keys/ack" (ack_body cfg next)
           (signedHeaders identity endpointID (unix now)
              (Sign private (AuthorizedKeysAckPayload (Identity_Serial identity) endpointID
                 (Identity_HostKeyFingerprint identity) (unix now) (c_SSHUser cfg) (ks_Generation next) (ks_SHA256 next))))) w1 Q.
Proof.
  intros Hd Hv HQ. assert (Hi1 : I w1) by (by eapply HI, done_state). apply wpc_call; [done|]. intros now w2 [Hnow ->].
  assert (Hq : quiet w1 (set_now now w1)) by (by eapply set_now_quiet, phase_linked).
  apply (phase_quiet p w Hlinked Hp Hs _ _ _ _ _ _ _ Hd) in Hq. clear Hd. rename Hq into Hd.
  set (hs := signedHeaders _ _ _ _). set (w3 := set_now now w1) in *.
  assert (Hst : sync_state p w w3) by (by eapply done_state).
  assert (Hnote : ∀ r, let q := sent_request (c_APIURL cfg) "POST" "/agents/authorized-keys/ack" (Some (print (ack_body cfg next))) hs in
    done_phase p w body next (Sent q r :: log) locks (note (Sent q r) w3) ∧ vouched p w (Sent q r :: log) body next).
  { intros r q. split; [by apply phase_note|]. eapply vouched_mono; [|exact Hv]. intros a Ha. by apply list_elem_of_further. }
  assert (Hst' : ∀ r, let q := sent_request (c_APIURL cfg) "POST" "/agents/authorized-keys/ack" (Some (print (ack_body cfg next))) hs in
    sync_state p w (note (Sent q r) w3)).
  { intros r. destruct (Hnote r) as [Hd' Hv']. by eapply done_state. }
  apply post_wpc; [by apply HI|intros r; apply HI, Hst'|intros e; apply HQ; [done|apply Hd|done]|
    intros e r; apply HQ; [apply Hst'|apply (ph_locks _ _ _ _ _ _ _ _ (proj1 (Hnote r)))|done]|].
  intros resp Hr. apply HQ; [apply Hst'|apply (ph_locks _ _ _ _ _ _ _ _ (proj1 (Hnote (Ok resp))))|]. intros _.
  destruct (Hnote (Ok resp)) as [Hd' Hv']. pose proof (phase_linked _ _ _ _ _ _ _ _ Hd') as Hl'.
  exists body, next. destruct Hd' as [Hf Hk Hs' Hlog Hlk]. split_and!.
  - by rewrite Hlog.
  - by apply Hk, content_may_hold.
  - done.
  - by apply Hs', content_may_hold.
  - done.
  - eexists _, resp. split_and!; [rewrite Hlog; apply list_elem_of_here|done|apply Hr|apply Hr].
Qed.

(** After the keys are on disk. *)
Lemma record_wpc body next log locks w1 k (Q : option error → machine → Prop) :
  keys_phase p w body log locks w1 → vouched p w log body next → no_post w log →
  (∀ e w', sync_state p w w' → m_locks w' = locks → Q (Some e) w') →
  (∀ w', done_phase p w body next log locks w' → wpc I k w' Q) →
  wpc I (must AtomicWriteFile (statePath p) (state_text next) 384; k) w1 Q.
Proof.
  intros Hk Hv Hno Herr Hok. apply wpc_check.
  assert (Hmid : ∀ w', writes_file (statePath p) (state_text next) 384 w1 w' →
    at_phase (λ q, q ≠ p ∧ q ≠ statePath p) p w (λ c, c = Some body)
      (λ c, may_hold w (statePath p) c ∨ c = Some (state_text next)) log locks w').
  { intros w' Hw. eapply phase_weaken; [by eapply (phase_write p w Hlinked Hp Hs (statePath p)); [exact Hk|by right|]|..].
    - intros q [H1 H2]. by split.
    - intros c [?|[E _]]; [done|by destruct (statePath_ne p)].
    - intros c [?|[_ ?]]; auto. }
  apply AtomicWriteFile_wpc; [by eapply phase_linked|done| |].
  - intros w' Hw. by eapply HI, (state_writing_state p w body next), Hmid.
  - intros [e|] w' Hw Hi.
    + intros _. apply Herr; [by eapply (state_writing_state p w body next), Hmid|apply (Hmid w' Hw)].
    + apply Hok. eapply phase_weaken; [by eapply (phase_installed p w (statePath p)); [by apply Hmid|by right|apply Hi]|done|by intros c []|].
      intros c [_ Hc]. by apply Hc.
Qed.

Lemma read_state_wpc w1 (Q : result (option authorizedKeysState) → machine → Prop) :
  I w1 → content w1 (statePath p) = content w (statePath p) → (∀ e, Q (Err e) w1) →
  (∀ current, recorded w (statePath p) current → Q (Ok current) w1) → wpc I (readAuthorizedKeysState (statePath p)) w1 Q.
Proof.
  intros Hi Hsame Herr Hok. unfold readAuthorizedKeysState. apply wpc_call; [done|]. intros x w2 (-> & Hx & Hnone).
  apply wpc_ret; [done|]. unfold recorded in Hok. rewrite <- Hsame in Hok. destruct x as [data|e].
  - rewrite (Hx data eq_refl) in Hok. destruct (parseKeysState data) as [s|] eqn:E; [apply Hok; by exists s|apply Herr].
  - case_bool_decide as E; [|apply Herr]. subst e. rewrite (Hnone eq_refl) in Hok. by apply Hok.
Qed.

(** The keys go first. *)
Lemma keys_wpc body next log locks w1 k (Q : option error → machine → Prop) :
  fresh_phase p w log locks w1 → vouched p w log body next → no_post w log →
  (∀ e w', sync_state p w w' → m_locks w' = locks → Q (Some e) w') →
  (∀ w', keys_phase p w body log locks w' → wpc I k w' Q) →
  wpc I (must AtomicWriteFile p body 384; k) w1 Q.
Proof.
  intros Hfresh Hv Hno Herr Hok. apply wpc_check.
  assert (Hmid : ∀ w', writes_file p body 384 w1 w' →
    at_phase (λ q, q ≠ p ∧ q ≠ statePath p) p w (λ c, may_hold w p c ∨ purge_result w p c ∨ c = Some body)
      (may_hold w (statePath p)) log locks w').
  { intros w' Hw. eapply phase_weaken; [by eapply (phase_write p w Hlinked Hp Hs p); [exact Hfresh|by left|]|..].
    - intros q [Hq1 Hq2]. by split.
    - intros c [[?|?]|[_ ?]]; auto.
    - intros c [?|[E _]]; [done|by destruct (statePath_ne p)]. }
  apply AtomicWriteFile_wpc; [by eapply phase_linked|done|..].
  { intros w' Hw. by eapply HI, (keys_writing_state p w body next), Hmid. }
  intros [e|] w' Hw Hi.
  - intros _. apply Herr; [by eapply (keys_writing_state p w body next), Hmid|apply (Hmid w' Hw)].
  - apply Hok. eapply phase_weaken; [by eapply (phase_installed p w p); [by apply Hmid|by left|apply Hi]|done| |by intros c []].
    intros c [_ Hc]. by apply Hc.
Qed.

Lemma install_snapshot_wpc cfg private identity endpointID body next log locks w1 (Q : option error → machine → Prop) :
  fresh_phase p w log locks w1 → no_post w log →
  (∀ current, recorded w (statePath p) current → goes_forward current next → vouched p w log body next) →
  (∀ r w', sync_state p w w' → m_locks w' = locks → (r = None → synced p w w') → Q r w') →
  wpc I (install_snapshot cfg p private identity endpointID body next) w1 Q.
Proof.
  intros Hfresh Hno Hv HQ. pose proof (phase_linked _ _ _ _ _ _ _ _ Hfresh) as Hl1.
  assert (H1 : sync_state p w w1) by (by eapply fresh_state).
  assert (Hfail : ∀ e w', sync_state p w w' → m_locks w' = locks → Q (Some e) w') by (intros; by apply HQ).
  assert (Hlocks : m_locks w1 = locks) by apply Hfresh.
  unfold install_snapshot. fold (statePath p). apply wpc_need, read_state_wpc.
  { by apply HI. }
  { apply (same_files_content (λ q, q ≠ p)); [done|apply Hfresh|apply statePath_ne|done]. }
  { intros e _. by apply Hfail. }
  intros current Hrec. destruct (goes_back current next) eqn:Eb; [apply wpc_ret; [by apply HI|by apply Hfail]|].
  specialize (Hv current Hrec (not_back_forward _ _ Eb)). eapply keys_wpc; [done..|]. intros w' Hk.
  assert (Hkeys : ∀ w', keys_phase p w body log locks w' → sync_state p w w' ∧ m_locks w' = locks ∧ well_linked w').
  { intros w2 Hk2. split_and!; [by eapply (keys_state p w body next)|apply Hk2|by eapply phase_linked]. }
  assert (Hdone : ∀ w', done_phase p w body next log locks w' → sync_state p w w' ∧ m_locks w' = locks ∧ well_linked w').
  { intros w4 Hd'. split_and!; [by eapply done_state|apply Hd'|by eapply phase_linked]. }
  apply wpc_check. apply ensureUserOwned_quiet; [by eapply Hkeys|..].
  { intros w2 Hq. eapply HI, Hkeys. by eapply phase_quiet. }
  intros r w2 Hq. assert (Hk2 : keys_phase p w body log locks w2) by (by eapply phase_quiet).
  destruct r as [e|]; [intros _; apply Hfail; by apply Hkeys|].
  eapply record_wpc; [exact Hk2|done|done|done|]. intros w3 Hd.
  apply wpc_check. apply ensureUserOwned_quiet; [by eapply Hdone|..].
  { intros w4 Hq4. eapply HI, Hdone. by eapply phase_quiet. }
  intros r w4 Hq4. assert (Hd4 : done_phase p w body next log locks w4) by (by eapply phase_quiet).
  destruct r as [e|]; [intros _; apply Hfail; by apply Hdone|]. by eapply ack_wpc.
Qed.

Lemma no_post_refl : no_post w (m_log w).
Proof. exists []. split; [done|]. intros q r H. by apply elem_of_nil in H. Qed.

(** The purge leaves the old file or the purged one. *)
Lemma purge_wpc locks w1 (Q : result bool → machine → Prop) :
  at_phase (λ _, True) p w (may_hold w p) (may_hold w (statePath p)) (m_log w) locks w1 → content w1 p = content w p →
  (∀ r w', fresh_phase p w (m_log w) locks w' → Q r w') → wpc I (purgeLegacyAuthorizedKeys p) w1 Q.
Proof.
  intros Hph Hc HQ. pose proof (phase_linked _ _ _ _ _ _ _ _ Hph) as Hl1.
  assert (Hfr : fresh_phase p w (m_log w) locks w1) by (eapply phase_weaken; [exact Hph|done|by left|done]).
  assert (Hi : ∀ w', fresh_phase p w (m_log w) locks w' → I w') by (intros w' H; eapply HI, fresh_state; [apply no_post_refl|done]).
  unfold purgeLegacyAuthorizedKeys. apply wpc_call; [by apply Hi|]. intros x w2 (-> & Hx & _).
  destruct x as [data|e]; [|apply wpc_ret; [by apply Hi|by apply HQ]]. specialize (Hx data eq_refl).
  destruct (purged data) as [kept removed] eqn:Ep. destruct (negb removed); [apply wpc_ret; [by apply Hi|by apply HQ]|].
  assert (Hw : ∀ w', writes_file p (purged_body kept) 384 w1 w' → fresh_phase p w (m_log w) locks w').
  { intros w' Hw. eapply phase_weaken; [by eapply (phase_write p w Hlinked Hp Hs p); [exact Hph|by left|]|..].
    - intros q Hq. by split.
    - intros c [?|[_ ->]]; [by left|right]. exists data. rewrite Ep. split; [congruence|done].
    - intros c [?|[E _]]; [done|by destruct (statePath_ne p)]. }
  apply wpc_guard, AtomicWriteFile_wpc; [done|done|intros w' H; by apply Hi, Hw|].
  intros [e|] w' H _; [intros _; by apply HQ, Hw|]. apply wpc_ret; [by apply Hi, Hw|by apply HQ, Hw].
Qed.

(** The snapshot is fetched, checked and installed. *)
Lemma fetch_wpc cfg private identity endpointID pth headers locks w1 (Q : option error → machine → Prop) :
  fresh_phase p w (m_log w) locks w1 →
  (∀ r w', sync_state p w w' → m_locks w' = locks → (r = None → synced p w w') → Q r w') →
  wpc I (response ←! request (c_APIURL cfg) "GET" pth None headers;
         match checked_snapshot ParseAuthorizedKey response with
         | Err e => Ret (Some e)
         | Ok (body, next) => install_snapshot cfg p private identity endpointID body next
         end) w1 Q.
Proof.
  intros Hf HQ. set (q := sent_request (c_APIURL cfg) "GET" pth None headers).
  assert (Hno : ∀ r, no_post w (Sent q r :: m_log w)).
  { intros r. exists [Sent q r]. split; [done|]. intros q' r' [[= -> _]|H]%elem_of_cons; [done|]. by apply elem_of_nil in H. }
  assert (Hq : ∀ r, fresh_phase p w (Sent q r :: m_log w) locks (note (Sent q r) w1)) by (intros; by apply phase_note).
  assert (Hst : ∀ r, sync_state p w (note (Sent q r) w1)) by (intros r; by eapply fresh_state).
  assert (Hst1 : sync_state p w w1) by (by eapply fresh_state; [apply no_post_refl|]).
  apply wpc_need, request_wpc; [by apply HI|intros; by apply HI|..].
  - intros e _. apply HQ; [done|apply Hf|done].
  - intros e r _. apply HQ; [done|apply Hq|done].
  - intros resp Hr. fold q. destruct (checked_snapshot ParseAuthorizedKey resp) as [[body next]|e] eqn:E.
    + eapply install_snapshot_wpc; [apply Hq|apply Hno| |done]. intros current Hrec Hb.
      destruct (checked_snapshot_spec _ _ _ E) as (H1 & H2 & H3 & H4 & H5 & H6). split; [|done..|by exists current].
      exists q, resp. split_and!; [apply list_elem_of_here|done|lia|lia|done|done|done].
    + apply wpc_ret; [by apply HI|]. apply HQ; [done|apply Hq|done].
Qed.

Lemma sync_locked_wpc cfg locks w1 (Q : option error → machine → Prop) :
  at_phase (λ _, True) p w (may_hold w p) (may_hold w (statePath p)) (m_log w) locks w1 → content w1 p = content w p →
  (∀ r w', sync_state p w w' → m_locks w' = locks → (r = None → synced p w w') → Q r w') →
  wpc I (sync_locked ParseAuthorizedKey cfg p) w1 Q.
Proof.
  intros Hph Hc HQ. pose proof no_post_refl as Hno.
  assert (Hfresh : ∀ w', fresh_phase p w (m_log w) locks w' → sync_state p w w' ∧ m_locks w' = locks ∧ well_linked w').
  { intros w' Hf. split_and!; [by eapply fresh_state|apply Hf|by eapply phase_linked]. }
  assert (Hfail : ∀ e w', fresh_phase p w (m_log w) locks w' → Q (Some e) w') by (intros e w' Hf; apply HQ; [by apply Hfresh..|done]).
  unfold sync_locked. apply wpc_need. eapply purge_wpc; [done|done|]. intros r w2 Hf2.
  destruct r as [b|e]; [|intros _; by apply Hfail]. apply wpc_need, loadDevice_quiet; [by apply Hfresh|..].
  { intros w3 Hq. by eapply HI, Hfresh, phase_quiet. }
  intros r w3 Hq. assert (Hf3 : fresh_phase p w (m_log w) locks w3) by (by eapply phase_quiet). clear Hq Hf2 w2.
  destruct r as [[[private identity] endpointID]|e]; [|intros _; by apply Hfail].
  apply wpc_call; [by apply HI, Hfresh|]. intros now w4 [_ ->].
  assert (Hf4 : fresh_phase p w (m_log w) locks (set_now now w3)).
  { eapply phase_quiet; [done..|exact Hf3|]. by eapply set_now_quiet, Hfresh. }
  revert Hf4. generalize (set_now now w3). intros w4 Hf4. clear Hf3 w3. cbv zeta. by eapply fetch_wpc.
Qed.

End run.


End sync.
