(* ===== verification/GoQuery.v ===== *)
(** * Queries of a URL, and texts of printable characters (packages net/url and
    strings)

    What url.ParseQuery reads back from url.QueryEscape, and strings.TrimSpace,
    Split and Cut on ASCII texts. *)

From S2P Require Export GoPath GoCrypto StoreAccess.

(** ** Queries *)

Module query.

Definition unhex (c : ascii) : option N :=
  if between "0" "9" c then Some (byte_of c - 48)%N
  else if between "a" "f" c then Some (byte_of c - 87)%N
  else if between "A" "F" c then Some (byte_of c - 55)%N
  else None.

(** url.QueryUnescape *)
Fixpoint Unescape (s : string) : option string :=
  match s with
  | EmptyString => Some ""
  | String c s' =>
    if char_eqb c "%" then
      match s' with
      | String a (String b s'') =>
        x ← unhex a; y ← unhex b; rest ← Unescape s''; Some (String (byte_at (16 * x + y)) rest)
      | _ => None
      end
    else rest ← Unescape s'; Some (String (if char_eqb c "+" then " "%char else c) rest)
  end.

(** url.ParseQuery and Values.Get: the first value of the key; a part that does
    not parse is left out. *)
Fixpoint get_parts (parts : list string) (key : string) : string :=
  match parts with
  | [] => ""
  | part :: parts =>
    let '(k, v, _) := strings.Cut part "=" in
    match Unescape k, Unescape v with
    | Some k, Some v => if bool_decide (k = key) && negb (bool_decide (part = "")) then v else get_parts parts key
    | _, _ => get_parts parts key
    end
  end.

Definition Get (raw key : string) : string := get_parts (strings.Split raw "&") key.

End query.

Lemma Unescape_Escape_char c rest :
  query.Unescape ((if unreserved c then String c "" else if char_eqb c " " then "+" else percent c) +:+ rest) =
  (r ← query.Unescape rest; Some (String c r)).
Proof. destruct c as [[] [] [] [] [] [] [] []]; reflexivity. Qed.

Lemma QueryUnescape_Escape s : query.Unescape (url.QueryEscape s) = Some s.
Proof. induction s as [|c s IH]; [done|]. cbn [url.QueryEscape]. by rewrite Unescape_Escape_char, IH. Qed.

Definition query_safe (c : ascii) : bool := negb (char_eqb c "&") && negb (char_eqb c "=").

Lemma QueryEscape_safe s : str_forallb query_safe (url.QueryEscape s) = true.
Proof.
  induction s as [|c s IH]; [done|]. cbn [url.QueryEscape]. rewrite str_forallb_app, IH, andb_true_r.
  destruct c as [[] [] [] [] [] [] [] []]; reflexivity.
Qed.

Lemma Split_single s c : str_forallb (λ d, negb (char_eqb d c)) s = true → strings.Split s c = [s].
Proof.
  induction s as [|d s IH]; [done|]. simpl. intros [Hd Hs]%andb_true_iff. apply negb_true_iff in Hd. rewrite Hd. by rewrite IH.
Qed.

(** ** Cuts at one character *)

Definition without (c : ascii) (s : string) : bool := str_forallb (λ d, negb (char_eqb d c)) s.

Lemma Index_char a c b : without c a = true → strings.Index (a +:+ String c b) (String c "") = Some (String.length a).
Proof.
  induction a as [|d a IH].
  - intros _. rewrite app_nil_s. cbn [strings.Index String.prefix]. destruct (ascii_dec c c); [|done]. by destruct b.
  - intros H. rewrite app_cons_s. simpl in H. apply andb_true_iff in H as [Hd Ha]. cbn [strings.Index String.prefix].
    destruct (ascii_dec c d) as [->|_]; [by rewrite char_eqb_refl in Hd|]. by rewrite IH.
Qed.

Lemma Cut_char a c b : without c a = true → strings.Cut (a +:+ String c b) (String c "") = (a, b, true).
Proof.
  intros Ha. unfold strings.Cut. rewrite Index_char by done. rewrite stake_app_len. simpl String.length.
  replace (String.length a + 1) with (String.length (a +:+ String c "")) by (rewrite length_app_s; simpl; lia).
  replace (a +:+ String c b) with ((a +:+ String c "") +:+ b) by (by rewrite app_assoc_s, app_cons_s, app_nil_s). by rewrite sdrop_app_len.
Qed.

Lemma Get_QueryEscape key s : str_forallb unreserved key = true → key ≠ "" →
  query.Get (key +:+ "=" +:+ url.QueryEscape s) key = s.
Proof.
  intros Hk Hne. unfold query.Get.
  assert (Hkey : ∀ c, unreserved c = false → without c key = true).
  { intros c Hc. clear Hne. induction key as [|d k IH]; [done|]. simpl in *. apply andb_true_iff in Hk as [Hd Hk].
    apply andb_true_iff. split; [|by apply IH]. unfold char_eqb. case_bool_decide as E; [subst; congruence|done]. }
  assert (Hs : without "&" (url.QueryEscape s) = true).
  { eapply str_forallb_mono; [|apply QueryEscape_safe]. intros c [H _]%andb_true_iff. done. }
  rewrite Split_single.
  2:{ unfold without in Hkey, Hs. rewrite !str_forallb_app, (Hkey "&"%char), Hs by done. done. }
  cbn [query.get_parts]. change (key +:+ "=" +:+ url.QueryEscape s) with (key +:+ String "=" (url.QueryEscape s)).
  rewrite Cut_char by (by apply Hkey). rewrite QueryUnescape_Escape.
  assert (Hu : query.Unescape key = Some key).
  { clear Hne Hkey. induction key as [|c k IH]; [done|]. simpl in Hk. apply andb_true_iff in Hk as [Hc Hk].
    cbn [query.Unescape]. assert (char_eqb c "%" = false ∧ char_eqb c "+" = false) as [-> ->].
    { by destruct c as [[] [] [] [] [] [] [] []]; try discriminate Hc. }
    by rewrite IH. }
  rewrite Hu, bool_decide_eq_true_2 by done. rewrite bool_decide_eq_false_2; [done|]. by destruct key.
Qed.

Lemma TrimSuffix_app s p : strings.TrimSuffix (s +:+ p) p = s.
Proof.
  unfold strings.TrimSuffix. rewrite (proj2 (HasSuffix_iff _ _)) by (by eexists). rewrite length_app_s.
  replace (String.length s + String.length p - String.length p) with (String.length s) by lia. apply stake_app_len.
Qed.

Lemma HasSuffix_app s p : strings.HasSuffix (s +:+ p) p = true.
Proof. apply HasSuffix_iff. by eexists. Qed.

(** ** Printable texts *)

Definition is_ascii (c : ascii) : bool := (byte_of c <? 128)%N.

Lemma space_width_ascii c s : is_ascii c = true →
  strings.space_width (String c s) = if ascii_nonspace c then 0 else 1.
Proof. destruct c as [[] [] [] [] [] [] [] []]; intros H; try discriminate H; destruct s; reflexivity. Qed.

Lemma all_space_last s c : str_forallb is_ascii s = true → ascii_nonspace c = true →
  strings.all_space 0 (s +:+ String c "") = false.
Proof.
  induction s as [|d s IH]; intros Hs Hc.
  - rewrite app_nil_s. cbn [strings.all_space]. by rewrite space_width_nonspace.
  - simpl in Hs. apply andb_true_iff in Hs as [Hd Hs]. rewrite app_cons_s. cbn [strings.all_space].
    rewrite space_width_ascii by done. destruct (ascii_nonspace d); [done|]. by apply IH.
Qed.

Lemma trim_right_last s c : str_forallb is_ascii s = true → ascii_nonspace c = true →
  strings.trim_right (s +:+ String c "") = s +:+ String c "".
Proof.
  induction s as [|d s IH]; intros Hs Hc.
  - rewrite app_nil_s. apply trim_right_word. simpl. by rewrite Hc.
  - pose proof Hs as Hs'. simpl in Hs'. apply andb_true_iff in Hs' as [Hd Ht]. rewrite app_cons_s. cbn [strings.trim_right].
    rewrite <- (app_cons_s d s). rewrite all_space_last by done. by rewrite IH.
Qed.

(** Texts of ASCII characters with no white space at either end. *)
Definition trimmed (s : string) : Prop :=
  str_forallb is_ascii s = true ∧ (∃ c r, s = String c r ∧ ascii_nonspace c = true) ∧
  ∃ r c, s = r +:+ String c "" ∧ ascii_nonspace c = true.

Lemma TrimSpace_trimmed s : trimmed s → strings.TrimSpace s = s.
Proof.
  intros (Ha & (c & r & E & Hc) & (r' & c' & E' & Hc')). unfold strings.TrimSpace. rewrite E at 1.
  rewrite trim_left_nonspace by done. rewrite <- E, E'. apply trim_right_last; [|done].
  rewrite E', str_forallb_app in Ha. by apply andb_true_iff in Ha as [Ha _].
Qed.

Lemma ascii_nonspace_ascii c : ascii_nonspace c = true → is_ascii c = true.
Proof. unfold ascii_nonspace. by intros [[? _]%andb_true_iff _]%andb_true_iff. Qed.

Lemma TrimSpace_newline s : trimmed s → strings.TrimSpace (s +:+ String newline "") = s.
Proof.
  intros (Ha & (c & r & E & Hc) & (r' & c' & E' & Hc')). unfold strings.TrimSpace.
  rewrite E at 1. rewrite app_cons_s, trim_left_nonspace by done. rewrite <- app_cons_s, <- E. rewrite E'.
  rewrite E', str_forallb_app in Ha. apply andb_true_iff in Ha as [Ha _]. clear E E' s. rewrite app_assoc_s, app_cons_s, app_nil_s.
  induction r' as [|d r' IH].
  - rewrite !app_nil_s. cbn [strings.trim_right strings.all_space]. rewrite space_width_nonspace by done. reflexivity.
  - pose proof Ha as Ha'. simpl in Ha'. apply andb_true_iff in Ha' as [Hd Ht]. rewrite !app_cons_s. cbn [strings.trim_right].
    rewrite IH by done. rewrite <- (app_cons_s d r').
    destruct (strings.all_space 0 _) eqn:E; [|done]. exfalso. revert E. clear IH.
    assert (H : ∀ x, str_forallb is_ascii x = true → strings.all_space 0 (x +:+ String c' (String newline "")) = false).
    { intros x. induction x as [|e x IHx]; intros Hx.
      - rewrite app_nil_s. cbn [strings.all_space]. by rewrite space_width_nonspace.
      - simpl in Hx. apply andb_true_iff in Hx as [He Hx]. rewrite app_cons_s. cbn [strings.all_space].
        rewrite space_width_ascii by done. destruct (ascii_nonspace e); [done|]. by apply IHx. }
    by rewrite H.
Qed.

(** Lines joined by newlines are found again. *)
Lemma Split_Join l : l ≠ [] → Forall (λ s, without newline s = true) l →
  strings.Split (strings.Join l (String newline "")) newline = l.
Proof.
  intros Hne H. induction H as [|x l Hx Hl IH]; [done|]. destruct l as [|y l]; [by apply Split_single|].
  change (strings.Join (x :: y :: l) (String newline "")) with (x +:+ String newline "" +:+ strings.Join (y :: l) (String newline "")).
  rewrite app_cons_s, app_nil_s. rewrite Split_app, Split_single by done. by rewrite IH.
Qed.
