(* ===== verification/AgentServer.v ===== *)
(** * The agent and the server understand each other

    The snapshots the store renders are accepted by the agent, and the three
    requests the agent signs are the ones the server's handlers verify. *)

From S2P Require Export AgentSync AgentFacts GoQuery.
Open Scope go_scope.

(** ** Snapshots *)

Section snapshots.
Context (ParseAuthorizedKey : string → option (string * string * string * string)).

(** A key of the store: one line of ASCII that ParseAuthorizedKey accepts. *)
Record key_ok (key : string) : Prop := {
  ko_trimmed : trimmed key;
  ko_line : without newline key = true;
  ko_parses : ∃ k comment rest fingerprint,
    ParseAuthorizedKey key = Some (k, comment, rest, fingerprint) ∧ strings.TrimSpace rest = "";
}.

(** The year 10000 is not reached. *)
Definition entry_ok (e : AuthorizedKeyEntry) : Prop := (0 ≤ Entry_ExpiresAt e < 253402300800)%Z ∧ key_ok (Entry_Key e).

Lemma digits_plain (p : ascii → bool) s : (∀ c, is_digit c = true → p c = true) → str_forallb is_digit s = true → str_forallb p s = true.
Proof. apply str_forallb_mono. Qed.

Lemma digit_cases (p : ascii → bool) c : forallb p ["0"; "1"; "2"; "3"; "4"; "5"; "6"; "7"; "8"; "9"]%char = true →
  is_digit c = true → p c = true.
Proof.
  intros H Hc. rewrite forallb_forall in H. apply H.
  destruct c as [[] [] [] [] [] [] [] []]; try discriminate Hc; simpl; tauto.
Qed.

Definition option_text (ts : string) : string := expiry_prefix +:+ ts +:+ "Z" +:+ String dquote "".

Lemma valid_option ts t : parse_compact ts = Some t → validExpiryOption (option_text ts) = true.
Proof.
  intros Hp. unfold validExpiryOption, strings.CutPrefix, option_text. rewrite HasPrefix_app, sdrop_app_len. cbn [negb].
  assert (Hlen : String.length ts = 14) by (unfold parse_compact in Hp; by case_bool_decide).
  rewrite <- app_assoc_s, HasSuffix_app, TrimSuffix_app. cbn [negb orb].
  rewrite length_app_s, Hlen, HasSuffix_app, TrimSuffix_app. by rewrite bool_decide_eq_true_2, Hp.
Qed.

Lemma format_entry_parts e : entry_ok e → ∃ ts,
  format_entry e = option_text ts +:+ String " " (Entry_Key e) ∧ str_forallb is_digit ts = true ∧
  validExpiryOption (option_text ts) = true.
Proof.
  intros [Ht _]. destruct (format_utc_compact _ Ht) as (ts & Hf & Hp). exists ts. split_and!.
  - unfold format_entry, option_text, expiry_prefix. rewrite Hf. rewrite !app_assoc_s. reflexivity.
  - unfold parse_compact in Hp. destruct (_ || _)%bool eqn:E; [done|]. apply orb_false_iff in E as [_ E]. by apply negb_false_iff in E.
  - by eapply valid_option.
Qed.

Lemma option_text_chars (p : ascii → bool) ts :
  str_forallb p expiry_prefix = true → p "Z"%char = true → p dquote = true →
  forallb p ["0"; "1"; "2"; "3"; "4"; "5"; "6"; "7"; "8"; "9"]%char = true → str_forallb is_digit ts = true →
  str_forallb p (option_text ts) = true.
Proof.
  intros H1 H2 H3 H4 Hts. unfold option_text. rewrite !str_forallb_app, H1. simpl. rewrite H2, H3.
  rewrite (str_forallb_mono is_digit p ts); [done|intros c; by apply digit_cases|done].
Qed.

(** What the server writes for a key is a line the agent accepts. *)
Lemma format_entry_line e : entry_ok e →
  trimmed (format_entry e) ∧ without newline (format_entry e) = true ∧ valid_line ParseAuthorizedKey (format_entry e) = None.
Proof.
  intros He. destruct (format_entry_parts e He) as (ts & -> & Hd & Hv). destruct He as [_ [Htr Hl (k & c & rest & f & Hp & Hr)]].
  assert (Htrim : trimmed (option_text ts +:+ String " " (Entry_Key e))).
  { destruct Htr as (Ha & _ & (r & x & E & Hx)). split; [|split].
    - rewrite str_forallb_app, option_text_chars by (by try reflexivity). simpl. by rewrite Ha.
    - eexists _, _. split; [reflexivity|done].
    - exists (option_text ts +:+ String " " r), x. split; [|done]. by rewrite app_assoc_s, app_cons_s, <- E. }
  split_and!; [done| |].
  - unfold without in *. rewrite str_forallb_app, option_text_chars by (by try reflexivity). simpl. by rewrite Hl.
  - unfold valid_line. rewrite TrimSpace_trimmed by done. rewrite Cut_char by (apply option_text_chars; by try reflexivity).
    rewrite Hv. simpl. rewrite Hp. by rewrite bool_decide_eq_true_2.
Qed.

Lemma key_lines_render l : Forall (λ s, trimmed s ∧ without newline s = true) l →
  key_lines (let body := strings.Join l (String newline "") in if bool_decide (body = "") then body else body +:+ String newline "") = l.
Proof.
  intros Hl. cbv zeta. destruct l as [|x l]; [done|].
  assert (Hne : ∀ s, trimmed s → s ≠ "") by (intros s (_ & (c & r & -> & _) & _); done).
  assert (Hj : trimmed (strings.Join (x :: l) (String newline ""))).
  { clear -Hl. revert x Hl. induction l as [|y l IH]; intros x [[Hx Hn] Hl]%Forall_cons; [done|].
    destruct (IH y Hl) as (Ha & _ & (r & c & E & Hc)). destruct Hx as (Hax & (cx & rx & -> & Hcx) & _).
    change (strings.Join (String cx rx :: y :: l) (String newline "")) with
      (String cx rx +:+ String newline "" +:+ strings.Join (y :: l) (String newline "")).
    split; [|split].
    - by rewrite !str_forallb_app, Ha, Hax.
    - by eexists _, _.
    - exists (String cx rx +:+ String newline "" +:+ r), c. split; [|done]. by rewrite E, !app_assoc_s. }
  rewrite bool_decide_eq_false_2 by (by apply Hne). unfold key_lines. rewrite TrimSpace_newline by done.
  rewrite Split_Join; [|done|by eapply Forall_impl; [|]; [exact Hl|intros s [? ?]]].
  clear Hj. induction Hl as [|s l' [Hs _] _ IH]; [done|].
  rewrite filter_cons_True; [|rewrite TrimSpace_trimmed by done; by apply Hne]. by f_equal.
Qed.

Lemma first_error_none l : Forall (λ s, valid_line ParseAuthorizedKey s = None) l → first_error ParseAuthorizedKey l = None.
Proof. induction 1 as [|s l Hs _ IH]; [done|]. simpl. by rewrite Hs. Qed.

Lemma rendered_is_valid entries body : Forall entry_ok entries → renderAuthorizedKeysBody entries = Ok body →
  validateAuthorizedKeys ParseAuthorizedKey body = None ∧ (Z.of_nat (String.length body) ≤ authorizedKeysMaxBytes)%Z.
Proof.
  intros He. unfold renderAuthorizedKeysBody, FormatAuthorizedKeys. cbv zeta.
  set (l := format_entry <$> entries). destruct (Z.ltb_spec MaxAuthorizedKeysBodyBytes (Z.of_nat (String.length
    (if bool_decide (strings.Join l (String newline "") = "") then strings.Join l (String newline "")
     else strings.Join l (String newline "") +:+ String newline "")))) as [|Hsize]; [done|].
  intros [= <-]. split; [|done].
  assert (Hl : Forall (λ s, trimmed s ∧ without newline s = true ∧ valid_line ParseAuthorizedKey s = None) l).
  { apply Forall_fmap. eapply Forall_impl; [exact He|]. intros e. by apply format_entry_line. }
  unfold validateAuthorizedKeys. rewrite key_lines_render.
  - apply first_error_none. eapply Forall_impl; [exact Hl|]. by intros s (_ & _ & ?).
  - eapply Forall_impl; [exact Hl|]. by intros s (? & ? & _).
Qed.
End snapshots.

(** ** Requests *)

Lemma Decode_print {A} limit (d : decoder A) zero j : printable 0 j → String.length (print j) ≤ limit →
  Decode limit d zero (print j) = d zero j.
Proof.
  intros Hp Hl. unfold Decode. rewrite stake_all by done. pose proof (need_le j 0 Hp) as Hn. generalize (String.length (print j)) Hn.
  intros n Hn'. rewrite <- (app_nil_r_s (print j)). by rewrite parse_value_print by (done || lia).
Qed.

Lemma decode_slice_plain l : decode_slice None (json_of_list l) = Some ((λ l, (l, [])) <$> l).
Proof.
  destruct l as [[|x l]|]; [done| |done]. change (json_of_list (Some (x :: l))) with (JArr (JStr <$> x :: l)).
  unfold decode_slice. cbn [fmap list_fmap]. cbv zeta.
  pose proof (decode_elements_strings [] (x :: l)) as E. change (JStr <$> x :: l) with (JStr x :: (JStr <$> l)) in E.
  cbn [fmap list_fmap] in E. rewrite E. by rewrite drop_nil.
Qed.

Lemma ascii_valid s : str_forallb is_ascii s = true → ValidString s = true.
Proof.
  unfold ValidString. induction s as [|c s IH]; [done|]. simpl. intros [Hc Hs]%andb_true_iff.
  unfold invalid_rune. rewrite DecodeRune_ascii by done. simpl.
  rewrite bool_decide_eq_false_2; [by apply IH|]. intros [= E]. unfold is_ascii in Hc. rewrite E in Hc. discriminate Hc.
Qed.

Lemma byte_at_ascii n : (n < 128)%N → is_ascii (byte_at n) = true.
Proof. intros H. unfold is_ascii. rewrite byte_of_at by lia. by apply N.ltb_lt. Qed.

Lemma base64_char_ascii n : is_ascii (base64_char n) = true.
Proof.
  unfold base64_char. destruct (N.ltb_spec n 26); [apply byte_at_ascii; lia|]. destruct (N.ltb_spec n 52); [apply byte_at_ascii; lia|].
  destruct (N.ltb_spec n 62); [apply byte_at_ascii; lia|]. by destruct (n =? 62)%N.
Qed.

Lemma std_char_ascii c : is_ascii c = true → is_ascii (std_char c) = true.
Proof. unfold std_char. by destruct (char_eqb c "-"), (char_eqb c "_"). Qed.

Lemma EncodeToString_valid s : ValidString (StdEncoding.EncodeToString s) = true.
Proof.
  apply ascii_valid. unfold StdEncoding.EncodeToString. rewrite str_forallb_app, andb_true_iff. split.
  - induction s as [|a|a b|a b c s IH] using string_ind3; [done|..]; cbn [base64_encode map_chars str_forallb];
      rewrite !std_char_ascii by apply base64_char_ascii; done.
  - by destruct (String.length s mod 3) as [|[|[|]]].
Qed.

(** The server's view of a request. *)
Record carries (q : HTTPRequest) (r : Request) : Prop := {
  ca_header k v : (k, v) ∈ rq_Headers q → Header r k = v;
  ca_body : Request_Body r = default "" (rq_Body q);
  ca_query pth raw : rq_URL q = pth +:+ "?" +:+ raw → without "?" pth = true → ∀ key, Http.Query r key = query.Get raw key;
}.

Definition plain_slice (s : slice) : Prop := ∀ l, s = Some l → valid_list l.1 ∧ l.2 = [].

Section requests.
Context {Hurl : NetURL} {Hed : Ed25519} {Hkeys : Ed25519Keys} {Hlaws : Ed25519Laws}.
Context (ParseAuthorizedKey : string → option (string * string * string * string)).
Context (private : string) (identity : Identity) (endpointID : string) (x : devices_row) (timestamp now : Z).

(** The device as the server knows it. *)
Record registered : Prop := {
  rg_private : String.length private = 64;
  rg_key : d_device_public_key x = PublicKey private;
  rg_serial : d_serial_number x = Some (Identity_Serial identity);
  rg_state : d_state x ≠ "revoked";
  rg_endpoint : d_endpoint_id x = endpointID;
  rg_fingerprint : d_ssh_host_key_fingerprint x = Identity_HostKeyFingerprint identity;
  rg_texts : Forall (λ s, ValidString s = true) [Identity_Serial identity; endpointID; Identity_HostKeyFingerprint identity];
  rg_time : in_int64 timestamp;
  rg_fresh : DeviceAuth.Fresh timestamp now = true;
}.

Notation serial := (Identity_Serial identity).
Notation fingerprint := (Identity_HostKeyFingerprint identity).

Lemma registered_signed text : registered →
  device_signed serial endpointID fingerprint timestamp (Sign private text) text x now.
Proof. intros []. split; try done. by rewrite rg_key0, Verify_Sign. Qed.

(** What heartbeat_request the server decodes. *)
Definition decoded_heartbeat (status : string) (d : DeviceDiscovery) : heartbeat_request :=
  mkHeartbeat status serial endpointID fingerprint timestamp
    (Sign private (HeartbeatPayload serial endpointID fingerprint timestamp status (Some d))) (Some d).

Lemma printable_discovery d : plain_slice (DD_DirectAddresses d) → plain_slice (DD_RelayURLs d) → printable 1 (json_of_discovery d).
Proof.
  intros Hd1 Hd2. apply printable_members_intro; [|done].
  assert (Hs : ∀ s, plain_slice s → printable 2 (json_of_list (GoDecode.elements s))).
  { intros [[l k]|] Hs; [|done]. simpl. destruct (Hs _ eq_refl) as [Hl _]. split; [done|]. simpl in Hl.
    clear Hs. by induction Hl. }
  members; (split; [done|]); by apply Hs.
Qed.

Lemma decode_discovery d : plain_slice (DD_DirectAddresses d) → plain_slice (DD_RelayURLs d) →
  decode_struct discovery_fields (mkDeviceDiscovery None None) (json_of_discovery d) = Some d.
Proof.
  intros Hd1 Hd2. assert (Hs : ∀ s, plain_slice s → decode_slice None (json_of_list (GoDecode.elements s)) = Some s).
  { intros s Hp. rewrite decode_slice_plain. destruct s as [[l k]|]; [|done]. simpl. destruct (Hp _ eq_refl) as [_ E].
    simpl in E. by subst k. }
  unfold decode_struct, json_of_discovery. cbn [decode_members].
  erewrite (decode_member_at discovery_fields "direct_addresses"); [|reflexivity|by apply Hs].
  cbn [mbind option_bind]. erewrite (decode_member_at discovery_fields "relay_urls"); [|reflexivity|by apply Hs]. by destruct d.
Qed.

Lemma heartbeat_decodes status d : registered → ValidString status = true →
  plain_slice (DD_DirectAddresses d) → plain_slice (DD_RelayURLs d) →
  let body := print (heartbeat_body private identity endpointID timestamp status d) in
  String.length body ≤ max_body →
  Decode max_body (decode_struct heartbeat_fields) zero_heartbeat body = Some (decoded_heartbeat status d).
Proof.
  intros Hr Hst Hd1 Hd2 body Hlen. destruct Hr. apply Forall_cons in rg_texts0 as [Hv1 [Hv2 [Hv3 _]%Forall_cons]%Forall_cons].
  unfold body in *. set (sig := Sign private (HeartbeatPayload serial endpointID fingerprint timestamp status (Some d))).
  assert (E : heartbeat_body private identity endpointID timestamp status d =
    JObj [("discovery", json_of_discovery d); ("endpoint_id", JStr endpointID); ("serial", JStr serial);
          ("service_status", JStr status); ("signature", JStr sig); ("ssh_host_key_fingerprint", JStr fingerprint);
          ("timestamp", JNum (strconv.FormatInt timestamp))]) by reflexivity.
  rewrite E in *. rewrite Decode_print; [|apply printable_members_intro; [|done]|done].
  2:{ members; (split; [done|]); try done; [by apply printable_discovery|apply EncodeToString_valid|by eexists]. }
  unfold decode_struct. cbn [decode_members].
  erewrite (decode_member_at heartbeat_fields "discovery"); cycle 1; [reflexivity| |].
  { change (decode_pointer _ _ _ _) with (a ← decode_struct discovery_fields (mkDeviceDiscovery None None) (json_of_discovery d); Some (Some a)).
    by rewrite decode_discovery. }
  cbn [mbind option_bind].
  do 5 (erewrite (decode_member_at heartbeat_fields); [|reflexivity|reflexivity]; cbn [mbind option_bind]).
  by erewrite (decode_member_at heartbeat_fields); [|reflexivity|exact (ParseInt_FormatInt _ rg_time0)].
Qed.
(** What the three requests need of what they carry. *)
Definition fits (limit : nat) (body : json) : Prop := String.length (print body) ≤ limit.

Lemma valid_serial : registered → ValidString serial = true ∧ ValidString endpointID = true ∧ ValidString fingerprint = true.
Proof. intros []. apply Forall_cons in rg_texts0 as [? [? [? _]%Forall_cons]%Forall_cons]. done. Qed.

Lemma heartbeat_verifies status d base headers r : registered → ValidString status = true →
  plain_slice (DD_DirectAddresses d) → plain_slice (DD_RelayURLs d) →
  fits max_body (heartbeat_body private identity endpointID timestamp status d) →
  carries (mkHTTPRequest "POST" (base +:+ "/agents/heartbeat") headers
    (Some (print (heartbeat_body private identity endpointID timestamp status d)))) r →
  ∃ signature text, agent_request r handleHeartbeat serial endpointID fingerprint timestamp signature text ∧
    device_signed serial endpointID fingerprint timestamp signature text x now.
Proof.
  intros Hr Hst Hd1 Hd2 Hfit Hc. eexists _, _. split.
  - apply (heartbeat_of r (decoded_heartbeat status d)). rewrite (ca_body _ _ Hc). by apply heartbeat_decodes.
  - by apply registered_signed.
Qed.

Lemma carried_headers q r signature : carries q r → (∀ h, h ∈ signedHeaders identity endpointID timestamp signature → h ∈ rq_Headers q) →
  in_int64 timestamp → headers_of r = mkDeviceHeaders serial endpointID fingerprint (Some timestamp) signature.
Proof.
  intros Hc Hin Ht. unfold headers_of.
  rewrite (ca_header _ _ Hc "X-Ternal-Device-Serial" serial), (ca_header _ _ Hc "X-Ternal-Device-Endpoint-Id" endpointID),
    (ca_header _ _ Hc "X-Ternal-Device-Ssh-Host-Key-Fingerprint" fingerprint),
    (ca_header _ _ Hc "X-Ternal-Device-Timestamp" (strconv.FormatInt timestamp)),
    (ca_header _ _ Hc "X-Ternal-Device-Signature" signature) by (apply Hin; unfold signedHeaders; rewrite !elem_of_cons; tauto).
  by rewrite ParseInt_FormatInt.
Qed.

Lemma keys_verifies sshUser base r : registered → without "?" base = true →
  let signature := Sign private (AuthorizedKeysPayload serial endpointID fingerprint timestamp sshUser) in
  carries (mkHTTPRequest "GET" (base +:+ "/agents/authorized-keys?ssh_user=" +:+ url.QueryEscape sshUser)
    (signedHeaders identity endpointID timestamp signature) None) r →
  ∃ signature text, agent_request r handleAgentAuthorizedKeys serial endpointID fingerprint timestamp signature text ∧
    device_signed serial endpointID fingerprint timestamp signature text x now.
Proof.
  intros Hr Hbase signature Hc. pose proof (keys_of r timestamp) as Hk. cbv zeta in Hk.
  rewrite (carried_headers _ r signature Hc) in Hk by (done || apply Hr).
  eexists _, _. split; [by apply Hk|]. cbn [dh_serial dh_endpointID dh_fingerprint]. rewrite (ca_query _ _ Hc (base +:+ "/agents/authorized-keys") ("ssh_user=" +:+ url.QueryEscape sshUser)).
  - change ("ssh_user=" +:+ url.QueryEscape sshUser) with ("ssh_user" +:+ "=" +:+ url.QueryEscape sshUser).
    rewrite (Get_QueryEscape "ssh_user" sshUser) by done. by apply registered_signed.
  - simpl rq_URL. by rewrite !app_assoc_s.
  - unfold without in *. by rewrite str_forallb_app, Hbase.
Qed.

Lemma ack_decodes cfg next : ValidString (c_SSHUser cfg) = true → ValidString (ks_SHA256 next) = true → in_int64 (ks_Generation next) →
  fits (Z.to_nat 4096) (ack_body cfg next) →
  Decode (Z.to_nat 4096) (decode_struct ack_fields) (mkAckRequest "" 0 "") (print (ack_body cfg next)) =
  Some (mkAckRequest (c_SSHUser cfg) (ks_Generation next) (ks_SHA256 next)).
Proof.
  intros Hu Hs Hg Hfit. unfold fits in Hfit.
  assert (E : ack_body cfg next = JObj [("generation", JNum (strconv.FormatInt (ks_Generation next))); ("sha256", JStr (ks_SHA256 next));
    ("ssh_user", JStr (c_SSHUser cfg))]) by reflexivity.
  rewrite E in *. rewrite Decode_print; [|apply printable_members_intro; [|done]|done].
  2:{ members; (split; [done|]); try done. by eexists. }
  unfold decode_struct. cbn [decode_members].
  erewrite (decode_member_at ack_fields); [|reflexivity|exact (ParseInt_FormatInt _ Hg)]. cbn [mbind option_bind].
  erewrite (decode_member_at ack_fields); [|reflexivity|reflexivity]. cbn [mbind option_bind].
  by erewrite (decode_member_at ack_fields); [|reflexivity|reflexivity].
Qed.

Lemma ack_verifies cfg next base content r : registered →
  ValidString (c_SSHUser cfg) = true → ValidString (ks_SHA256 next) = true → in_int64 (ks_Generation next) →
  fits (Z.to_nat 4096) (ack_body cfg next) →
  let signature := Sign private (AuthorizedKeysAckPayload serial endpointID fingerprint timestamp (c_SSHUser cfg)
    (ks_Generation next) (ks_SHA256 next)) in
  carries (mkHTTPRequest "POST" (base +:+ "/agents/authorized-keys/ack")
    (content ++ signedHeaders identity endpointID timestamp signature) (Some (print (ack_body cfg next)))) r →
  ∃ signature text, agent_request r handleAgentAuthorizedKeysAck serial endpointID fingerprint timestamp signature text ∧
    device_signed serial endpointID fingerprint timestamp signature text x now.
Proof.
  intros Hr Hu Hs Hg Hfit signature Hc. pose proof (ack_of r timestamp) as Hk. cbv zeta in Hk.
  rewrite (carried_headers _ r signature Hc) in Hk; [|intros h Hh; apply elem_of_app; by right|apply Hr].
  eexists _, _. split; [apply Hk; [done|rewrite (ca_body _ _ Hc); by apply ack_decodes]|]. by apply registered_signed.
Qed.
End requests.
