(* ===== verification/AgentTraffic.v ===== *)
(** * What the agent sends

    Every request of the agent's loop is one that the server's handler for its
    route verifies, for a device the server has registered; and a snapshot as
    the store renders it is one that the agent installs. *)

From S2P Require Export AgentServer ApiRoutes Supervise.
Open Scope go_scope.

(** ** Texts that need no escape *)

Definition unescaped (c : ascii) : bool := is_ascii c && (String.length (escape_ascii c) =? 1).

Lemma quote_length s : str_forallb unescaped s = true → String.length (quote s) = String.length s + 2.
Proof.
  intros H. assert (E : String.length (quote_go 0 s) = String.length s).
  { induction s as [|c s IH]; [done|]. simpl in H. apply andb_true_iff in H as [Hc Hs].
    unfold unescaped in Hc. apply andb_true_iff in Hc as [Ha Hl]. apply Nat.eqb_eq in Hl.
    cbn [quote_go]. rewrite DecodeRune_ascii by done. unfold quote_piece. unfold is_ascii in Ha. rewrite Ha, length_app_s, Hl.
    cbn [snd pred]. by rewrite IH. }
  unfold quote. simpl. rewrite length_app_s, E. simpl. lia.
Qed.

Lemma local_user_chars user : validLocalUser user = true →
  String.length user ≤ 32 ∧ str_forallb unescaped user = true.
Proof.
  unfold validLocalUser. destruct (_ || _ || _) eqn:E; [done|]. rewrite !orb_false_iff in E. destruct E as [[_ Hl] _].
  intros H. apply Nat.ltb_ge in Hl. split; [done|]. eapply str_forallb_mono; [|exact H].
  intros c. destruct c as [[] [] [] [] [] [] [] []]; vm_compute; congruence.
Qed.

Lemma hex_unescaped s : str_forallb unescaped (hex_encode s) = true.
Proof.
  induction s as [|c s IH]; [done|]. simpl. rewrite IH. clear IH. by destruct c as [[] [] [] [] [] [] [] []].
Qed.

Lemma unescaped_valid s : str_forallb unescaped s = true → ValidString s = true.
Proof. intros H. apply ascii_valid. eapply str_forallb_mono; [|exact H]. intros c. unfold unescaped. by intros [? _]%andb_true_iff. Qed.

(** An acknowledgement fits the server's limit of 4096 bytes. *)
Lemma ack_fits cfg body g : validLocalUser (c_SSHUser cfg) = true → (0 ≤ g)%Z → in_int64 g →
  fits (Z.to_nat 4096) (ack_body cfg (mkKeysState g (hex_encode (Sum256 body)))).
Proof.
  intros Hu H0 Hg. apply local_user_chars in Hu as [Hul Huc]. unfold fits.
  assert (E : print (ack_body cfg (mkKeysState g (hex_encode (Sum256 body)))) =
    "{" +:+ ((quote "generation" +:+ ":" +:+ strconv.FormatInt g) +:+ "," +:+
      (quote "sha256" +:+ ":" +:+ quote (hex_encode (Sum256 body))) +:+ "," +:+
      (quote "ssh_user" +:+ ":" +:+ quote (c_SSHUser cfg))) +:+ "}") by reflexivity.
  rewrite E, !length_app_s, (quote_length (hex_encode _)), (quote_length (c_SSHUser cfg)), length_hex_encode, length_Sum256
    by (done || apply hex_unescaped).
  assert (String.length (strconv.FormatInt g) ≤ 19).
  { rewrite FormatInt_N by done. apply length_pretty; [lia|]. apply N2Z.inj_lt. rewrite Z2N.id by done.
    unfold in_int64, max_int64 in Hg. change (Z.of_N (10 ^ N.of_nat 19)) with 10000000000000000000%Z. lia. }
  change (String.length (quote "generation")) with 12. change (String.length (quote "sha256")) with 8.
  change (String.length (quote "ssh_user")) with 10. change (Z.to_nat 4096) with (Z.to_nat 4096). cbn [String.length]. lia.
Qed.

(** ** The requests of the loop *)

Create HintDb silent discriminated.

Section traffic.
Context {Hurl : NetURL} {Hed : Ed25519} {Hkeys : Ed25519Keys} {Hlaws : Ed25519Laws} {Hidp : IdentityProvider}.
Context (env : environment) (ParseAuthorizedKey : string → option (string * string * string * string)).
Context (s : Server) (cfg : config).

(** Settings as loadConfig accepts them, in UTF-8. *)
Record settings_ok : Prop := {
  so_user : validLocalUser (c_SSHUser cfg) = true;
  so_base : without "?" (c_APIURL cfg) = true;
  so_direct : valid_list (default [] (parseList (env "TERNAL_DIRECT_ADDRESSES")));
  so_relays : valid_list (default [] (c_RelayURLs cfg)) ∧ valid_list (default [] (c_ExtraRelayURLs cfg));
}.

(** The request is for the path and query of a route. *)
Definition for_route (q : HTTPRequest) (route : Route) : Prop :=
  rq_Method q = route_method route ∧
  (rq_URL q = c_APIURL cfg +:+ route_pattern route ∨ ∃ raw, rq_URL q = c_APIURL cfg +:+ route_pattern route +:+ "?" +:+ raw).

(** A server that has registered the device, and is reached in time, verifies it. *)
Definition verifiable (q : HTTPRequest) : Prop :=
  ∃ private identity endpointID timestamp route, route ∈ Router ParseAuthorizedKey s ∧ for_route q route ∧
    ∀ r x now, registered private identity endpointID x timestamp now → carries q r →
      (∀ b, rq_Body q = Some b → String.length b ≤ max_body) →
      ∃ signature text,
        agent_request r (route_handler route) (Identity_Serial identity) endpointID (Identity_HostKeyFingerprint identity)
          timestamp signature text ∧
        device_signed (Identity_Serial identity) endpointID (Identity_HostKeyFingerprint identity) timestamp signature text x now.

Lemma discovery_plain : settings_ok → plain_slice (DD_DirectAddresses (discovery_of env cfg)) ∧
  plain_slice (DD_RelayURLs (discovery_of env cfg)).
Proof.
  intros [_ _ Hd [Hr He]]. unfold discovery_of. split; intros l; simpl.
  - destruct (parseList _) as [a|]; [|done]. by intros [= <-].
  - intros [= <-]. simpl. split; [|done]. by apply Forall_app.
Qed.

Lemma heartbeat_route : mkRoute "POST" "/agents/heartbeat" [] handleHeartbeat ∈ Router ParseAuthorizedKey s.
Proof. unfold Router. do 36 apply list_elem_of_further. apply list_elem_of_here. Qed.

Lemma keys_route : mkRoute "GET" "/agents/authorized-keys" [] handleAgentAuthorizedKeys ∈ Router ParseAuthorizedKey s.
Proof. unfold Router. do 37 apply list_elem_of_further. apply list_elem_of_here. Qed.

Lemma ack_route : mkRoute "POST" "/agents/authorized-keys/ack" [] handleAgentAuthorizedKeysAck ∈ Router ParseAuthorizedKey s.
Proof. unfold Router. do 38 apply list_elem_of_further. apply list_elem_of_here. Qed.

Lemma sends_request base method p body headers (Q : result HTTPResponse → Prop) :
  verifiable (mkHTTPRequest method (base +:+ p)
    ((match body with Some _ => [("Content-Type", "application/json")] | None => [] end) ++ headers) body) →
  (∀ r, Q r) → sends verifiable (request base method p body headers) Q.
Proof.
  intros Hq HQ. unfold request. destruct (url_Parse _); [|by apply HQ].
  apply only_try. split; [exact Hq|]. intros [resp|e]; [|by apply HQ]. cbn [only].
  destruct (_ || _)%bool; exact (HQ _).
Qed.

Lemma sends_json {A} base method p body headers (d : option (decoder A)) zero (Q : result A → Prop) :
  verifiable (mkHTTPRequest method (base +:+ p)
    ((match print <$> body with Some _ => [("Content-Type", "application/json")] | None => [] end) ++ headers) (print <$> body)) →
  (∀ x, Q x) → sends verifiable (requestJSON base method p body headers d zero) Q.
Proof.
  intros Hq HQ. unfold requestJSON. apply only_try. apply sends_request; [exact Hq|].
  intros [resp|e]; [|by apply HQ]. destruct d; [destruct (rs_Status resp =? 204)%Z|]; exact (HQ _).
Qed.

Lemma sends_post p body headers :
  verifiable (mkHTTPRequest "POST" (c_APIURL cfg +:+ p) (("Content-Type", "application/json") :: headers) (Some (print body))) →
  sends verifiable (post (c_APIURL cfg) p body headers) (λ _, True).
Proof. intros Hq. unfold post. apply only_need. apply sends_json; [done|]. by intros [[]|e]. Qed.

#[local] Hint Resolve mute_sends : only.

Lemma sends_stop grace : sends verifiable (stopChild grace) (λ _, True).
Proof. unfold stopChild. only_steps. Qed.

#[local] Hint Resolve sends_stop : only.

Lemma sends_heartbeat status : settings_ok → ValidString status = true → sends verifiable (heartbeat env cfg status) (λ _, True).
Proof.
  intros Hok Hs. unfold heartbeat. only_seq; [apply mute_sends, mute_device|]. intros [[[private identity] endpointID]|e]; [|done].
  only_seq; [done|]. intros now. apply sends_post. exists private, identity, endpointID, (unix now). eexists.
  split; [apply heartbeat_route|]. split; [split; [done|by left]|].
  intros r x now' Hr Hc Hlen. destruct (discovery_plain Hok) as [Hd1 Hd2].
  eapply heartbeat_verifies; [done|exact Hs|exact Hd1|exact Hd2|by apply Hlen|exact Hc].
Qed.

Lemma snapshot_range resp body next : checked_snapshot ParseAuthorizedKey resp = Ok (body, next) →
  (0 ≤ ks_Generation next)%Z ∧ in_int64 (ks_Generation next) ∧ ks_SHA256 next = hex_encode (Sum256 body).
Proof.
  intros H. assert (Hp := checked_snapshot_spec _ _ _ _ H). destruct Hp as (_ & _ & _ & Hp & Hd & _).
  split; [|split; [|done]].
  - unfold checked_snapshot in H. destruct (read_snapshot resp); [|done]. simpl in H. destruct (negb _); [done|].
    rewrite Hp in H. destruct (Z.ltb_spec (ks_Generation next) 0); [done|done].
  - unfold strconv.ParseInt in Hp. case_match. case_match; [done|]. case_match; [|done].
    cbv zeta in Hp. case_bool_decide; [|done]. by injection Hp as <-.
Qed.

Lemma sends_install p private identity endpointID resp body next : settings_ok →
  checked_snapshot ParseAuthorizedKey resp = Ok (body, next) →
  sends verifiable (install_snapshot cfg p private identity endpointID body next) (λ _, True).
Proof.
  intros Hok Hc. destruct (snapshot_range _ _ _ Hc) as (H0 & Hg & Hd). destruct next as [g d]. cbn [ks_Generation ks_SHA256] in *. subst d.
  unfold install_snapshot. cbv zeta. only_seq; [apply mute_sends, mute_state|]. intros [current|]; [|done].
  destruct (goes_back _ _); [done|].
  do 2 (only_seq; [apply mute_sends, mute_write|intros [|]; [done|]]; only_seq; [apply mute_sends, mute_owner|intros [|]; [done|]]).
  only_seq; [done|]. intros now. apply sends_post. exists private, identity, endpointID, (unix now). eexists.
  split; [apply ack_route|]. split; [split; [done|by left]|]. intros r x now' Hr Hcr _.
  cbn [route_handler]. eapply (ack_verifies ParseAuthorizedKey private identity endpointID x (unix now) now' cfg (mkKeysState g (hex_encode (Sum256 body)))
    (c_APIURL cfg) [("Content-Type", "application/json")]);
    [done| | |done|by apply ack_fits; [apply Hok|..]|exact Hcr].
  - apply unescaped_valid. apply local_user_chars, Hok.
  - apply unescaped_valid, hex_unescaped.
Qed.

Lemma sends_sync p : settings_ok → sends verifiable (syncAuthorizedKeys ParseAuthorizedKey cfg p) (λ _, True).
Proof.
  intros Hok. unfold syncAuthorizedKeys. case_bool_decide; [done|]. only_seq; [apply mute_sends, mute_lock|].
  intros [h|e]; [|done]. only_seq; [|intros r; only_seq; [apply mute_sends, mute_unlock|done]].
  unfold sync_locked. only_seq; [apply mute_sends, mute_purge|]. intros [_|]; [|done].
  only_seq; [apply mute_sends, mute_device|]. intros [[[private identity] endpointID]|]; [|done].
  only_seq; [done|]. intros now. apply only_need. cbv zeta. apply sends_request.
  - exists private, identity, endpointID, (unix now). eexists. split; [apply keys_route|].
    split; [split; [done|right; by eexists]|]. intros r x now' Hr Hc _. cbn [route_handler].
    eapply (keys_verifies ParseAuthorizedKey private); [exact Hr|apply Hok|exact Hc].
  - intros [resp|]; [|done]. destruct (checked_snapshot _ _) as [[body next]|] eqn:Ec; [|done]. by eapply sends_install.
Qed.

Lemma sends_control status : settings_ok → ValidString status = true →
  sends verifiable (syncControlPlane env ParseAuthorizedKey cfg status) (λ _, True).
Proof.
  intros Hok Hs. unfold syncControlPlane. only_seq; [by apply sends_heartbeat|]. intros err.
  case_bool_decide; [done|]. only_seq; [by apply sends_sync|]. intros r. by destruct (_ || _)%bool.
Qed.

Lemma sends_loop fuel endpointID ph : settings_ok →
  sends verifiable (supervise_loop env ParseAuthorizedKey fuel cfg endpointID ph) (λ _, True).
Proof.
  intros Hok. revert ph. induction fuel as [|fuel IH]; intros ph; [done|].
  assert (Hstop : ∀ service lastError err, sends verifiable (stop_with cfg service endpointID lastError err) (λ _, True)).
  { intros. unfold stop_with. only_steps. }
  assert (Hsync : sends verifiable (syncControlPlane env ParseAuthorizedKey cfg "healthy") (λ _, True)) by by apply sends_control.
  destruct ph; cbn [supervise_loop].
  - only_seq; [done|]. intros [e|]; [done|]. only_seq; [apply mute_sends, mute_report|]. intros _.
    only_seq; [exact Hsync|]. intros err. destruct (isUnauthorized err); [apply Hstop|apply IH].
  - only_seq; [done|]. intros [|e| |].
    + apply Hstop.
    + only_seq; [apply mute_sends, mute_report|]. intros _. only_seq; [done|]. intros [| | |]; first [done|apply IH].
    + only_seq; [exact Hsync|]. intros err. destruct (isUnauthorized err); [apply Hstop|].
      only_seq; [destruct err; apply mute_sends, mute_report|]. intros _. apply IH.
    + apply Hstop.
Qed.


End traffic.

(** ** Snapshots *)

(** The answer of handleAgentAuthorizedKeys, as the agent reads it. *)
Record answers (body : string) (generation : Z) (resp : HTTPResponse) : Prop := {
  an_body : rs_Body resp = body;
  an_whole : rs_Broken resp = None;
  an_generation : rs_Header resp "X-Ternal-Authorized-Keys-Generation" = strconv.FormatInt generation;
  an_digest : rs_Header resp "X-Ternal-Authorized-Keys-Sha256" = hex_encode (Sum256 body);
}.

(** [C35] The agent accepts what the store renders.  A snapshot of keys that are
    lines of ASCII and parse, each with its expiry before the year 10000, is
    accepted whole by the checks of a synchronisation: its size, its digest,
    its generation, and each line's expiry option and key. *)
Theorem agent_accepts_the_rendering (ParseAuthorizedKey : string → option (string * string * string * string)) entries body g resp :
  Forall (entry_ok ParseAuthorizedKey) entries → renderAuthorizedKeysBody entries = Ok body →
  (0 ≤ g)%Z → in_int64 g → answers body g resp →
  checked_snapshot ParseAuthorizedKey resp = Ok (body, mkKeysState g (hex_encode (Sum256 body))).
Proof.
  intros He Hr H0 Hg [Hb Hw Hgen Hd]. destruct (rendered_is_valid _ _ _ He Hr) as [Hv Hs].
  unfold checked_snapshot, read_snapshot. rewrite Hb, Hw, Hd, Hgen, ParseInt_FormatInt by done.
  rewrite (proj2 (Z.ltb_ge authorizedKeysMaxBytes _)) by done. cbn [mbind result_bind]. rewrite bool_decide_eq_true_2 by done. cbn [negb].
  rewrite (proj2 (Z.ltb_ge _ _)) by done. by rewrite Hv.
Qed.
