(* ===== verification/AgentSupervise.v ===== *)
(** * The life of the agent's child

    A child is started only while none is alive and the server has not refused
    the device; it is interrupted before it is killed; and the agent does not
    return while it is alive. *)

From S2P Require Export Supervise.
Open Scope go_scope.

(** ** Traces of a child *)

(** The answer 401. *)
Definition refusal (a : action) : bool :=
  match a with Sent _ (Ok resp) => (rs_Status resp =? 401)%Z | _ => false end.

Definition was_refused (l : list action) : bool := existsb refusal l.

Definition about_child (a : action) : bool :=
  match a with Started _ _ | Signalled _ | Reaped => true | _ => false end.

(** The events of a child, the latest first. *)
Definition child_events (l : list action) : list action := filter about_child l.

(** What an event may follow. *)
Definition orderly_step (a : action) (l : list action) : Prop :=
  match a with
  | Started _ _ => alive l = 0 ∧ was_refused l = false
  | Signalled false => alive l = 1
  | Signalled true => alive l = 1 ∧ ∃ l', child_events l = Signalled false :: l'
  | Reaped => alive l = 1
  | Sent _ _ | Attached _ _ | Printed _ => True
  end.

Fixpoint orderly (l : list action) : Prop :=
  match l with [] => True | a :: l => orderly_step a l ∧ orderly l end.

Lemma orderly_alive l : orderly l → alive l ≤ 1.
Proof.
  induction l as [|a l IH]; [simpl; lia|]. intros [Ha Hl]. specialize (IH Hl).
  destruct a as [|program args|[]| | |]; simpl in *; lia.
Qed.

(** ** Talking to the server *)

Definition error_of {A} (r : result A) : option error := match r with Ok _ => None | Err e => Some e end.

(** Nothing happened to the child, and a refusal shows in the error. *)
Record told (o : option error) (l l' : list action) : Prop := {
  to_orderly : orderly l';
  to_alive : alive l' = alive l;
  to_refused : was_refused l' = true → was_refused l = true ∨ isUnauthorized o = true;
}.

Lemma told_refl o l : orderly l → told o l l.
Proof. intros Hl. split; auto. Qed.

Lemma told_trans o l1 l2 l3 : told None l1 l2 → told o l2 l3 → told o l1 l3.
Proof.
  intros [H1 A1 R1] [H2 A2 R2]. split; [done|congruence|]. intros H. destruct (R2 H) as [H'|]; [|by right].
  destruct (R1 H'); [by left|done].
Qed.

Lemma told_weaken o l l' : told None l l' → told o l l'.
Proof. intros [H1 A1 R1]. split; [done..|]. intros H. by destruct (R1 H); [left|]. Qed.

Section supervised.
Context {Hurl : NetURL} {K : Ed25519Keys} (env : environment).
Context (ParseAuthorizedKey : string → option (string * string * string * string)) (cfg : config).

Notation wpt := (wpt orderly).

(** A program that tells of the server's refusals. *)
Definition Tells {A} (err : A → option error) (p : prog hostE A) : Prop :=
  ∀ l, orderly l → wpt p l (λ a l', told (err a) l l').

Lemma Tells_mute {A} (err : A → option error) p : mute p → Tells err p.
Proof. intros Hp l Hl. apply wpt_mute; [done|done|]. intros a. by apply told_refl. Qed.

(** A step that may fail with an error that the whole fails with. *)
Lemma Tells_bind {A B} (err : A → option error) (err' : B → option error) p (f : A → prog hostE B) :
  Tells err p → (∀ a, err a = None → Tells err' (f a)) →
  (∀ a, err a ≠ None → ∃ b, f a = Ret b ∧ err' b = err a) → Tells err' (prog_bind p f).
Proof.
  intros Hp Hf He l Hl. apply wpt_bind. eapply wpt_mono; [by apply Hp|]. intros a l' Hl' Ht. cbv beta in Ht.
  destruct (err a) as [e|] eqn:Ee.
  - destruct (He a) as (b & -> & Eb); [by rewrite Ee|]. apply wpt_ret; [done|]. by rewrite Eb, Ee.
  - eapply wpt_mono; [by apply Hf|]. intros b l2 _. by apply told_trans.
Qed.

Lemma Tells_need {A} (p : prog hostE (result A)) (f : A → prog hostE (option error)) :
  Tells error_of p → (∀ a, Tells id (f a)) → Tells id (need_bind p f).
Proof. intros Hp Hf. eapply Tells_bind; [exact Hp|..]; (intros [a|e] He; [apply Hf|done]) || (intros [a|e] He; [done|by eexists]). Qed.

Lemma Tells_check (p k : prog hostE (option error)) : Tells id p → Tells id k → Tells id (check_bind p k).
Proof. intros Hp Hk. eapply Tells_bind; [exact Hp|..]; (intros [e|] He; [done|exact Hk]) || (intros [e|] He; [by eexists|done]). Qed.

Lemma Tells_try {A B} (p : prog hostE (result A)) (f : A → prog hostE (result B)) :
  Tells error_of p → (∀ a, Tells error_of (f a)) → Tells error_of (try_bind p f).
Proof. intros Hp Hf. eapply Tells_bind; [exact Hp|..]; (intros [a|e] He; [apply Hf|done]) || (intros [a|e] He; [done|by eexists]). Qed.

Lemma Tells_after {A B} (err : B → option error) (p : prog hostE A) (f : A → prog hostE B) :
  mute p → (∀ a, Tells err (f a)) → Tells err (prog_bind p f).
Proof. intros Hp Hf. apply (Tells_bind (λ _, None)); [by apply Tells_mute|done..]. Qed.

Lemma Tells_request base method p body headers : Tells error_of (request base method p body headers).
Proof.
  unfold request. destruct (url_Parse _); [|by apply Tells_mute]. intros l Hl. apply wpt_bind, wpt_last; [done|].
  intros x _. cbn [action_of logged]. assert (Ho : orderly (Sent (mkHTTPRequest method (base +:+ p)
    (match body with Some _ => [("Content-Type", "application/json")] | None => [] end ++ headers) body) x :: l)) by done.
  split; [exact Ho|]. destruct x as [resp|e]; [|by apply wpt_ret; [|split; [|done|auto]]].
  destruct ((rs_Status resp <? 200)%Z || (300 <=? rs_Status resp)%Z)%bool eqn:Es; (apply wpt_ret; [exact Ho|split; [exact Ho|done|]]); cbn.
  - destruct (Z.eqb_spec (rs_Status resp) 401) as [->|]; [by right|auto].
  - apply orb_false_iff in Es as [_ Es]. apply Z.leb_gt in Es. rewrite (proj2 (Z.eqb_neq _ _)) by lia. auto.
Qed.

Lemma Tells_post base p body headers : Tells id (post base p body headers).
Proof.
  unfold post, requestJSON. apply Tells_need; [|intros a; by apply Tells_mute].
  apply Tells_try; [apply Tells_request|]. intros resp. by apply Tells_mute.
Qed.

Lemma Tells_heartbeat status : Tells id (heartbeat env cfg status).
Proof.
  unfold heartbeat. apply Tells_need; [apply Tells_mute; auto with only|]. intros [[private identity] endpointID].
  apply Tells_after; [done|]. intros now. apply Tells_post.
Qed.

Lemma Tells_sync p : Tells id (syncAuthorizedKeys ParseAuthorizedKey cfg p).
Proof.
  unfold syncAuthorizedKeys. case_bool_decide; [by apply Tells_mute|].
  apply Tells_need; [apply Tells_mute; auto with only|]. intros h l Hl. apply wpt_bind.
  eapply wpt_mono with (Q := λ a l', told a l l'); [|intros r l' Hl' Ht; apply wpt_bind, wpt_mute; [auto with only|done|by intros _; apply wpt_ret]].
  revert l Hl. change (Tells id (sync_locked ParseAuthorizedKey cfg p)). unfold sync_locked.
  apply Tells_need; [apply Tells_mute; auto with only|]. intros _.
  apply Tells_need; [apply Tells_mute; auto with only|]. intros [[private identity] endpointID].
  apply Tells_after; [done|]. intros now. cbv zeta. apply Tells_need; [apply Tells_request|]. intros resp.
  destruct (checked_snapshot _ _) as [[body next]|]; [|by apply Tells_mute].
  unfold install_snapshot. cbv zeta. apply Tells_need; [apply Tells_mute; auto with only|]. intros current.
  destruct (goes_back _ _); [by apply Tells_mute|].
  do 4 (apply Tells_check; [apply Tells_mute; auto with only|]). apply Tells_after; [done|]. intros t. apply Tells_post.
Qed.

Lemma Tells_control status : Tells id (syncControlPlane env ParseAuthorizedKey cfg status).
Proof.
  unfold syncControlPlane. intros l Hl. apply wpt_bind. eapply wpt_mono; [by apply Tells_heartbeat|].
  intros err l1 Hl1 Ht. case_bool_decide; [by apply wpt_ret|]. apply wpt_bind. eapply wpt_mono; [by apply Tells_sync|].
  intros err2 l2 Hl2 [_ A2 R2]. destruct Ht as [_ A1 R1]. unfold id in *.
  destruct (isUnauthorized err2) eqn:E2; cbn [orb].
  - apply wpt_ret; [done|]. split; [done|congruence|auto].
  - assert (R : was_refused l2 = true → was_refused l = true ∨ isUnauthorized err = true).
    { intros H2. destruct (R2 H2) as [H'|]; [auto|congruence]. }
    case_bool_decide as En; apply wpt_ret; try done; (split; [done|congruence|]); [|done].
    intros H2. destruct (R H2); [by left|]. by rewrite En in *.
Qed.
(** ** The loop *)

Lemma mute_wpt {A B} (p : prog hostE A) (f : A → prog hostE B) l (Q : B → list action → Prop) :
  mute p → orderly l → (∀ a, wpt (f a) l Q) → wpt (prog_bind p f) l Q.
Proof. intros Hp Hl Hf. by apply wpt_bind, wpt_mute. Qed.

(** The child is stopped: interrupted, and killed if it outlives the grace. *)
Lemma stop_wpt service endpointID lastError err l (Q : option (option error) → list action → Prop) :
  orderly l → alive l = 1 →
  (∀ l', orderly l' → alive l' = 0 → was_refused l' = was_refused l → Q (Some err) l') →
  wpt (stop_with cfg service endpointID lastError err) l Q.
Proof.
  intros Hl Ha HQ. unfold stop_with. apply wpt_bind. unfold stopChild.
  apply wpt_call; [done|]. intros [] _. cbn [action_of logged].
  assert (Hreport : ∀ l', orderly l' → alive l' = 0 → was_refused l' = was_refused l →
    wpt (prog_bind (report cfg service endpointID "stopped" lastError) (λ _, Ret (Some err))) l' Q).
  { intros l' Hl' Ha' Hr'. apply mute_wpt; [auto with only|done|]. intros _. by apply wpt_ret; [|apply HQ]. }
  apply wpt_call; [by split|]. intros [| e| |]; cbn [possible]; intros Hw;
    try (by repeat (apply elem_of_cons in Hw as [Hw|Hw]; [discriminate Hw|]); apply elem_of_nil in Hw).
  - cbn [action_of logged]. apply wpt_ret; [by split; [|split]|]. apply Hreport; [by split; [|split]|simpl; by rewrite Ha|done].
  - cbn [action_of logged]. apply wpt_call; [by split|]. intros [] _. cbn [action_of logged].
    assert (Ho : orderly (Signalled true :: Signalled false :: l)) by (split; [split; [done|by eexists]|by split]).
    apply wpt_call; [exact Ho|]. intros [|e'| |]; cbn [possible]; intros Hw2;
      try (by repeat (apply elem_of_cons in Hw2 as [Hw2|Hw2]; [discriminate Hw2|]); apply elem_of_nil in Hw2).
    + cbn [action_of logged]. apply wpt_ret; [by split; [|exact Ho]|]. apply Hreport; [by split; [|exact Ho]|simpl; by rewrite Ha|done].
    + destruct Hw2 as [d Hw2]. by repeat (apply elem_of_cons in Hw2 as [Hw2|Hw2]; [discriminate Hw2|]); apply elem_of_nil in Hw2.
Qed.

(** A run that returns leaves no child; one refused returns the refusal. *)
Definition settled (r : option (option error)) (l : list action) : Prop :=
  (r ≠ None → alive l = 0) ∧ (was_refused l = true → ∃ err, r = Some err ∧ isUnauthorized err = true).

Lemma loop_wpt fuel endpointID ph l :
  orderly l → was_refused l = false → alive l = (match ph with Starting => 0 | Watching => 1 end) →
  wpt (supervise_loop env ParseAuthorizedKey fuel cfg endpointID ph) l settled.
Proof.
  revert ph l. induction fuel as [|fuel IH]; intros ph l Hl Hr Ha.
  { apply wpt_ret; [done|]. split; [done|]. by rewrite Hr. }
  assert (Hcontrol : ∀ l' (k : option error → prog hostE (option (option error))),
    orderly l' → was_refused l' = false → alive l' = 1 →
    (∀ err l2, orderly l2 → was_refused l2 = false → alive l2 = 1 → isUnauthorized err = false → wpt (k err) l2 settled) →
    wpt (let! err := syncControlPlane env ParseAuthorizedKey cfg "healthy" in
         if isUnauthorized err then stop_with cfg "revoked" endpointID revoked_text err else k err) l' settled).
  { intros l' k Hl' Hr' Ha' Hk. apply wpt_bind. eapply wpt_mono; [by apply Tells_control|]. intros err l2 Hl2 [_ A R]. unfold id in R.
    rewrite Ha' in A. rewrite Hr' in R. destruct (isUnauthorized err) eqn:Ee.
    - apply stop_wpt; [done|done|]. intros l3 Hl3 Ha3 _. split; [done|]. eauto.
    - apply Hk; try done. by destruct (was_refused l2); [destruct R|]. }
  destruct ph; cbn [supervise_loop].
  - apply wpt_call; [done|]. intros [e|] _; cbn [action_of logged].
    { apply wpt_ret; [done|]. split; [done|]. by rewrite Hr. }
    assert (Ho : orderly (Started (c_Pigeons cfg) (roostArgs cfg) :: l)) by done.
    apply mute_wpt; [auto with only|done|]. intros _. apply Hcontrol; [done|done|simpl; by rewrite Ha|].
    intros err l2 Hl2 Hr2 Ha2 _. by apply IH.
  - apply wpt_call; [done|]. intros [|e| |] Hw; cbn [action_of logged].
    + apply stop_wpt; [done..|]. intros l' Hl' Ha' Hr'. split; [done|]. by rewrite Hr', Hr.
    + assert (Ho : orderly (Reaped :: l)) by done. apply mute_wpt; [auto with only|done|]. intros _.
      apply wpt_call; [done|]. assert (Ha0 : alive (Reaped :: l) = 0) by (simpl; by rewrite Ha).
      intros [|e'| |] Hw2; cbn [action_of logged].
      * apply wpt_ret; [done|]. split; [done|]. simpl. by rewrite Hr.
      * by destruct Hw2 as [_ Hw2].
      * by apply IH.
      * by apply IH.
    + apply Hcontrol; [done..|]. intros err l2 Hl2 Hr2 Ha2 _.
      apply mute_wpt; [destruct err; auto with only|done|]. intros _. by apply IH.
    + apply stop_wpt; [done..|]. intros l' Hl' Ha' Hr'. split; [done|]. by rewrite Hr', Hr.
Qed.

(** [C12] The agent never runs a child for a refused device, and leaves none
    behind.  In every run that starts without a child, at most one is alive;
    one is started only while none is alive and no request has been answered
    with 401; it is signalled only while it is alive, and killed only after it
    was interrupted.  When the agent returns no child is alive, and once a
    request was answered with 401 it returns that refusal. *)
Theorem child_is_supervised fuel w : m_children w = 0 →
  wpc (λ w', ∃ l, m_log w' = l ++ m_log w ∧ m_children w' = alive l ∧ orderly l ∧ m_children w' ≤ 1)
    (supervise env ParseAuthorizedKey fuel cfg) w
    (λ r w', ∃ l, m_log w' = l ++ m_log w ∧ (r ≠ None → m_children w' = 0) ∧
       (was_refused l = true → ∃ err, r = Some err ∧ isUnauthorized err = true)).
Proof.
  intros Hw. eapply wpc_inv; [eapply wpc_mono|].
  - apply (wpt_wpc orderly _ w (m_log w) []); [done|done|]. unfold supervise.
    apply mute_wpt with (Q := settled); [auto with only|done|]. intros [endpointID|e]; [|by apply wpt_ret].
    apply wpt_bind. eapply wpt_mono; [by apply Tells_heartbeat|]. intros err l Hl [_ A R]. unfold id in R.
    destruct (isUnauthorized err) eqn:Ee.
    + apply mute_wpt; [auto with only|done|]. intros _. apply wpt_ret; [done|]. split; [done|]. eauto.
    + apply loop_wpt; [done| |done]. destruct (was_refused l); [by destruct R|done].
  - intros r w' _ (l & El & Ec & Hs & Hf). exists l. split; [done|]. split; [|done]. rewrite Ec. exact Hs.
  - intros w' (l & El & Ec & Hl). exists l. split_and!; try done. rewrite Ec. by apply orderly_alive.
Qed.
End supervised.
