(* ===== verification/GoAny.v ===== *)
(** * JSON of no declared type (packages encoding/json, strconv and fmt)

    What a program sees that decodes a JSON object to a map[string]any: texts,
    numbers as float64, and what fmt writes of such values.  Floats are the
    standard library's binary64 numbers, rounded from the decimal literal. *)

From Stdlib Require Export SpecFloat.
From S2P Require Export GoDecode.

(** ** Numbers *)

Module float64.

Definition normalize (m e : Z) : spec_float := binary_normalize 53 1024 m e false.
Definition of_Z (z : Z) : spec_float := normalize z 0.

(** The parts of a number literal: its digits without the point, and the power of ten. *)
Definition unsigned_parts (s : string) : N * Z :=
  let '(i, s) := take_digits s in
  let '(f, s) :=
    match s with
    | String c s' => if char_eqb c "." then take_digits s' else ("", s)
    | EmptyString => ("", s)
    end in
  let e :=
    match s with
    | String _ s' =>
      let '(neg, s') := match s' with
                        | String "-" s'' => (true, s'') | String "+" s'' => (false, s'') | _ => (false, s') end in
      let n := Z.of_N (default 0%N (strconv.parse_digits 0 s')) in
      if neg : bool then (- n)%Z else n
    | EmptyString => 0%Z
    end in
  (default 0%N (strconv.parse_digits 0 (i +:+ f)), (e - Z.of_nat (String.length f))%Z).

(** The nearest number to m*10^e. *)
Definition of_decimal (m : N) (e : Z) : spec_float :=
  match m with
  | N0 => S754_zero false
  | Npos p =>
    if (0 <=? e)%Z then of_Z (Zpos p * 10 ^ e)
    else match (10 ^ (- e))%Z with
         | Zpos q => SFdiv 53 1024 (S754_finite false p 0) (S754_finite false q 0)
         | _ => S754_nan
         end
  end.

Definition is_finite (f : spec_float) : bool :=
  match f with S754_zero _ | S754_finite _ _ _ => true | _ => false end.

(** strconv.ParseFloat on a number literal: numbers beyond the range are an error. *)
Definition parse (text : string) : option spec_float :=
  let '(neg, s) := match text with String "-" s => (true, s) | _ => (false, text) end in
  let '(m, e) := unsigned_parts s in
  let f := of_decimal m e in
  if is_finite f then Some (if neg : bool then SFopp f else f) else None.

(** The integer part. *)
Definition trunc (f : spec_float) : Z :=
  match f with
  | S754_finite s m e =>
    let a := if (0 <=? e)%Z then (Zpos m * 2 ^ e)%Z else (Zpos m / 2 ^ (- e))%Z in
    if s then (- a)%Z else a
  | _ => 0%Z
  end.

(** int64(f): beyond the range the language leaves the result, [wild], open. *)
Definition int64 (wild : spec_float → Z) (f : spec_float) : Z :=
  if bool_decide (in_int64 (trunc f)) then trunc f else wild f.

Example float_parses : parse "600" = Some (of_Z 600) ∧ parse "6.0e2" = Some (of_Z 600) ∧ parse "6000e-1" = Some (of_Z 600) ∧
  trunc (default S754_nan (parse "-1.5")) = (-1)%Z ∧ parse "1e400" = None ∧
  parse "0.1" = Some (S754_finite false 7205759403792794 (-56)).
Proof. repeat split; vm_compute; reflexivity. Qed.

End float64.

(** ** Objects *)

(** Every number in the value is in the range of float64. *)
Fixpoint in_float_range (j : json) : bool :=
  match j with
  | JNum t => match float64.parse t with Some _ => true | None => false end
  | JArr l => forallb in_float_range l
  | JObj l => forallb (λ kv, in_float_range kv.2) l
  | _ => true
  end.

(** A map[string]any; a nil map has no entries.  The last member of a name counts. *)
Definition object : Type := list (string * json).

Definition decode_object : decoder object := λ o j,
  match j with
  | JObj l => if in_float_range j then Some (o ++ l) else None
  | JNull => Some []
  | _ => None
  end.

Definition member (o : object) (key : string) : option json :=
  snd <$> List.find (λ kv, bool_decide (kv.1 = key)) (rev o).

(** Type assertions, in the form [v, _ := x.(T)]. *)
Definition as_text (j : option json) : string := match j with Some (JStr s) => s | _ => "" end.
Definition as_float (j : option json) : option spec_float := match j with Some (JNum t) => float64.parse t | _ => None end.
Definition as_list (j : option json) : option (list json) := match j with Some (JArr l) => Some l | _ => None end.

(** ** fmt *)

Section fmt.
Context (format_float : spec_float → string).

(** The members of a map as fmt writes it: sorted, each name once. *)
Fixpoint last_members (l : list (string * json)) : list (string * json) :=
  match l with
  | [] => []
  | kv :: l => if existsb (λ kv', bool_decide (kv'.1 = kv.1)) l then last_members l else kv :: last_members l
  end.

Definition number_text (t : string) : string := match float64.parse t with Some f => format_float f | None => "" end.

(** [%v], and [%s], which complains about what is no text. *)
Fixpoint format_value (fuel : nat) (verb_s : bool) (j : json) : string :=
  match fuel with
  | O => ""
  | S fuel =>
    match j with
    | JNull => if verb_s then "%!s(<nil>)" else "<nil>"
    | JBool b => let t := if b then "true" else "false" in if verb_s then "%!s(bool=" +:+ t +:+ ")" else t
    | JNum t => if verb_s then "%!s(float64=" +:+ number_text t +:+ ")" else number_text t
    | JStr s => s
    | JArr l => "[" +:+ strings.Join (format_value fuel verb_s <$> l) " " +:+ "]"
    | JObj l => "map[" +:+ strings.Join ((λ kv, kv.1 +:+ ":" +:+ format_value fuel verb_s kv.2) <$> sort_keys (last_members l)) " " +:+ "]"
    end
  end.

(** The depth of a value bounds the nesting of its text. *)
Fixpoint depth (j : json) : nat :=
  match j with
  | JArr l => S (foldr max 0 (depth <$> l))
  | JObj l => S (foldr max 0 ((λ kv, depth kv.2) <$> l))
  | _ => 1
  end.

Definition Sprint (j : json) : string := format_value (depth j) false j.
Definition Sprint_s (j : option json) : string :=
  match j with Some j => format_value (depth j) true j | None => "%!s(<nil>)" end.

End fmt.

(** Runes of a text, and [%-*s]. *)
Fixpoint count_runes (skip : nat) (s : string) : nat :=
  match s with
  | EmptyString => 0
  | String _ s' => match skip with O => S (count_runes (pred (snd (DecodeRune s))) s') | S k => count_runes k s' end
  end.

Fixpoint spaces (n : nat) : string := match n with O => "" | S n => String " " (spaces n) end.

Definition pad_right (width : nat) (s : string) : string := s +:+ spaces (width - count_runes 0 s).
