(* ===== verification/Ctl.v ===== *)
(** * ternalctl: sessions and requests (cmd/ternalctl/main.go)

    The settings of an invocation, the session file of an API origin, the
    requests that carry it, the wait for a key grant, and the checks of the
    commands that OpenSSH calls back. *)

From S2P Require Export DeviceKeys GoAny Http.
Open Scope go_scope.

Definition ctlDefaultAPIURL : string := "http://127.0.0.1:3000".

Record Session := mkSession { ss_Cookie : string; ss_CSRFToken : string; ss_ExpiresAt : Z; ss_APIURL : string }.

Definition session_fields : list (struct_field Session) :=
  [at_field "cookie" ss_Cookie (λ x s, mkSession x (ss_CSRFToken s) (ss_ExpiresAt s) (ss_APIURL s)) decode_string;
   at_field "csrf_token" ss_CSRFToken (λ x s, mkSession (ss_Cookie s) x (ss_ExpiresAt s) (ss_APIURL s)) decode_string;
   at_field "expires_at" ss_ExpiresAt (λ x s, mkSession (ss_Cookie s) (ss_CSRFToken s) x (ss_APIURL s)) decode_int64;
   at_field "api_url" ss_APIURL (λ x s, mkSession (ss_Cookie s) (ss_CSRFToken s) (ss_ExpiresAt s) x) decode_string].

Definition no_session : Session := mkSession "" "" 0 "".

Definition json_of_session (s : Session) : json :=
  JObj [("cookie", JStr (ss_Cookie s)); ("csrf_token", JStr (ss_CSRFToken s));
        ("expires_at", JNum (strconv.FormatInt (ss_ExpiresAt s))); ("api_url", JStr (ss_APIURL s))].

Record CtlHost := mkCtlHost {
  ch_ID : string; ch_Name : string; ch_EndpointID : string; ch_SSHUser : string;
  ch_Tags : option (gmap string string); ch_SSHPort : Z; ch_Status : string }.

Definition no_host : CtlHost := mkCtlHost "" "" "" "" None 0 "".

Definition host_fields : list (struct_field CtlHost) :=
  [at_field "id" ch_ID (λ x h, mkCtlHost x (ch_Name h) (ch_EndpointID h) (ch_SSHUser h) (ch_Tags h) (ch_SSHPort h) (ch_Status h)) decode_string;
   at_field "name" ch_Name (λ x h, mkCtlHost (ch_ID h) x (ch_EndpointID h) (ch_SSHUser h) (ch_Tags h) (ch_SSHPort h) (ch_Status h)) decode_string;
   at_field "endpoint_id" ch_EndpointID (λ x h, mkCtlHost (ch_ID h) (ch_Name h) x (ch_SSHUser h) (ch_Tags h) (ch_SSHPort h) (ch_Status h)) decode_string;
   at_field "ssh_user" ch_SSHUser (λ x h, mkCtlHost (ch_ID h) (ch_Name h) (ch_EndpointID h) x (ch_Tags h) (ch_SSHPort h) (ch_Status h)) decode_string;
   at_field "tags" ch_Tags (λ x h, mkCtlHost (ch_ID h) (ch_Name h) (ch_EndpointID h) (ch_SSHUser h) x (ch_SSHPort h) (ch_Status h)) (decode_map "" decode_string);
   at_field "ssh_port" ch_SSHPort (λ x h, mkCtlHost (ch_ID h) (ch_Name h) (ch_EndpointID h) (ch_SSHUser h) (ch_Tags h) x (ch_Status h)) decode_uint16;
   at_field "status" ch_Status (λ x h, mkCtlHost (ch_ID h) (ch_Name h) (ch_EndpointID h) (ch_SSHUser h) (ch_Tags h) (ch_SSHPort h) x) decode_string].

(** A new slice of structs. *)
Definition decode_hosts : decoder (list CtlHost) := λ old j,
  match j with
  | JNull => Some []
  | JArr l => mapM (decode_struct host_fields no_host) l
  | _ => None
  end.

(** What Decode leaves when a member is of the wrong type: it goes on with the rest. *)
Definition decode_leniently (h : CtlHost) (kv : string * json) : CtlHost := default h (decode_member host_fields h kv).

Definition hosts_so_far (j : json) : list CtlHost :=
  match j with
  | JArr l => (λ x, match x with JObj members => foldl decode_leniently no_host members | _ => no_host end) <$> l
  | _ => []
  end.

(** ** Settings *)

(** The text of an error. *)
Fixpoint error_text (e : error) : string :=
  match e with
  | Errorf msg => msg
  | ErrorWrap msg e => msg +:+ ": " +:+ error_text e
  | CommandError _ msg => msg
  | ErrStatus code => "API returned HTTP " +:+ strconv.FormatInt code
  | ErrNotExist => "file does not exist"
  | ErrContext => "context deadline exceeded"
  | ErrNoRows => "sql: no rows in result set"
  | ErrTrustUnsettled => "trust state is not settled"
  | ErrService code => code
  end.

Definition isLoopbackHost (host : string) : bool :=
  bool_decide (host = "localhost") || bool_decide (host = "127.0.0.1") || bool_decide (host = "::1").

Definition validateAPIURL `{NetURL} (raw : string) : option error :=
  match url_Parse raw with
  | None => Some (Errorf "invalid TERNAL_API_URL")
  | Some u =>
    if bool_decide (URL_Scheme u = "") || bool_decide (URL_Host u = "") || URL_HasUser u ||
       negb (bool_decide (URL_RawQuery u = "")) || negb (bool_decide (URL_Fragment u = ""))
    then Some (Errorf "invalid TERNAL_API_URL") else
    if negb (bool_decide (URL_Scheme u = "https")) && negb (bool_decide (URL_Scheme u = "http") && isLoopbackHost (URL_Hostname u))
    then Some (Errorf "TERNAL_API_URL must use HTTPS outside loopback development") else None
  end.

Definition canonicalAPIOrigin `{NetURL} (raw : string) : string :=
  match url_Parse (strings.TrimSuffix raw "/") with
  | None => raw
  | Some u =>
    if bool_decide (URL_Scheme u = "") || bool_decide (URL_Host u = "") then raw
    else ToLower (URL_Scheme u) +:+ "://" +:+ ToLower (URL_Host u) +:+ URL_Path u
  end.

(** ** Headers *)

Definition headers : Type := list (string * string).

(** http.Header.Set *)
Definition set_header (k v : string) (h : headers) : headers := filter (λ kv, kv.1 ≠ k) h ++ [(k, v)].

(** What net/http writes for the value of a cookie. *)
Definition valid_cookie_byte (c : ascii) : bool :=
  in_range 32 126 (byte_of c) && negb (char_eqb c dquote || char_eqb c ";" || char_eqb c backslash).

Fixpoint filter_chars (p : ascii → bool) (s : string) : string :=
  match s with
  | EmptyString => ""
  | String c s => if p c then String c (filter_chars p s) else filter_chars p s
  end.

Definition sanitizeCookieValue (value : string) : string :=
  let v := filter_chars valid_cookie_byte value in
  if strings.ContainsAny v " ," then String dquote (v +:+ String dquote "") else v.

Definition addSession (s : Session) (h : headers) : headers :=
  set_header "Cookie" ("ternal_session=" +:+ sanitizeCookieValue (ss_Cookie s)) h.

Definition addSessionIf (s : option Session) (h : headers) : headers :=
  match s with Some s => addSession s h | None => h end.

Section ctl.
Context {Hurl : NetURL} (env : environment).

Definition apiURL : string := getenv_or env "TERNAL_API_URL" ctlDefaultAPIURL.

Definition currentAPIOrigin : string := canonicalAPIOrigin apiURL.

Definition developmentHeadersAllowed (api : string) : bool :=
  match url_Parse api with
  | Some u => bool_decide (env "TERNAL_DEV_HEADERS" = "1") && isLoopbackHost (URL_Hostname u)
  | None => false
  end.

(** Whether the client's transport adds the development headers. *)
Definition newHTTPClient (api : string) : result bool :=
  if bool_decide (env "TERNAL_DEV_HEADERS" = "1") then
    if negb (developmentHeadersAllowed api) then Err (Errorf "TERNAL_DEV_HEADERS requires a loopback API URL") else Ok true
  else Ok false.

Definition devHeadersTransport (method : string) (h : headers) : headers :=
  let h := set_header "X-Ternal-User" (getenv_or env "TERNAL_USER" "local-admin") h in
  let h := set_header "X-Ternal-Groups" (getenv_or env "TERNAL_GROUPS" "ternal-admins") h in
  if bool_decide (method = "GET") || bool_decide (method = "HEAD") || bool_decide (method = "OPTIONS") then h
  else set_header "X-Csrf-Token" "dev-csrf" h.

(** client.Do; [dev] is the client's transport. *)
Definition Do (dev : bool) (method url : string) (h : headers) (body : option string) : prog hostE (result HTTPResponse) :=
  call (HTTPDo (mkHTTPRequest method url (if dev then devHeadersTransport method h else h) body)).

(** http.NewRequest succeeds. *)
Definition valid_request (url : string) : bool := match url_Parse url with Some _ => true | None => false end.

Definition is_success (status : Z) : bool := negb ((status <? 200)%Z || (300 <=? status)%Z).

(** ** The session file *)

Definition sessionPathFor (origin : string) : prog hostE (result string) :=
  let name := "session-" +:+ hex_encode (stake 8 (Sum256 origin)) +:+ ".json" in
  let dir := env "TERNAL_CONFIG_DIR" in
  if negb (bool_decide (dir = "")) then Ret (Ok (path.Join [dir; "ternal"; name])) else
  configDir ←? call UserConfigDir;
  Ret (Ok (path.Join [configDir; "ternal"; name])).

Definition sessionPath : prog hostE (result string) := sessionPathFor currentAPIOrigin.

(** Unmarshal and the check of the recorded origin. *)
Definition parseSession (data : string) : result Session :=
  match Unmarshal (decode_struct session_fields) no_session data with
  | None => Err (Errorf "invalid session file")
  | Some s =>
    if bool_decide (ss_APIURL s = "") || negb (bool_decide (ss_APIURL s = currentAPIOrigin))
    then Err (Errorf "session is not valid for this API origin") else Ok s
  end.

Definition loadSession : prog hostE (result Session) :=
  if negb (bool_decide (env "TERNAL_SESSION_COOKIE" = "")) then
    let! now := call Now in
    Ret (Ok (mkSession (env "TERNAL_SESSION_COOKIE") (env "TERNAL_CSRF_TOKEN") (unix (now + 60 * second)) ""))
  else
    p ←? sessionPath;
    data ←? call (ReadFile p);
    match parseSession data with
    | Err e => Ret (Err e)
    | Ok s =>
      let! now := call Now in
      Ret (if (ss_ExpiresAt s <? unix now)%Z then Err (Errorf "session expired") else Ok s)
    end.

(** The session, and whether it is the one of the file. *)
Definition loadSessionForLogout : prog hostE (result (Session * bool)) :=
  if negb (bool_decide (env "TERNAL_SESSION_COOKIE" = ""))
  then Ret (Ok (mkSession (env "TERNAL_SESSION_COOKIE") (env "TERNAL_CSRF_TOKEN") 0 "", false)) else
  p ←? sessionPath;
  data ←? call (ReadFile p);
  Ret (s ← parseSession data; Ok (s, true)).

Definition saveSession (s : Session) : prog hostE (option error) :=
  let s := mkSession (ss_Cookie s) (ss_CSRFToken s) (ss_ExpiresAt s) currentAPIOrigin in
  p ←! sessionPath;
  must call (MkdirAll (path.Dir p) 448);
  call (WriteFile p (print (json_of_session s)) 384).

Definition removeSession : prog hostE (option error) :=
  p ←! sessionPath;
  let! r := call (Remove p) in
  Ret (if bool_decide (r = Some ErrNotExist) then None else r).

(** ** Requests *)

(** The object of the answer and its status. *)
Definition postJSONResponse (dev : bool) (url : string) (body : option json) : prog hostE (result (object * Z)) :=
  if negb (valid_request url) then Ret (Err (Errorf "invalid request URL")) else
  let! session := loadSession in
  let h := [("Content-Type", "application/json")] in
  let h := match session with
           | Ok s => let h := addSession s h in
                     if bool_decide (ss_CSRFToken s = "") then h else set_header "X-Csrf-Token" (ss_CSRFToken s) h
           | Err _ => h
           end in
  resp ←? Do dev "POST" url h (print <$> body);
  Ret (match Decode (Z.to_nat (Z.shiftl 64 10)) decode_object [] (rs_Body resp) with
       | Some o => Ok (o, rs_Status resp)
       | None => Err (Errorf "invalid API response")
       end).

Definition status_text (status : Z) : string := "API returned HTTP " +:+ strconv.FormatInt status.

Definition postJSON (dev : bool) (url : string) (body : option json) : prog hostE (result object) :=
  r ←? postJSONResponse dev url body;
  let (o, status) := r : object * Z in
  if negb (is_success status) then
    let message := as_text (member o "error") in
    Ret (Err (Errorf (if bool_decide (message = "") then status_text status else status_text status +:+ ": " +:+ message)))
  else Ret (Ok o).

(** json.Marshal of a map. *)
Definition json_of_map (l : list (string * json)) : json := JObj (sort_keys l).

Definition getProxyHost (dev : bool) (api : string) (session : option Session) (hostID : string) : prog hostE (result CtlHost) :=
  let url := api +:+ "/hosts/" +:+ url.PathEscape hostID in
  if negb (valid_request url) then Ret (Err (Errorf "invalid request URL")) else
  resp ←? Do dev "GET" url (addSessionIf session []) None;
  if negb (is_success (rs_Status resp)) then Ret (Err (Errorf (status_text (rs_Status resp)))) else
  Ret (match Decode (String.length (rs_Body resp)) (decode_struct host_fields) no_host (rs_Body resp) with
       | Some h => Ok h
       | None => Err (Errorf "invalid API response")
       end).

(** ** The wait for a key grant *)

Definition keyGrantPollInterval : Z := 2 * second.
Definition keyGrantWaitTimeout : Z := 120 * second.

Definition installed_fields : list (struct_field bool) := [at_field "installed" id (λ x _, x) decode_bool].

(** [None] when the fuel is used up. *)
Fixpoint poll_key_grant (fuel : nat) (dev : bool) (url : string) (h : headers) (deadline : Z) : prog hostE (option (option error)) :=
  match fuel with
  | O => Ret None
  | S fuel =>
    if negb (valid_request url) then Ret (Some (Some (Errorf "invalid request URL"))) else
    let! r := Do dev "GET" url h None in
    match r with
    | Err e => Ret (Some (Some e))
    | Ok resp =>
      match Decode (Z.to_nat (Z.shiftl 64 10)) (decode_struct installed_fields) false (rs_Body resp) with
      | None => Ret (Some (Some (Errorf "invalid API response")))
      | Some installed =>
        if is_success (rs_Status resp) && installed then Ret (Some None) else
        let! now := call Now in
        if negb (now <? deadline)%Z then Ret (Some (Some (Errorf "SSH key grant was not installed in time"))) else
        let! _ := call (Sleep keyGrantPollInterval) in
        poll_key_grant fuel dev url h deadline
      end
    end
  end.

Definition waitForKeyGrant (fuel : nat) (dev : bool) (api : string) (session : option Session) (grantID : string) :
    prog hostE (option (option error)) :=
  let! now := call Now in
  poll_key_grant fuel dev (api +:+ "/access/grants/" +:+ url.PathEscape grantID +:+ "/key-status")
    (addSessionIf session []) (now + keyGrantWaitTimeout)%Z.

End ctl.

(** ** What OpenSSH calls back *)

Definition spaces_and_newlines : string := " " +:+ String (chr 9) (String (chr 13) (String newline "")).

Fixpoint validateRouteArgs (args : list string) : option error :=
  match args with
  | flag :: value :: args =>
    if negb (bool_decide (flag = "--direct-address")) && negb (bool_decide (flag = "--relay-url"))
    then Some (Errorf "unsupported route flag") else
    if bool_decide (value = "") || strings.HasPrefix value "-" || strings.ContainsAny value spaces_and_newlines
    then Some (Errorf "invalid route value") else validateRouteArgs args
  | _ => None
  end.

Definition validateProxyInvocation (hostRef endpointPort : string) (routeArgs : list string) : option error :=
  if bool_decide (hostRef = "") || strings.HasPrefix hostRef "-" || strings.ContainsAny hostRef spaces_and_newlines
  then Some (Errorf "invalid host reference") else
  match strings.Split endpointPort ":" with
  | [endpoint; port] =>
    if bool_decide (endpoint = "") || bool_decide (port = "") then Some (Errorf "invalid endpoint") else
    if (length routeArgs =? 0) || negb (length routeArgs mod 2 =? 0)
    then Some (Errorf "explicit relay or direct route required") else validateRouteArgs routeArgs
  | _ => Some (Errorf "invalid endpoint")
  end.

(** golang.org/x/crypto/ssh: the type of a key line and its SHA-256 fingerprint. *)
Definition writeKnownHostKey (ParseKey : string → option (string * string)) (expected : string) (args : list string) :
    prog hostE (option error) :=
  match args with
  | [invocation; actual; keyType; keyData] =>
    if bool_decide (invocation = "ORDER") && bool_decide (actual = "NONE") && bool_decide (keyType = "NONE") && bool_decide (keyData = "NONE")
    then Ret None else
    if negb (bool_decide (invocation = "HOSTNAME")) then Ret (Some (Errorf ("unsupported invocation " +:+ quote invocation))) else
    if negb (bool_decide (expected = actual)) then Ret (Some (Errorf "fingerprint mismatch")) else
    match ParseKey (keyType +:+ " " +:+ keyData) with
    | None => Ret (Some (Errorf "invalid public key"))
    | Some (parsedType, fingerprint) =>
      if negb (bool_decide (parsedType = keyType)) || negb (bool_decide (fingerprint = expected))
      then Ret (Some (Errorf "key does not match fingerprint")) else
      let! _ := call (Print ("* " +:+ keyType +:+ " " +:+ keyData +:+ String newline "")) in Ret None
    end
  | _ => Ret (Some (Errorf "expected four OpenSSH arguments"))
  end.

(** ** Command lines *)

Definition shell_specials : string := " " +:+ String (chr 9) ("'" +:+ String backslash (String dquote "")).

Definition shellQuote (value : string) : string :=
  if negb (strings.ContainsAny value shell_specials) then value
  else "'" +:+ strings.ReplaceAll value "'" ("'" +:+ String backslash "''") +:+ "'".

Definition rewriteCTLPath (text executable : string) : string :=
  strings.ReplaceAll text "=ternalctl " ("=" +:+ shellQuote executable +:+ " ").
