(* ===== verification/CtlCommands.v ===== *)
(** * ternalctl: the commands (cmd/ternalctl/main.go, membership.go)

    Each command as a program that returns the exit status of the process:
    [Some 2] where the source dereferences a nil request, which panics, and
    [None] when the fuel of a polling loop is used up. *)

From S2P Require Export Ctl GoCrypto.
Open Scope go_scope.

Definition newline_text : string := String newline "".

Definition exit (code : Z) : prog hostE (option Z) := Ret (Some code).

Definition Println (text : string) (k : prog hostE (option Z)) : prog hostE (option Z) :=
  let! _ := call (Print (text +:+ newline_text)) in k.

(** [fmt.Fprintf(os.Stderr, ...); os.Exit(1)] *)
Definition fatal (text : string) : prog hostE (option Z) :=
  let! _ := call (Eprint (text +:+ newline_text)) in exit 1.

Definition fatal_error (e : error) : prog hostE (option Z) := fatal ("error: " +:+ error_text e).

Definition panic : prog hostE (option Z) := exit 2.

(** ** Members of a cluster *)

Record memberCredential := mkMember {
  mc_ID : string; mc_URL : string; mc_PeerURL : string; mc_LogURL : string;
  mc_PublicKey : string;  (* 32 bytes *)
  mc_WALIdentity : string; mc_Token : string }.

Definition zero_key : string := zero_bytes 32.

Definition no_member : memberCredential := mkMember "" "" "" "" zero_key "" "".

(** memberPublicKey.UnmarshalJSON *)
Definition decode_public_key : decoder string := λ old j,
  match j with
  | JStr encoded =>
    match StdEncoding.DecodeString encoded with
    | Some decoded => if bool_decide (String.length decoded = 32) then Some decoded else None
    | None => None
    end
  | JNull => None   (* the encoded text is then empty *)
  | _ => None
  end.

Definition member_fields : list (struct_field memberCredential) :=
  let mk := mkMember in
  [at_field "node_id" mc_ID (λ x m, mk x (mc_URL m) (mc_PeerURL m) (mc_LogURL m) (mc_PublicKey m) (mc_WALIdentity m) (mc_Token m)) decode_string;
   at_field "url" mc_URL (λ x m, mk (mc_ID m) x (mc_PeerURL m) (mc_LogURL m) (mc_PublicKey m) (mc_WALIdentity m) (mc_Token m)) decode_string;
   at_field "peer_url" mc_PeerURL (λ x m, mk (mc_ID m) (mc_URL m) x (mc_LogURL m) (mc_PublicKey m) (mc_WALIdentity m) (mc_Token m)) decode_string;
   at_field "log_url" mc_LogURL (λ x m, mk (mc_ID m) (mc_URL m) (mc_PeerURL m) x (mc_PublicKey m) (mc_WALIdentity m) (mc_Token m)) decode_string;
   at_field "public_key" mc_PublicKey (λ x m, mk (mc_ID m) (mc_URL m) (mc_PeerURL m) (mc_LogURL m) x (mc_WALIdentity m) (mc_Token m)) decode_public_key;
   at_field "wal_identity" mc_WALIdentity (λ x m, mk (mc_ID m) (mc_URL m) (mc_PeerURL m) (mc_LogURL m) (mc_PublicKey m) x (mc_Token m)) decode_string;
   at_field "token" mc_Token (λ x m, mk (mc_ID m) (mc_URL m) (mc_PeerURL m) (mc_LogURL m) (mc_PublicKey m) (mc_WALIdentity m) x) decode_string].

(** DisallowUnknownFields *)
Definition known_members {S} (fields : list (struct_field S)) (j : json) : bool :=
  match j with
  | JObj l => forallb (λ kv, match find_field fields kv.1 with Some _ => true | None => false end) l
  | _ => true
  end.

Definition decode_credentials : decoder (list memberCredential) := λ old j,
  match j with
  | JNull => Some []
  | JArr l => if forallb (known_members member_fields) l then mapM (decode_struct member_fields no_member) l else None
  | _ => None
  end.

(** The first value of the input, and what follows it. *)
Definition decode_first {A} (d : decoder A) (zero : A) (input : string) : option (A * string) :=
  jr ← parse_value (2 * String.length input + 2) 0 input; a ← d zero (fst jr); Some (a, snd jr).

Definition optional_member (name value : string) : list (string * json) :=
  if bool_decide (value = "") then [] else [(name, JStr value)].

Definition json_of_member (m : memberCredential) : json :=
  JObj ([("node_id", JStr (mc_ID m)); ("url", JStr (mc_URL m))] ++ optional_member "peer_url" (mc_PeerURL m) ++
        [("log_url", JStr (mc_LogURL m)); ("public_key", JStr (StdEncoding.EncodeToString (mc_PublicKey m)))] ++
        optional_member "wal_identity" (mc_WALIdentity m) ++ [("token", JStr (mc_Token m))]).

Section members.
(** ed25519.NewKeyFromSeed: the public half of the key of a seed. *)
Context (PublicOfSeed : string → string).

Definition peerPublicKey (clusterID nodeID token : string) : string :=
  PublicOfSeed (hmac_sha256 token
    ("rhiza-peer-certificate" +:+ String (chr 0) (clusterID +:+ String (chr 0) nodeID))).

(** The loop over the members, with the IDs and tokens seen before. *)
Fixpoint prepare_each (clusterID : string) (seen tokenSeen : list string) (members : list memberCredential) :
    result (list memberCredential) :=
  match members with
  | [] => Ok []
  | m :: members =>
    if bool_decide (mc_ID m = "") then Err (Errorf "membership contains an empty node ID") else
    if bool_decide (mc_ID m ∈ seen) then Err (Errorf ("membership contains duplicate node ID " +:+ mc_ID m)) else
    if String.length (mc_Token m) <? 32 then Err (Errorf ("member " +:+ mc_ID m +:+ " token must contain at least 32 bytes")) else
    if bool_decide (mc_Token m ∈ tokenSeen) then Err (Errorf "membership tokens must be distinct") else
    let derived := peerPublicKey clusterID (mc_ID m) (mc_Token m) in
    if negb (bool_decide (mc_PublicKey m = zero_key)) && negb (bool_decide (mc_PublicKey m = derived))
    then Err (Errorf ("member " +:+ mc_ID m +:+ " public key does not match its credential")) else
    rest ← prepare_each clusterID (mc_ID m :: seen) (mc_Token m :: tokenSeen) members;
    Ok (mkMember (mc_ID m) (mc_URL m) (mc_PeerURL m) (mc_LogURL m) derived (mc_WALIdentity m) (mc_Token m) :: rest)
  end.

(** What is written to the output. *)
Definition prepare_text (clusterID input : string) : result string :=
  if bool_decide (clusterID = "") then Err (Errorf "cluster ID is required") else
  match decode_first decode_credentials [] input with
  | None => Err (ErrorWrap "read membership credentials" (Errorf "invalid JSON"))
  | Some (members, rest) =>
    if negb (bool_decide (skip_ws rest = "")) then Err (Errorf "read membership credentials: trailing JSON") else
    if bool_decide (members = []) then Err (Errorf "membership requires at least one member") else
    prepared ← prepare_each clusterID [] [] members;
    Ok (print (JArr (json_of_member <$> prepared)) +:+ newline_text)
  end.

Definition prepareMembers (clusterID input : string) : prog hostE (option error) :=
  match prepare_text clusterID input with
  | Err e => Ret (Some e)
  | Ok text => let! _ := call (Print text) in Ret None
  end.

End members.

(** ** Commands *)

Section commands.
Context {Hurl : NetURL} (env : environment) (goos : string).
Context (wild : spec_float → Z) (format_float : spec_float → string).
Context (dev : bool) (api : string).

(** numberAsInt64 *)
Definition numberAsInt64 (value : option json) (fallback : Z) : Z :=
  match as_float value with
  | Some number =>
    let n := float64.int64 wild number in
    if SFeqb number (float64.of_Z n) then n else fallback
  | None => fallback
  end.

Definition not_logged_in : prog hostE (option Z) := fatal "not logged in".

(** [req, _ := http.NewRequest("GET", ...)], then addSession and client.Do. *)
Definition get_with_session (url : string) (session : Session) (k : HTTPResponse → prog hostE (option Z)) : prog hostE (option Z) :=
  if negb (valid_request url) then panic else
  let! r := Do env dev "GET" url (addSession session []) None in
  match r with Err e => fatal_error e | Ok resp => k resp end.

Definition require_success (resp : HTTPResponse) (k : prog hostE (option Z)) : prog hostE (option Z) :=
  if negb (is_success (rs_Status resp)) then fatal (status_text (rs_Status resp)) else k.

(** [json.NewDecoder(resp.Body).Decode(&result)], its error ignored. *)
Definition object_of (resp : HTTPResponse) : object :=
  default [] (Decode (String.length (rs_Body resp)) decode_object [] (rs_Body resp)).

Definition hosts_of (resp : HTTPResponse) : list CtlHost :=
  match Decode (String.length (rs_Body resp)) (λ _ j, Some j) JNull (rs_Body resp) with
  | Some j => default (hosts_so_far j) (decode_hosts [] j)
  | None => []
  end.

Definition listHosts (session : Session) (k : list CtlHost → prog hostE (option Z)) : prog hostE (option Z) :=
  get_with_session (api +:+ "/hosts") session (λ resp,
  if negb (is_success (rs_Status resp)) then fatal_error (Errorf (status_text (rs_Status resp))) else
  match Decode (String.length (rs_Body resp)) decode_hosts [] (rs_Body resp) with
  | None => fatal_error (Errorf "invalid API response")
  | Some hosts => k hosts
  end).

(** The loops over the hosts in cmdSSH and cmdEndpoint. *)
Definition find_host (hosts : list CtlHost) (hostName : string) : option CtlHost :=
  List.find (λ h, bool_decide (ch_Name h = hostName)) hosts.

Definition post (path : string) (body : option json) (k : object → prog hostE (option Z)) : prog hostE (option Z) :=
  let! r := postJSON env dev (api +:+ path) body in
  match r with Err e => fatal_error e | Ok o => k o end.

(** The exit status of a program that has the terminal. *)
Definition attached (program : string) (args : list string) (failed : string) : prog hostE (option Z) :=
  let! r := call (RunAttached program args) in
  match r with Ok code => exit code | Err e => fatal (failed +:+ ": " +:+ error_text e) end.

(** *** login *)

(** The session of an answer with a cookie, if it is not out of date. *)
Definition session_of (o : object) : Session :=
  mkSession (as_text (member o "session_cookie")) (as_text (member o "csrf_token"))
    (match as_float (member o "expires_at") with Some f => float64.int64 wild f | None => 0%Z end) "".

Fixpoint poll_login (fuel : nat) (deviceCode : string) (interval deadline : Z) : prog hostE (option Z) :=
  match fuel with
  | O => Ret None
  | S fuel =>
    let! now := call Now in
    if (deadline <? now + interval * second)%Z then fatal "device authorization expired" else
    let! _ := call (Sleep (interval * second)) in
    let! r := postJSONResponse env dev (api +:+ "/auth/device/token") (Some (json_of_map [("device_code", JStr deviceCode)])) in
    match r with
    | Err e => fatal_error e
    | Ok (o, status) =>
      if negb (is_success status) then
        let providerError := as_text (member o "error") in
        if bool_decide (providerError = "authorization_pending") then poll_login fuel deviceCode interval deadline
        else if bool_decide (providerError = "slow_down") then
          poll_login fuel deviceCode (if (interval <=? 55)%Z then interval + 5 else interval)%Z deadline
        else fatal ("device authorization failed with HTTP " +:+ strconv.FormatInt status)
      else if bool_decide (ss_Cookie (session_of o) = "") then poll_login fuel deviceCode interval deadline
      else
        let s := session_of o in
        let! now := call Now in
        if (ss_ExpiresAt s <=? unix now)%Z || bool_decide (ss_CSRFToken s = "")
        then fatal "server returned an invalid local session" else
        let! saved := saveSession env s in
        match saved with
        | Some e => fatal ("error saving session: " +:+ error_text e)
        | None => Println "Login successful!" (exit 0)
        end
    end
  end.

Definition valid_start (deviceCode userCode verificationURI : string) (expiresIn interval : Z) : bool :=
  negb (bool_decide (deviceCode = "") || bool_decide (userCode = "") || bool_decide (verificationURI = "") ||
        (expiresIn <? 1)%Z || (3600 <? expiresIn)%Z || (interval <? 1)%Z || (60 <? interval)%Z).

Definition cmdLogin (fuel : nat) : prog hostE (option Z) :=
  Println "Starting device authorization flow..." (
  post "/auth/device/start" None (λ startResp,
  let deviceCode := as_text (member startResp "device_code") in
  let userCode := as_text (member startResp "user_code") in
  let verificationURI := as_text (member startResp "verification_uri") in
  let expiresIn := numberAsInt64 (member startResp "expires_in") 600 in
  let interval := numberAsInt64 (member startResp "interval") 5 in
  if negb (valid_start deviceCode userCode verificationURI expiresIn interval)
  then fatal "server returned an invalid device authorization response" else
  let! now := call Now in
  let deadline := (now + expiresIn * second)%Z in
  Println ("Visit: " +:+ verificationURI) (
  Println ("Enter code: " +:+ userCode) (
  Println "Waiting for authorization..." (
  poll_login fuel deviceCode interval deadline))))).

(** *** logout *)

Definition logout : prog hostE (option error) :=
  let! loaded := loadSessionForLogout env in
  match loaded with
  | Err e => Ret (if bool_decide (e = ErrNotExist) then None else Some e)
  | Ok (session, persistent) =>
    let url := api +:+ "/auth/logout" in
    if negb (valid_request url) then Ret (Some (Errorf "invalid request URL")) else
    resp ←! Do env dev "POST" url (set_header "X-Csrf-Token" (ss_CSRFToken session) (addSession session [])) None;
    if negb (rs_Status resp =? 200)%Z then Ret (Some (Errorf ("logout returned HTTP " +:+ strconv.FormatInt (rs_Status resp)))) else
    if persistent : bool then removeSession env else Ret None
  end.

Definition cmdLogout : prog hostE (option Z) :=
  let! r := logout in
  match r with Some e => fatal_error e | None => Println "Logged out." (exit 0) end.

(** [session, err := loadSession()], which most commands start with. *)
Definition with_session (k : Session → prog hostE (option Z)) : prog hostE (option Z) :=
  let! r := loadSession env in
  match r with Err _ => not_logged_in | Ok session => k session end.

(** *** whoami, hosts, endpoint *)

Definition print_user (user : object) : prog hostE (option Z) :=
  Println ("User: " +:+ Sprint_s format_float (member user "sub"))
    (match as_list (member user "groups") with
     | Some groups => Println ("Groups: " +:+ Sprint format_float (JArr groups)) (exit 0)
     | None => exit 0
     end).

Definition cmdWhoami : prog hostE (option Z) :=
  with_session (λ session,
  get_with_session (api +:+ "/auth/session") session (λ resp,
  require_success resp
    (let result := object_of resp in
     match member result "authenticated" with
     | Some (JBool true) =>
       match member result "user" with Some (JObj user) => print_user user | _ => exit 0 end
     | _ => Println "Not authenticated" (exit 0)
     end))).

Fixpoint print_hosts (hosts : list CtlHost) : prog hostE (option Z) :=
  match hosts with
  | [] => exit 0
  | h :: hosts => Println (pad_right 20 (ch_Name h) +:+ " " +:+ ch_Status h) (print_hosts hosts)
  end.

Definition cmdHosts : prog hostE (option Z) :=
  with_session (λ session,
  get_with_session (api +:+ "/hosts") session (λ resp, require_success resp (print_hosts (hosts_of resp)))).

Definition print_list (label : string) (value : option json) (k : prog hostE (option Z)) : prog hostE (option Z) :=
  match as_list value with Some l => Println (label +:+ Sprint format_float (JArr l)) k | None => k end.

Definition cmdEndpoint (hostName : string) : prog hostE (option Z) :=
  with_session (λ session,
  listHosts session (λ hosts,
  match find_host hosts hostName with
  | None => fatal ("host not found: " +:+ hostName)
  | Some target =>
    get_with_session (api +:+ "/access/discovery/" +:+ ch_ID target) session (λ resp,
    require_success resp
      (let discovery := object_of resp in
       Println ("Host: " +:+ hostName)
         (print_list "Direct addresses: " (member discovery "direct_addresses")
            (print_list "Relay URLs: " (member discovery "relay_urls") (exit 0)))))
  end)).

(** *** ssh, ssh-config, submit-key *)

(** The grant of an answer is there, and its key installed. *)
Definition await_grant (fuel : nat) (o : object) (session : option Session) (k : prog hostE (option Z)) : prog hostE (option Z) :=
  let grantID := as_text (member o "grant_id") in
  if bool_decide (grantID = "") then fatal "SSH grant was not issued" else
  let! waited := waitForKeyGrant env fuel dev api session grantID in
  match waited with
  | None => Ret None
  | Some (Some e) => fatal_error e
  | Some None => k
  end.

Definition access_body (host_id ssh_user : string) : json := json_of_map [("host_id", JStr host_id); ("ssh_user", JStr ssh_user)].

Definition cmdSSH (fuel : nat) (hostName : string) : prog hostE (option Z) :=
  with_session (λ session,
  listHosts session (λ hosts,
  match find_host hosts hostName with
  | None => fatal ("host not found: " +:+ hostName)
  | Some target =>
    post "/access/ssh" (Some (access_body (ch_ID target) (ch_SSHUser target))) (λ cmdResp,
    await_grant fuel cmdResp (Some session)
      (let program := as_text (member cmdResp "program") in
       let args := Sprint format_float <$> default [] (as_list (member cmdResp "args")) in
       let! executable := call Executable in
       match executable with
       | Err e => fatal ("could not resolve ternalctl: " +:+ error_text e)
       | Ok executable => attached program ((λ arg, rewriteCTLPath arg executable) <$> args) "ssh failed"
       end))
  end)).

Fixpoint print_configs (executable : string) (configs : list json) : prog hostE (option Z) :=
  match configs with
  | [] => exit 0
  | c :: configs => Println (rewriteCTLPath (Sprint format_float c) executable) (Println "" (print_configs executable configs))
  end.

Definition cmdSSHConfig : prog hostE (option Z) :=
  with_session (λ session,
  get_with_session (api +:+ "/access/ssh-config") session (λ resp,
  require_success resp
    (let result := object_of resp in
     let! executable := call Executable in
     match executable with
     | Err e => fatal ("could not resolve ternalctl: " +:+ error_text e)
     | Ok executable => print_configs executable (default [] (as_list (member result "configs")))
     end))).

Definition cmdSubmitKey (keyPath : string) : prog hostE (option Z) :=
  with_session (λ _,
  let! data := call (ReadFile keyPath) in
  match data with
  | Err e => fatal ("error reading key: " +:+ error_text e)
  | Ok keyData =>
    post "/ssh-keys" (Some (json_of_map [("public_key", JStr (strings.TrimSpace keyData))])) (λ _,
    Println "Key submitted successfully." (exit 0))
  end).

(** *** proxy *)

Definition ctlPigeonsFileName : string := if bool_decide (goos = "windows") then "pigeons.exe" else "pigeons".

Definition exists_file (p : string) : prog hostE bool :=
  let! r := call (Stat p) in Ret (match r with Ok _ => true | Err _ => false end).

Definition findPigeonsOnPath : prog hostE string :=
  let! r := call (LookPath ctlPigeonsFileName) in Ret (match r with Ok p => p | Err _ => "" end).

Definition findPigeonsBeside : prog hostE string :=
  let! executable := call Executable in
  match executable with
  | Err _ => findPigeonsOnPath
  | Ok execPath =>
    let candidate := path.Join [path.Dir execPath; ctlPigeonsFileName] in
    let! found := exists_file candidate in
    if found : bool then Ret candidate else findPigeonsOnPath
  end.

(** "" when there is none. *)
Definition ctlFindPigeons : prog hostE string :=
  let bin := env "TERNAL_TRANSPORT_BIN" in
  if bool_decide (bin = "") then findPigeonsBeside else
  let! found := exists_file bin in
  if found : bool then Ret bin else findPigeonsBeside.

Definition homeSSHKeyDir : prog hostE (result string) :=
  home ←? call UserHomeDir;
  Ret (if path.IsAbs home then Ok (path.Join [home; ".ssh"]) else Err (Errorf "home directory is not absolute")).

Definition is_hex_any (c : ascii) : bool := between "0" "9" c || between "a" "f" c || between "A" "F" c.

Definition persistentEndpointID (pigeonsPath keyDir : string) : prog hostE (result string) :=
  temp ←? call (CreateTemp "" "ternal-endpoint-id-*");
  let (tmpName, h) := temp : string * nat in
  deferred (Remove tmpName)
    (let! runErr := call (RunTo h pigeonsPath ["endpoint-id"; "--key-dir"; keyDir]) in
     let! _ := call (Close h) in
     let! out := call (ReadFile tmpName) in
     Ret (match runErr, out with
          | Some e, _ => Err e
          | None, Err e => Err e
          | None, Ok out =>
            let endpointID := strings.TrimSpace out in
            if negb (bool_decide (String.length endpointID = 64)) || negb (str_forallb is_hex_any endpointID)
            then Err (Errorf "unexpected endpoint id") else Ok (strings.ToLowerASCII endpointID)
          end)).

Definition relay_body (hostRef clientEndpointID ssh_user : string) : json :=
  json_of_map [("host_id", JStr hostRef); ("client_endpoint_id", JStr clientEndpointID); ("ssh_user", JStr ssh_user);
               ("ttl", JNum "300")].

Definition no_identity (e : error) : prog hostE (option Z) :=
  fatal ("could not read persistent pigeons identity: " +:+ error_text e).

(** From the installed key on: the transport, once the relay admits this client. *)
Definition open_transport (hostRef endpointPort : string) (routeArgs : list string) (ssh_user : string) : prog hostE (option Z) :=
  let! pigeonsPath := ctlFindPigeons in
  if bool_decide (pigeonsPath = "") then fatal "pigeons binary not found" else
  let! keyDir := homeSSHKeyDir in
  match keyDir with
  | Err e => no_identity e
  | Ok keyDir =>
    let! id := persistentEndpointID pigeonsPath keyDir in
    match id with
    | Err e => no_identity e
    | Ok clientEndpointID =>
      post "/access/relay-grants" (Some (relay_body hostRef clientEndpointID ssh_user)) (λ _,
      let endpointID := hd "" (strings.SplitN2 endpointPort ":") in
      attached pigeonsPath (["fly"; "--stdio"; endpointID; "--key-dir"; keyDir] ++ routeArgs) "pigeons failed")
    end
  end.

Definition cmdProxy (fuel : nat) (hostRef endpointPort : string) (routeArgs : list string) : prog hostE (option Z) :=
  let! loaded := loadSession env in
  let session := match loaded with Ok s => Some s | Err _ => None end in
  if bool_decide (session = None) && negb (developmentHeadersAllowed env api) then not_logged_in else
  match validateProxyInvocation hostRef endpointPort routeArgs with
  | Some e => fatal ("invalid proxy invocation: " +:+ error_text e)
  | None =>
    let! host := getProxyHost env dev api session hostRef in
    match host with
    | Err e => fatal_error e
    | Ok proxyHost =>
      post "/access/ssh" (Some (access_body hostRef (ch_SSHUser proxyHost))) (λ sshResp,
      await_grant fuel sshResp session (open_transport hostRef endpointPort routeArgs (ch_SSHUser proxyHost)))
    end
  end.

End commands.

(** ** The command line *)

Section main.
Context {Hurl : NetURL} (env : environment) (goos : string).
Context (wild : spec_float → Z) (format_float : spec_float → string).
Context (PublicOfSeed : string → string) (ParseKey : string → option (string * string)).

Definition usage_text : list string :=
  ["usage: ternalctl <command> [<args>]"; ""; "commands:"; "  login          Login via OIDC device flow";
   "  logout         Revoke and clear session"; "  whoami         Show current user"; "  hosts          List accessible hosts";
   "  ssh <host>     Connect to host"; "  ssh-config     Print SSH config"; "  submit-key     Submit SSH public key";
   "  endpoint       Show endpoint discovery"; "  proxy          SSH ProxyCommand handler";
   "  known-host-key KnownHostsCommand handler"; "  prepare-members <cluster-id>";
   "                 Write HA member credentials read on stdin as the";
   "                 JSON member list that carries each public key"].

Definition printUsage (k : prog hostE (option Z)) : prog hostE (option Z) := foldr Println k usage_text.

(** [if err != nil { fmt.Fprintf(os.Stderr, ...); os.Exit(1) }] at the end of a command. *)
Definition or_fatal (p : prog hostE (option error)) (prefix : string) : prog hostE (option Z) :=
  let! r := p in match r with Some e => fatal (prefix +:+ error_text e) | None => exit 0 end.

(** The commands that talk to the API. *)
Definition dispatch (fuel : nat) (dev : bool) (command : string) (args : list string) : prog hostE (option Z) :=
  let usage text := fatal ("usage: ternalctl " +:+ text) in
  if bool_decide (command = "login") then cmdLogin env wild dev (apiURL env) fuel
  else if bool_decide (command = "logout") then cmdLogout env dev (apiURL env)
  else if bool_decide (command = "whoami") then cmdWhoami env format_float dev (apiURL env)
  else if bool_decide (command = "hosts") then cmdHosts env dev (apiURL env)
  else if bool_decide (command = "ssh") then
    match args with [] => usage "ssh <host>" | host :: _ => cmdSSH env format_float dev (apiURL env) fuel host end
  else if bool_decide (command = "ssh-config") then cmdSSHConfig env format_float dev (apiURL env)
  else if bool_decide (command = "submit-key") then
    match args with [] => usage "submit-key <path>" | p :: _ => cmdSubmitKey env dev (apiURL env) p end
  else if bool_decide (command = "endpoint") then
    match args with [] => usage "endpoint <host>" | host :: _ => cmdEndpoint env format_float dev (apiURL env) host end
  else if bool_decide (command = "proxy") then
    match args with
    | host :: endpointPort :: routeArgs => cmdProxy env goos dev (apiURL env) fuel host endpointPort routeArgs
    | _ => usage "proxy <host> <endpoint:port> [route-args...]"
    end
  else if bool_decide (command = "known-host-key") then
    match args with
    | [expected; _; _; _; _] => or_fatal (writeKnownHostKey ParseKey expected (tl args)) "host key rejected: "
    | _ => usage "known-host-key <fingerprint> <invocation> <actual-fingerprint> <key-type> <key>"
    end
  else
    let! _ := call (Eprint ("unknown command: " +:+ command +:+ newline_text)) in
    printUsage (exit 1).

(** main, on os.Args[1:] and the standard input. *)
Definition main (fuel : nat) (args : list string) (stdin : string) : prog hostE (option Z) :=
  match args with
  | [] => printUsage (exit 1)
  | command :: args =>
    if bool_decide (command = "prepare-members") then
      match args with
      | [clusterID] => or_fatal (prepareMembers PublicOfSeed clusterID stdin) "prepare-members: "
      | _ => fatal "usage: ternalctl prepare-members <cluster-id>"
      end
    else
      match validateAPIURL (apiURL env) with
      | Some e => fatal (error_text e)
      | None =>
        match newHTTPClient env (apiURL env) with
        | Err e => fatal (error_text e)
        | Ok dev => dispatch fuel dev command args
        end
      end
  end.

End main.
