(* ===== verification/CtlRuns.v ===== *)
(** * The runs of ternalctl's commands

    What each command of CtlCommands.v sends, and that it ends. *)

From S2P Require Export CtlCommands DeviceKeys Traffic GoQuery.
Open Scope go_scope.

(** ** ternalctl's sessions stay with their origin, and its waits end

    Every request of ternalctl goes to the API of its settings; a cookie it
    carries is that of the environment or of a session file that records the
    same origin.  With the fuel of an hour of polling, every command ends. *)

(** ** The name of the session file *)

Definition file_name (s : string) : Prop := without slash s = true ∧ s ≠ "" ∧ s ≠ "." ∧ s ≠ "..".

Lemma foldl_clean_last rooted l name : file_name name → ∃ kept, foldl (path.clean_step rooted) [] (l ++ [name]) = name :: kept.
Proof.
  intros (_ & H1 & H2 & H3). rewrite foldl_snoc. unfold path.clean_step at 1. rewrite !bool_decide_eq_false_2 by done. by eexists.
Qed.

Lemma trim_slashes_last s name : without slash name = true → name ≠ "" → path.trim_slashes (s +:+ name) = s +:+ name.
Proof.
  intros Hn Hne. assert (Hname : path.trim_slashes name = name).
  { clear s. induction name as [|c name IH]; [done|]. simpl in Hn. apply andb_true_iff in Hn as [Hc Hn].
    cbn [path.trim_slashes]. destruct name as [|d name]; [|by rewrite IH].
    simpl. apply negb_true_iff in Hc. by rewrite Hc. }
  induction s as [|c s IH]; [done|]. rewrite app_cons_s. cbn [path.trim_slashes]. rewrite IH.
  destruct (s +:+ name) eqn:E; [|done]. destruct s; [done|discriminate E].
Qed.

Lemma LastIndexByte_none c s : without c s = true → strings.LastIndexByte s c = None.
Proof. induction s as [|d s IH]; [done|]. simpl. intros [Hd Hs]%andb_true_iff. rewrite IH by done. apply negb_true_iff in Hd. by rewrite Hd. Qed.

Lemma LastIndexByte_last s c t : without c t = true → strings.LastIndexByte (s +:+ String c t) c = Some (String.length s).
Proof.
  intros Ht. induction s as [|d s IH]; [|by rewrite app_cons_s; cbn [strings.LastIndexByte]; rewrite IH].
  rewrite app_nil_s. cbn [strings.LastIndexByte]. by rewrite LastIndexByte_none, char_eqb_refl.
Qed.

Lemma Base_last s name : file_name name → (s = "" ∨ ∃ s', s = s' +:+ "/") → path.Base (s +:+ name) = name.
Proof.
  intros (Hn & Hne & _ & _) Hs. unfold path.Base.
  rewrite bool_decide_eq_false_2 by (destruct s; [done|discriminate]). rewrite trim_slashes_last by done.
  rewrite bool_decide_eq_false_2 by (destruct s; [done|discriminate]). unfold path.split_last.
  destruct Hs as [->|[s' ->]].
  - rewrite app_nil_s, LastIndexByte_none by done. done.
  - rewrite app_assoc_s. change ("/" +:+ name) with (String slash name). rewrite LastIndexByte_last by done. cbn [snd].
    replace (S (String.length s')) with (String.length (s' +:+ String slash "")) by (rewrite length_app_s; simpl; lia).
    change (String slash name) with (String slash "" +:+ name). rewrite <- app_assoc_s. apply sdrop_app_len.
Qed.

Lemma Clean_last s name : file_name name → ∃ t, path.Clean (s +:+ String slash name) = t +:+ name ∧ (t = "" ∨ ∃ t', t = t' +:+ "/").
Proof.
  intros Hn. unfold path.Clean. rewrite Split_app, (Split_single name) by apply Hn.
  destruct (foldl_clean_last (path.IsAbs (s +:+ String slash name)) (strings.Split s slash) name Hn) as [kept ->].
  rewrite reverse_cons. set (root := if path.IsAbs _ then "/" else "").
  assert (Hroot : root = "" ∨ root = "/") by (subst root; destruct (path.IsAbs _); auto).
  assert (E : ∃ t, root +:+ strings.Join (reverse kept ++ [name]) "/" = t +:+ name ∧ (t = "" ∨ ∃ t', t = t' +:+ "/")).
  { destruct (decide (reverse kept = [])) as [->|Hk].
    - exists root. split; [done|]. destruct Hroot as [->| ->]; [by left|right; by exists ""].
    - rewrite Join_snoc by done. exists (root +:+ strings.Join (reverse kept) "/" +:+ "/"). split; [by rewrite !app_assoc_s|].
      right. exists (root +:+ strings.Join (reverse kept) "/"). by rewrite app_assoc_s. }
  destruct E as (t & -> & Ht). exists t. split; [|done]. rewrite bool_decide_eq_false_2; [done|].
  destruct Hn as (_ & Hne & _). destruct t; [done|discriminate].
Qed.

Lemma Base_Join dir name : file_name name → path.Base (path.Join [dir; "ternal"; name]) = name.
Proof.
  intros Hn. assert (E : ∃ s, path.Join [dir; "ternal"; name] = path.Clean (s +:+ String slash name)).
  { unfold path.Join. destruct Hn as (_ & Hne & _). destruct (decide (dir = "")) as [->|Hd].
    - exists "ternal". rewrite filter_cons_False, !filter_cons_True by (done || tauto). done.
    - exists (dir +:+ "/ternal"). rewrite !filter_cons_True by done. cbn [filter list_filter].
      change (strings.Join [dir; "ternal"; name] "/") with (dir +:+ "/" +:+ "ternal" +:+ "/" +:+ name). by rewrite !app_assoc_s. }
  destruct E as [s ->]. destruct (Clean_last s name Hn) as (t & -> & Ht). by apply Base_last.
Qed.

(** ** What a request of ternalctl is *)

Section requests.
Context {Hurl : NetURL} {K : Ed25519Keys} (env : environment) (w0 : machine).

Notation origin := (currentAPIOrigin env).

Definition session_name : string := "session-" +:+ hex_encode (stake 8 (Sum256 origin)) +:+ ".json".

Definition session_file (p : string) : Prop := ∃ dir, p = path.Join [dir; "ternal"; session_name].

(** The session of the environment, or of a file for this origin. *)
Definition own_session (s : Session) : Prop :=
  (env "TERNAL_SESSION_COOKIE" ≠ "" ∧ ss_Cookie s = env "TERNAL_SESSION_COOKIE" ∧ ss_CSRFToken s = env "TERNAL_CSRF_TOKEN") ∨
  ∃ p data, session_file p ∧ content w0 p = Some data ∧
    Unmarshal (decode_struct session_fields) no_session data = Some s ∧ ss_APIURL s = origin.

Definition cookie_of (s : Session) : string := "ternal_session=" +:+ sanitizeCookieValue (ss_Cookie s).

(** It goes to the API, with no secret but an own session's, and with the
    development headers only where they are allowed. *)
Record ctl_request (q : HTTPRequest) : Prop := {
  cr_url : ∃ path, rq_URL q = apiURL env +:+ path;
  cr_cookie v : ("Cookie", v) ∈ rq_Headers q → ∃ s, own_session s ∧ v = cookie_of s;
  cr_csrf v : ("X-Csrf-Token", v) ∈ rq_Headers q →
    (∃ s, own_session s ∧ v = ss_CSRFToken s) ∨ developmentHeadersAllowed env (apiURL env) = true;
  cr_dev v : ("X-Ternal-User", v) ∈ rq_Headers q → developmentHeadersAllowed env (apiURL env) = true;
}.

Definition requests_ok (w : machine) : Prop := ∀ q x, Sent q x ∈ m_log w → Sent q x ∈ m_log w0 ∨ ctl_request q.

(** Only temporary files have changed. *)
Record kept (w : machine) : Prop := {
  kp_requests : requests_ok w;
  kp_files : same_files (λ _, True) w0 w;
}.

Lemma kept_linked w : kept w → well_linked w.
Proof. intros [_ Hf]. apply Hf. Qed.

Lemma kept_quiet w w' : well_linked w0 → kept w → quiet w w' → kept w'.
Proof.
  intros Hl [Hr Hf] Hq. split.
  - intros q x. rewrite (qt_log _ _ Hq). apply Hr.
  - eapply same_files_trans; [exact Hl|exact Hf|apply Hq].
Qed.

Lemma kept_note a w : (∀ q x, a = Sent q x → ctl_request q) → kept w → kept (note a w).
Proof.
  intros Ha [Hr []]. split; [|by split]. intros q x [Hx|Hx]%elem_of_cons; [right; by eapply Ha|by apply (Hr q x)].
Qed.

(** *** Programs that keep all this *)

Section triples.
Hypothesis Hlinked : well_linked w0.

Definition Keeps {A} (p : prog hostE A) (R : A → Prop) : Prop := ∀ w, kept w → wpc requests_ok p w (λ a w', kept w' ∧ R a).

(** Programs after which nothing more is sent. *)
Definition Ends {A} (p : prog hostE A) (R : A → Prop) : Prop := ∀ w, kept w → wpc requests_ok p w (λ a _, R a).

Lemma Keeps_ret {A} (a : A) (R : A → Prop) : R a → Keeps (Ret a) R.
Proof. intros Ha w Hw. split; [apply Hw|by split]. Qed.

Lemma Ends_ret {A} (a : A) (R : A → Prop) : R a → Ends (Ret a) R.
Proof. intros Ha w Hw. by split; [apply Hw|]. Qed.

Lemma Keeps_mono {A} (p : prog hostE A) (R R' : A → Prop) : Keeps p R → (∀ a, R a → R' a) → Keeps p R'.
Proof. intros Hp HR w Hw. eapply wpc_mono; [by apply Hp|]. intros a w' _ [? ?]. split; auto. Qed.

Lemma Keeps_bind {A B} (p : prog hostE A) (f : A → prog hostE B) R R' :
  Keeps p R → (∀ a, R a → Keeps (f a) R') → Keeps (prog_bind p f) R'.
Proof. intros Hp Hf w Hw. apply wpc_bind. eapply wpc_mono; [by apply Hp|]. intros a w' _ [Hk Ha]. by apply Hf. Qed.

Lemma Ends_bind {A B} (p : prog hostE A) (f : A → prog hostE B) R R' :
  Keeps p R → (∀ a, R a → Ends (f a) R') → Ends (prog_bind p f) R'.
Proof. intros Hp Hf w Hw. apply wpc_bind. eapply wpc_mono; [by apply Hp|]. intros a w' _ [Hk Ha]. by apply Hf. Qed.

Lemma Keeps_quiet {A} (p : prog hostE A) : Quiet p → Keeps p (λ _, True).
Proof.
  intros Hp w Hw. apply Hp; [by apply kept_linked|..].
  - intros w' Hq. by apply (kept_quiet w w').
  - intros a w' Hq. split; [by apply (kept_quiet w w')|done].
Qed.

(** A call that only adds to the log. *)
Lemma Keeps_noted {X} (e : hostE X) (a : X → action) :
  (∀ w x w', serves e w x w' → w' = note (a x) w) → (∀ x q r, a x = Sent q r → ctl_request q) → Keeps (call e) (λ _, True).
Proof.
  intros Hs Ha w Hw. apply wpc_last; [apply Hw|]. intros x w' Hx. rewrite (Hs _ _ _ Hx).
  assert (kept (note (a x) w)) as Hk by (apply kept_note; [apply Ha|done]). by split; [apply Hk|].
Qed.

Lemma Keeps_print text : Keeps (call (Print text)) (λ _, True).
Proof. by apply (Keeps_noted _ (λ _, Printed text)). Qed.

Lemma Keeps_attached program args : Keeps (call (RunAttached program args)) (λ _, True).
Proof. by apply (Keeps_noted _ (λ _, Attached program args)). Qed.

Lemma Keeps_send q : ctl_request q → Keeps (call (HTTPDo q)) (λ _, True).
Proof. intros Hq. apply (Keeps_noted _ (Sent q)); [done|]. by intros x q' r [= <- _]. Qed.

(** *** Sessions *)

Lemma session_name_file : file_name session_name.
Proof.
  split; [|done]. unfold session_name, without. rewrite !str_forallb_app.
  assert (H : ∀ s, str_forallb (λ d, negb (char_eqb d slash)) (hex_encode s) = true); [|by rewrite H].
  induction s as [|c s IH]; [done|]. simpl. rewrite IH. clear. by destruct c as [[] [] [] [] [] [] [] []].
Qed.

Lemma session_file_not_temp p : session_file p → is_temp p = false.
Proof. intros [dir ->]. unfold is_temp. by rewrite Base_Join by apply session_name_file. Qed.

Lemma sessionPath_keeps : Keeps (sessionPath env) (λ r, ∀ p, r = Ok p → session_file p).
Proof.
  unfold sessionPath, sessionPathFor. destruct (negb _).
  - apply Keeps_ret. intros p [= <-]. by eexists.
  - eapply Keeps_bind; [apply Keeps_quiet; eauto with quiet|]. intros [dir|e] _; apply Keeps_ret; [|done].
    intros p [= <-]. by eexists.
Qed.

(** Reading a session file. *)
Lemma read_session_keeps p : session_file p →
  Keeps (call (ReadFile p)) (λ r, ∀ data s, r = Ok data → parseSession env data = Ok s → own_session s).
Proof.
  intros Hp w Hw. apply wpc_last; [apply Hw|]. intros x w' (-> & Hc & _). split; [apply Hw|]. split; [done|].
  intros data s -> Hs. right. exists p, data. split; [done|].
  rewrite <- (same_files_content (λ _, True) w0 w) by (done || apply Hw || by apply session_file_not_temp).
  split; [by apply Hc|]. unfold parseSession in Hs. destruct (Unmarshal _ _ _) as [s'|]; [|done].
  case_bool_decide; [done|]. case_bool_decide; [|done]. simpl in Hs. by injection Hs as <-.
Qed.

Lemma loadSession_keeps : Keeps (loadSession env) (λ r, ∀ s, r = Ok s → own_session s).
Proof.
  unfold loadSession. case_bool_decide as Hc; cbn [negb].
  - unfold try_bind. eapply Keeps_bind; [apply sessionPath_keeps|]. intros [p|e] Hp; [|by apply Keeps_ret].
    eapply Keeps_bind; [apply read_session_keeps; by apply Hp|]. intros [data|e] Hd; [|by apply Keeps_ret].
    destruct (parseSession env data) as [s|e] eqn:Es; [|by apply Keeps_ret].
    eapply Keeps_bind; [apply Keeps_quiet; eauto with quiet|]. intros now _. apply Keeps_ret.
    intros s'. destruct (_ <? _)%Z; [done|]. intros [= <-]. by eapply Hd.
  - eapply Keeps_bind; [apply Keeps_quiet; eauto with quiet|]. intros now _. apply Keeps_ret. intros s [= <-]. by left.
Qed.

Lemma loadSessionForLogout_keeps : Keeps (loadSessionForLogout env) (λ r, ∀ s b, r = Ok (s, b) → own_session s).
Proof.
  unfold loadSessionForLogout. case_bool_decide as Hc; cbn [negb].
  - unfold try_bind. eapply Keeps_bind; [apply sessionPath_keeps|]. intros [p|e] Hp; [|by apply Keeps_ret].
    eapply Keeps_bind; [apply read_session_keeps; by apply Hp|]. intros [data|e] Hd; [|by apply Keeps_ret].
    apply Keeps_ret. intros s b. destruct (parseSession env data) as [s'|] eqn:Es; [|done]. intros [= <- _]. by eapply Hd.
  - apply Keeps_ret. intros s b [= <- _]. by left.
Qed.
End triples.
End requests.

Lemma set_header_elem k v k' v' h : (k, v) ∈ set_header k' v' h → (k = k' ∧ v = v') ∨ (k, v) ∈ h.
Proof.
  unfold set_header. intros [H|H]%elem_of_app; [right; by apply list_elem_of_filter in H as [_ H]|left].
  apply list_elem_of_singleton in H. by injection H as -> ->.
Qed.

Section runs.
Context {Hurl : NetURL} {K : Ed25519Keys} (env : environment) (goos : string).
Context (wild : spec_float → Z) (format_float : spec_float → string).
Context (w0 : machine).
Hypothesis Hlinked : well_linked w0.
Context (dev : bool).
Hypothesis Hdev : dev = true → developmentHeadersAllowed env (apiURL env) = true.

Notation api := (apiURL env).
Notation Keeps := (Keeps env w0).
Notation Ends := (Ends env w0).
Notation own_session := (own_session env w0).

(** ** Requests *)

Definition carried (h : headers) : Prop := ∀ k v, (k, v) ∈ h →
  k = "Content-Type" ∨ (k = "Cookie" ∧ ∃ s, own_session s ∧ v = cookie_of s) ∨
  (k = "X-Csrf-Token" ∧ ∃ s, own_session s ∧ v = ss_CSRFToken s).

Lemma carried_nil : carried [].
Proof. intros k v H. by apply elem_of_nil in H. Qed.

Lemma carried_content : carried [("Content-Type", "application/json")].
Proof. intros k v H. apply list_elem_of_singleton in H. injection H as -> _. by left. Qed.

Lemma carried_session s h : own_session s → carried h → carried (addSession s h).
Proof. intros Hs Hh k v [[-> ->]|H]%set_header_elem; [right; left; eauto|by apply Hh]. Qed.

Lemma carried_csrf s h : own_session s → carried h → carried (set_header "X-Csrf-Token" (ss_CSRFToken s) h).
Proof. intros Hs Hh k v [[-> ->]|H]%set_header_elem; [right; right; eauto|by apply Hh]. Qed.

Lemma carried_if s h : (∀ s', s = Some s' → own_session s') → carried h → carried (addSessionIf s h).
Proof. intros Hs Hh. destruct s as [s|]; [apply carried_session; auto|done]. Qed.

Lemma dev_header_elem method h k v : (k, v) ∈ devHeadersTransport env method h →
  (k, v) ∈ h ∨ k = "X-Ternal-User" ∨ k = "X-Ternal-Groups" ∨ k = "X-Csrf-Token".
Proof.
  unfold devHeadersTransport. cbv zeta. destruct (_ || _ || _); intros H;
    repeat (apply set_header_elem in H as [[-> _]|H]; [auto|]); auto.
Qed.

Lemma Do_request method path h body : carried h →
  ctl_request env w0 (mkHTTPRequest method (api +:+ path) (if dev then devHeadersTransport env method h else h) body).
Proof.
  intros Hh. split; cbn [rq_URL rq_Headers].
  - by eexists.
  - intros v H. assert (("Cookie", v) ∈ h) as Hin.
    { destruct dev; [|done]. by destruct (dev_header_elem _ _ _ _ H) as [?|[|[]]]. }
    by destruct (Hh _ _ Hin) as [|[[_ ?]|[]]].
  - intros v H. destruct dev; [right; by apply Hdev|]. by destruct (Hh _ _ H) as [|[[]|[_ ?]]]; [| |left].
  - intros v H. destruct dev; [by apply Hdev|]. by destruct (Hh _ _ H) as [|[[]|[]]].
Qed.

Lemma Do_keeps method path h body : carried h → Keeps (Do env dev method (api +:+ path) h body) (λ _, True).
Proof. intros Hh. unfold Do. apply Keeps_send. by apply Do_request. Qed.

Lemma Keeps_look {X} (e : hostE X) : only_looks e = true → Keeps (call e) (λ _, True).
Proof. intros He. apply Keeps_quiet; [done|]. by apply Quiet_call, looks_quiet. Qed.

(** A program that keeps everything, then one that ends. *)
Lemma Ends_after {A B} (p : prog hostE A) (f : A → prog hostE B) R :
  Keeps p (λ _, True) → (∀ a, Ends (f a) R) → Ends (prog_bind p f) R.
Proof. intros Hp Hf. eapply Ends_bind; [exact Hp|auto]. Qed.

Lemma Keeps_after {A B} (p : prog hostE A) (f : A → prog hostE B) R :
  Keeps p (λ _, True) → (∀ a, Keeps (f a) R) → Keeps (prog_bind p f) R.
Proof. intros Hp Hf. eapply Keeps_bind; [exact Hp|auto]. Qed.

Lemma postJSONResponse_keeps path body : Keeps (postJSONResponse env dev (api +:+ path) body) (λ _, True).
Proof.
  unfold postJSONResponse. destruct (negb _); [by apply Keeps_ret|].
  eapply Keeps_bind; [by apply loadSession_keeps|]. intros session Hs. cbv zeta. apply Keeps_after.
  - apply Do_keeps. destruct session as [s|]; [|apply carried_content].
    assert (own_session s) as Ho by by apply Hs.
    case_bool_decide; [|apply carried_csrf; [done|]]; by apply carried_session, carried_content.
  - intros [resp|e]; by apply Keeps_ret.
Qed.

Lemma postJSON_keeps path body : Keeps (postJSON env dev (api +:+ path) body) (λ _, True).
Proof.
  unfold postJSON. apply Keeps_after; [apply postJSONResponse_keeps|]. intros [[o status]|e]; [|by apply Keeps_ret].
  destruct (negb _); by apply Keeps_ret.
Qed.

Lemma getProxyHost_keeps session hostID : (∀ s, session = Some s → own_session s) →
  Keeps (getProxyHost env dev api session hostID) (λ _, True).
Proof.
  intros Hs. unfold getProxyHost. cbv zeta. destruct (negb _); [by apply Keeps_ret|].
  apply Keeps_after; [apply Do_keeps, carried_if; [done|apply carried_nil]|]. intros [resp|e]; [|by apply Keeps_ret].
  destruct (negb _); by apply Keeps_ret.
Qed.

(** ** The wait for a key grant *)

Lemma poll_key_grant_keeps fuel path h deadline w : carried h → kept env w0 w →
  1 ≤ fuel → (deadline - m_now w ≤ (Z.of_nat fuel - 1) * keyGrantPollInterval)%Z →
  wpc (requests_ok env w0) (poll_key_grant env fuel dev (api +:+ path) h deadline) w (λ r w', kept env w0 w' ∧ r ≠ None).
Proof.
  intros Hh. revert w. induction fuel as [|fuel IH]; intros w Hw Hf Hd; [lia|]. cbn [poll_key_grant].
  destruct (negb _); [by apply wpc_ret; [apply Hw|]|].
  unfold Do. apply wpc_call; [apply Hw|]. intros r w1; cbn [serves]; intros ->.
  assert (kept env w0 (note (Sent _ r) w)) as Hw1 by (apply kept_note; [intros ? ? [= <- _]; by apply Do_request|exact Hw]).
  destruct r as [resp|e]; [|by apply wpc_ret; [apply Hw1|]].
  destruct (Decode _ _ _ _) as [installed|]; [|by apply wpc_ret; [apply Hw1|]].
  destruct (_ && _); [by apply wpc_ret; [apply Hw1|]|].
  apply wpc_call; [apply Hw1|]. intros now w2; cbn [serves]; intros [Hnow ->].
  assert (kept env w0 (set_now now (note (Sent _ (Ok resp)) w))) as Hw2 by
    (eapply kept_quiet; [done|exact Hw1|by apply set_now_quiet; eapply kept_linked]).
  destruct (Z.ltb_spec now deadline) as [Hlt|]; [|by apply wpc_ret; [apply Hw2|]]. cbn [negb].
  apply wpc_call; [apply Hw2|]. intros [] w3; cbn [serves]; intros (t & Ht & ->). simpl m_now in *.
  assert (kept env w0 (set_now t (set_now now (note (Sent _ (Ok resp)) w)))) as Hw3 by
    (eapply kept_quiet; [done|exact Hw2|by apply set_now_quiet; eapply kept_linked]).
  unfold keyGrantPollInterval, second in *. apply IH; [exact Hw3| |simpl m_now]; lia.
Qed.

Lemma waitForKeyGrant_keeps fuel session grantID : (∀ s, session = Some s → own_session s) → 61 ≤ fuel →
  Keeps (waitForKeyGrant env fuel dev api session grantID) (λ r, r ≠ None).
Proof.
  intros Hs Hf w Hw. unfold waitForKeyGrant. apply wpc_call; [apply Hw|]. intros now w1; cbn [serves]; intros [_ ->].
  apply poll_key_grant_keeps; [apply carried_if; [done|apply carried_nil]| |lia|].
  - eapply kept_quiet; [done|exact Hw|by apply set_now_quiet; eapply kept_linked].
  - simpl m_now. unfold keyGrantWaitTimeout, keyGrantPollInterval, second. lia.
Qed.
(** ** Commands end *)

Definition finished_code (r : option Z) : Prop := r ≠ None.

Lemma exit_ends code : Ends (exit code) finished_code.
Proof. by apply Ends_ret. Qed.

Lemma Println_ends text k : Ends k finished_code → Ends (Println text k) finished_code.
Proof. intros Hk. unfold Println. apply Ends_after; [by apply Keeps_print|]. by intros _. Qed.

Lemma fatal_ends text : Ends (fatal text) finished_code.
Proof. unfold fatal. apply Ends_after; [by apply Keeps_look|]. intros _. apply exit_ends. Qed.

Lemma fatal_error_ends e : Ends (fatal_error e) finished_code.
Proof. apply fatal_ends. Qed.

Lemma post_ends path body k : (∀ o, Ends (k o) finished_code) → Ends (post env dev api path body k) finished_code.
Proof.
  intros Hk. unfold post. apply Ends_after; [apply postJSON_keeps|]. intros [o|e]; [apply Hk|apply fatal_error_ends].
Qed.

Lemma get_ends path s k : own_session s → (∀ resp, Ends (k resp) finished_code) →
  Ends (get_with_session env dev (api +:+ path) s k) finished_code.
Proof.
  intros Hs Hk. unfold get_with_session. destruct (negb _); [apply exit_ends|].
  apply Ends_after; [apply Do_keeps, carried_session; [done|apply carried_nil]|].
  intros [resp|e]; [apply Hk|apply fatal_error_ends].
Qed.

Lemma require_ends resp k : Ends k finished_code → Ends (require_success resp k) finished_code.
Proof. intros Hk. unfold require_success. destruct (negb _); [apply fatal_ends|done]. Qed.

Lemma with_session_ends k : (∀ s, own_session s → Ends (k s) finished_code) → Ends (with_session env k) finished_code.
Proof.
  intros Hk. unfold with_session. eapply Ends_bind; [by apply loadSession_keeps|].
  intros [s|e] Hs; [by apply Hk, Hs|apply fatal_ends].
Qed.

Lemma listHosts_ends s k : own_session s → (∀ hosts, Ends (k hosts) finished_code) → Ends (listHosts env dev api s k) finished_code.
Proof.
  intros Hs Hk. unfold listHosts. apply get_ends; [done|]. intros resp. destruct (negb _); [apply fatal_error_ends|].
  destruct (Decode _ _ _ _); [apply Hk|apply fatal_error_ends].
Qed.

Lemma attached_ends program args failed : Ends (attached program args failed) finished_code.
Proof.
  unfold attached. apply Ends_after; [by apply Keeps_attached|]. intros [code|e]; [apply exit_ends|apply fatal_ends].
Qed.

(** What writes or removes the session file comes last. *)
Lemma last_write (e : hostE (option error)) w : kept env w0 w →
  (∀ x w', serves e w x w' → m_log w' = m_log w) → wpc (requests_ok env w0) (call e) w (λ _ _, True).
Proof.
  intros Hw He. apply wpc_last; [apply Hw|]. intros x w' Hs. split; [|done]. intros q r. rewrite (He _ _ Hs). by apply Hw.
Qed.

Lemma ends_then {A} (p : prog hostE A) (k : A → prog hostE (option Z)) w :
  wpc (requests_ok env w0) p w (λ _ _, True) → (∀ a w', requests_ok env w0 w' → wpc (requests_ok env w0) (k a) w' (λ r _, r ≠ None)) →
  wpc (requests_ok env w0) (prog_bind p k) w (λ r _, finished_code r).
Proof. intros Hp Hk. apply wpc_bind. eapply wpc_mono; [exact Hp|]. intros a w' Hi _. by apply Hk. Qed.

Lemma fatal_requests text w : requests_ok env w0 w → wpc (requests_ok env w0) (fatal text) w (λ r _, r ≠ None).
Proof. intros Hi. unfold fatal. apply wpc_call; [done|]. intros x w'; cbn [serves]; intros ->. by apply wpc_ret. Qed.

Lemma println_requests text w : requests_ok env w0 w → wpc (requests_ok env w0) (Println text (exit 0)) w (λ r _, r ≠ None).
Proof.
  intros Hi. unfold Println. apply wpc_call; [done|]. intros x w'; cbn [serves]; intros ->. apply wpc_ret; [|done].
  intros q r [Hq|Hq]%elem_of_cons; [done|by apply (Hi q r)].
Qed.

Lemma saveSession_wpc s w : kept env w0 w → wpc (requests_ok env w0) (saveSession env s) w (λ _ _, True).
Proof.
  intros Hw. unfold saveSession. cbv zeta. apply wpc_need. eapply wpc_mono; [by apply sessionPath_keeps|].
  intros [p|e] w1 _ [Hk _]; [|done]. apply wpc_check, wpc_last; [apply Hk|]. intros x w2; cbn [serves]; intros ->.
  split; [apply Hk|]. destruct x; [done|]. apply last_write; [done|].
  intros x w2; cbn [serves]. intros [[_ Ho]|[_ [->|[part Ho]]]]; [by apply overwrites_rest in Ho as [? _]|done|by apply overwrites_rest in Ho as [? _]].
Qed.

Lemma removeSession_wpc w : kept env w0 w → wpc (requests_ok env w0) (removeSession env) w (λ _ _, True).
Proof.
  intros Hw. unfold removeSession. apply wpc_need. eapply wpc_mono; [by apply sessionPath_keeps|].
  intros [p|e] w1 _ [Hk _]; [|done]. apply wpc_bind. eapply wpc_mono; [apply last_write; [exact Hk|]|].
  - intros x w2; cbn [serves]. intros [[[_ ->]|[_ ->]] _]; done.
  - intros r w2 Hi _. by apply wpc_ret.
Qed.

(** *** login *)

Lemma poll_login_ends fuel deviceCode interval deadline w : kept env w0 w → 1 ≤ fuel → (1 ≤ interval)%Z →
  (deadline - m_now w < (Z.of_nat fuel - 1) * second)%Z →
  wpc (requests_ok env w0) (poll_login env wild dev api fuel deviceCode interval deadline) w (λ r _, finished_code r).
Proof.
  revert interval w. induction fuel as [|fuel IH]; intros interval w Hw Hf Hi Hd; [lia|]. cbn [poll_login].
  apply wpc_call; [apply Hw|]. intros now w1; cbn [serves]; intros [Hnow ->].
  assert (kept env w0 (set_now now w)) as Hw1 by (eapply kept_quiet; [done|exact Hw|by apply set_now_quiet; eapply kept_linked]).
  destruct (Z.ltb_spec deadline (now + interval * second)) as [|Hle]; [by apply fatal_ends|].
  apply wpc_call; [apply Hw1|]. intros [] w2; cbn [serves]; intros (t & Ht & ->). simpl m_now in *.
  assert (kept env w0 (set_now t (set_now now w))) as Hw2 by
    (eapply kept_quiet; [done|exact Hw1|by apply set_now_quiet; eapply kept_linked]).
  assert (Hlater : (deadline - t < (Z.of_nat fuel - 1) * second)%Z) by (unfold second in *; lia).
  assert (Hfuel : 1 ≤ fuel) by (destruct fuel; [unfold second in *; lia|lia]).
  set (w3 := set_now t (set_now now w)) in *. assert (m_now w3 = t) as Et by done. clearbody w3.
  apply wpc_bind. eapply wpc_mono.
  { apply wpc_patient; [|apply postJSONResponse_keeps; exact Hw2].
    unfold postJSONResponse, loadSession, sessionPath, sessionPathFor, Do. only_steps. }
  intros r w4 _ [[Hk _] Ht4]. rewrite Et in Ht4.
  destruct r as [[o status]|e]; [|by apply fatal_error_ends].
  assert (Hagain : ∀ i, (1 ≤ i)%Z → wpc (requests_ok env w0) (poll_login env wild dev api fuel deviceCode i deadline) w4 (λ r _, finished_code r)).
  { intros i Hi'. apply IH; [done|done|done|unfold second in *; lia]. }
  destruct (negb (is_success status)).
  { cbv zeta. case_bool_decide; [by apply Hagain|]. case_bool_decide; [|by apply fatal_ends].
    apply Hagain. destruct (Z.leb_spec interval 55); lia. }
  case_bool_decide; [by apply Hagain|]. cbv zeta.
  apply wpc_call; [apply Hk|]. intros now2 w5; cbn [serves]; intros [_ ->].
  assert (kept env w0 (set_now now2 w4)) as Hk5 by (eapply kept_quiet; [done|exact Hk|by apply set_now_quiet; eapply kept_linked]).
  destruct (_ || _); [by apply fatal_ends|]. apply ends_then; [by apply saveSession_wpc|].
  intros [e|] w6 Hi6; [by apply fatal_requests|by apply println_requests].
Qed.

Lemma cmdLogin_ends fuel : 3602 ≤ fuel → Ends (cmdLogin env wild dev api fuel) finished_code.
Proof.
  intros Hf. unfold cmdLogin. apply Println_ends, post_ends. intros o. cbv zeta.
  destruct (valid_start _ _ _ _ _) eqn:Hv; [|apply fatal_ends]. cbn [negb].
  set (expiresIn := numberAsInt64 wild (member o "expires_in") 600) in *.
  set (interval := numberAsInt64 wild (member o "interval") 5) in *.
  unfold valid_start in Hv. apply negb_true_iff in Hv. rewrite !orb_false_iff in Hv.
  destruct Hv as [[[[_ _] H2] H3] _]. apply Z.ltb_ge in H2, H3.
  intros w Hw. apply wpc_call; [apply Hw|]. intros now w1; cbn [serves]; intros [_ ->].
  assert (Hk1 : kept env w0 (set_now now w)) by (eapply kept_quiet; [done|exact Hw|by apply set_now_quiet; eapply kept_linked]).
  assert (Ht1 : m_now (set_now now w) = now) by done. revert Hk1 Ht1. generalize (set_now now w). clear w Hw. intros w Hk Ht.
  assert (Hprint : ∀ text k w, kept env w0 w → m_now w = now →
    (∀ w', kept env w0 w' → m_now w' = now → wpc (requests_ok env w0) k w' (λ r _, finished_code r)) →
    wpc (requests_ok env w0) (Println text k) w (λ r _, finished_code r)).
  { intros text k w' Hk' Ht' Hnext. unfold Println. apply wpc_call; [apply Hk'|]. intros x w2; cbn [serves]; intros ->.
    apply Hnext; [by apply kept_note|done]. }
  do 3 (apply Hprint; [done|done|]; clear w Hk Ht; intros w Hk Ht).
  apply poll_login_ends; [done|lia|done|rewrite Ht; unfold second; lia].
Qed.

(** *** The other commands *)

Lemma logout_ends : Ends (cmdLogout env dev api) finished_code.
Proof.
  intros w Hw. unfold cmdLogout. apply ends_then; [|intros [e|] w' Hi; [by apply fatal_requests|by apply println_requests]].
  unfold logout. apply wpc_bind. eapply wpc_mono; [by apply loadSessionForLogout_keeps|]. intros [[s persistent]|e] w1 Hi [Hk Hs];
    [|by apply wpc_ret].
  cbv zeta. destruct (negb _); [by apply wpc_ret|]. apply wpc_need. eapply wpc_mono.
  { apply Do_keeps; [|exact Hk]. pose proof (Hs _ _ eq_refl) as Ho. apply carried_csrf; [done|]. by apply carried_session, carried_nil. }
  intros [resp|e] w2 Hi2 [Hk2 _]; [|done]. destruct (negb _); [by apply wpc_ret|].
  destruct persistent; [by apply removeSession_wpc|by apply wpc_ret].
Qed.

Lemma whoami_ends : Ends (cmdWhoami env format_float dev api) finished_code.
Proof.
  apply with_session_ends. intros s Hs. apply get_ends; [done|]. intros resp. apply require_ends. cbv zeta.
  assert (Hnot : Ends (Println "Not authenticated" (exit 0)) finished_code) by apply Println_ends, exit_ends.
  destruct (member _ _) as [[|[]|t|t|l|l]|]; try exact Hnot.
  destruct (member _ _) as [[|b|t|t|l|user]|]; try apply exit_ends.
  unfold print_user. apply Println_ends. destruct (as_list _); [apply Println_ends|]; apply exit_ends.
Qed.

Lemma print_hosts_ends hosts : Ends (print_hosts hosts) finished_code.
Proof. induction hosts as [|h hosts IH]; [apply exit_ends|by apply Println_ends]. Qed.

Lemma hosts_ends : Ends (cmdHosts env dev api) finished_code.
Proof.
  apply with_session_ends. intros s Hs. apply get_ends; [done|]. intros resp. apply require_ends, print_hosts_ends.
Qed.

Lemma print_list_ends label value k : Ends k finished_code → Ends (print_list format_float label value k) finished_code.
Proof. intros Hk. unfold print_list. destruct (as_list value); [by apply Println_ends|done]. Qed.

Lemma endpoint_ends host : Ends (cmdEndpoint env format_float dev api host) finished_code.
Proof.
  apply with_session_ends. intros s Hs. apply listHosts_ends; [done|]. intros hosts.
  destruct (find_host hosts host) as [target|]; [|apply fatal_ends].
  apply get_ends; [done|]. intros resp. apply require_ends. cbv zeta.
  apply Println_ends, print_list_ends, print_list_ends, exit_ends.
Qed.

Lemma await_grant_ends fuel o session k : 61 ≤ fuel → (∀ s, session = Some s → own_session s) →
  Ends k finished_code → Ends (await_grant env dev api fuel o session k) finished_code.
Proof.
  intros Hf Hs Hk. unfold await_grant. cbv zeta. case_bool_decide; [apply fatal_ends|].
  eapply Ends_bind; [by apply waitForKeyGrant_keeps|]. intros [[e|]|] Hr; [apply fatal_error_ends|done|done].
Qed.

Lemma ssh_ends fuel host : 61 ≤ fuel → Ends (cmdSSH env format_float dev api fuel host) finished_code.
Proof.
  intros Hf. apply with_session_ends. intros s Hs. apply listHosts_ends; [done|]. intros hosts.
  destruct (find_host hosts host) as [target|]; [|apply fatal_ends].
  apply post_ends. intros o. apply await_grant_ends; [done|by intros s' [= <-]|]. cbv zeta.
  apply Ends_after; [by apply Keeps_look|]. intros [executable|e]; [apply attached_ends|apply fatal_ends].
Qed.

Lemma print_configs_ends executable configs : Ends (print_configs format_float executable configs) finished_code.
Proof. induction configs as [|c configs IH]; [apply exit_ends|]. by apply Println_ends, Println_ends. Qed.

Lemma sshconfig_ends : Ends (cmdSSHConfig env format_float dev api) finished_code.
Proof.
  apply with_session_ends. intros s Hs. apply get_ends; [done|]. intros resp. apply require_ends. cbv zeta.
  apply Ends_after; [by apply Keeps_look|]. intros [executable|e]; [apply print_configs_ends|apply fatal_ends].
Qed.

Lemma submit_ends p : Ends (cmdSubmitKey env dev api p) finished_code.
Proof.
  apply with_session_ends. intros s Hs. apply Ends_after; [by apply Keeps_look|]. intros [data|e]; [|apply fatal_ends].
  apply post_ends. intros o. apply Println_ends, exit_ends.
Qed.

Lemma quiet_stat p : Quiet (exists_file p).
Proof. unfold exists_file. eauto with quiet. Qed.

Lemma quiet_on_path : Quiet (findPigeonsOnPath goos).
Proof. unfold findPigeonsOnPath. eauto with quiet. Qed.

Lemma quiet_find : Quiet (ctlFindPigeons env goos).
Proof.
  assert (Hb : Quiet (findPigeonsBeside goos)).
  { unfold findPigeonsBeside. apply Quiet_bind; [eauto with quiet|]. intros [p|e]; [|apply quiet_on_path]. cbv zeta.
    apply Quiet_bind; [apply quiet_stat|]. intros []; [apply Quiet_ret|apply quiet_on_path]. }
  unfold ctlFindPigeons. cbv zeta. case_bool_decide; [done|]. apply Quiet_bind; [apply quiet_stat|].
  intros []; [apply Quiet_ret|done].
Qed.

Lemma quiet_identity pigeons keyDir : Quiet (persistentEndpointID pigeons keyDir).
Proof.
  apply (temp_output_quiet pigeons ["endpoint-id"; "--key-dir"; keyDir] (λ runErr _ out, Ret _)).
  intros runErr closeErr out. apply Quiet_ret.
Qed.

Lemma transport_ends host endpointPort routes user : Ends (open_transport env goos dev api host endpointPort routes user) finished_code.
Proof.
  unfold open_transport. apply Ends_after; [apply Keeps_quiet; [done|apply quiet_find]|]. intros pigeons.
  case_bool_decide; [apply fatal_ends|]. apply Ends_after.
  { apply Keeps_quiet; [done|]. unfold homeSSHKeyDir. eauto with quiet. }
  intros [keyDir|e]; [|apply fatal_ends].
  apply Ends_after; [apply Keeps_quiet; [done|apply quiet_identity]|]. intros [id|e]; [|apply fatal_ends].
  apply post_ends. intros o. cbv zeta. apply attached_ends.
Qed.

Lemma proxy_ends fuel host endpointPort routes : 61 ≤ fuel → Ends (cmdProxy env goos dev api fuel host endpointPort routes) finished_code.
Proof.
  intros Hf. unfold cmdProxy. eapply Ends_bind; [by apply loadSession_keeps|]. intros loaded Hs. cbv zeta.
  assert (Ho : ∀ s, match loaded with Ok s => Some s | Err _ => None end = Some s → own_session s).
  { destruct loaded as [s|]; [|done]. intros s' [= <-]. by apply Hs. }
  destruct (_ && _); [apply fatal_ends|]. destruct (validateProxyInvocation _ _ _); [apply fatal_ends|].
  apply Ends_after; [by apply getProxyHost_keeps|]. intros [h|e]; [|apply fatal_error_ends].
  apply post_ends. intros o. apply await_grant_ends; [done|done|apply transport_ends].
Qed.
End runs.

(** ** Whole runs *)

Section main.
Context {Hurl : NetURL} {K : Ed25519Keys} (env : environment) (goos : string).
Context (wild : spec_float → Z) (format_float : spec_float → string).
Context (PublicOfSeed : string → string) (ParseKey : string → option (string * string)).

Notation main := (main env goos wild format_float PublicOfSeed ParseKey).

Lemma known_host_keeps w0 expected args : Keeps env w0 (writeKnownHostKey ParseKey expected args) (λ _, True).
Proof.
  unfold writeKnownHostKey. destruct args as [|i [|a [|t [|d [|]]]]]; try by apply Keeps_ret.
  repeat (destruct (_ && _) || destruct (negb _)); try by apply Keeps_ret.
  all: destruct (ParseKey _) as [[pt f]|]; [|by apply Keeps_ret]; destruct (_ || _); [by apply Keeps_ret|].
  all: apply Keeps_after; [by apply Keeps_print|]; intros _; by apply Keeps_ret.
Qed.

Lemma or_fatal_ends w0 p prefix : well_linked w0 → Keeps env w0 p (λ _, True) → Ends env w0 (or_fatal p prefix) finished_code.
Proof.
  intros Hl Hp. unfold or_fatal. apply Ends_after; [done|]. intros [e|]; [by apply fatal_ends|by apply exit_ends].
Qed.

Lemma usage_ends w0 k : Ends env w0 k finished_code → Ends env w0 (printUsage k) finished_code.
Proof. intros Hk. unfold printUsage. induction usage_text as [|l ls IH]; [done|]. by apply Println_ends. Qed.

Lemma main_ends fuel args stdin w : 3602 ≤ fuel → well_linked w → Ends env w (main fuel args stdin) finished_code.
Proof.
  intros Hf Hl. unfold CtlCommands.main. destruct args as [|command args]; [by apply usage_ends, exit_ends|].
  case_bool_decide.
  { destruct args as [|c [|]]; try by apply fatal_ends. apply or_fatal_ends; [done|]. unfold prepareMembers.
    destruct (prepare_text _ _ _); [|by apply Keeps_ret]. apply Keeps_after; [by apply Keeps_print|]. intros _. by apply Keeps_ret. }
  destruct (validateAPIURL _); [by apply fatal_ends|]. destruct (newHTTPClient env (apiURL env)) as [dev|e] eqn:Ed; [|by apply fatal_ends].
  assert (Hdev : dev = true → developmentHeadersAllowed env (apiURL env) = true).
  { unfold newHTTPClient in Ed. case_bool_decide; [|by injection Ed as <-].
    destruct (developmentHeadersAllowed env (apiURL env)); [done|discriminate Ed]. }
  unfold dispatch. repeat case_bool_decide.
  - by apply cmdLogin_ends.
  - by apply logout_ends.
  - by apply whoami_ends.
  - by apply hosts_ends.
  - destruct args; [by apply fatal_ends|]. apply ssh_ends; [done|done|lia].
  - by apply sshconfig_ends.
  - destruct args; [by apply fatal_ends|]. by apply submit_ends.
  - destruct args; [by apply fatal_ends|]. by apply endpoint_ends.
  - destruct args as [|h [|e routes]]; try by apply fatal_ends. apply proxy_ends; [done|done|lia].
  - destruct args as [|a [|b [|c [|d [|e [|]]]]]]; try by apply fatal_ends. apply or_fatal_ends; [done|apply known_host_keeps].
  - apply Ends_after; [by apply Keeps_look|]. intros _. by apply usage_ends, exit_ends.
Qed.

Lemma kept_start w : well_linked w → kept env w w.
Proof. intros Hl. split; [by left|by apply same_files_refl]. Qed.


End main.
