(* ===== verification/CtlTrace.v ===== *)
(** * What ternalctl asks before it connects

    The terminal is handed to ssh, or to the transport, only after the API has
    issued the grant, its key is installed and, for the transport, the relay
    admits the client. *)

From S2P Require Export CtlRuns.
Open Scope go_scope.

(** ** Events in order *)

(** Events of a log, the latest first, with others between them. *)
Inductive happened : list (action → Prop) → list action → Prop :=
  | happened_nil l : happened [] l
  | happened_cons (P : action → Prop) Ps a l : P a → happened Ps l → happened (P :: Ps) (a :: l)
  | happened_later Ps a l : happened Ps l → happened Ps (a :: l).

Lemma happened_mono Ps l l' : l `suffix_of` l' → happened Ps l → happened Ps l'.
Proof.
  intros [k ->] H. induction k as [|a k IH]; [done|]. by apply happened_later.
Qed.

Lemma happened_weaken (P P' : action → Prop) Ps l : (∀ a, P a → P' a) → happened (P :: Ps) l → happened (P' :: Ps) l.
Proof.
  intros HP. induction l as [|a l IH]; inversion_clear 1; [apply happened_cons; auto|by apply happened_later; apply IH].
Qed.

(** Every program that had the terminal was justified by what came before. *)
Fixpoint attached_after (J : string → list string → list action → Prop) (l : list action) : Prop :=
  match l with
  | [] => True
  | Attached program args :: l => J program args l ∧ attached_after J l
  | _ :: l => attached_after J l
  end.

Lemma attached_after_weaken (J J' : string → list string → list action → Prop) l :
  (∀ p a l, J p a l → J' p a l) → attached_after J l → attached_after J' l.
Proof. intros H. induction l as [|[] l IH]; simpl; naive_solver. Qed.

(** Nothing of the kind. *)
Notation unattached := (attached_after (λ _ _ _, False)).

(** Calls that do not hand over the terminal. *)
Definition keeps_terminal X (e : hostE X) : Prop := match e with RunAttached _ _ => False | _ => True end.

Notation detached p := (only keeps_terminal p (λ _, True)).

Section logic.
Context (J : string → list string → list action → Prop).

Notation wpt := (wpt (attached_after J)).

Lemma attached_logged {X} (e : hostE X) x l : keeps_terminal X e → attached_after J l → attached_after J (logged (action_of e x) l).
Proof. intros He Hl. destruct e; simpl; try done; destruct x; done. Qed.

Lemma suffix_logged {X} (e : hostE X) x l : l `suffix_of` logged (action_of e x) l.
Proof. destruct (action_of e x) as [a|]; simpl; [by exists [a]|done]. Qed.

(** A program that keeps the terminal only adds to the log. *)
Lemma wpt_returning {A} (p : prog hostE A) R l (Q : A → list action → Prop) :
  only keeps_terminal p R → attached_after J l → (∀ a l', R a → l `suffix_of` l' → attached_after J l' → Q a l') → wpt p l Q.
Proof.
  revert l. induction p as [a|X e k IH]; intros l Hp Hl HQ; (split; [done|]); [by apply HQ|].
  destruct Hp as [He Hk]. intros x _. apply IH; [done|by apply attached_logged|].
  intros a l' Ha Hs. apply HQ; [done|]. by etrans; [apply (suffix_logged e x)|].
Qed.

Lemma wpt_detached {A} (p : prog hostE A) l (Q : A → list action → Prop) :
  detached p → attached_after J l → (∀ a l', l `suffix_of` l' → attached_after J l' → Q a l') → wpt p l Q.
Proof. intros Hp Hl HQ. eapply wpt_returning; [exact Hp|done|]. intros a l' _. apply HQ. Qed.

(** The terminal is handed over: [happened] holds of what came before. *)
Lemma wpt_attached program args failed l : J program args l → attached_after J l →
  wpt (attached program args failed) l (λ _ _, True).
Proof.
  intros HJ Hl. unfold attached. apply wpt_call; [done|]. intros r _. cbn [action_of logged].
  apply wpt_detached; [|done|done]. by destruct r as [code|e].
Qed.
End logic.

#[export] Hint Extern 1 (only _ (exit _) _) => exact I : only.

(** ** The commands that connect *)

Section trace.
Context {Hurl : NetURL} {K : Ed25519Keys} (env : environment) (goos : string).
Context (wild : spec_float → Z) (format_float : spec_float → string) (dev : bool).

Notation api := (apiURL env).

(** *** Events *)

(** A successful answer of the API. *)
Definition answered (method path : string) (body : option json) (answer : HTTPResponse → Prop) (a : action) : Prop :=
  ∃ h resp, a = Sent (mkHTTPRequest method (api +:+ path) h (print <$> body)) (Ok resp) ∧
    is_success (rs_Status resp) = true ∧ answer resp.

(** The object of an answer to a POST. *)
Definition answer_is (o : object) (resp : HTTPResponse) : Prop :=
  Decode (Z.to_nat (Z.shiftl 64 10)) decode_object [] (rs_Body resp) = Some o.

(** The API granted [user]'s access to the host, in the answer [o]. *)
Definition granted (host user : string) (o : object) : action → Prop :=
  answered "POST" "/access/ssh" (Some (access_body host user)) (answer_is o).

(** The agent has installed the key of the grant of [o]. *)
Definition installed (o : object) : action → Prop :=
  answered "GET" ("/access/grants/" +:+ url.PathEscape (as_text (member o "grant_id")) +:+ "/key-status") None
    (λ resp, Decode (Z.to_nat (Z.shiftl 64 10)) (decode_struct installed_fields) false (rs_Body resp) = Some true).

(** The relay admits the client. *)
Definition admitted (host client user : string) : action → Prop :=
  answered "POST" "/access/relay-grants" (Some (relay_body host client user)) (λ _, True).

(** The host is one the API lists, or shows. *)
Definition listed (name : string) (target : CtlHost) : action → Prop :=
  answered "GET" "/hosts" None (λ resp, ∃ hosts,
    Decode (String.length (rs_Body resp)) decode_hosts [] (rs_Body resp) = Some hosts ∧ find_host hosts name = Some target).

Definition shown (hostRef : string) (h : CtlHost) : action → Prop :=
  answered "GET" ("/hosts/" +:+ url.PathEscape hostRef) None (λ resp,
    Decode (String.length (rs_Body resp)) (decode_struct host_fields) no_host (rs_Body resp) = Some h).

(** An endpoint identity: 64 hexadecimal digits, in lower case. *)
Definition identity_of (client : string) : Prop :=
  ∃ id, client = strings.ToLowerASCII id ∧ String.length id = 64 ∧ str_forallb is_hex_any id = true.

(** *** Why a program may have the terminal *)

(** ssh: as the API said in the answer that grants access to the host. *)
Definition ssh_granted (hostName program : string) (args : list string) (l : list action) : Prop :=
  ∃ target o executable, as_text (member o "grant_id") ≠ "" ∧
    happened [installed o; granted (ch_ID target) (ch_SSHUser target) o; listed hostName target] l ∧
    program = as_text (member o "program") ∧
    args = (λ arg, rewriteCTLPath (Sprint format_float arg) executable) <$> default [] (as_list (member o "args")).

(** The transport: for the endpoint and the routes of the invocation, whose
    arguments are checked, as a client that the relay admits. *)
Definition transport_granted (hostRef endpointPort : string) (routeArgs : list string)
    (program : string) (args : list string) (l : list action) : Prop :=
  ∃ h o client home endpoint port, as_text (member o "grant_id") ≠ "" ∧
    happened [admitted hostRef client (ch_SSHUser h); installed o; granted hostRef (ch_SSHUser h) o; shown hostRef h] l ∧
    validateProxyInvocation hostRef endpointPort routeArgs = None ∧
    strings.Split endpointPort ":" = [endpoint; port] ∧
    identity_of client ∧ path.IsAbs home = true ∧
    args = ["fly"; "--stdio"; endpoint; "--key-dir"; path.Join [home; ".ssh"]] ++ routeArgs.

(** What the arguments of an invocation allow. *)
Definition allowed (args : list string) : string → list string → list action → Prop :=
  match args with
  | command :: hostName :: _ =>
    if bool_decide (command = "ssh") then ssh_granted hostName else
    match args with
    | _ :: hostRef :: endpointPort :: routeArgs =>
      if bool_decide (command = "proxy") then transport_granted hostRef endpointPort routeArgs else λ _ _ _, False
    | _ => λ _ _ _, False
    end
  | _ => λ _ _ _, False
  end.

(** *** Requests *)

Section requests.
Context (J : string → list string → list action → Prop).

Notation wpt := (wpt (attached_after J)).
Notation done := (λ _ _, True).

Lemma trace_fatal text l : attached_after J l → wpt (fatal text) l done.
Proof. intros Hl. apply wpt_detached; [unfold fatal; only_steps|done|done]. Qed.

(** A program that keeps the terminal, and what it leaves of the past. *)
Lemma trace_after {A B} (p : prog hostE A) (f : A → prog hostE B) Ps l Q :
  detached p → attached_after J l → happened Ps l →
  (∀ a l', attached_after J l' → happened Ps l' → wpt (f a) l' Q) → wpt (prog_bind p f) l Q.
Proof.
  intros Hp Hl Hs Hf. apply wpt_bind, wpt_detached; [done..|]. intros a l' Hsuf Hl'. apply Hf; [done|].
  by eapply happened_mono.
Qed.

Lemma trace_end {A} (p : prog hostE A) l : detached p → attached_after J l → wpt p l done.
Proof. intros Hp Hl. by apply wpt_detached. Qed.

Lemma detached_Do method url h body : detached (Do env dev method url h body).
Proof. by split. Qed.

Lemma detached_session : detached (loadSession env).
Proof. unfold loadSession, sessionPath, sessionPathFor. only_steps. Qed.

Lemma trace_Do {B} method path h body (f : _ → prog hostE B) Ps l Q :
  attached_after J l → happened Ps l →
  (∀ e l', attached_after J l' → wpt (f (Err e)) l' Q) →
  (∀ resp l', attached_after J l' → happened Ps l' →
     (∀ answer, is_success (rs_Status resp) = true → answer resp → happened (answered method path body answer :: Ps) l') →
     wpt (f (Ok resp)) l' Q) →
  wpt (prog_bind (Do env dev method (api +:+ path) h (print <$> body)) f) l Q.
Proof.
  intros Hl Hs He Hr. unfold Do. apply wpt_call; [done|]. intros [resp|e] _; cbn [action_of logged].
  - apply Hr; [done|by apply happened_later|]. intros answer Ha Hok. apply happened_cons; [|done]. by eexists _, _.
  - by apply He.
Qed.

Lemma trace_response path body Ps l (Q : result (object * Z) → list action → Prop) : attached_after J l → happened Ps l →
  (∀ e l', attached_after J l' → Q (Err e) l') →
  (∀ o status l', attached_after J l' →
     (is_success status = true → happened (answered "POST" path body (answer_is o) :: Ps) l') → Q (Ok (o, status)) l') →
  wpt (postJSONResponse env dev (api +:+ path) body) l Q.
Proof.
  intros Hl Hs He Ho. unfold postJSONResponse. destruct (negb _); [apply wpt_ret; [exact Hl|by apply He]|].
  eapply trace_after; [apply detached_session|done..|]. intros session l1 Hl1 Hs1. cbv zeta.
  unfold try_bind. eapply trace_Do; [done..| |]; [intros e l2 Hl2; apply wpt_ret; [exact Hl2|by apply He]|].
  intros resp l2 Hl2 _ Ha. apply wpt_ret; [done|]. destruct (Decode _ _ _ _) as [o|] eqn:Eo; [|by apply He].
  apply Ho; [done|]. intros Hok. by apply Ha.
Qed.

Lemma trace_post path body k Ps l : attached_after J l → happened Ps l →
  (∀ o l', attached_after J l' → happened (answered "POST" path body (answer_is o) :: Ps) l' → wpt (k o) l' done) →
  wpt (post env dev api path body k) l done.
Proof.
  intros Hl Hs Hk. assert (Hfatal : ∀ e l', attached_after J l' → wpt (fatal_error e) l' done).
  { intros e l' Hl'. by apply trace_fatal. }
  unfold post, postJSON. unfold try_bind. apply wpt_bind, wpt_bind.
  eapply trace_response; [done|exact Hs| |].
  - intros e l1 Hl1. apply wpt_ret; [done|]. by apply Hfatal.
  - intros o status l1 Hl1 Ho. destruct (is_success status); cbn [negb].
    + apply wpt_ret; [done|]. apply Hk; [done|by apply Ho].
    + apply wpt_ret; [done|]. by apply Hfatal.
Qed.

Lemma trace_poll fuel o h deadline Ps l Q : attached_after J l → happened Ps l →
  (∀ r l', attached_after J l' → (r = Some None → happened (installed o :: Ps) l') → Q r l') →
  wpt (poll_key_grant env fuel dev (api +:+ "/access/grants/" +:+ url.PathEscape (as_text (member o "grant_id")) +:+ "/key-status") h deadline) l Q.
Proof.
  intros Hl Hs HQ. revert l Hl Hs. induction fuel as [|fuel IH]; intros l Hl Hs; cbn [poll_key_grant];
    [by apply wpt_ret; [|apply HQ]|].
  destruct (negb _); [by apply wpt_ret; [|apply HQ]|].
  eapply (trace_Do _ _ _ None); [done..| |]; [by intros e l1 Hl1; apply wpt_ret; [|apply HQ]|].
  intros resp l1 Hl1 Hs1 Ha. destruct (Decode _ _ _ _) as [inst|] eqn:Ei; [|by apply wpt_ret; [|apply HQ]].
  destruct (is_success _ && inst) eqn:Eok.
  { apply andb_true_iff in Eok as [Hok ->]. apply wpt_ret; [done|]. apply HQ; [done|]. intros _. by apply Ha. }
  apply wpt_call; [done|]. intros now _. destruct (negb _); [by apply wpt_ret; [|apply HQ]|].
  apply wpt_call; [done|]. intros [] _. by apply IH.
Qed.

Lemma trace_grant fuel o session k Ps l : attached_after J l → happened Ps l →
  (∀ l', attached_after J l' → as_text (member o "grant_id") ≠ "" → happened (installed o :: Ps) l' → wpt k l' done) →
  wpt (await_grant env dev api fuel o session k) l done.
Proof.
  intros Hl Hs Hk. unfold await_grant. cbv zeta. case_bool_decide as Hg; [by apply trace_fatal|].
  unfold waitForKeyGrant. apply wpt_bind. apply wpt_call; [done|]. intros now _. cbn [action_of logged].
  eapply trace_poll; [done|exact Hs|]. intros r l1 Hl1 Hr. destruct r as [[e|]|].
  - by apply trace_fatal.
  - apply Hk; auto.
  - by apply wpt_ret.
Qed.

Lemma trace_get path session k Ps l : attached_after J l → happened Ps l →
  (∀ resp l', attached_after J l' → happened Ps l' →
     (∀ answer, is_success (rs_Status resp) = true → answer resp → happened (answered "GET" path None answer :: Ps) l') →
     wpt (k resp) l' done) →
  wpt (get_with_session env dev (api +:+ path) session k) l done.
Proof.
  intros Hl Hs Hk. unfold get_with_session. destruct (negb _); [by apply wpt_ret|].
  eapply (trace_Do _ _ _ None); [done|exact Hs| |done].
  intros e l1 Hl1. by apply trace_fatal.
Qed.
Lemma trace_session k l : attached_after J l →
  (∀ s l', attached_after J l' → wpt (k s) l' done) → wpt (with_session env k) l done.
Proof.
  intros Hl Hk. unfold with_session. eapply (trace_after _ _ []); [apply detached_session|done|constructor|].
  intros [s|e] l1 Hl1 _; [by apply Hk|by apply trace_fatal].
Qed.
End requests.

(** *** The commands *)

Lemma ssh_traced fuel hostName l : let J := ssh_granted hostName in attached_after J l →
  wpt (attached_after J) (cmdSSH env format_float dev api fuel hostName) l (λ _ _, True).
Proof.
  intros J Hl. unfold cmdSSH. apply trace_session; [done|]. clear l Hl. intros session l Hl.
  unfold listHosts. eapply (trace_get _ _ _ _ []); [done|constructor|]. clear l Hl. intros resp l Hl _ Hg.
  destruct (is_success (rs_Status resp)) eqn:Hok; cbn [negb]; [|by apply trace_fatal].
  destruct (Decode _ decode_hosts _ _) as [hosts|] eqn:Ed; [|by apply trace_fatal].
  destruct (find_host hosts hostName) as [target|] eqn:Ef; [|by apply trace_fatal].
  assert (happened [listed hostName target] l) as Hlisted by (apply Hg; [done|by exists hosts]).
  eapply trace_post; [done|exact Hlisted|]. clear l Hl Hg Hlisted. intros o l Hl Ho.
  eapply trace_grant; [done|exact Ho|]. clear l Hl Ho. intros l Hl Hid Hgrant. cbv zeta.
  apply wpt_call; [done|]. intros [executable|e] _; cbn [action_of logged]; [|by apply trace_fatal].
  apply wpt_attached; [|done]. exists target, o, executable. split; [done|]. split; [exact Hgrant|]. split; [done|].
  by rewrite <- list_fmap_compose.
Qed.

Lemma detached_find : detached (ctlFindPigeons env goos).
Proof. unfold ctlFindPigeons, findPigeonsBeside, findPigeonsOnPath, exists_file. only_steps. Qed.

Lemma endpoint_part endpointPort endpoint port : strings.Split endpointPort ":" = [endpoint; port] →
  hd "" (strings.SplitN2 endpointPort ":") = endpoint.
Proof.
  intros H. assert (Hs : endpointPort = endpoint +:+ String ":" port).
  { rewrite <- (Join_Split endpointPort ":"), H. done. }
  assert (Hn : without ":" endpoint = true) by (apply (Split_no_sep endpointPort); rewrite H; by left).
  subst endpointPort. clear H. induction endpoint as [|c s IH]; [done|].
  simpl in Hn. apply andb_true_iff in Hn as [Hc Hn]. specialize (IH Hn). apply negb_true_iff in Hc.
  rewrite app_cons_s. revert IH. unfold strings.SplitN2. cbn [strings.IndexByte]. rewrite Hc.
  destruct (strings.IndexByte _ _); simpl; [by intros ->|by intros ->].
Qed.

Lemma identity_returned pigeons keyDir : only keeps_terminal (persistentEndpointID pigeons keyDir)
  (λ r, ∀ client, r = Ok client → identity_of client).
Proof.
  unfold persistentEndpointID, try_bind, deferred. split; [exact I|]. intros [[tmpName h]|e]; [|done].
  apply only_bind. apply only_next; [exact I|]. intros runErr. apply only_next; [exact I|]. intros closed.
  apply only_next; [exact I|]. intros out. split; [exact I|]. intros removed client.
  destruct runErr, out as [out|]; try done. cbv zeta. destruct (_ || _) eqn:E; [done|]. intros [= <-].
  apply orb_false_iff in E as [E1 E2]. apply negb_false_iff in E1, E2. exists (strings.TrimSpace out).
  split; [done|]. split; [by apply bool_decide_eq_true in E1|done].
Qed.

Lemma home_returned : only keeps_terminal homeSSHKeyDir
  (λ r, ∀ keyDir, r = Ok keyDir → ∃ home, path.IsAbs home = true ∧ keyDir = path.Join [home; ".ssh"]).
Proof.
  unfold homeSSHKeyDir, try_bind. apply only_next; [exact I|]. intros [home|e]; [|done]. intros keyDir.
  destruct (path.IsAbs home) eqn:Eh; [|done]. intros [= <-]. by exists home.
Qed.

Section proxy.
Context (hostRef endpointPort : string) (routeArgs : list string).

Notation J := (transport_granted hostRef endpointPort routeArgs).

Lemma transport_traced h o l : attached_after J l → as_text (member o "grant_id") ≠ "" →
  validateProxyInvocation hostRef endpointPort routeArgs = None →
  happened [installed o; granted hostRef (ch_SSHUser h) o; shown hostRef h] l →
  wpt (attached_after J) (open_transport env goos dev api hostRef endpointPort routeArgs (ch_SSHUser h)) l (λ _ _, True).
Proof.
  intros Hl Hid Hv Hh. unfold open_transport. eapply trace_after; [apply detached_find|done|exact Hh|].
  clear l Hl Hh. intros pigeons l Hl Hh. case_bool_decide; [by apply trace_fatal|].
  apply wpt_bind. eapply wpt_returning; [apply home_returned|done|]. intros [keyDir|e] l1 Hk Hs1 Hl1; [|by apply trace_fatal].
  destruct (Hk _ eq_refl) as (home & Hhome & ->).
  apply wpt_bind. eapply wpt_returning; [apply identity_returned|done|]. intros [client|e] l2 Hc Hs2 Hl2; [|by apply trace_fatal].
  eapply trace_post; [done|by eapply happened_mono; [exact Hs2|]; eapply happened_mono|]. intros o' l3 Hl3 Ha. cbv zeta.
  apply wpt_attached; [|done].
  assert (∃ endpoint port, strings.Split endpointPort ":" = [endpoint; port]) as (endpoint & port & Ep).
  { unfold validateProxyInvocation in Hv. destruct (_ || _ || _); [done|].
    destruct (strings.Split _ _) as [|a [|b [|]]]; [done..| |done]. by exists a, b. }
  rewrite (endpoint_part _ _ _ Ep). exists h, o, client, home, endpoint, port.
  split; [done|]. split; [|split; [done|]; split; [done|]; split; [by apply Hc|done]].
  eapply happened_weaken; [|exact Ha]. intros a (hd & resp & -> & Hok & _). by exists hd, resp.
Qed.

Lemma proxy_traced fuel l : attached_after J l →
  wpt (attached_after J) (cmdProxy env goos dev api fuel hostRef endpointPort routeArgs) l (λ _ _, True).
Proof.
  intros Hl. unfold cmdProxy. eapply (trace_after _ _ _ []); [apply detached_session|done|constructor|].
  clear l Hl. intros loaded l Hl _. cbv zeta. destruct (_ && _); [by apply trace_fatal|].
  destruct (validateProxyInvocation _ _ _) eqn:Hv; [by apply trace_fatal|].
  unfold getProxyHost. cbv zeta. apply wpt_bind. destruct (negb (valid_request _)); [by apply wpt_ret; [|apply trace_fatal]|].
  unfold try_bind. eapply (trace_Do _ _ _ _ None _ []); [done|constructor| |].
  { intros e l1 Hl1. apply wpt_ret; [done|]. by apply trace_fatal. }
  clear l Hl. intros resp l Hl _ Hg. destruct (is_success (rs_Status resp)) eqn:Hok; cbn [negb];
    [|apply wpt_ret; [done|by apply trace_fatal]].
  apply wpt_ret; [done|]. destruct (Decode _ _ _ _) as [h|] eqn:Ed; [|by apply trace_fatal].
  assert (happened [shown hostRef h] l) as Hshown by by apply Hg.
  eapply trace_post; [done|exact Hshown|]. clear l Hl Hg Hshown. intros o l Hl Ho.
  eapply trace_grant; [done|exact Ho|]. clear l Hl Ho. intros l Hl Hid Hgrant. by apply transport_traced with o.
Qed.
End proxy.

(** Commands that never hand over the terminal. *)
Lemma detached_any {A} (J : string → list string → list action → Prop) (p : prog hostE A) l : detached p → attached_after J l →
  wpt (attached_after J) p l (λ _ _, True).
Proof. intros. by apply wpt_detached. Qed.

#[local] Hint Resolve detached_session : only.

Lemma detached_response url body : detached (postJSONResponse env dev url body).
Proof. unfold postJSONResponse, Do. only_steps. Qed.

#[local] Hint Resolve detached_response : only.

Lemma detached_login_loop fuel code interval deadline : detached (poll_login env wild dev api fuel code interval deadline).
Proof.
  revert interval. induction fuel as [|fuel IH]; intros interval; [done|]. cbn [poll_login].
  unfold fatal_error, fatal, saveSession, sessionPath, sessionPathFor, Println. only_steps.
Qed.

#[local] Hint Resolve detached_login_loop : only.

Lemma detached_login fuel : detached (cmdLogin env wild dev api fuel).
Proof. unfold cmdLogin, Println, post, postJSON, fatal_error, fatal. only_steps. Qed.

Lemma detached_logout : detached (cmdLogout env dev api).
Proof.
  unfold cmdLogout, logout, loadSessionForLogout, removeSession, sessionPath, sessionPathFor, Println, fatal_error, fatal, Do. only_steps.
Qed.

Lemma detached_whoami : detached (cmdWhoami env format_float dev api).
Proof. unfold cmdWhoami, with_session, not_logged_in, get_with_session, require_success, print_user, Println, panic, fatal_error, fatal, Do. only_steps. Qed.

Lemma detached_print_hosts hosts : detached (print_hosts hosts).
Proof. induction hosts as [|h hosts IH]; [done|]. split; [exact I|]. intros []. exact IH. Qed.

#[local] Hint Resolve detached_print_hosts : only.

Lemma detached_hosts : detached (cmdHosts env dev api).
Proof. unfold cmdHosts, with_session, not_logged_in, get_with_session, require_success, panic, fatal_error, fatal, Do. only_steps. Qed.

Lemma detached_endpoint host : detached (cmdEndpoint env format_float dev api host).
Proof.
  unfold cmdEndpoint, with_session, not_logged_in, listHosts, get_with_session, require_success, print_list, Println, panic, fatal_error, fatal, Do.
  only_steps.
Qed.

Lemma detached_configs executable configs : detached (print_configs format_float executable configs).
Proof. induction configs as [|c configs IH]; [done|]. split; [exact I|]. intros []. split; [exact I|]. intros []. exact IH. Qed.

#[local] Hint Resolve detached_configs : only.

Lemma detached_sshconfig : detached (cmdSSHConfig env format_float dev api).
Proof.
  unfold cmdSSHConfig, with_session, not_logged_in, get_with_session, require_success, panic, fatal_error, fatal, Do. only_steps.
Qed.

Lemma detached_submit p : detached (cmdSubmitKey env dev api p).
Proof. unfold cmdSubmitKey, with_session, not_logged_in, post, postJSON, Println, fatal_error, fatal. only_steps. Qed.
End trace.

(** ** Whole runs *)

Section main.
Context {Hurl : NetURL} {K : Ed25519Keys} (env : environment) (goos : string).
Context (wild : spec_float → Z) (format_float : spec_float → string).
Context (PublicOfSeed : string → string) (ParseKey : string → option (string * string)).

Notation main := (main env goos wild format_float PublicOfSeed ParseKey).
Notation allowed := (allowed env format_float).

Lemma detached_usage k : detached k → detached (printUsage k).
Proof. intros Hk. unfold printUsage. induction usage_text as [|t ts IH]; [done|]. split; [exact I|]. intros []. exact IH. Qed.

Lemma detached_fatal text : detached (fatal text).
Proof. unfold fatal. only_steps. Qed.

Lemma detached_or_fatal p prefix : detached p → detached (or_fatal p prefix).
Proof. intros Hp. unfold or_fatal. only_seq; [done|]. intros [e|]; [apply detached_fatal|done]. Qed.

Lemma detached_known_host expected args : detached (writeKnownHostKey ParseKey expected args).
Proof. unfold writeKnownHostKey. only_steps. Qed.

Lemma main_traced fuel args stdin : wpt (attached_after (allowed args)) (main fuel args stdin) [] (λ _ _, True).
Proof.
  assert (Hany : ∀ p : prog hostE (option Z), detached p → wpt (attached_after (allowed args)) p [] (λ _ _, True)).
  { intros p Hp. by apply wpt_detached. }
  unfold CtlCommands.main. destruct args as [|command args]; [by apply Hany, detached_usage|].
  case_bool_decide.
  { apply Hany. destruct args as [|c [|]]; try apply detached_fatal. apply detached_or_fatal. unfold prepareMembers. only_steps. }
  destruct (validateAPIURL _); [apply Hany, detached_fatal|]. destruct (newHTTPClient _ _) as [dev|]; [|apply Hany, detached_fatal].
  unfold dispatch. cbv zeta.
  case_bool_decide; [apply Hany, detached_login|]. case_bool_decide; [apply Hany, detached_logout|].
  case_bool_decide; [apply Hany, detached_whoami|]. case_bool_decide; [apply Hany, detached_hosts|].
  case_bool_decide as Essh.
  { destruct args as [|host rest]; [apply Hany, detached_fatal|]. subst command.
    change (allowed ("ssh" :: host :: rest)) with (ssh_granted env format_float host). by apply ssh_traced. }
  case_bool_decide; [apply Hany, detached_sshconfig|].
  case_bool_decide; [apply Hany; destruct args; [apply detached_fatal|apply detached_submit]|].
  case_bool_decide; [apply Hany; destruct args; [apply detached_fatal|apply detached_endpoint]|].
  case_bool_decide as Eproxy.
  { destruct args as [|host [|ep routes]]; try apply Hany, detached_fatal. subst command.
    change (allowed ("proxy" :: host :: ep :: routes)) with (transport_granted env host ep routes). by apply proxy_traced. }
  apply Hany. case_bool_decide.
  - destruct args as [|a [|b [|c [|d [|e [|]]]]]]; try apply detached_fatal. apply detached_or_fatal, detached_known_host.
  - only_seq; [exact I|]. intros _. by apply detached_usage.
Qed.

End main.
