(* ===== verification/CtlProxy.v ===== *)
(** * From the server's command to ternalctl's arguments

    The ssh command of BuildStrictGrantAwareSSHCommand, as ternalctl runs it:
    the shell that ssh starts calls this ternalctl back with arguments that it
    accepts. *)

From S2P Require Export GoNet Core CoreCommands AnchorDataFacts CtlCommands CtlTrace.
Open Scope go_scope.

(** ** Replacing a text that occurs once *)

Lemma prefix_first c old s : String.prefix (String c old) s = true → ∃ s', s = String c s'.
Proof. destruct s as [|d s]; [done|]. simpl. destruct (ascii_dec c d) as [->|]; [by exists s|done]. Qed.

Lemma ReplaceAll_without s c old new : without c s = true → strings.ReplaceAll s (String c old) new = s.
Proof.
  unfold strings.ReplaceAll. induction s as [|d s IH]; [done|]. simpl without. intros [Hd Hs]%andb_true_iff.
  cbn [strings.replace_go]. destruct (String.prefix (String c old) (String d s)) eqn:E; [|by rewrite IH].
  apply prefix_first in E as [s' [= -> _]]. by rewrite char_eqb_refl in Hd.
Qed.

Lemma replace_skip a s old new : strings.replace_go (String.length a) (a +:+ s) old new = strings.ReplaceAll s old new.
Proof. induction a as [|c a IH]; [done|]. exact IH. Qed.

Lemma ReplaceAll_once a b c old new : without c a = true → without c b = true →
  strings.ReplaceAll (a +:+ String c old +:+ b) (String c old) new = a +:+ new +:+ b.
Proof.
  unfold strings.ReplaceAll. intros Ha Hb. induction a as [|d a IH].
  - rewrite !app_nil_s, app_cons_s. cbn [strings.replace_go].
    assert (String.prefix (String c old) (String c (old +:+ b)) = true) as -> by (rewrite <- app_cons_s; apply prefix_app).
    f_equal. cbn [String.length]. rewrite Nat.sub_succ, Nat.sub_0_r, replace_skip. by apply ReplaceAll_without.
  - simpl in Ha. apply andb_true_iff in Ha as [Hd Ha]. rewrite !(app_cons_s d). cbn [strings.replace_go].
    destruct (String.prefix _ _) eqn:E; [|by rewrite IH].
    apply prefix_first in E as [s' [= -> _]]. by rewrite char_eqb_refl in Hd.
Qed.

(** ** Texts without an equals sign *)

Notation no_eq := (without "=").

Lemma no_eq_app a b : no_eq (a +:+ b) = no_eq a && no_eq b.
Proof. apply str_forallb_app. Qed.

Lemma no_eq_of (p : ascii → bool) s : str_forallb p s = true → (∀ c, p c = true → negb (char_eqb c "=") = true) → no_eq s = true.
Proof. intros Hs Hp. by eapply str_forallb_mono. Qed.

Lemma no_eq_Join l : Forall (λ s, no_eq s = true) l → no_eq (strings.Join l " ") = true.
Proof.
  induction 1 as [|s l Hs Hl IH]; [done|]. destruct l as [|s' l]; [done|].
  change (strings.Join (s :: s' :: l) " ") with (s +:+ " " +:+ strings.Join (s' :: l) " "). by rewrite !no_eq_app, Hs, IH.
Qed.

Lemma no_eq_address a : validDirectAddress a = true → no_eq (Core.shellQuote a) = true.
Proof.
  intros Ha. apply validDirectAddress_chars in Ha. assert (Hn : no_eq a = true) by (eapply no_eq_of; [exact Ha|]; intros c; by_byte c).
  unfold Core.shellQuote. destruct (negb _); [done|]. rewrite ReplaceAll_enc, enc_quotes_id.
  - by rewrite !no_eq_app, Hn.
  - unfold has_char. apply str_existsb_false. eapply str_forallb_mono; [|exact Ha]. intros c; by_byte c.
Qed.

Lemma url_chars u : validRelayURL u = true → u ≠ "" ∧ strings.HasPrefix u "-" = false ∧
  str_forallb (λ b, isAlphanumeric b || char_eqb b ":" || char_eqb b "/" || char_eqb b "." || char_eqb b "_" || char_eqb b "-") u = true.
Proof.
  unfold validRelayURL. intros H. bool_prop. split; [by intros ->|]. split; [|done].
  match goal with H : _ || _ = true |- _ => apply orb_true_iff in H as [H|H]; apply HasPrefix_iff in H as [r ->]; done end.
Qed.

Lemma no_eq_url u : validRelayURL u = true → no_eq u = true.
Proof. intros H. apply url_chars in H as (_ & _ & H). eapply no_eq_of; [exact H|]. intros c; by_byte c. Qed.

Lemma reference_chars r : validHostReference r = true → r ≠ "" ∧ strings.HasPrefix r "-" = false ∧
  str_forallb (λ b, isAlphanumeric b || char_eqb b "-" || char_eqb b "_" || char_eqb b ".") r = true.
Proof.
  unfold validHostReference. intros H. bool_prop. split; [by intros ->|]. split; [|done].
  destruct r as [|c r]; [done|]. unfold strings.HasPrefix. cbn [String.prefix first_is_dash] in *.
  destruct (ascii_dec "-" c) as [<-|]; [done|done].
Qed.

(** ** The arguments of the call back *)

Lemma address_not_a_flag a : validDirectAddress a = true → strings.HasPrefix a "-" = false.
Proof.
  unfold validDirectAddress. destruct (_ || _); [done|]. destruct (strings.Contains a "%"); [done|].
  destruct (net.SplitHostPort a) as [[host portStr]|] eqn:Hsp; [|done]. destruct (strconv.Atoi portStr); [|done].
  destruct (_ || _); [done|]. destruct (net.ParseIP host) as [ip|] eqn:Hip; [|done]. intros _.
  destruct (strings.HasPrefix a "-") eqn:Hp; [|done]. apply HasPrefix_iff in Hp as [r ->]. exfalso.
  apply ParseIP_chars in Hip as Hc. unfold net.SplitHostPort in Hsp.
  destruct (strings.LastIndexByte ("-" +:+ r) ":") as [[|i]|] eqn:Hi; [| |done].
  - apply LastIndexByte_Some in Hi. discriminate Hi.
  - cbn in Hsp. destruct (_ && _ && _); [|done]. injection Hsp as <- _. discriminate Hc.
Qed.

Lemma blanks_of (p : ascii → bool) s : str_forallb p s = true → (∀ c, p c = true → negb (str_existsb (char_eqb c) spaces_and_newlines) = true) →
  strings.ContainsAny s spaces_and_newlines = false.
Proof.
  intros Hs Hp. unfold strings.ContainsAny. apply str_existsb_false. eapply str_forallb_mono; [|exact Hs]. exact Hp.
Qed.

Lemma route_words_accepted addrs urls :
  Forall (λ a, validDirectAddress a = true) addrs → Forall (λ u, validRelayURL u = true) urls →
  Ctl.validateRouteArgs (route_words addrs urls) = None.
Proof.
  intros Ha Hu. unfold route_words. induction Ha as [|a addrs Ha _ IH].
  - induction Hu as [|u urls Hu _ IH]; [done|]. cbn -[bool_decide].
    destruct (url_chars u Hu) as (Hne & Hp & Hc). rewrite (bool_decide_eq_false_2 (u = "")), Hp by done.
    rewrite (blanks_of _ u Hc) by (intros c; by_byte c). exact IH.
  - cbn -[bool_decide]. pose proof (validDirectAddress_chars a Ha) as Hc. assert (a ≠ "") as Hne by by intros ->.
    rewrite (bool_decide_eq_false_2 (a = "")), (address_not_a_flag a Ha) by done.
    rewrite (blanks_of _ a Hc) by (intros c; by_byte c). exact IH.
Qed.

Lemma route_words_even addrs urls : ∃ n, length (route_words addrs urls) = 2 * n.
Proof.
  exists (length addrs + length urls). unfold route_words. rewrite length_app.
  assert (H : ∀ (flag : string) (l : list string), length (concat ((λ a, [flag; a]) <$> l)) = 2 * length l).
  { intros flag l. induction l as [|x l IH]; [done|]. cbn [fmap list_fmap concat app length] in *. lia. }
  rewrite !H. lia.
Qed.

Lemma routes_given hostRef cfg addrs proxy : buildGrantAwareProxyCommand hostRef cfg addrs = Ok proxy →
  route_words addrs (Relay_URLs cfg ++ Relay_ExtraURLs cfg) ≠ [].
Proof.
  unfold buildGrantAwareProxyCommand, appendRouteArgs. destruct (negb _); [done|]. destruct (RelayConfig_Validate cfg); [done|].
  destruct addrs as [|a addrs]; [|done]. destruct (Relay_URLs cfg) as [|u urls]; [|done]. by destruct (Relay_ExtraURLs cfg).
Qed.

Lemma port_without_colon port : (0 ≤ port)%Z → without ":" (strconv.FormatInt port) = true.
Proof.
  intros H. rewrite FormatInt_N by done. eapply str_forallb_mono; [|apply pretty_N_digits]. intros c; by_byte c.
Qed.

Lemma invocation_accepted hostRef endpointID port routes :
  validHostReference hostRef = true → Core.validEndpointID endpointID = true → (0 ≤ port)%Z →
  routes ≠ [] → (∃ n, length routes = 2 * n) → Ctl.validateRouteArgs routes = None →
  validateProxyInvocation hostRef (endpointID +:+ ":" +:+ strconv.FormatInt port) routes = None.
Proof.
  intros Hr He Hp Hne [n Hn] Hroutes. unfold validateProxyInvocation.
  destruct (reference_chars _ Hr) as (Hr1 & Hr2 & Hr3).
  rewrite (bool_decide_eq_false_2 (hostRef = "")), Hr2, (blanks_of _ hostRef Hr3) by (done || intros c; by_byte c). cbn [orb].
  unfold Core.validEndpointID in He. apply andb_true_iff in He as [Hl He]. apply Nat.eqb_eq in Hl.
  assert (Hcolon : without ":" endpointID = true) by (eapply str_forallb_mono; [|exact He]; intros c; by_byte c).
  change (":" +:+ strconv.FormatInt port) with (String ":" (strconv.FormatInt port)).
  rewrite Split_app, !Split_single by (done || by apply port_without_colon). cbn [app].
  rewrite !bool_decide_eq_false_2 by (apply FormatInt_ne || by destruct endpointID). cbn [orb].
  rewrite Hn, Nat.mul_comm, Nat.Div0.mod_mul. destruct (Nat.eqb_spec (n * 2) 0) as [E|]; [|exact Hroutes].
  destruct routes; [done|]. simpl in Hn. lia.
Qed.

(** ** The text of the call back *)

(** Paths that [shellQuote] makes one literal word of the shell's: those without
    a quote whose every other special character is one it looks for. *)
Definition literal_path (executable : string) : Prop :=
  executable ≠ "" ∧ has_char "'" executable = false ∧
  (str_forallb sh_plain executable = true ∨ strings.ContainsAny executable shell_specials = true).

Lemma quoted_word executable s : literal_path executable →
  sh_go false None (Ctl.shellQuote executable +:+ s) = sh_go false (Some executable) s.
Proof.
  intros (Hne & Hq & Hchars). unfold Ctl.shellQuote. destruct (strings.ContainsAny executable shell_specials) eqn:Hs; cbn [negb].
  - change ("'" +:+ String backslash "''") with "'\''". rewrite ReplaceAll_enc, enc_quotes_id by done.
    rewrite !app_assoc_s. change ("'" +:+ executable +:+ "'" +:+ s) with (String "'" (executable +:+ "'" +:+ s)).
    cbn [sh_go]. change (char_eqb "'" " ") with false. change (char_eqb "'" "'") with true. cbn [from_option].
    rewrite sh_go_quoted by done. by rewrite app_nil_s.
  - destruct Hchars as [Hp|]; [|done]. by rewrite sh_go_plain.
Qed.

Lemma rewritten_words executable rest ws : literal_path executable → sh_words ("ternalctl" +:+ " " +:+ rest) = Some ("ternalctl" :: ws) →
  sh_words (Ctl.shellQuote executable +:+ " " +:+ rest) = Some (executable :: ws).
Proof.
  intros He. unfold sh_words. rewrite (quoted_word executable) by done. rewrite (sh_go_plain "ternalctl") by done.
  change (" " +:+ rest) with (String " " rest). cbn [sh_go]. change (char_eqb " " " ") with true. cbn iota.
  destruct (sh_go false None rest); [|done]. cbn. by intros [= ->].
Qed.

(** What ternalctl runs of the command's arguments. *)
Definition ssh_arguments (format_float : spec_float → string) (executable : string) (cmd : SshCommand) : list string :=
  (λ arg, rewriteCTLPath (Sprint format_float arg) executable) <$> (JStr <$> Cmd_Args cmd).

Lemma rewrite_plain text executable : no_eq text = true → rewriteCTLPath text executable = text.
Proof. apply ReplaceAll_without. Qed.

Lemma rewrite_call name rest executable : no_eq name = true → no_eq rest = true →
  rewriteCTLPath (name +:+ "=ternalctl " +:+ rest) executable = name +:+ "=" +:+ Ctl.shellQuote executable +:+ " " +:+ rest.
Proof. intros Hn Hr. unfold rewriteCTLPath. rewrite (ReplaceAll_once name rest "=" "ternalctl ") by done. by rewrite !app_assoc_s. Qed.

Lemma no_eq_proxy hostRef addrs urls : validHostReference hostRef = true →
  Forall (λ a, validDirectAddress a = true) addrs → Forall (λ u, validRelayURL u = true) urls →
  no_eq (strings.Join (["proxy"; hostRef; "%h:%p"] ++ route_encs addrs urls) " ") = true.
Proof.
  intros Hr Ha Hu. apply no_eq_Join, Forall_app. split.
  - destruct (reference_chars _ Hr) as (_ & _ & Hc). repeat (constructor; [try done|]); [|constructor].
    eapply no_eq_of; [exact Hc|]. intros c; by_byte c.
  - unfold route_encs. apply Forall_app. split.
    + induction Ha as [|a addrs Ha _ IH]; [constructor|]. constructor; [done|]. constructor; [by apply no_eq_address|exact IH].
    + induction Hu as [|u urls Hu _ IH]; [constructor|]. constructor; [done|]. constructor; [by apply no_eq_url|exact IH].
Qed.

Lemma no_eq_target user endpointID : validSSHUser user = true → Core.validEndpointID endpointID = true →
  no_eq (user +:+ "@" +:+ endpointID) = true.
Proof.
  unfold validSSHUser, Core.validEndpointID. intros Hu He. bool_prop. rewrite !no_eq_app.
  assert (no_eq user = true) as -> by (eapply no_eq_of; [eassumption|]; intros c; by_byte c).
  assert (no_eq endpointID = true) as -> by (eapply no_eq_of; [eassumption|]; intros c; by_byte c). done.
Qed.

