(* ===== verification/CtlMembers.v ===== *)
(** * The member list that ternalctl prepares (cmd/ternalctl/membership.go)

    What prepare-members writes for the members it reads: each with the public
    key of its own credential, and a list that it accepts and writes again. *)

From S2P Require Export CtlCommands AgentServer.
Open Scope go_scope.

Section members.
Context (PublicOfSeed : string → string).

Notation peerPublicKey := (peerPublicKey PublicOfSeed).

(** The member with the key of its credential. *)
Definition derived_member (clusterID : string) (m : memberCredential) : memberCredential :=
  mkMember (mc_ID m) (mc_URL m) (mc_PeerURL m) (mc_LogURL m) (peerPublicKey clusterID (mc_ID m) (mc_Token m)) (mc_WALIdentity m) (mc_Token m).

(** A member that is accepted: with no key, or with the one of its credential. *)
Record acceptable (clusterID : string) (m : memberCredential) : Prop := {
  ac_id : mc_ID m ≠ "";
  ac_token : 32 ≤ String.length (mc_Token m);
  ac_key : mc_PublicKey m = zero_key ∨ mc_PublicKey m = peerPublicKey clusterID (mc_ID m) (mc_Token m);
}.

Lemma derived_acceptable clusterID m : acceptable clusterID m → acceptable clusterID (derived_member clusterID m).
Proof. intros [H1 H2 _]. split; [done..|by right]. Qed.

Lemma derived_derived clusterID m : derived_member clusterID (derived_member clusterID m) = derived_member clusterID m.
Proof. done. Qed.

(** The loop accepts exactly such members, none of whose IDs or tokens was seen. *)
Lemma prepare_each_iff clusterID seen tokenSeen members prepared :
  prepare_each PublicOfSeed clusterID seen tokenSeen members = Ok prepared ↔
  prepared = derived_member clusterID <$> members ∧ Forall (acceptable clusterID) members ∧
  NoDup (mc_ID <$> members) ∧ NoDup (mc_Token <$> members) ∧
  (∀ m, m ∈ members → mc_ID m ∉ seen ∧ mc_Token m ∉ tokenSeen).
Proof.
  revert seen tokenSeen prepared. induction members as [|m members IH]; intros seen tokenSeen prepared; cbn [prepare_each].
  { split; [intros [= <-]|intros [-> _]; done]. repeat split; try constructor; by apply elem_of_nil in H. }
  split.
  - case_bool_decide as Hid; [done|]. case_bool_decide as Hs; [done|]. destruct (Nat.ltb_spec (String.length (mc_Token m)) 32) as [|Ht]; [done|].
    case_bool_decide as Hts; [done|]. cbv zeta. destruct (_ && _) eqn:Hk; [done|].
    destruct (prepare_each _ _ _ _ _) as [rest|] eqn:Er; [|done]. cbn [mbind result_bind]. intros [= <-].
    apply IH in Er as (-> & Hall & Hn1 & Hn2 & Hnew). split; [done|]. split.
    { constructor; [|done]. split; [done..|]. apply andb_false_iff in Hk as [Hk|Hk]; apply negb_false_iff, bool_decide_eq_true in Hk; auto. }
    split; [|split; [|intros m' [->|Hm']%elem_of_cons; [done|destruct (Hnew _ Hm'); set_solver]]].
    + csimpl. constructor; [|done]. intros (m' & E & Hm')%list_elem_of_fmap. destruct (Hnew _ Hm') as [H _]. apply H. rewrite E. by left.
    + csimpl. constructor; [|done]. intros (m' & E & Hm')%list_elem_of_fmap. destruct (Hnew _ Hm') as [_ H]. apply H. rewrite E. by left.
  - intros (-> & Hall & Hn1 & Hn2 & Hnew). apply Forall_cons in Hall as [[Hid Ht Hk] Hall]. csimpl in Hn1. csimpl in Hn2.
    apply NoDup_cons in Hn1 as [Hm1 Hn1]. apply NoDup_cons in Hn2 as [Hm2 Hn2]. destruct (Hnew m (list_elem_of_here _ _)) as [Hs Hts].
    rewrite !bool_decide_eq_false_2 by done. rewrite (proj2 (Nat.ltb_ge _ _)) by done. cbv zeta.
    assert (negb (bool_decide (mc_PublicKey m = zero_key)) &&
      negb (bool_decide (mc_PublicKey m = peerPublicKey clusterID (mc_ID m) (mc_Token m))) = false) as ->.
    { destruct Hk as [Hk|Hk]; rewrite (bool_decide_eq_true_2 _ Hk); [done|by rewrite andb_false_r]. }
    rewrite (proj2 (IH (mc_ID m :: seen) (mc_Token m :: tokenSeen) (derived_member clusterID <$> members))); [done|].
    split; [done|]. split; [done|]. split; [done|]. split; [done|]. intros m' Hm'.
    destruct (Hnew m') as [H1 H2]; [by apply list_elem_of_further|].
    split; intros [E|]%elem_of_cons; try done; [apply Hm1|apply Hm2]; rewrite <- E; by apply list_elem_of_fmap_2.
Qed.

(** ** The written form *)

Record valid_member (m : memberCredential) : Prop := {
  vm_id : ValidString (mc_ID m) = true;
  vm_url : ValidString (mc_URL m) = true;
  vm_peer : ValidString (mc_PeerURL m) = true;
  vm_log : ValidString (mc_LogURL m) = true;
  vm_wal : ValidString (mc_WALIdentity m) = true;
  vm_token : ValidString (mc_Token m) = true;
}.

Lemma optional_printable name value : ValidString name = true → ValidString value = true →
  Forall (λ kv, ValidString kv.1 = true ∧ printable 2 kv.2) (optional_member name value).
Proof. intros Hn Hv. unfold optional_member. case_bool_decide; by members. Qed.

Lemma member_printable m : valid_member m → printable 1 (json_of_member m).
Proof.
  intros []. apply printable_members_intro; [|done]. pose proof (EncodeToString_valid (mc_PublicKey m)).
  repeat apply Forall_app_2; try (by apply optional_printable); by members.
Qed.

Lemma list_printable members : Forall valid_member members → printable 0 (JArr (json_of_member <$> members)).
Proof. intros H. split; [done|]. induction H; [done|]. split; [by apply member_printable|done]. Qed.

Lemma decode_key old key : String.length key = 32 → decode_public_key old (JStr (StdEncoding.EncodeToString key)) = Some key.
Proof. intros H. unfold decode_public_key. by rewrite std_decode_encode, bool_decide_eq_true_2. Qed.

Ltac next_member :=
  cbn [app decode_members];
  erewrite decode_member_at; [|reflexivity|first [reflexivity|by apply decode_key]]; cbn [mbind option_bind].

Lemma decode_written m : String.length (mc_PublicKey m) = 32 → decode_struct member_fields no_member (json_of_member m) = Some m.
Proof.
  intros Hk. destruct m as [id url peer log key wal token]. cbn in Hk.
  unfold json_of_member, decode_struct, optional_member. cbn [mc_ID mc_URL mc_PeerURL mc_LogURL mc_PublicKey mc_WALIdentity mc_Token].
  do 2 case_bool_decide; subst; repeat next_member; reflexivity.
Qed.

Lemma written_known m : known_members member_fields (json_of_member m) = true.
Proof.
  unfold json_of_member, optional_member. do 2 case_bool_decide; reflexivity.
Qed.

Lemma decode_list members : members ≠ [] → Forall (λ m, String.length (mc_PublicKey m) = 32) members →
  decode_credentials [] (JArr (json_of_member <$> members)) = Some members.
Proof.
  intros _ H. unfold decode_credentials.
  assert (forallb (known_members member_fields) (json_of_member <$> members) = true) as ->.
  { clear H. induction members as [|m members IH]; [done|]. cbn [fmap list_fmap forallb]. by rewrite written_known. }
  induction H as [|m members Hm _ IH]; [done|]. cbn [fmap list_fmap mapM]. rewrite decode_written by done. simpl. by rewrite IH.
Qed.

Lemma decode_first_written members : Forall valid_member members → Forall (λ m, String.length (mc_PublicKey m) = 32) members →
  decode_first decode_credentials [] (print (JArr (json_of_member <$> members)) +:+ newline_text) = Some (members, newline_text).
Proof.
  intros Hv Hk. unfold decode_first. pose proof (list_printable _ Hv) as Hp. pose proof (need_le _ 0 Hp).
  rewrite parse_value_print; [|done|rewrite length_app_s; lia|done]. cbn [mbind option_bind fst snd].
  destruct members as [|m members]; [done|]. by rewrite decode_list.
Qed.

(** What prepare-members writes.  On success the members written are those
    read, each with the public key of its own credential in place of none or of
    that same key; their IDs are not empty, no two share an ID or a token, and
    no token is shorter than 32 bytes.  Members in UTF-8 so written are
    accepted again, and written again as they are. *)
Theorem members_are_prepared clusterID input text :
  (∀ seed, String.length (PublicOfSeed seed) = 32) →
  prepare_text PublicOfSeed clusterID input = Ok text →
  ∃ given rest, decode_first decode_credentials [] input = Some (given, rest) ∧ skip_ws rest = "" ∧
    let prepared := derived_member clusterID <$> given in
    text = print (JArr (json_of_member <$> prepared)) +:+ newline_text ∧
    Forall (acceptable clusterID) given ∧ NoDup (mc_ID <$> prepared) ∧ NoDup (mc_Token <$> prepared) ∧
    (Forall valid_member given → prepare_text PublicOfSeed clusterID text = Ok text).
Proof.
  intros Hlen. unfold prepare_text at 1. case_bool_decide as Hc; [done|].
  destruct (decode_first _ _ input) as [[given rest]|]; [|done]. case_bool_decide as Hrest; [|done]. cbn [negb].
  case_bool_decide as Hne; [done|]. destruct (prepare_each _ _ _ _ _) as [prepared|] eqn:Ep; [|done].
  cbn [mbind result_bind]. intros E. assert (text = print (JArr (json_of_member <$> prepared)) +:+ newline_text) as -> by congruence.
  clear E. apply prepare_each_iff in Ep as (-> & Hall & Hn1 & Hn2 & _). exists given, rest. split; [done|]. split; [done|]. cbv zeta.
  assert (Hids : mc_ID <$> (derived_member clusterID <$> given) = mc_ID <$> given) by by rewrite <- list_fmap_compose.
  assert (Htokens : mc_Token <$> (derived_member clusterID <$> given) = mc_Token <$> given) by by rewrite <- list_fmap_compose.
  split; [done|]. split; [done|]. rewrite Hids, Htokens. split; [done|]. split; [done|].
  intros Hv. unfold prepare_text. rewrite bool_decide_eq_false_2 by done. rewrite decode_first_written.
  2:{ apply Forall_fmap. eapply Forall_impl; [exact Hv|]. by intros m []. }
  2:{ apply Forall_fmap, Forall_forall. intros m _. apply Hlen. }
  rewrite bool_decide_eq_true_2 by done. cbn [negb]. rewrite bool_decide_eq_false_2 by by intros ?%fmap_nil_inv.
  rewrite (proj2 (prepare_each_iff clusterID [] [] _ (derived_member clusterID <$> (derived_member clusterID <$> given)))).
  - cbn [mbind result_bind]. assert (derived_member clusterID <$> (derived_member clusterID <$> given) = derived_member clusterID <$> given) as -> by by rewrite <- list_fmap_compose. done.
  - split; [done|]. split.
    { apply Forall_fmap. eapply Forall_impl; [exact Hall|]. intros m. apply derived_acceptable. }
    rewrite Hids, Htokens. split; [done|]. split; [done|]. intros m _. split; apply not_elem_of_nil.
Qed.
End members.
