(* ===== verification/StorageConfig.v ===== *)
(** * The settings of the storage (internal/store/rhiza_sql.go, lines 488-656,
    local_config.go, azure_config.go, recovery_verifier.go, lines 24-73,
    trust_anchor.go, lines 48-57 and 169-175, and internal/operatoridentity)

    From the environment to the configuration of the storage library: the
    modes and their demands, the Azure endpoint, the members of a cluster and
    the identity of the storage root.  The library's member type, with its JSON
    form, the derivation of public keys and two constants, is a parameter
    ([RhizaMembers]); of
    its configuration the model keeps the fields the source sets. *)

From S2P Require Export GoNet GoAny GoPath Http AnchorData Machine.
Open Scope go_scope.

(** ** Durations (time.ParseDuration) *)

Module duration.

Local Open Scope Z_scope.

Definition two63 : Z := 9223372036854775808.

(** leadingInt: [None] on overflow. *)
Fixpoint leadingInt (x : Z) (s : string) : option (Z * string) :=
  match s with
  | String c s' =>
    if is_digit c then
      if two63 / 10 <? x then None else
      let x := x * 10 + (Z.of_N (byte_of c) - 48) in
      if two63 <? x then None else leadingInt x s'
    else Some (x, s)
  | EmptyString => Some (x, s)
  end.

(** leadingFraction: digits beyond the range are dropped. *)
Fixpoint leadingFraction (overflow : bool) (x : Z) (scale : spec_float) (s : string) : Z * spec_float * string :=
  match s with
  | String c s' =>
    if is_digit c then
      if overflow || ((two63 - 1) / 10 <? x) then leadingFraction true x scale s' else
      let y := x * 10 + (Z.of_N (byte_of c) - 48) in
      if two63 <? y then leadingFraction true x scale s'
      else leadingFraction false y (SFmul 53 1024 scale (float64.of_Z 10)) s'
    else (x, scale, s)
  | EmptyString => (x, scale, s)
  end.

Fixpoint take_unit (s : string) : string * string :=
  match s with
  | String c s' => if char_eqb c "." || is_digit c then ("", s) else let '(u, r) := take_unit s' in (String c u, r)
  | EmptyString => ("", "")
  end.

Definition unit_of (u : string) : option Z :=
  if bool_decide (u = "ns") then Some 1
  else if bool_decide (u = "us") || bool_decide (u = bytes [194; 181; 115]%nat) || bool_decide (u = bytes [206; 188; 115]%nat) then Some 1000
  else if bool_decide (u = "ms") then Some 1000000
  else if bool_decide (u = "s") then Some 1000000000
  else if bool_decide (u = "m") then Some 60000000000
  else if bool_decide (u = "h") then Some 3600000000000 else None.

(** One number with its unit, and what follows. *)
Definition part (s : string) : option (Z * string) :=
  '(v, s1) ← leadingInt 0 s;
  let pre := negb (bool_decide (s1 = s)) in
  let '(f, scale, s2, post) :=
    match s1 with
    | String c s1' =>
      if char_eqb c "." then
        let '(f, scale, s2) := leadingFraction false 0 (float64.of_Z 1) s1' in (f, scale, s2, negb (bool_decide (s2 = s1')))
      else (0, float64.of_Z 1, s1, false)
    | EmptyString => (0, float64.of_Z 1, s1, false)
    end in
  if negb pre && negb post then None else
  let '(u, rest) := take_unit s2 in
  unit ← unit_of u;
  if two63 / unit <? v then None else
  let v := v * unit in
  let v := if 0 <? f then v + float64.trunc (SFmul 53 1024 (float64.of_Z f) (SFdiv 53 1024 (float64.of_Z unit) scale)) else v in
  if two63 <? v then None else Some (v, rest).

(** Every part takes at least one byte. *)
Fixpoint parts (fuel : nat) (d : Z) (s : string) : option Z :=
  match s with
  | EmptyString => Some d
  | String c _ =>
    match fuel with
    | O => None
    | S fuel =>
      if negb (char_eqb c "." || is_digit c) then None else
      '(v, rest) ← part s;
      if two63 <? d + v then None else parts fuel (d + v) rest
    end
  end.

Definition ParseDuration (s : string) : option Z :=
  let '(neg, s) := match s with String "-" s' => (true, s') | String "+" s' => (false, s') | _ => (false, s) end in
  if bool_decide (s = "0") then Some 0 else
  if bool_decide (s = "") then None else
  d ← parts (String.length s) 0 s;
  if neg : bool then Some (- d) else if two63 - 1 <? d then None else Some d.

Example duration_parses : ParseDuration "1m" = Some 60000000000 ∧ ParseDuration "1h15m30.918s" = Some 4530918000000 ∧
  ParseDuration "2ms" = Some 2000000 ∧ ParseDuration "-1.5h" = Some (-5400000000000) ∧ ParseDuration "1" = None ∧
  ParseDuration ".5s" = Some 500000000 ∧ ParseDuration "9223372036854775807ns" = Some 9223372036854775807 ∧
  ParseDuration "9223372036854775808ns" = None ∧ ParseDuration "s" = None ∧ ParseDuration "0" = Some 0.
Proof. repeat split; vm_compute; reflexivity. Qed.

End duration.

(** ** Members of a cluster *)

(** github.com/mrchypark/rhiza: a member of a cluster, the public key of a
    credential, the JSON form of a list of members each with its token, and the
    names of two durabilities. *)
Class RhizaMembers := {
  Member : Type;
  Member_ID : Member → string;
  Member_PublicKey : Member → string;   (* 32 bytes *)
  with_PublicKey : string → Member → Member;
  PeerPublicKey : string → string → string → string;
  unmarshal_members : string → option (list (Member * string));
  marshal_members : list (Member * string) → string;
  ObjectStoreDurabilityBeforeAck : string;
  ObjectStoreDurabilityAsync : string;
}.

Definition no_public_key : string := zero_bytes 32.

(** ** The configuration of the storage library *)



Record rhizaConfig {R : RhizaMembers} := mkRhizaConfig {
  cf_Local : bool; cf_ClusterID : string; cf_NodeID : string; cf_DataDir : string;
  cf_BindAddr : string; cf_PeerAddr : string; cf_AdminToken : string; cf_PeerToken : string;
  cf_Members : list Member;
  cf_Endpoint : string; cf_Bucket : string; cf_Provider : string; cf_Dir : string; cf_Prefix : string;
  cf_Region : string; cf_Insecure : bool; cf_AccessKey : string; cf_SecretKey : string; cf_SessionToken : string;
  cf_Durability : string; cf_SyncInterval : Z; cf_BatchDelay : Z; cf_CheckpointInterval : Z;
  cf_AzureAccount : string; cf_AzureKey : string; cf_AzureConnection : string;
  cf_AzureTenantID : string; cf_AzureClientID : string; cf_AzureClientSecret : string; cf_AzureUserAssignedID : string;
}.

Arguments mkRhizaConfig {R}.

(** ** Azure (azure_config.go) *)

Definition lower_alnum (c : ascii) : bool := between "a" "z" c || between "0" "9" c.

(** [^[a-z0-9]{3,24}$] *)
Definition azureAccountName (s : string) : bool :=
  (3 <=? String.length s) && (String.length s <=? 24) && str_forallb lower_alnum s.

(** [^[a-z0-9]+(?:[.-][a-z0-9]+)*$]; [start] when a label must begin. *)
Fixpoint dns_labels (start : bool) (s : string) : bool :=
  match s with
  | EmptyString => negb start
  | String c s' =>
    if lower_alnum c then dns_labels false s'
    else negb start && (char_eqb c "." || char_eqb c "-") && dns_labels true s'
  end.

Definition azureDNSName (s : string) : bool := dns_labels true s.

Record azureStorageConfig := mkAzure {
  az_Account : string; az_BlobEndpoint : string; az_AccountKey : string; az_ConnectionString : string;
  az_TenantID : string; az_ClientID : string; az_ClientSecret : string; az_UserAssignedID : string;
  az_Emulator : bool }.

Definition set (s : string) : bool := negb (bool_decide (s = "")).

Definition validAzureAccountKey (key : string) : bool :=
  match StdEncoding.DecodeString key with
  | Some decoded => (0 <? String.length decoded) && negb (strings.ContainsAny key (bytes [13; 10]))
  | None => false
  end.

(** net.IP.IsLoopback *)
Definition IsLoopback (ip : net.IP) : bool :=
  match net.To4 ip with
  | Some (a :: _) => (a =? 127)%N
  | Some [] => false
  | None => bool_decide (ip = repeat 0%N 15 ++ [1%N])
  end.

Definition connection_keys : list string :=
  ["AccountName"; "AccountKey"; "BlobEndpoint"; "DefaultEndpointsProtocol"; "EndpointSuffix"].

(** The fields of a connection string; an absent one is empty. *)
Fixpoint connection_fields (fields : gmap string string) (items : list string) : option (gmap string string) :=
  match items with
  | [] => Some fields
  | item :: items =>
    let '(key, value, ok) := strings.Cut item "=" in
    if negb ok || bool_decide (value = "") || set (default "" (fields !! key)) then None else
    if bool_decide (key ∈ connection_keys) then connection_fields (<[key := value]> fields) items else None
  end.

Definition validateConnectionString (a : azureStorageConfig) : option error :=
  let invalid := Some (Errorf "Azure connection string is invalid or does not match the declared account and Blob endpoint") in
  match connection_fields ∅ (strings.Split (strings.TrimSuffix (az_ConnectionString a) ";") ";") with
  | None => invalid
  | Some fields =>
    let field key := default "" (fields !! key) in
    if negb (bool_decide (field "AccountName" = az_Account a)) || bool_decide (field "AccountKey" = "") then invalid else
    if negb (validAzureAccountKey (field "AccountKey")) then invalid else
    let protocol := if bool_decide (field "DefaultEndpointsProtocol" = "") then "https" else field "DefaultEndpointsProtocol" in
    if negb (bool_decide (protocol = "https")) && negb (bool_decide (protocol = "http")) then invalid else
    if bool_decide (field "BlobEndpoint" = "") then
      let suffix := if bool_decide (field "EndpointSuffix" = "") then "core.windows.net" else field "EndpointSuffix" in
      if negb (azureDNSName suffix) then invalid else
      if negb (bool_decide (protocol +:+ "://" +:+ az_Account a +:+ ".blob." +:+ suffix = az_BlobEndpoint a)) then invalid else None
    else
      if set (field "EndpointSuffix") ||
         (set (field "DefaultEndpointsProtocol") && negb (strings.HasPrefix (field "BlobEndpoint") (protocol +:+ "://")))
      then invalid else
      if negb (bool_decide (field "BlobEndpoint" = az_BlobEndpoint a)) then invalid else None
  end.

Definition not_in_endpoint : string := String backslash ("#" +:+ String (chr 0) (bytes [13; 10; 9; 32])).

Definition forms (a : azureStorageConfig) : nat :=
  length (filter (λ b, b = true)
    [set (az_AccountKey a); set (az_ConnectionString a);
     set (az_TenantID a) || set (az_ClientID a) || set (az_ClientSecret a); set (az_UserAssignedID a)]).

Section azure.
Context {Hurl : NetURL}.

(** What the checks of the parsed endpoint say of it. *)
Definition canonical_endpoint (endpoint : string) (u : URL) : bool :=
  negb (URL_HasUser u || set (URL_RawQuery u) || URL_ForceQuery u || set (URL_Fragment u) || set (URL_Opaque u) ||
        bool_decide (URL_Host u = "") || set (URL_RawPath u) || negb (bool_decide (URL_Host u = ToLower (URL_Host u))) ||
        negb (bool_decide (URL_String u = endpoint)) || strings.ContainsAny endpoint not_in_endpoint).

Definition port_in_range (u : URL) : bool :=
  bool_decide (URL_Port u = "") ||
  match strconv.Atoi (URL_Port u) with Some n => (1 <=? n)%Z && (n <=? 65535)%Z | None => false end.

Definition emulator_endpoint (a : azureStorageConfig) (u : URL) : bool :=
  bool_decide (URL_Scheme u = "http") && match net.ParseIP (URL_Hostname u) with Some ip => IsLoopback ip | None => false end &&
  set (URL_Port u) && bool_decide (URL_Path u = "/" +:+ az_Account a) && set (az_ConnectionString a).

Definition service_endpoint (u : URL) : bool :=
  bool_decide (URL_Scheme u = "https") && bool_decide (URL_Path u = "") && azureDNSName (URL_Hostname u).

Definition account_endpoint (a : azureStorageConfig) (u : URL) : bool :=
  bool_decide (URL_Port u = "") && strings.HasPrefix (URL_Hostname u) (az_Account a +:+ ".") &&
  azureDNSName (strings.TrimPrefix (URL_Hostname u) (az_Account a +:+ ".")).

Definition with_endpoint (endpoint : string) (a : azureStorageConfig) : azureStorageConfig :=
  mkAzure (az_Account a) endpoint (az_AccountKey a) (az_ConnectionString a) (az_TenantID a) (az_ClientID a) (az_ClientSecret a)
    (az_UserAssignedID a) (az_Emulator a).

Definition default_endpoint (a : azureStorageConfig) : result azureStorageConfig :=
  if set (az_BlobEndpoint a) then Ok a else
  if az_Emulator a then Err (Errorf "Azure emulator requires an explicit loopback Blob endpoint")
  else Ok (with_endpoint ("https://" +:+ az_Account a +:+ ".blob.core.windows.net") a).

(** The checks once the endpoint is there. *)
Definition check_azure (a : azureStorageConfig) : result azureStorageConfig :=
  let canonical := Errorf "Azure Blob endpoint must be a canonical credential-free service URL" in
  match url_Parse (az_BlobEndpoint a) with
  | None => Err canonical
  | Some u =>
    if negb (canonical_endpoint (az_BlobEndpoint a) u) then Err canonical else
    if strings.HasSuffix (URL_Host u) ":" then Err (Errorf "Azure Blob endpoint must not contain an empty port") else
    if negb (port_in_range u) then Err (Errorf "Azure Blob endpoint port must be between 1 and 65535") else
    if (if az_Emulator a then negb (emulator_endpoint a u) else negb (service_endpoint u))
    then Err (Errorf (if az_Emulator a then "Azure emulator requires a connection string and explicit http://loopback:PORT/account endpoint"
                      else "Azure requires a canonical HTTPS Blob service endpoint")) else
    if 1 <? forms a then Err (Errorf "Azure authentication forms must not be mixed") else
    if (set (az_TenantID a) || set (az_ClientID a) || set (az_ClientSecret a)) &&
       negb (set (az_TenantID a) && set (az_ClientID a) && set (az_ClientSecret a))
    then Err (Errorf "Azure tenant, client and client secret must be set together") else
    if set (az_AccountKey a) && negb (validAzureAccountKey (az_AccountKey a)) then Err (Errorf "invalid Azure storage account key encoding") else
    if set (az_ConnectionString a) then
      match validateConnectionString a with Some e => Err e | None => Ok a end
    else if negb (account_endpoint a u) then Err (Errorf "Azure endpoint is not representable by the SDK account/suffix configuration")
    else Ok a
  end.

Definition normalized (a : azureStorageConfig) : result azureStorageConfig :=
  if negb (azureAccountName (az_Account a)) then Err (Errorf "Azure requires a canonical TERNAL_OBJECT_STORE_AZURE_STORAGE_ACCOUNT") else
  a ← default_endpoint a; check_azure a.

Definition azure_settings (env : environment) : azureStorageConfig :=
  mkAzure (env "TERNAL_OBJECT_STORE_AZURE_STORAGE_ACCOUNT") (env "TERNAL_OBJECT_STORE_AZURE_BLOB_ENDPOINT")
    (env "TERNAL_OBJECT_STORE_AZURE_STORAGE_ACCOUNT_KEY") (env "TERNAL_OBJECT_STORE_AZURE_CONNECTION_STRING")
    (env "TERNAL_OBJECT_STORE_AZURE_TENANT_ID") (env "TERNAL_OBJECT_STORE_AZURE_CLIENT_ID")
    (env "TERNAL_OBJECT_STORE_AZURE_CLIENT_SECRET") (env "TERNAL_OBJECT_STORE_AZURE_USER_ASSIGNED_ID")
    (bool_decide (env "TERNAL_OBJECT_STORE_AZURE_EMULATOR" = "1")).

(** The configuration as far as it got, and the error. *)
Definition azureStorageFromEnv (env : environment) : result azureStorageConfig :=
  let value := env "TERNAL_OBJECT_STORE_AZURE_EMULATOR" in
  if set value && negb (bool_decide (value = "0")) && negb (bool_decide (value = "1"))
  then Err (Errorf "TERNAL_OBJECT_STORE_AZURE_EMULATOR must be 0 or 1") else
  let insecure := env "TERNAL_OBJECT_STORE_INSECURE" in
  if set (env "TERNAL_OBJECT_STORE_ENDPOINT") || (set insecure && negb (bool_decide (insecure = "false")))
  then Err (Errorf "Azure rejects generic endpoint and insecure overrides") else
  normalized (azure_settings env).

(** [None] where the source dereferences the nil URL of an endpoint that does not parse. *)
Definition sdkEndpoint (a : azureStorageConfig) : option string :=
  u ← url_Parse (az_BlobEndpoint a);
  Some (if bool_decide (URL_Scheme u = "https") && bool_decide (URL_Path u = "") && bool_decide (URL_Port u = "") &&
           strings.HasPrefix (URL_Hostname u) (az_Account a +:+ ".")
        then strings.TrimPrefix (URL_Hostname u) (az_Account a +:+ ".")
        else az_BlobEndpoint a).

Context {R : RhizaMembers}.

Definition apply (a : azureStorageConfig) (c : rhizaConfig) : option rhizaConfig :=
  endpoint ← sdkEndpoint a;
  Some (mkRhizaConfig (cf_Local c) (cf_ClusterID c) (cf_NodeID c) (cf_DataDir c) (cf_BindAddr c) (cf_PeerAddr c) (cf_AdminToken c) (cf_PeerToken c)
    (cf_Members c) endpoint (cf_Bucket c) (cf_Provider c) (cf_Dir c) (cf_Prefix c) (cf_Region c) (cf_Insecure c) (cf_AccessKey c) (cf_SecretKey c)
    (cf_SessionToken c) (cf_Durability c) (cf_SyncInterval c) (cf_BatchDelay c) (cf_CheckpointInterval c)
    (az_Account a) (az_AccountKey a) (az_ConnectionString a) (az_TenantID a) (az_ClientID a) (az_ClientSecret a) (az_UserAssignedID a)).

(** The panic of [sdkEndpoint], which the theorems exclude. *)
Definition nil_dereference : error := ErrService "nil pointer dereference".

Definition applyAzureStorageFromEnv (env : environment) (c : rhizaConfig) : result rhizaConfig :=
  if negb (bool_decide (cf_Provider c = "azure")) then Ok c else
  a ← azureStorageFromEnv env;
  if bool_decide (cf_Bucket c = "") then Err (Errorf "Azure requires TERNAL_OBJECT_STORE_BUCKET as its container") else
  match apply a c with Some c => Ok c | None => Err nil_dereference end.

(** The loops over the items of the connection string. *)
Fixpoint blob_endpoint (items : list string) : option string :=
  match items with
  | [] => None
  | item :: items =>
    let '(key, value, ok) := strings.Cut item "=" in
    if ok && bool_decide (key = "BlobEndpoint") then Some value else blob_endpoint items
  end.

Fixpoint protocol_suffix (protocol suffix : string) (items : list string) : string * string :=
  match items with
  | [] => (protocol, suffix)
  | item :: items =>
    let '(key, value, _) := strings.Cut item "=" in
    protocol_suffix (if bool_decide (key = "DefaultEndpointsProtocol") then value else protocol)
      (if bool_decide (key = "EndpointSuffix") then value else suffix) items
  end.

Definition azureEndpointFromRhiza (c : rhizaConfig) : string :=
  if set (cf_AzureConnection c) then
    let items := strings.Split (cf_AzureConnection c) ";" in
    match blob_endpoint items with
    | Some value => value
    | None =>
      let '(protocol, suffix) := protocol_suffix "https" "core.windows.net" items in
      protocol +:+ "://" +:+ cf_AzureAccount c +:+ ".blob." +:+ suffix
    end
  else
    let suffix := if bool_decide (cf_Endpoint c = "") then "blob.core.windows.net" else cf_Endpoint c in
    "https://" +:+ cf_AzureAccount c +:+ "." +:+ suffix.

End azure.

(** ** The environment *)

Section config.
Context {Hurl : NetURL} {R : RhizaMembers} (env : environment).

Notation envOr := (getenv_or env).

Definition durationEnv (key : string) (fallback : Z) : result Z :=
  if bool_decide (env key = "") then Ok fallback else
  match duration.ParseDuration (env key) with
  | None => Err (ErrorWrap ("parse " +:+ key) (Errorf "invalid duration"))
  | Some d => if (d <=? 0)%Z then Err (Errorf (key +:+ " must be positive")) else Ok d
  end.

(** The first of the named variables that is set. *)
Definition first_set (names : list string) : option string := List.find (λ name, set (env name)) names.

(** *** Local mode (local_config.go) *)

Definition localRejectedUpstreamEnv : list string :=
  ["RHIZA_CLUSTER_ID"; "RHIZA_NODE_ID"; "RHIZA_CLUSTER_MEMBERS"; "RHIZA_PEER_TOKENS"; "RHIZA_ENABLE_RECONFIGURATION";
   "RHIZA_LEARNER"; "RHIZA_ADMIN_TOKEN"; "RHIZA_OBJSTORE_DURABILITY"].

Definition localForbidden : list string :=
  ["TERNAL_DATA_ADMIN_TOKEN"; "TERNAL_DATA_BIND_ADDR"; "TERNAL_DATA_PEER_ADDR"; "TERNAL_DATA_CLUSTER_MEMBERS";
   "TERNAL_DATA_EXPECTED_MEMBER_IDS"; "TERNAL_OPERATOR_BIND"; "TERNAL_DATA_ENABLE_RECONFIGURATION"; "TERNAL_DATA_LEARNER";
   "TERNAL_OBJECT_STORE_DIR"] ++ localRejectedUpstreamEnv.

Definition localZeros : list string := ["TERNAL_DATA_MULTI_NODE"; "TERNAL_REQUIRE_DATA_ADMIN_TOKEN"].

Definition single_component (clusterID : string) : bool :=
  negb (bool_decide (clusterID = "") || bool_decide (clusterID = ".") || bool_decide (clusterID = "..") ||
        strings.ContainsAny clusterID ("/" +:+ String backslash (bytes [0; 13; 10]))).

Definition canonical_prefix (prefix : string) : bool :=
  negb (bool_decide (prefix = "") || path.IsAbs prefix || negb (bool_decide (path.Clean prefix = prefix)) ||
        bool_decide (prefix = ".") || bool_decide (prefix = "..") || strings.HasPrefix prefix "../" ||
        strings.ContainsAny prefix (String backslash (bytes [0; 13; 10]))).

(** The three intervals of every mode. *)
Definition intervals (k : Z → Z → Z → result rhizaConfig) : result rhizaConfig :=
  syncInterval ← durationEnv "TERNAL_OBJECT_STORE_SYNC_INTERVAL" (60 * second)%Z;
  batchDelay ← durationEnv "TERNAL_OBJECT_STORE_BATCH_DELAY" 2000000%Z;
  checkpointInterval ← durationEnv "TERNAL_DATA_CHECKPOINT_INTERVAL" (900 * second)%Z;
  k syncInterval batchDelay checkpointInterval.

Definition local_checks : option error :=
  match first_set localForbidden with
  | Some name => Some (Errorf (name +:+ " is forbidden in Local mode"))
  | None =>
    match List.find (λ name, set (env name) && negb (bool_decide (env name = "0"))) localZeros with
    | Some name => Some (Errorf (name +:+ " must be 0 in Local mode"))
    | None =>
      let provider := env "TERNAL_OBJECT_STORE_PROVIDER" in
      let durability := env "TERNAL_OBJECT_STORE_DURABILITY" in
      if negb (bool_decide (provider = "s3")) && negb (bool_decide (provider = "gcs")) && negb (bool_decide (provider = "azure"))
      then Some (Errorf "Ternal Local mode requires an s3, gcs or azure archive") else
      if negb (bool_decide (env "TERNAL_LOCAL_WRITER_GC_QUIESCENCE_ACK" = "1"))
      then Some (Errorf "TERNAL_LOCAL_WRITER_GC_QUIESCENCE_ACK=1 is required; the acknowledgement is not fencing proof") else
      if set durability && negb (bool_decide (durability = "before-ack"))
      then Some (Errorf "Ternal Local mode requires before-ack durability") else
      if negb (single_component (env "TERNAL_DATA_CLUSTER_ID"))
      then Some (Errorf "Local mode requires an explicit single-component TERNAL_DATA_CLUSTER_ID") else
      if negb (canonical_prefix (env "TERNAL_OBJECT_STORE_PREFIX"))
      then Some (Errorf "Local mode requires a canonical relative TERNAL_OBJECT_STORE_PREFIX") else
      if bool_decide (env "TERNAL_OBJECT_STORE_BUCKET" = "") then Some (Errorf "TERNAL_OBJECT_STORE_BUCKET is required in Local mode") else
      if bool_decide (provider = "gcs") && (set (env "TERNAL_OBJECT_STORE_ENDPOINT") || bool_decide (env "TERNAL_OBJECT_STORE_INSECURE" = "true"))
      then Some (Errorf "gcs Local mode does not accept endpoint or insecure overrides") else None
    end
  end.

Definition localConfigFromEnv (dataDir : string) : result rhizaConfig :=
  match local_checks with
  | Some e => Err e
  | None =>
    intervals (λ syncInterval batchDelay checkpointInterval,
    applyAzureStorageFromEnv env
      (mkRhizaConfig true (env "TERNAL_DATA_CLUSTER_ID") (envOr "TERNAL_DATA_NODE_ID" "node-1") dataDir "" "" "" "" []
        (env "TERNAL_OBJECT_STORE_ENDPOINT") (env "TERNAL_OBJECT_STORE_BUCKET") (env "TERNAL_OBJECT_STORE_PROVIDER") ""
        (env "TERNAL_OBJECT_STORE_PREFIX") (env "TERNAL_OBJECT_STORE_REGION") (bool_decide (env "TERNAL_OBJECT_STORE_INSECURE" = "true"))
        (env "TERNAL_OBJECT_STORE_ACCESS_KEY") (env "TERNAL_OBJECT_STORE_SECRET_KEY") (env "TERNAL_OBJECT_STORE_SESSION_TOKEN")
        ObjectStoreDurabilityBeforeAck syncInterval batchDelay checkpointInterval "" "" "" "" "" "" ""))
  end.

(** *** One node and three (rhiza_sql.go) *)

Fixpoint check_members (adminToken : string) (seenIDs seenTokens : list string) (members : list (Member * string)) : option error :=
  match members with
  | [] => None
  | (member, token) :: members =>
    let id := Member_ID member in
    if bool_decide (id ∈ seenIDs) then Some (Errorf "multi-node member IDs must be distinct") else
    if String.length token <? 32 then Some (Errorf ("multi-node member " +:+ id +:+ " token must contain at least 32 bytes")) else
    if bool_decide (token = adminToken) then Some (Errorf ("multi-node member " +:+ id +:+ " token must differ from TERNAL_DATA_ADMIN_TOKEN")) else
    if bool_decide (token ∈ seenTokens) then Some (Errorf "multi-node member tokens must be distinct") else
    check_members adminToken (id :: seenIDs) (token :: seenTokens) members
  end.

Fixpoint check_expected (ids seen expected : list string) : option error :=
  match expected with
  | [] => None
  | id :: expected =>
    if bool_decide (id = "") then Some (Errorf "TERNAL_DATA_EXPECTED_MEMBER_IDS must not contain an empty ID") else
    if bool_decide (id ∈ seen) then Some (Errorf "TERNAL_DATA_EXPECTED_MEMBER_IDS must contain distinct IDs") else
    if negb (bool_decide (id ∈ ids)) then Some (Errorf ("multi-node member set is missing expected ID " +:+ id)) else
    check_expected ids (id :: seen) expected
  end.

Definition member_ids (members : list (Member * string)) : list string := (λ m, Member_ID m.1) <$> members.

Definition multi_node_checks (adminToken : string) (members : list (Member * string)) : option error :=
  let expectedMemberIDs := env "TERNAL_DATA_EXPECTED_MEMBER_IDS" in
  if negb (length members =? 3) then Some (Errorf "multi-node mode requires exactly three TERNAL_DATA_CLUSTER_MEMBERS") else
  if String.length adminToken <? 32 then Some (Errorf "multi-node mode requires TERNAL_DATA_ADMIN_TOKEN with at least 32 bytes") else
  match check_members adminToken [] [] members with
  | Some e => Some e
  | None =>
    if bool_decide (expectedMemberIDs = "") then None else
    let expected := strings.Split expectedMemberIDs "," in
    if negb (length expected =? 3) then Some (Errorf "TERNAL_DATA_EXPECTED_MEMBER_IDS must contain exactly three IDs")
    else check_expected (member_ids members) [] expected
  end.

(** The public members, and the token of this node. *)
Fixpoint rhizaIdentity (clusterID nodeID : string) (members : list (Member * string)) : result (list Member * string) :=
  match members with
  | [] => Ok ([], "")
  | (member, token) :: members =>
    let derived := PeerPublicKey clusterID (Member_ID member) token in
    if negb (bool_decide (Member_PublicKey member = no_public_key)) && negb (bool_decide (Member_PublicKey member = derived))
    then Err (Errorf ("member " +:+ Member_ID member +:+ " public key does not match its credential for cluster " +:+ clusterID)) else
    '(projected, peerToken) ← rhizaIdentity clusterID nodeID members;
    Ok (with_PublicKey derived member :: projected,
        if bool_decide (Member_ID member = nodeID) && negb (existsb (λ id, bool_decide (id = nodeID)) (member_ids members))
        then token else peerToken)
  end.

Definition requireTrustAnchor : bool :=
  bool_decide (env "TERNAL_DATA_REQUIRE_OBJECT_STORE" = "true") || set (env "TERNAL_OBJECT_STORE_PROVIDER") ||
  set (env "TERNAL_OBJECT_STORE_ENDPOINT") || set (env "TERNAL_OBJECT_STORE_BUCKET") || set (env "TERNAL_OBJECT_STORE_DIR").

Definition cluster_checks (adminToken : string) (members : list (Member * string)) : option error :=
  let multiNode := env "TERNAL_DATA_MULTI_NODE" in
  let expectedMemberIDs := env "TERNAL_DATA_EXPECTED_MEMBER_IDS" in
  if set multiNode && negb (bool_decide (multiNode = "0")) && negb (bool_decide (multiNode = "1"))
  then Some (Errorf "TERNAL_DATA_MULTI_NODE must be 0 or 1") else
  match (if bool_decide (multiNode = "1") then multi_node_checks adminToken members
         else if negb (length members =? 0) || set expectedMemberIDs
         then Some (Errorf "HA member configuration requires TERNAL_DATA_MULTI_NODE=1") else None) with
  | Some e => Some e
  | None =>
    if negb (bool_decide (multiNode = "1")) && requireTrustAnchor && negb (bool_decide (env "TERNAL_OBJECT_STORE_DURABILITY" = "before-ack"))
    then Some (Errorf "standalone object-store mode requires explicit before-ack durability") else None
  end.

Definition members_from_env : result (list (Member * string)) :=
  let raw := env "TERNAL_DATA_CLUSTER_MEMBERS" in
  if bool_decide (raw = "") then Ok [] else
  match unmarshal_members raw with
  | Some members => Ok members
  | None => Err (ErrorWrap "parse TERNAL_DATA_CLUSTER_MEMBERS" (Errorf "invalid JSON"))
  end.

Definition rhizaConfigFromEnv (dataDir : string) : result rhizaConfig :=
  let mode := env "TERNAL_DATA_LOCAL" in
  if bool_decide (mode = "1") then localConfigFromEnv dataDir else
  if set mode && negb (bool_decide (mode = "0")) then Err (Errorf "TERNAL_DATA_LOCAL must be 0 or 1") else
  let adminToken := env "TERNAL_DATA_ADMIN_TOKEN" in
  if bool_decide (env "TERNAL_REQUIRE_DATA_ADMIN_TOKEN" = "1") && (String.length adminToken <? 32)
  then Err (Errorf "TERNAL_DATA_ADMIN_TOKEN must be at least 32 bytes") else
  members ← members_from_env;
  match cluster_checks adminToken members with
  | Some e => Err e
  | None =>
    let clusterID := envOr "TERNAL_DATA_CLUSTER_ID" "ternal" in
    let nodeID := envOr "TERNAL_DATA_NODE_ID" "node-1" in
    '(publicMembers, peerToken) ← rhizaIdentity clusterID nodeID members;
    intervals (λ syncInterval batchDelay checkpointInterval,
    applyAzureStorageFromEnv env
      (mkRhizaConfig false clusterID nodeID dataDir (envOr "TERNAL_DATA_BIND_ADDR" "127.0.0.1:0") (envOr "TERNAL_DATA_PEER_ADDR" "127.0.0.1:0")
        adminToken peerToken publicMembers (env "TERNAL_OBJECT_STORE_ENDPOINT") (env "TERNAL_OBJECT_STORE_BUCKET")
        (env "TERNAL_OBJECT_STORE_PROVIDER") (env "TERNAL_OBJECT_STORE_DIR") (env "TERNAL_OBJECT_STORE_PREFIX") (env "TERNAL_OBJECT_STORE_REGION")
        (bool_decide (env "TERNAL_OBJECT_STORE_INSECURE" = "true")) (env "TERNAL_OBJECT_STORE_ACCESS_KEY") (env "TERNAL_OBJECT_STORE_SECRET_KEY")
        (env "TERNAL_OBJECT_STORE_SESSION_TOKEN") (envOr "TERNAL_OBJECT_STORE_DURABILITY" ObjectStoreDurabilityAsync) syncInterval batchDelay checkpointInterval
        "" "" "" "" "" "" ""))
  end.

(** *** The storage root (recovery_verifier.go, trust_anchor.go) *)

Record recoveryStorage := mkRecoveryStorage {
  st_Provider : string; st_Endpoint : string; st_Bucket : string; st_Prefix : string; st_Region : string; st_Dir : string;
  st_Insecure : bool; st_AccessKey : string; st_SecretKey : string; st_SessionToken : string;
  st_Azure : option (result azureStorageConfig) }.

Definition recoveryStorageFromEnv : recoveryStorage :=
  mkRecoveryStorage (env "TERNAL_OBJECT_STORE_PROVIDER") (env "TERNAL_OBJECT_STORE_ENDPOINT") (env "TERNAL_OBJECT_STORE_BUCKET")
    (env "TERNAL_OBJECT_STORE_PREFIX") (env "TERNAL_OBJECT_STORE_REGION") (env "TERNAL_OBJECT_STORE_DIR")
    (bool_decide (env "TERNAL_OBJECT_STORE_INSECURE" = "true")) (env "TERNAL_OBJECT_STORE_ACCESS_KEY") (env "TERNAL_OBJECT_STORE_SECRET_KEY")
    (env "TERNAL_OBJECT_STORE_SESSION_TOKEN")
    (if bool_decide (env "TERNAL_OBJECT_STORE_PROVIDER" = "azure") then Some (azureStorageFromEnv env) else None).

(** With the prefix given: localIdentity changes it. *)
Definition identity_at (s : recoveryStorage) (prefix clusterID : string) : string :=
  if bool_decide (st_Provider s = "azure") then
    match st_Azure s with
    | Some (Ok a) => match normalized a with
                     | Ok a => AzureTrustAnchorStorageID (az_Account a) (az_BlobEndpoint a) (st_Bucket s) prefix clusterID
                     | Err _ => ""
                     end
    | _ => ""
    end
  else TrustAnchorStorageID (st_Provider s) (st_Endpoint s) (st_Bucket s) prefix clusterID.

Definition identity (s : recoveryStorage) (clusterID : string) : string := identity_at s (st_Prefix s) clusterID.

Definition localIdentity (s : recoveryStorage) (clusterID : string) : string :=
  localStorageDomain (identity_at s (path.Join [st_Prefix s; clusterID; "local/v1"]) clusterID).

Definition storage_prefix (s : recoveryStorage) (clusterID : string) : string := path.Join [st_Prefix s; clusterID].

(** The storage ID and the cluster of storageBindingFromEnv. *)
Definition storageBindingFromEnv : string * string :=
  let clusterID := envOr "TERNAL_DATA_CLUSTER_ID" "ternal" in
  let storage := recoveryStorageFromEnv in
  (clusterID, if bool_decide (env "TERNAL_DATA_LOCAL" = "1") then localIdentity storage clusterID else identity storage clusterID).
End config.

(** local_preflight.go, localStorageID and localNamespace *)
Definition localNamespace {R : RhizaMembers} (c : rhizaConfig) : string := path.Join [cf_Prefix c; cf_ClusterID c; "local/v1"].

Definition localStorageID {R : RhizaMembers} (c : rhizaConfig) : string :=
  if bool_decide (cf_Provider c = "azure")
  then localStorageDomain (AzureTrustAnchorStorageID (cf_AzureAccount c) (azureEndpointFromRhiza c) (cf_Bucket c) (localNamespace c) (cf_ClusterID c))
  else LocalTrustAnchorStorageID (cf_Provider c) (cf_Endpoint c) (cf_Bucket c) (cf_Prefix c) (cf_ClusterID c).

(** ** The operator's identity (operatoridentity/identity.go) *)

Section operator.
Context {R : RhizaMembers}.

Definition Setenv (key value : string) (env : environment) : environment := λ k, if bool_decide (k = key) then value else env k.

Definition pairs : list (string * string) :=
  [("RHIZA_CLUSTER_ID", "TERNAL_DATA_CLUSTER_ID"); ("RHIZA_CLUSTER_MEMBERS", "TERNAL_DATA_CLUSTER_MEMBERS");
   ("RHIZA_ADMIN_TOKEN", "TERNAL_DATA_ADMIN_TOKEN"); ("RHIZA_OBJSTORE_DURABILITY", "TERNAL_OBJECT_STORE_DURABILITY")].

Definition copy_pair (env : environment) (pair : string * string) : environment :=
  if set (env pair.1) then Setenv pair.2 (env pair.1) env else env.

Fixpoint join_tokens (tokens : gmap string string) (members : list (Member * string)) : result (list (Member * string)) :=
  match members with
  | [] => Ok []
  | (member, _) :: members =>
    let id := Member_ID member in
    if bool_decide (id = "") then Err (Errorf "operator membership contains an empty node ID") else
    match tokens !! id with
    | Some token =>
      if bool_decide (token = "") then Err (Errorf ("operator peer token map has no entry for node " +:+ id)) else
      joined ← join_tokens tokens members; Ok ((member, token) :: joined)
    | None => Err (Errorf ("operator peer token map has no entry for node " +:+ id))
    end
  end.

(** The environment afterwards, and the error.  A map has no order: of several
    tokens without a member, any may be the one the error names. *)
Definition applyPeerTokens (env : environment) : environment * option error :=
  let raw := env "RHIZA_PEER_TOKENS" in
  let fail msg := (env, Some (Errorf msg)) in
  if bool_decide (raw = "") then (env, None) else
  match Unmarshal (decode_map "" decode_string) None raw with
  | None => fail "operator peer token map is not a node-ID to token object"
  | Some tokens =>
    let tokens := default ∅ tokens in
    if bool_decide (tokens = ∅) then fail "operator peer token map is empty" else
    let membersRaw := env "TERNAL_DATA_CLUSTER_MEMBERS" in
    if bool_decide (membersRaw = "") then fail "operator peer token map has no membership to join" else
    match unmarshal_members membersRaw with
    | None => fail "operator membership is not a member list"
    | Some members =>
      if bool_decide (length members = 0) then fail "operator peer token map has no member entries to join" else
      match join_tokens tokens members with
      | Err e => (env, Some e)
      | Ok joined =>
        match List.find (λ id, negb (bool_decide (id ∈ member_ids joined))) (fst <$> map_to_list tokens) with
        | Some id => fail ("operator peer token map has no member entry for node " +:+ id)
        | None => (Setenv "TERNAL_DATA_CLUSTER_MEMBERS" (marshal_members joined) env, None)
        end
      end
    end
  end.

Definition Apply (env : environment) : environment * option error :=
  if bool_decide (env "TERNAL_DATA_LOCAL" = "1") || negb (bool_decide (env "TERNAL_DATA_MULTI_NODE" = "1")) then (env, None)
  else applyPeerTokens (foldl copy_pair env pairs).
End operator.
