(* ===== verification/StorageFacts.v ===== *)
(** * The settings of the storage: what an accepted configuration has

    The identity that the trust anchor binds is the identity of the root that
    the storage library is given; an accepted configuration keeps the demands
    of its mode; and the operator's tokens reach the members they belong to. *)

From S2P Require Export GoQuery StorageConfig.
Open Scope go_scope.

(** The characters of a host that are never escaped. *)
Definition plain_host (s : string) : bool := str_forallb (λ c, lower_alnum c || char_eqb c "." || char_eqb c "-") s.

(** net/url: the text of an https URL that has only a plain host, and the host
    of a URL without a port, from which only the brackets of an IPv6 address are
    taken. *)
Class URLLaws {Hurl : NetURL} := {
  url_plain raw u : url_Parse raw = Some u → URL_Scheme u = "https" → plain_host (URL_Host u) = true → URL_HasUser u = false → URL_Opaque u = "" →
    URL_Host u ≠ "" → URL_Path u = "" → URL_RawPath u = "" → URL_RawQuery u = "" → URL_ForceQuery u = false → URL_Fragment u = "" →
    URL_String u = "https://" +:+ URL_Host u;
  url_hostname raw u : url_Parse raw = Some u → URL_Port u = "" → strings.HasSuffix (URL_Host u) ":" = false →
    URL_Hostname u = URL_Host u ∨ str_existsb (λ c, char_eqb c ":") (URL_Hostname u) = true;
}.

Lemma dns_plain start s : dns_labels start s = true → plain_host s = true.
Proof.
  revert start. unfold plain_host. induction s as [|c s IH]; intros start; [done|]. cbn [dns_labels str_forallb].
  destruct (lower_alnum c); cbn [orb]; [apply IH|]. rewrite !andb_true_iff. intros [[_ ->] H]. split; [done|by eapply IH].
Qed.

Lemma plain_without_colon s : plain_host s = true → str_existsb (λ c, char_eqb c ":") s = false.
Proof. intros H. apply str_existsb_false. eapply str_forallb_mono; [|exact H]. intros c; by_byte c. Qed.

(** ** Azure *)

Section azure.
Context {Hurl : NetURL} {Hlaws : URLLaws} {R : RhizaMembers}.

Lemma set_true s : set s = true ↔ s ≠ "".
Proof. unfold set. rewrite negb_true_iff, bool_decide_eq_false. done. Qed.

Lemma set_false s : set s = false ↔ s = "".
Proof. unfold set. rewrite negb_false_iff, bool_decide_eq_true. done. Qed.

(** What an accepted account is. *)
Record accepted (a : azureStorageConfig) : Prop := {
  acc_name : azureAccountName (az_Account a) = true;
  acc_endpoint : az_BlobEndpoint a ≠ "";
  acc_checked : check_azure a = Ok a;
}.

Lemma check_azure_same a b : check_azure a = Ok b → b = a.
Proof.
  unfold check_azure. destruct (url_Parse _) as [u|]; [|done]. repeat (destruct (negb _) || destruct (strings.HasSuffix _ _); [done|]).
  cbv zeta. repeat case_match; congruence.
Qed.

Lemma normalized_accepted a b : normalized a = Ok b → accepted b.
Proof.
  unfold normalized. destruct (azureAccountName _) eqn:Hn; [|done]. cbn [negb].
  destruct (default_endpoint a) as [a'|] eqn:Ed; [|done]. cbn [mbind result_bind]. intros Hc.
  pose proof (check_azure_same _ _ Hc) as ->. unfold default_endpoint in Ed.
  destruct (set (az_BlobEndpoint a)) eqn:Es; [injection Ed as <-; split; [done|by apply set_true|done]|].
  destruct (az_Emulator a); [done|]. injection Ed as <-. split; [done|done|done].
Qed.

Lemma accepted_normalized a : accepted a → normalized a = Ok a.
Proof.
  intros [Hn He Hc]. unfold normalized, default_endpoint. rewrite Hn. cbn [negb]. by rewrite (proj2 (set_true _) He).
Qed.

(** The parsed endpoint of an accepted account. *)
Lemma accepted_url a : accepted a → ∃ u, url_Parse (az_BlobEndpoint a) = Some u ∧ canonical_endpoint (az_BlobEndpoint a) u = true ∧
  strings.HasSuffix (URL_Host u) ":" = false ∧
  (if az_Emulator a then emulator_endpoint a u else service_endpoint u) = true ∧
  (if set (az_ConnectionString a) then validateConnectionString a = None else account_endpoint a u = true).
Proof.
  intros [_ _ Hc]. unfold check_azure in Hc. destruct (url_Parse _) as [u|]; [|done]. exists u. split; [done|].
  destruct (canonical_endpoint _ u); [|done]. destruct (strings.HasSuffix _ _); [done|]. destruct (port_in_range u); [|done]. cbn [negb] in Hc.
  split; [done|]. split; [done|].
  destruct (az_Emulator a), (emulator_endpoint a u), (service_endpoint u); try done; cbn [negb] in Hc;
    destruct (1 <? forms a); try done; destruct (_ && _); try done; destruct (_ && _); try done; (split; [done|]);
    destruct (set (az_ConnectionString a)); try (by destruct (validateConnectionString a)); by destruct (account_endpoint a u).
Qed.
(** The account of the environment. *)
Lemma azure_env_accepted env a : azureStorageFromEnv env = Ok a → accepted a.
Proof.
  unfold azureStorageFromEnv. cbv zeta. destruct (_ && _ && _); [done|]. destruct (_ || _); [done|]. apply normalized_accepted.
Qed.

(** *** The endpoint that the library is given *)

Definition field_of (fields : gmap string string) (key : string) : string := default "" (fields !! key).

Lemma field_insert fields key value k : field_of (<[key := value]> fields) k = if bool_decide (k = key) then value else field_of fields k.
Proof. unfold field_of. case_bool_decide as E; [by rewrite E, lookup_insert_eq|by rewrite lookup_insert_ne by congruence]. Qed.

(** What is found of a connection string, given what was there before. *)
Definition found (before after : string) : string := if set before then "" else after.

(** The value that counts of a key that is not given twice. *)
Lemma connection_lookup items : ∀ fields fields', connection_fields fields items = Some fields' →
  (∀ key, set (field_of fields key) = true → field_of fields' key = field_of fields key) ∧
  (let value := found (field_of fields "BlobEndpoint") (field_of fields' "BlobEndpoint") in
   blob_endpoint items = if set value then Some value else None) ∧
  ∀ protocol suffix,
    let value key default := let v := found (field_of fields key) (field_of fields' key) in if set v then v else default in
    protocol_suffix protocol suffix items = (value "DefaultEndpointsProtocol" protocol, value "EndpointSuffix" suffix).
Proof.
  induction items as [|item items IH]; intros fields fields'.
  { intros [= <-]. split; [done|]. assert (H : ∀ key, found (field_of fields key) (field_of fields key) = "").
    { intros key. unfold found. destruct (set _) eqn:E; [done|]. by apply set_false. }
    cbv zeta. split; [by rewrite H|]. intros protocol suffix. by rewrite !H. }
  cbn [connection_fields blob_endpoint protocol_suffix]. destruct (strings.Cut item "=") as [[key value] ok].
  destruct ok; [|done]. cbn [negb orb]. case_bool_decide as Hv; [done|]. cbn [orb].
  fold (field_of fields key). destruct (set (field_of fields key)) eqn:Hk; [done|]. case_bool_decide; [|done].
  intros Hc. destruct (IH _ _ Hc) as (Hkeep & Hblob & Hps). cbn [andb].
  assert (Hvalue : field_of fields' key = value).
  { rewrite Hkeep; rewrite field_insert, bool_decide_eq_true_2; [done|done|by apply set_true|done]. }
  assert (Hkey : ∀ k, found (field_of fields k) (field_of fields' k) =
    if bool_decide (key = k) then value else found (field_of (<[key:=value]> fields) k) (field_of fields' k)).
  { intros k. case_bool_decide as E; [subst k; unfold found; by rewrite Hk|]. by rewrite field_insert, bool_decide_eq_false_2 by congruence. }
  assert (Hset : set value = true) by by apply set_true.
  assert (Hnow : ∀ k, key = k → found (field_of (<[key:=value]> fields) k) (field_of fields' k) = "").
  { intros k <-. unfold found. by rewrite field_insert, bool_decide_eq_true_2, Hset by done. }
  split; [|split].
  - intros k Hk'. rewrite Hkeep; rewrite field_insert; case_bool_decide as E; try done; subst k; congruence.
  - cbv zeta. rewrite Hkey. case_bool_decide as E; [by rewrite Hset|]. exact Hblob.
  - intros protocol suffix. cbv zeta. rewrite !Hkey, Hps. cbv zeta.
    f_equal; case_bool_decide as E; try done; by rewrite (Hnow _ E), Hset.
Qed.

Lemma connection_items cs fields : connection_fields ∅ (strings.Split (strings.TrimSuffix cs ";") ";") = Some fields →
  blob_endpoint (strings.Split cs ";") = (if set (field_of fields "BlobEndpoint") then Some (field_of fields "BlobEndpoint") else None) ∧
  protocol_suffix "https" "core.windows.net" (strings.Split cs ";") =
    (if set (field_of fields "DefaultEndpointsProtocol") then field_of fields "DefaultEndpointsProtocol" else "https",
     if set (field_of fields "EndpointSuffix") then field_of fields "EndpointSuffix" else "core.windows.net").
Proof.
  intros H. destruct (connection_lookup _ _ _ H) as (_ & Hb & Hp). cbv zeta in Hb, Hp.
  assert (E : ∀ v, found (field_of ∅ v) (field_of fields v) = field_of fields v) by done.
  setoid_rewrite E in Hp. rewrite E in Hb. clear E.
  assert (Hsplit : strings.Split cs ";" = strings.Split (strings.TrimSuffix cs ";") ";" ∨
    strings.Split cs ";" = strings.Split (strings.TrimSuffix cs ";") ";" ++ [""]).
  { unfold strings.TrimSuffix. destruct (strings.HasSuffix cs ";") eqn:Hs; [|by left]. right. apply HasSuffix_iff in Hs as [t ->].
    rewrite length_app_s. replace (String.length t + String.length ";" - String.length ";") with (String.length t) by lia.
    rewrite stake_app_len. change (t +:+ ";") with (t +:+ String ";" ""). by rewrite Split_app. }
  assert (Hblob : ∀ l, blob_endpoint (l ++ [""]) = blob_endpoint l).
  { induction l as [|x l IH]; [done|]. cbn [app blob_endpoint]. destruct (strings.Cut x "=") as [[k v] ok]. by rewrite IH. }
  assert (Hprot : ∀ l p s, protocol_suffix p s (l ++ [""]) = protocol_suffix p s l).
  { induction l as [|x l IH]; [done|]. intros p s. cbn [app protocol_suffix]. destruct (strings.Cut x "=") as [[k v] ok]. by rewrite IH. }
  destruct Hsplit as [-> | ->]; rewrite ?Hblob, ?Hprot; auto.
Qed.

Lemma connection_endpoint a : validateConnectionString a = None → set (az_ConnectionString a) = true →
  (match blob_endpoint (strings.Split (az_ConnectionString a) ";") with
   | Some value => value
   | None => let '(protocol, suffix) := protocol_suffix "https" "core.windows.net" (strings.Split (az_ConnectionString a) ";") in
             protocol +:+ "://" +:+ az_Account a +:+ ".blob." +:+ suffix
   end) = az_BlobEndpoint a.
Proof.
  unfold validateConnectionString. destruct (connection_fields _ _) as [fields|] eqn:Ec; [|done]. intros H _.
  destruct (connection_items _ _ Ec) as [-> ->]. cbv zeta in H. fold (field_of fields "BlobEndpoint") (field_of fields "EndpointSuffix")
    (field_of fields "DefaultEndpointsProtocol") (field_of fields "AccountName") (field_of fields "AccountKey") in H.
  destruct (_ || _) in H; [done|]. destruct (negb (validAzureAccountKey _)); [done|]. destruct (_ && _) in H; [done|].
  unfold set at 1. destruct (bool_decide (field_of fields "BlobEndpoint" = "")) eqn:Eb; cbn [negb].
  - destruct (negb (azureDNSName _)) in H; [done|]. case_bool_decide as E; [|done]. unfold set.
    rewrite <- E. by do 2 case_bool_decide.
  - destruct (_ || _) in H; [done|]. by case_bool_decide.
Qed.
Lemma TrimPrefix_prefix s p : strings.HasPrefix s p = true → p +:+ strings.TrimPrefix s p = s.
Proof. intros H. apply HasPrefix_iff in H as [r ->]. by rewrite TrimPrefix_app. Qed.

(** The endpoint given to the library, where there is no connection string. *)
Lemma account_suffix a u : accepted a → url_Parse (az_BlobEndpoint a) = Some u →
  az_Emulator a = false → set (az_ConnectionString a) = false → canonical_endpoint (az_BlobEndpoint a) u = true →
  strings.HasSuffix (URL_Host u) ":" = false → service_endpoint u = true → account_endpoint a u = true →
  ∃ suffix, suffix ≠ "" ∧ sdkEndpoint a = Some suffix ∧ "https://" +:+ az_Account a +:+ "." +:+ suffix = az_BlobEndpoint a.
Proof.
  intros Ha Hu Hem Hcs Hc Hs Hse Hacc. unfold account_endpoint in Hacc. unfold service_endpoint in Hse.
  rewrite !andb_true_iff in Hacc, Hse. destruct Hacc as [[Hport Hprefix] Hdns], Hse as [[Hscheme Hpath] Hnamed].
  apply bool_decide_eq_true in Hport, Hscheme, Hpath.
  unfold canonical_endpoint in Hc. apply negb_true_iff in Hc. rewrite !orb_false_iff in Hc.
  destruct Hc as [[[[[[[[[Huser Hq] Hfq] Hfr] Hop] Hhost] Hrp] _] Hstring] _].
  apply set_false in Hq, Hfr, Hop, Hrp. apply bool_decide_eq_false in Hhost. apply negb_false_iff, bool_decide_eq_true in Hstring.
  pose proof (dns_plain _ _ Hnamed) as Hh. destruct (url_hostname _ _ Hu Hport Hs) as [Hname|Hname];
    [|by rewrite (plain_without_colon _ Hh) in Hname].
  rewrite Hname in Hh. pose proof (url_plain _ _ Hu Hscheme Hh Huser Hop Hhost Hpath Hrp Hq Hfq Hfr) as Hplain. rewrite Hstring in Hplain.
  exists (strings.TrimPrefix (URL_Hostname u) (az_Account a +:+ ".")). split; [by intros E; rewrite E in Hdns|]. split.
  - unfold sdkEndpoint. rewrite Hu. cbn [mbind option_bind]. by rewrite !bool_decide_eq_true_2, Hprefix by done.
  - rewrite Hplain, <- Hname. rewrite <- (TrimPrefix_prefix _ _ Hprefix) at 2. by rewrite !app_assoc_s.
Qed.

(** The endpoint read back from the library's configuration is the account's. *)
Lemma endpoint_reads_back a c : accepted a →
  ∃ c', apply a c = Some c' ∧ azureEndpointFromRhiza c' = az_BlobEndpoint a ∧ cf_AzureAccount c' = az_Account a ∧
    cf_Bucket c' = cf_Bucket c ∧ cf_Prefix c' = cf_Prefix c ∧ cf_ClusterID c' = cf_ClusterID c ∧ cf_Provider c' = cf_Provider c ∧
    cf_Local c' = cf_Local c.
Proof.
  intros Ha. destruct (accepted_url a Ha) as (u & Hu & Hc & Hs & Hkind & Hform).
  destruct (set (az_ConnectionString a)) eqn:Hcs.
  - assert (∃ e, sdkEndpoint a = Some e) as [e He] by (unfold sdkEndpoint; rewrite Hu; by eexists).
    unfold apply. rewrite He. eexists. split; [done|]. split; [|done].
    unfold azureEndpointFromRhiza. cbn. rewrite Hcs. by apply connection_endpoint.
  - assert (Hem : az_Emulator a = false).
    { destruct (az_Emulator a); [|done]. unfold emulator_endpoint in Hkind. by rewrite Hcs, andb_false_r in Hkind. }
    rewrite Hem in Hkind. destruct (account_suffix a u) as (e & Hne & He & Heq); [done..|].
    unfold apply. rewrite He. eexists. split; [done|]. split; [|done].
    unfold azureEndpointFromRhiza. cbn. by rewrite Hcs, bool_decide_eq_false_2.
Qed.
End azure.

(** ** The identity of the storage root *)

Section config.
Context {Hurl : NetURL} {R : RhizaMembers} (env : environment).

(** What an accepted configuration took from the environment. *)
Record took (c : rhizaConfig) : Prop := {
  tk_cluster : cf_ClusterID c = getenv_or env "TERNAL_DATA_CLUSTER_ID" "ternal";
  tk_local : cf_Local c = bool_decide (env "TERNAL_DATA_LOCAL" = "1");
  tk_provider : cf_Provider c = env "TERNAL_OBJECT_STORE_PROVIDER";
  tk_bucket : cf_Bucket c = env "TERNAL_OBJECT_STORE_BUCKET";
  tk_prefix : cf_Prefix c = env "TERNAL_OBJECT_STORE_PREFIX";
}.

Lemma apply_keeps a c c' : apply a c = Some c' → cf_ClusterID c' = cf_ClusterID c ∧ cf_Local c' = cf_Local c ∧ cf_Provider c' = cf_Provider c ∧
  cf_Bucket c' = cf_Bucket c ∧ cf_Prefix c' = cf_Prefix c.
Proof. unfold apply. destruct (sdkEndpoint a); [|done]. cbn. by intros [= <-]. Qed.

Lemma apply_env_inv c c' : applyAzureStorageFromEnv env c = Ok c' →
  (cf_Provider c ≠ "azure" ∧ c' = c) ∨
  (cf_Provider c = "azure" ∧ ∃ a, azureStorageFromEnv env = Ok a ∧ cf_Bucket c ≠ "" ∧ apply a c = Some c').
Proof.
  unfold applyAzureStorageFromEnv. case_bool_decide as Hp; cbn [negb]; [|intros [= <-]; by left].
  destruct (azureStorageFromEnv env) as [a|]; [|done]. cbn [mbind result_bind]. case_bool_decide as Hb; [done|].
  destruct (apply a c) as [c1|] eqn:E; [|done]. intros [= <-]. right. eauto.
Qed.

Lemma apply_env_took c c' : applyAzureStorageFromEnv env c = Ok c' → took c → took c'.
Proof.
  intros H [H1 H2 H3 H4 H5]. destruct (apply_env_inv _ _ H) as [[_ ->]|(_ & a & _ & _ & Ha)]; [done|].
  destruct (apply_keeps _ _ _ Ha) as (E1 & E2 & E3 & E4 & E5). split; congruence.
Qed.

Lemma intervals_inv k c : intervals env k = Ok c → ∃ x y z, (0 < x)%Z ∧ (0 < y)%Z ∧ (0 < z)%Z ∧ k x y z = Ok c.
Proof.
  assert (Hd : ∀ key fallback d, (0 < fallback)%Z → durationEnv env key fallback = Ok d → (0 < d)%Z).
  { intros key fallback d Hf. unfold durationEnv. case_bool_decide; [by intros [= <-]|]. destruct (duration.ParseDuration _); [|done].
    destruct (Z.leb_spec z 0); [done|]. by intros [= <-]. }
  unfold intervals. destruct (durationEnv env "TERNAL_OBJECT_STORE_SYNC_INTERVAL" _) as [x|] eqn:Ex; [|done].
  destruct (durationEnv env "TERNAL_OBJECT_STORE_BATCH_DELAY" _) as [y|] eqn:Ey; [|done].
  destruct (durationEnv env "TERNAL_DATA_CHECKPOINT_INTERVAL" _) as [z|] eqn:Ez; [|done]. cbn [mbind result_bind].
  intros H. exists x, y, z. repeat split; [eapply Hd; [|exact Ex]|eapply Hd; [|exact Ey]|eapply Hd; [|exact Ez]|done]; unfold second; lia.
Qed.
(** *** Local mode *)

Record local_demands : Prop := {
  ld_forbidden name : name ∈ localForbidden → env name = "";
  ld_zeros name : name ∈ localZeros → env name = "" ∨ env name = "0";
  ld_provider : env "TERNAL_OBJECT_STORE_PROVIDER" ∈ ["s3"; "gcs"; "azure"];
  ld_ack : env "TERNAL_LOCAL_WRITER_GC_QUIESCENCE_ACK" = "1";
  ld_durability : env "TERNAL_OBJECT_STORE_DURABILITY" = "" ∨ env "TERNAL_OBJECT_STORE_DURABILITY" = "before-ack";
  ld_cluster : single_component (env "TERNAL_DATA_CLUSTER_ID") = true;
  ld_prefix : canonical_prefix (env "TERNAL_OBJECT_STORE_PREFIX") = true;
  ld_bucket : env "TERNAL_OBJECT_STORE_BUCKET" ≠ "";
  ld_gcs : env "TERNAL_OBJECT_STORE_PROVIDER" = "gcs" → env "TERNAL_OBJECT_STORE_ENDPOINT" = "" ∧ env "TERNAL_OBJECT_STORE_INSECURE" ≠ "true";
}.

Lemma find_none {A} (p : A → bool) l : List.find p l = None → ∀ x, x ∈ l → p x = false.
Proof. intros H x Hx. eapply List.find_none; [exact H|by apply list_elem_of_In]. Qed.

(** The next check is not what failed. *)
Ltac refused H := match goal with |- (if ?b then Some _ else _) = None → _ => destruct b eqn:H; [discriminate|] end.

Lemma local_checks_spec : local_checks env = None → local_demands.
Proof.
  unfold local_checks, first_set. destruct (List.find _ localForbidden) eqn:Hf; [done|]. destruct (List.find _ localZeros) eqn:Hz; [done|].
  cbv zeta. refused Hp. refused Hack. refused Hd. refused Hc. refused Hx. refused Hb. refused Hg.
  apply negb_false_iff in Hack, Hc, Hx. apply bool_decide_eq_true in Hack. apply bool_decide_eq_false in Hb. intros _. split; try done.
  - intros name Hn. apply set_false. exact (find_none _ _ Hf name Hn).
  - intros name Hn. pose proof (find_none _ _ Hz name Hn) as E. cbv beta in E. apply andb_false_iff in E as [E|E]; [left; by apply set_false|].
    right. by apply negb_false_iff, bool_decide_eq_true in E.
  - rewrite !andb_false_iff in Hp. destruct Hp as [[Hp|Hp]|Hp]; apply negb_false_iff, bool_decide_eq_true in Hp; rewrite Hp; set_solver.
  - apply andb_false_iff in Hd as [Hd|Hd]; [left; by apply set_false|right; by apply negb_false_iff, bool_decide_eq_true in Hd].
  - intros E. rewrite bool_decide_eq_true_2 in Hg by done. apply orb_false_iff in Hg as [Hg1 Hg2].
    split; [by apply set_false|by apply bool_decide_eq_false in Hg2].
Qed.

Lemma local_cluster : local_demands → getenv_or env "TERNAL_DATA_CLUSTER_ID" "ternal" = env "TERNAL_DATA_CLUSTER_ID".
Proof.
  intros H. pose proof (ld_cluster H) as Hc. unfold getenv_or. rewrite bool_decide_eq_false_2; [done|]. intros E. by rewrite E in Hc.
Qed.

(** The endpoint, where it is not that of an Azure account. *)
Definition generic_endpoint (c : rhizaConfig) : Prop := cf_Provider c ≠ "azure" → cf_Endpoint c = env "TERNAL_OBJECT_STORE_ENDPOINT".

Lemma local_settings_inv dataDir c : env "TERNAL_DATA_LOCAL" = "1" → localConfigFromEnv env dataDir = Ok c →
  local_demands ∧ ∃ x y z c0, (0 < x)%Z ∧ (0 < y)%Z ∧ (0 < z)%Z ∧ took c0 ∧ cf_Endpoint c0 = env "TERNAL_OBJECT_STORE_ENDPOINT" ∧
    cf_NodeID c0 = getenv_or env "TERNAL_DATA_NODE_ID" "node-1" ∧ cf_Members c0 = [] ∧ cf_AdminToken c0 = "" ∧ cf_PeerToken c0 = "" ∧
    cf_Durability c0 = ObjectStoreDurabilityBeforeAck ∧ cf_SyncInterval c0 = x ∧ cf_BatchDelay c0 = y ∧ cf_CheckpointInterval c0 = z ∧
    applyAzureStorageFromEnv env c0 = Ok c.
Proof.
  intros Hm H. unfold localConfigFromEnv in H. destruct (local_checks env) eqn:Hc; [done|]. pose proof (local_checks_spec Hc) as Hl.
  split; [done|]. apply intervals_inv in H as (x & y & z & Hx & Hy & Hz & H). exists x, y, z.
  match type of H with applyAzureStorageFromEnv _ ?c0 = _ => exists c0 end.
  do 3 (split; [done|]). split; [split; cbn; [by rewrite local_cluster|by rewrite bool_decide_eq_true_2|done..]|].
  do 9 (split; [reflexivity|]). exact H.
Qed.
Lemma env_keeps c0 c : applyAzureStorageFromEnv env c0 = Ok c →
  cf_ClusterID c = cf_ClusterID c0 ∧ cf_Local c = cf_Local c0 ∧ cf_Provider c = cf_Provider c0 ∧ cf_Bucket c = cf_Bucket c0 ∧ cf_Prefix c = cf_Prefix c0 ∧
  cf_NodeID c = cf_NodeID c0 ∧ cf_DataDir c = cf_DataDir c0 ∧ cf_Members c = cf_Members c0 ∧ cf_AdminToken c = cf_AdminToken c0 ∧ cf_PeerToken c = cf_PeerToken c0 ∧
  cf_Durability c = cf_Durability c0 ∧ cf_SyncInterval c = cf_SyncInterval c0 ∧ cf_BatchDelay c = cf_BatchDelay c0 ∧
  cf_CheckpointInterval c = cf_CheckpointInterval c0.
Proof.
  intros H. destruct (apply_env_inv _ _ H) as [[_ ->]|(_ & a & _ & _ & Ha)]; [by split_and!|].
  unfold apply in Ha. destruct (sdkEndpoint a); [|done]. injection Ha as <-. by split_and!.
Qed.

(** *** One node and three *)

Lemma cluster_inv dataDir c : env "TERNAL_DATA_LOCAL" ≠ "1" → rhizaConfigFromEnv env dataDir = Ok c →
  ∃ members public peer x y z c0, members_from_env env = Ok members ∧ cluster_checks env (env "TERNAL_DATA_ADMIN_TOKEN") members = None ∧
    rhizaIdentity (getenv_or env "TERNAL_DATA_CLUSTER_ID" "ternal") (getenv_or env "TERNAL_DATA_NODE_ID" "node-1") members = Ok (public, peer) ∧
    (0 < x)%Z ∧ (0 < y)%Z ∧ (0 < z)%Z ∧ took c0 ∧ cf_NodeID c0 = getenv_or env "TERNAL_DATA_NODE_ID" "node-1" ∧
    cf_Members c0 = public ∧ cf_AdminToken c0 = env "TERNAL_DATA_ADMIN_TOKEN" ∧ cf_PeerToken c0 = peer ∧
    cf_Durability c0 = getenv_or env "TERNAL_OBJECT_STORE_DURABILITY" ObjectStoreDurabilityAsync ∧
    cf_SyncInterval c0 = x ∧ cf_BatchDelay c0 = y ∧ cf_CheckpointInterval c0 = z ∧ applyAzureStorageFromEnv env c0 = Ok c.
Proof.
  intros Hm H. unfold rhizaConfigFromEnv in H. rewrite bool_decide_eq_false_2 in H by done. cbv zeta in H.
  destruct (_ && _) in H; [done|]. destruct (_ && _) in H; [done|].
  destruct (members_from_env env) as [members|] eqn:Em; [|done]. cbn [mbind result_bind] in H.
  destruct (cluster_checks env _ members) eqn:Ec; [done|].
  destruct (rhizaIdentity _ _ members) as [[public peer]|] eqn:Er; [|done]. cbn [mbind result_bind] in H.
  apply intervals_inv in H as (x & y & z & Hx & Hy & Hz & H). exists members, public, peer, x, y, z.
  match type of H with applyAzureStorageFromEnv _ ?c0 = _ => exists c0 end.
  do 6 (split; [done|]). split; [split; cbn; [done|by rewrite bool_decide_eq_false_2|done..]|]. do 8 (split; [reflexivity|]). exact H.
Qed.
End config.

(** [C16] The trust anchor is bound to the storage that is opened.  In Local mode
    the storage ID and the cluster that the trust anchor's binding takes from
    the environment are those of the configuration that is given to the storage
    library, also where its Azure endpoint is read back from a connection
    string or from the account and its suffix; and they are not empty. *)
Theorem binding_is_the_opened_storage {Hurl : NetURL} {Hlaws : URLLaws} {R : RhizaMembers} env dataDir c :
  rhizaConfigFromEnv env dataDir = Ok c → cf_Local c = true →
  storageBindingFromEnv env = (cf_ClusterID c, localStorageID c) ∧ localStorageID c ≠ "" ∧ cf_ClusterID c ≠ "".
Proof.
  intros H Hl. destruct (decide (env "TERNAL_DATA_LOCAL" = "1")) as [Hm|Hm].
  2:{ apply cluster_inv in H as (members & public & peer & x & y & z & c0 & _ & _ & _ & _ & _ & _ & Ht & _ & _ & _ & _ & _ & _ & _ & _ & H); [|done].
      apply apply_env_took in H; [|done]. pose proof (tk_local _ _ H) as E. rewrite Hl, bool_decide_eq_false_2 in E; done. }
  unfold rhizaConfigFromEnv in H. rewrite bool_decide_eq_true_2 in H by done.
  destruct (local_settings_inv env _ _ Hm H) as (Hd & x & y & z & c0 & _ & _ & _ & Ht & He & _ & _ & _ & _ & _ & _ & _ & _ & Ha).
  pose proof (apply_env_took _ _ _ Ha Ht) as [Hc _ Hp Hbk Hx]. pose proof (ld_cluster env Hd) as Hcl.
  rewrite (local_cluster env Hd) in Hc.
  assert (Hne : localStorageID c ≠ "" ∧ cf_ClusterID c ≠ "").
  { split; [|rewrite Hc; by intros E; rewrite E in Hcl]. unfold localStorageID, LocalTrustAnchorStorageID, localStorageDomain.
    assert (Hh : ∀ s, hashSecret s ≠ "") by (intros s E; pose proof (length_hashSecret s) as Hlen; by rewrite E in Hlen).
    case_bool_decide; unfold AzureTrustAnchorStorageID, TrustAnchorStorageID; rewrite bool_decide_eq_false_2 by apply Hh; apply Hh. }
  split; [|done]. unfold storageBindingFromEnv. cbv zeta. rewrite (local_cluster env Hd), bool_decide_eq_true_2, Hc by done. f_equal.
  unfold localIdentity, identity_at, localStorageID, localNamespace. cbn [st_Provider st_Azure st_Bucket st_Prefix st_Endpoint recoveryStorageFromEnv].
  rewrite Hp, Hbk, Hx, Hc. destruct (apply_env_inv _ _ _ Ha) as [[Hnaz ->]|(Haz & a & Hok & Hbne & Happ)].
  - rewrite (tk_provider _ _ Ht) in Hnaz. rewrite !bool_decide_eq_false_2 by done. unfold LocalTrustAnchorStorageID. by rewrite He.
  - rewrite (tk_provider _ _ Ht) in Haz. rewrite !bool_decide_eq_true_2 by done. rewrite Hok.
    pose proof (azure_env_accepted env a Hok) as Hacc. rewrite (accepted_normalized a Hacc).
    destruct (endpoint_reads_back a c0 Hacc) as (c' & Happ' & Hend & Hacct & _). rewrite Happ in Happ'. injection Happ' as <-.
    by rewrite Hend, Hacct.
Qed.

(** ** The namespace of the archive *)

Lemma Split_Join_at c l : l ≠ [] → Forall (λ s, without c s = true) l → strings.Split (strings.Join l (String c "")) c = l.
Proof.
  intros Hne H. induction H as [|x l Hx Hl IH]; [done|]. destruct l as [|y l]; [by apply Split_single|].
  change (strings.Join (x :: y :: l) (String c "")) with (x +:+ String c "" +:+ strings.Join (y :: l) (String c "")).
  rewrite app_cons_s, app_nil_s. rewrite Split_app, Split_single by done. by rewrite IH.
Qed.

(** An element that Clean keeps. *)
Definition plain_element (e : string) : Prop := e ≠ "" ∧ e ≠ "." ∧ e ≠ "..".

Lemma clean_kept l kept : (∃ normal n, kept = normal ++ repeat ".." n ∧ Forall plain_element normal) →
  ∃ normal n, foldl (path.clean_step false) kept l = normal ++ repeat ".." n ∧ Forall plain_element normal.
Proof.
  revert kept. induction l as [|e l IH]; intros kept Hk; [done|]. cbn [foldl]. apply IH. clear IH. destruct Hk as (normal & n & -> & Hn).
  unfold path.clean_step. case_bool_decide; [cbn [orb]; eauto|]. case_bool_decide; [cbn [orb]; eauto|]. cbn [orb].
  case_bool_decide as E; [|exists (e :: normal), n; split; [done|]; constructor; [done|exact Hn]].
  subst e. destruct normal as [|t normal].
  - cbn [app]. destruct n as [|n]; cbn [repeat]; [by exists [], 1|]. rewrite bool_decide_eq_true_2 by done. by exists [], (S (S n)).
  - apply Forall_cons in Hn as [(_ & _ & Ht) Hn]. cbn [app]. rewrite bool_decide_eq_false_2 by done. eauto.
Qed.

Lemma clean_plain l kept : Forall plain_element l → foldl (path.clean_step false) kept l = reverse l ++ kept.
Proof.
  revert kept. induction l as [|e l IH]; intros kept H; [done|]. apply Forall_cons in H as [(H1 & H2 & H3) H]. cbn [foldl].
  rewrite IH by done. unfold path.clean_step. rewrite !bool_decide_eq_false_2 by done. cbn [orb]. rewrite reverse_cons, <- app_assoc. done.
Qed.

Lemma clean_elements_slash l kept : Forall (λ e, without slash e = true) l → Forall (λ e, without slash e = true) kept →
  Forall (λ e, without slash e = true) (foldl (path.clean_step false) kept l).
Proof.
  revert kept. induction l as [|e l IH]; intros kept Hl Hk; [done|]. apply Forall_cons in Hl as [He Hl]. cbn [foldl]. apply IH; [done|].
  unfold path.clean_step. destruct (_ || _); [done|]. case_bool_decide; [|by constructor]. destruct kept as [|t kept]; [by constructor|].
  case_bool_decide; [by constructor|]. by apply Forall_cons in Hk as [_ Hk].
Qed.

(** A canonical relative path is the join of plain elements. *)
Lemma canonical_elements prefix : canonical_prefix prefix = true → ∃ l, l ≠ [] ∧ prefix = strings.Join l "/" ∧ Forall plain_element l ∧
  Forall (λ e, without slash e = true) l.
Proof.
  unfold canonical_prefix. intros H. apply negb_true_iff in H. rewrite !orb_false_iff in H. destruct H as [[[[[[H1 H2] H3] H4] H5] H6] _].
  apply negb_false_iff, bool_decide_eq_true in H3. apply bool_decide_eq_false in H1, H4, H5.
  unfold path.Clean in H3. rewrite H2 in H3. cbv zeta in H3. rewrite app_nil_s in H3.
  destruct (clean_kept (strings.Split prefix slash) []) as (normal & n & E & Hn); [by exists [], 0|].
  pose proof (clean_elements_slash (strings.Split prefix slash) []) as Hs. rewrite E in Hs, H3.
  assert (Hslash : Forall (λ e, without slash e = true) (normal ++ repeat ".." n)).
  { apply Hs; [|constructor]. apply Forall_forall. intros e He. by eapply Split_no_sep. }
  rewrite reverse_app in H3.
  assert (Hrev : reverse (repeat ".." n) = repeat ".." n).
  { clear. induction n as [|n IH]; [done|]. cbn [repeat]. rewrite reverse_cons, IH. clear. induction n as [|n IH]; [done|]. cbn. by rewrite IH. }
  rewrite Hrev in H3. case_bool_decide as Ee; [congruence|].
  destruct n as [|n].
  - cbn [repeat app] in H3. exists (reverse normal). rewrite app_nil_r in Hslash. split; [intros En; rewrite En in H3; by subst|].
    split; [done|]. split; apply Forall_reverse; done.
  - exfalso. cbn [repeat app] in H3. destruct (repeat ".." n ++ reverse normal) as [|x l]; [by subst|].
    change (strings.Join (".." :: x :: l) "/") with ("../" +:+ strings.Join (x :: l) "/") in H3. rewrite <- H3, HasPrefix_app in H6. done.
Qed.

Lemma single_component_plain cluster : single_component cluster = true → plain_element cluster ∧ without slash cluster = true.
Proof.
  unfold single_component. intros H. apply negb_true_iff in H. rewrite !orb_false_iff in H. destruct H as [[[H1 H2] H3] H4].
  apply bool_decide_eq_false in H1, H2, H3. split; [done|]. unfold strings.ContainsAny in H4. unfold without.
  clear H1 H2 H3. induction cluster as [|c s IH]; [done|]. cbn [str_existsb] in H4. apply orb_false_iff in H4 as [Hc Hs]. cbn [str_forallb].
  rewrite (IH Hs), andb_true_r. apply negb_true_iff. destruct (char_eqb c slash) eqn:E; [|done]. by apply bool_decide_eq_true in E as ->.
Qed.

(** The archive lies under the prefix and the cluster, as they are written. *)
Lemma namespace_is_inside prefix cluster : canonical_prefix prefix = true → single_component cluster = true →
  path.Join [prefix; cluster; "local/v1"] = prefix +:+ "/" +:+ cluster +:+ "/local/v1".
Proof.
  intros Hp Hc. destruct (canonical_elements _ Hp) as (l & Hne & -> & Hl & Hs). destruct (single_component_plain _ Hc) as [Hcl Hcs].
  assert (Hpre : strings.Join l "/" ≠ "").
  { destruct l as [|x [|y l]]; [done| |]; apply Forall_cons in Hl as [(Hx & _ & _) _]; [done|]. by destruct x. }
  assert (Hjoin : strings.Join l "/" +:+ "/" +:+ cluster +:+ "/local/v1" = strings.Join (l ++ [cluster; "local"; "v1"]) "/").
  { clear -Hne. induction l as [|x l IH]; [done|]. destruct l as [|y l]; [done|].
    change (strings.Join (x :: y :: l) "/") with (x +:+ "/" +:+ strings.Join (y :: l) "/").
    change (strings.Join ((x :: y :: l) ++ [cluster; "local"; "v1"]) "/") with (x +:+ "/" +:+ strings.Join ((y :: l) ++ [cluster; "local"; "v1"]) "/").
    rewrite <- IH by done. by rewrite !app_assoc_s. }
  assert (Hplain : Forall plain_element (l ++ [cluster; "local"; "v1"])).
  { apply Forall_app. split; [done|]. apply Forall_cons. split; [done|]. apply Forall_cons. split; [done|]. by apply Forall_cons. }
  assert (Hslash : Forall (λ e, without slash e = true) (l ++ [cluster; "local"; "v1"])).
  { apply Forall_app. split; [done|]. apply Forall_cons. split; [done|]. apply Forall_cons. split; [done|]. by apply Forall_cons. }
  unfold path.Join. rewrite !filter_cons_True by (done || apply Hcl). cbn [filter list_filter].
  change (strings.Join [strings.Join l "/"; cluster; "local/v1"] "/") with (strings.Join l "/" +:+ "/" +:+ cluster +:+ "/local/v1").
  rewrite Hjoin. unfold path.Clean.
  assert (Habs : path.IsAbs (strings.Join (l ++ [cluster; "local"; "v1"]) "/") = false).
  { unfold canonical_prefix in Hp. apply negb_true_iff in Hp. rewrite !orb_false_iff in Hp. destruct Hp as [[[[[[_ H2] _] _] _] _] _].
    rewrite <- Hjoin. unfold path.IsAbs, strings.HasPrefix in *. revert Hpre H2. clear.
    destruct (strings.Join l "/") as [|c s]; [done|]. intros _. rewrite app_cons_s. cbn [String.prefix].
    destruct (ascii_dec "/" c); [by destruct s|done]. }
  rewrite Habs.
  assert (strings.Split (strings.Join (l ++ [cluster; "local"; "v1"]) "/") slash = l ++ [cluster; "local"; "v1"]) as ->
      by (apply Split_Join_at; [by destruct l|done]).
  rewrite clean_plain by done. rewrite app_nil_r, reverse_involutive, app_nil_s. rewrite bool_decide_eq_false_2; [done|].
  rewrite <- Hjoin. by destruct (strings.Join l "/").
Qed.

(** ** What an accepted configuration has *)

Section accepted.
Context {Hurl : NetURL} {R : RhizaMembers} (env : environment).

Lemma check_members_spec admin ids tokens members : check_members admin ids tokens members = None →
  NoDup (member_ids members) ∧ NoDup members.*2 ∧ Forall (λ m, 32 ≤ String.length m.2 ∧ m.2 ≠ admin) members ∧
  ∀ m, m ∈ members → Member_ID m.1 ∉ ids ∧ m.2 ∉ tokens.
Proof.
  revert ids tokens. induction members as [|[m token] members IH]; intros ids tokens; cbn [check_members].
  { intros _. repeat split; try constructor; by apply elem_of_nil in H. }
  case_bool_decide as H1; [done|]. destruct (Nat.ltb_spec (String.length token) 32) as [|H2]; [done|].
  case_bool_decide as H3; [done|]. case_bool_decide as H4; [done|]. intros H. destruct (IH _ _ H) as (Hi & Ht & Hall & Hnew).
  split; [|split; [|split; [by constructor|]]].
  - unfold member_ids. csimpl. constructor; [|done]. intros (m' & E & Hm')%list_elem_of_fmap. destruct (Hnew _ Hm') as [Hn _].
    apply Hn. rewrite E. by left.
  - csimpl. constructor; [|done]. intros (m' & E & Hm')%list_elem_of_fmap. destruct (Hnew _ Hm') as [_ Hn]. apply Hn. rewrite E. by left.
  - intros m' [->|Hm']%elem_of_cons; [done|]. destruct (Hnew _ Hm'). set_solver.
Qed.

Lemma check_expected_spec ids seen expected : check_expected ids seen expected = None →
  NoDup expected ∧ (∀ id, id ∈ expected → id ≠ "" ∧ id ∈ ids ∧ id ∉ seen).
Proof.
  revert seen. induction expected as [|id expected IH]; intros seen; cbn [check_expected].
  { intros _. split; [constructor|]. intros id H. by apply elem_of_nil in H. }
  case_bool_decide as H1; [done|]. case_bool_decide as H2; [done|]. case_bool_decide as H3; [|done]. cbn [negb]. intros H.
  destruct (IH _ H) as [Hn Hall]. split.
  - constructor; [|done]. intros Hid. destruct (Hall _ Hid) as (_ & _ & Hs). apply Hs. by left.
  - intros id' [->|Hid]%elem_of_cons; [done|]. destruct (Hall _ Hid) as (? & ? & ?). set_solver.
Qed.

Lemma rhizaIdentity_spec cluster node members public peer : rhizaIdentity cluster node members = Ok (public, peer) →
  public = (λ m, with_PublicKey (PeerPublicKey cluster (Member_ID m.1) m.2) m.1) <$> members ∧
  (NoDup (member_ids members) → ∀ m, m ∈ members → Member_ID m.1 = node → peer = m.2) ∧
  (node ∉ member_ids members → peer = "").
Proof.
  revert public peer. induction members as [|[m token] members IH]; intros public peer; cbn [rhizaIdentity].
  { intros [= <- <-]. split; [done|]. split; [|done]. intros _ m H. by apply elem_of_nil in H. }
  destruct (_ && _); [done|]. destruct (rhizaIdentity _ _ members) as [[projected p]|] eqn:Er; [|done].
  cbn [mbind result_bind]. intros [= <- <-]. destruct (IH _ _ eq_refl) as (-> & Hpeer & Hnone). split; [done|].
  assert (Hex : existsb (λ id, bool_decide (id = node)) (member_ids members) = bool_decide (node ∈ member_ids members)).
  { apply eq_true_iff_eq. rewrite List.existsb_exists, bool_decide_eq_true. setoid_rewrite bool_decide_eq_true. setoid_rewrite <- list_elem_of_In.
    split; [by intros (x & Hx & ->)|intros Hx; by exists node]. }
  rewrite Hex. split.
  - unfold member_ids at 1. csimpl. intros [Hm Hn]%NoDup_cons m' Hin E. apply elem_of_cons in Hin as [->|Hin].
    + cbn in *. subst node. by rewrite bool_decide_eq_true_2, bool_decide_eq_false_2.
    + rewrite bool_decide_eq_false_2; [by apply Hpeer|]. intros E'. apply Hm. rewrite E', <- E. by apply (list_elem_of_fmap_2 (λ m, Member_ID m.1)).
  - unfold member_ids at 1. csimpl. intros [Hm Hn]%not_elem_of_cons. rewrite bool_decide_eq_false_2 by congruence. by apply Hnone.
Qed.

(** What three nodes need of each other, and one node of its storage. *)
Definition cluster_demands (admin : string) (members : list (Member * string)) : Prop :=
  if bool_decide (env "TERNAL_DATA_MULTI_NODE" = "1")
  then length members = 3 ∧ NoDup (member_ids members) ∧ NoDup members.*2 ∧ 32 ≤ String.length admin ∧
    Forall (λ m, 32 ≤ String.length m.2 ∧ m.2 ≠ admin) members ∧
    (env "TERNAL_DATA_EXPECTED_MEMBER_IDS" ≠ "" → strings.Split (env "TERNAL_DATA_EXPECTED_MEMBER_IDS") "," ≡ₚ member_ids members)
  else members = [] ∧ (requireTrustAnchor env = true → env "TERNAL_OBJECT_STORE_DURABILITY" = "before-ack").

Lemma cluster_checks_spec admin members : cluster_checks env admin members = None → cluster_demands admin members.
Proof.
  unfold cluster_checks, cluster_demands. cbv zeta. destruct (_ && _ && _); [done|]. case_bool_decide as Hm.
  - unfold multi_node_checks. cbv zeta. destruct (Nat.eqb_spec (length members) 3) as [Hlen|]; [|done]. cbn [negb].
    destruct (Nat.ltb_spec (String.length admin) 32) as [|Hadm]; [done|]. destruct (check_members _ _ _ _) eqn:Hc; [done|].
    apply check_members_spec in Hc as (Hi & Ht & Hall & _). intros H. do 5 (split; [done|]). intros He.
    rewrite bool_decide_eq_false_2 in H by done. destruct (Nat.eqb_spec (length (strings.Split (env "TERNAL_DATA_EXPECTED_MEMBER_IDS") ",")) 3) as [Hel|]; [|done].
    cbn [negb] in H. destruct (check_expected _ _ _) eqn:Hx; [done|]. apply check_expected_spec in Hx as [Hn Hin].
    apply submseteq_length_Permutation; [apply NoDup_submseteq; [done|]; intros id Hid; by destruct (Hin _ Hid) as (_ & ? & _)|].
    unfold member_ids. rewrite length_fmap. lia.
  - destruct (negb (length members =? 0)) eqn:Hl; [done|]. cbn [orb]. apply negb_false_iff, Nat.eqb_eq, nil_length_inv in Hl as ->.
    destruct (set _); [done|]. cbn [negb andb]. destruct (requireTrustAnchor env); [|done]. case_bool_decide; [done|done].
Qed.

(** [C39] What an accepted configuration has.  Its three intervals are positive.
    In Local mode it has no members and no tokens, waits for the archive before
    it acknowledges, and its archive lies under the prefix and the one-component
    cluster ID as they are written.  Otherwise its members are those of the
    environment, each with the public key of its own token and this node with
    its own token as the secret; three nodes have distinct IDs and distinct
    tokens of at least 32 bytes, none of them the admin token, and are the
    expected ones; a single node whose storage needs a trust anchor waits for it. *)
Theorem accepted_configuration dataDir c : rhizaConfigFromEnv env dataDir = Ok c →
  ((0 < cf_SyncInterval c)%Z ∧ (0 < cf_BatchDelay c)%Z ∧ (0 < cf_CheckpointInterval c)%Z) ∧
  (cf_Local c = true → local_demands env ∧ cf_Durability c = ObjectStoreDurabilityBeforeAck ∧
     cf_Members c = [] ∧ cf_AdminToken c = "" ∧ cf_PeerToken c = "" ∧
     localNamespace c = cf_Prefix c +:+ "/" +:+ cf_ClusterID c +:+ "/local/v1") ∧
  (cf_Local c = false → ∃ members, members_from_env env = Ok members ∧ cluster_demands (cf_AdminToken c) members ∧
     cf_Members c = (λ m, with_PublicKey (PeerPublicKey (cf_ClusterID c) (Member_ID m.1) m.2) m.1) <$> members ∧
     (∀ m, m ∈ members → Member_ID m.1 = cf_NodeID c → cf_PeerToken c = m.2) ∧
     (cf_NodeID c ∉ member_ids members → cf_PeerToken c = "")).
Proof.
  intros H. destruct (decide (env "TERNAL_DATA_LOCAL" = "1")) as [Hm|Hm].
  - unfold rhizaConfigFromEnv in H. rewrite bool_decide_eq_true_2 in H by done.
    destruct (local_settings_inv env _ _ Hm H) as (Hd & x & y & z & c0 & Hx & Hy & Hz & Ht & _ & _ & Hmem & Hadm & Hpeer & Hdur & <- & <- & <- & Ha).
    destruct (env_keeps _ _ _ Ha) as (Hc & Hl & _ & _ & Hp & _ & _ & E1 & E2 & E3 & E4 & E5 & E6 & E7).
    split; [by rewrite E5, E6, E7|]. split.
    2:{ intros Hf. rewrite Hl, (tk_local _ _ Ht), bool_decide_eq_true_2 in Hf; done. }
    intros _. split; [done|]. do 4 (split; [congruence|]). unfold localNamespace.
    rewrite Hp, Hc, (tk_prefix _ _ Ht), (tk_cluster _ _ Ht), (local_cluster env Hd).
    apply namespace_is_inside; apply Hd.
  - apply cluster_inv in H as (members & public & peer & x & y & z & c0 & Hmem & Hchk & Hid & Hx & Hy & Hz & Ht & Hn & Hpub & Hadm & Hpeer & _ & <- & <- & <- & Ha); [|done].
    destruct (env_keeps _ _ _ Ha) as (Hc & Hl & _ & _ & _ & Hnode & _ & E1 & E2 & E3 & _ & E5 & E6 & E7).
    split; [by rewrite E5, E6, E7|]. split.
    { intros Hf. rewrite Hl, (tk_local _ _ Ht), bool_decide_eq_false_2 in Hf; done. }
    intros _. exists members. split; [done|]. pose proof (cluster_checks_spec _ _ Hchk) as Hdem. rewrite E2, Hadm. split; [done|].
    destruct (rhizaIdentity_spec _ _ _ _ _ Hid) as (Hp1 & Hp2 & Hp3). rewrite E1, Hpub, Hp1, Hc, (tk_cluster _ _ Ht). split; [done|].
    rewrite E3, Hpeer, Hnode, Hn. split; [|exact Hp3]. apply Hp2. unfold cluster_demands in Hdem. case_bool_decide; [by apply Hdem|].
    destruct Hdem as [-> _]. constructor.
Qed.
End accepted.

(** ** The operator's identity *)

Section operator.
Context {R : RhizaMembers}.

Lemma copy_other env pair key : key ≠ pair.2 → copy_pair env pair key = env key.
Proof. intros H. unfold copy_pair, Setenv. destruct (set _); [by rewrite bool_decide_eq_false_2|done]. Qed.

Lemma copied_other env l key : key ∉ l.*2 → foldl copy_pair env l key = env key.
Proof.
  revert env. induction l as [|pair l IH]; intros env; [done|]. csimpl. intros [H1 H2]%not_elem_of_cons. cbn [foldl].
  rewrite IH by done. by apply copy_other.
Qed.

(** No variable is both copied from and copied to. *)
Lemma copied_pair env l pair : NoDup l.*2 → (∀ p, p ∈ l → p.1 ∉ l.*2) → pair ∈ l →
  foldl copy_pair env l pair.2 = if set (env pair.1) then env pair.1 else env pair.2.
Proof.
  revert env. induction l as [|p l IH]; intros env Hn Hs Hp; [by apply elem_of_nil in Hp|]. csimpl in Hn.
  apply NoDup_cons in Hn as [Hp2 Hn]. cbn [foldl].
  assert (Hsub : ∀ q, q ∈ l → q.1 ∉ l.*2) by (intros q Hq; specialize (Hs q (list_elem_of_further _ _ _ Hq)); csimpl in Hs; by apply not_elem_of_cons in Hs as [_ ?]).
  apply elem_of_cons in Hp as [->|Hp].
  - rewrite copied_other by done. unfold copy_pair, Setenv. destruct (set (env p.1)) eqn:E; [by rewrite bool_decide_eq_true_2|done].
  - rewrite IH by done. pose proof (Hs pair (list_elem_of_further _ _ _ Hp)) as H1. csimpl in H1. apply not_elem_of_cons in H1 as [H1 _].
    assert (pair.2 ≠ p.2) as H2 by (intros E; apply Hp2; rewrite <- E; by apply list_elem_of_fmap_2).
    by rewrite !copy_other.
Qed.

Lemma join_tokens_spec tokens members joined : join_tokens tokens members = Ok joined →
  joined.*1 = members.*1 ∧ Forall (λ m, Member_ID m.1 ≠ "" ∧ m.2 ≠ "" ∧ tokens !! Member_ID m.1 = Some m.2) joined.
Proof.
  revert joined. induction members as [|[m t] members IH]; intros joined; cbn [join_tokens]; [by intros [= <-]|]. cbv zeta.
  case_bool_decide as Hid; [done|]. destruct (tokens !! Member_ID m) as [token|] eqn:Et; [|done]. case_bool_decide as Ht; [done|].
  destruct (join_tokens tokens members) as [rest|]; [|done]. cbn [mbind result_bind]. intros [= <-]. destruct (IH _ eq_refl) as [E Hall].
  csimpl. split; [by rewrite E|]. by constructor.
Qed.

(** [C40] The operator's tokens reach the members they belong to.  Outside HA
    nothing changes.  In HA, when Apply succeeds, each operator variable that is
    set takes the place of Ternal's own and an empty one leaves it; no other
    variable changes; and with a map of tokens the members are those of the
    operator, each with the token of its own ID, and every token of the map is
    that of a member. *)
Theorem operator_tokens_reach_their_members env env' : Apply env = (env', None) →
  if bool_decide (env "TERNAL_DATA_LOCAL" = "1") || negb (bool_decide (env "TERNAL_DATA_MULTI_NODE" = "1")) then env' = env else
  (∀ key, key ∉ pairs.*2 → env' key = env key) ∧
  (∀ pair, pair ∈ pairs → pair.2 ≠ "TERNAL_DATA_CLUSTER_MEMBERS" → env' pair.2 = if set (env pair.1) then env pair.1 else env pair.2) ∧
  let membersRaw := if set (env "RHIZA_CLUSTER_MEMBERS") then env "RHIZA_CLUSTER_MEMBERS" else env "TERNAL_DATA_CLUSTER_MEMBERS" in
  if bool_decide (env "RHIZA_PEER_TOKENS" = "") then env' "TERNAL_DATA_CLUSTER_MEMBERS" = membersRaw else
  ∃ tokens members joined, Unmarshal (decode_map "" decode_string) None (env "RHIZA_PEER_TOKENS") = Some (Some tokens) ∧
    unmarshal_members membersRaw = Some members ∧ env' "TERNAL_DATA_CLUSTER_MEMBERS" = marshal_members joined ∧
    joined.*1 = members.*1 ∧ Forall (λ m, m.2 ≠ "" ∧ tokens !! Member_ID m.1 = Some m.2) joined ∧
    ∀ id, is_Some (tokens !! id) ↔ id ∈ member_ids joined.
Proof.
  unfold Apply. destruct (_ || _); [by intros [= <-]|]. set (copied := foldl copy_pair env pairs).
  assert (Hother : ∀ key, key ∉ pairs.*2 → copied key = env key) by (intros; by apply copied_other).
  assert (Hpair : ∀ pair, pair ∈ pairs → copied pair.2 = if set (env pair.1) then env pair.1 else env pair.2).
  { intros pair. apply copied_pair; [apply (bool_decide_unpack _); vm_compute; exact I|].
    assert (Forall (λ p, p.1 ∉ pairs.*2) pairs) as Hf by (apply (bool_decide_unpack _); vm_compute; exact I).
    by apply Forall_forall. }
  assert (Hmembers := Hpair ("RHIZA_CLUSTER_MEMBERS", "TERNAL_DATA_CLUSTER_MEMBERS") ltac:(unfold pairs; set_solver)).
  assert (Hraw : copied "RHIZA_PEER_TOKENS" = env "RHIZA_PEER_TOKENS").
  { apply Hother. apply (bool_decide_unpack _). vm_compute. exact I. }
  clearbody copied. cbn [fst snd] in Hmembers. unfold applyPeerTokens. cbv zeta. rewrite Hraw, Hmembers.
  case_bool_decide as Hempty.
  { intros [= <-]. split; [done|]. split; [auto|done]. }
  destruct (Unmarshal _ _ _) as [tokens|]; [|done]. destruct (bool_decide (default ∅ tokens = ∅)) eqn:Ht; [done|].
  destruct (bool_decide (_ = "")); [done|]. destruct (unmarshal_members _) as [members|]; [|done].
  destruct (bool_decide (length members = 0)); [done|]. destruct (join_tokens _ members) as [joined|] eqn:Ej; [|done].
  destruct (List.find _ _) eqn:Ef; [done|]. intros [= <-]. apply join_tokens_spec in Ej as [E Hall].
  destruct tokens as [tokens|]; [|by rewrite bool_decide_eq_true_2 in Ht]. cbn [default] in *. unfold id in *.
  split; [|split].
  - intros key Hk. unfold Setenv. rewrite bool_decide_eq_false_2; [by apply Hother|]. intros ->. apply Hk.
    apply (bool_decide_unpack _). vm_compute. exact I.
  - intros pair Hp Hne. unfold Setenv. rewrite bool_decide_eq_false_2 by done. by apply Hpair.
  - exists tokens, members, joined. split; [done|]. split; [done|]. split; [unfold Setenv; by rewrite bool_decide_eq_true_2|].
    split; [done|]. split; [eapply Forall_impl; [exact Hall|]; naive_solver|]. intros id. split.
    + intros [token Htok]. pose proof (find_none _ _ Ef id) as Hin. cbv beta in Hin.
      assert (id ∈ (map_to_list tokens).*1) as Hid by (apply list_elem_of_fmap; exists (id, token); split; [done|by apply elem_of_map_to_list]).
      specialize (Hin Hid). by apply negb_false_iff, bool_decide_eq_true in Hin.
    + intros (m & -> & Hm)%list_elem_of_fmap. apply (proj1 (Forall_forall _ _) Hall) in Hm as (_ & _ & ->). by eexists.
Qed.
End operator.
