(* ===== verification/LocalPreflight.v ===== *)
(** * Local mode before the database is opened (internal/store/local_preflight.go,
    recovery_verifier.go, lines 70-116, azure_config.go, lines 177-185,
    trust_anchor.go, lines 88-97 and 177-205, the start of Open in store.go, and
    runArgs and the start of run in cmd/ternal-api/main.go)

    The preflight that checks a seeded archive and leaves a receipt, and the
    checks that precede every opening of the database, as programs over the disk,
    the bucket, the archive and the trust anchor ([localE]).  The archive library
    is a parameter ([LocalArchives]): its types, with their JSON forms, and what a
    binding says. *)

From S2P Require Export StorageConfig.
Open Scope go_scope.

(** github.com/mrchypark/rhiza/pkg/recovery, checkpoint and quepaxa. *)
Class LocalArchives := {
  LocalBinding : Type; LocalSnapshot : Type; Slot : Type;
  LocalBinding_eq_dec : EqDecision LocalBinding;
  LocalSnapshot_eq_dec : EqDecision LocalSnapshot;
  Slot_eq_dec : EqDecision Slot;
  Binding_Members : LocalBinding → list string;       (* Bootstrap.Members, their IDs *)
  ArchiveLocationHash : LocalBinding → string;
  zero_binding : LocalBinding; zero_snapshot : LocalSnapshot; zero_slot : Slot;
  json_of_binding : LocalBinding → json; json_of_snapshot : LocalSnapshot → json; json_of_slot : Slot → json;
  decode_binding : decoder LocalBinding; decode_snapshot : decoder LocalSnapshot; decode_slot : decoder Slot;
  archive : Type;                                     (* an opened LocalArchive *)
  Archive_Binding : archive → LocalBinding;
  root : Type;                                        (* an opened checkpoint root *)
}.
#[export] Existing Instance LocalBinding_eq_dec.
#[export] Existing Instance LocalSnapshot_eq_dec.
#[export] Existing Instance Slot_eq_dec.

(** ** Calls *)

(** What Lstat says of a name. *)
Inductive file_kind := IsDirectory | IsRegular (size : Z) | IsSymlink | IsOther.

(** What a bucket is opened with. *)
Inductive bucket_config :=
  | S3Bucket (bucket endpoint region : string) (insecure sdkAuth : bool) (accessKey secretKey sessionToken : string)
  | GCSBucket (bucket : string)
  | AzureBucket (a : azureStorageConfig) (container endpoint : string) (createContainer : bool)
  | FilesystemBucket (dir : string).

Section signature.
Context {Rec : Recovery} {R : RhizaMembers} {L : LocalArchives}.

Inductive localE : Type → Type :=
  | AbsOf (p : string) : localE (result string)
  | LstatOf (p : string) : localE (result file_kind)
  | EvalSymlinks (p : string) : localE (result string)
  | ReadDir (p : string) : localE (result (list string))
  | ReadOf (p : string) : localE (result string)
  | MkdirTemp (dir pattern : string) : localE (result string)
  | MkdirOf (p : string) (mode : Z) : localE (option error)
  | MkdirAllOf (p : string) (mode : Z) : localE (option error)
  | RemoveAll (p : string) : localE (option error)
  | TempOf (dir pattern : string) : localE (result string)
  | CopyTo (f data : string) : localE (option error)
  | SyncOf (f : string) : localE (option error)
  | CloseOf (f : string) : localE (option error)
  | RenameOf (a b : string) : localE (option error)
  | RemoveOf (p : string) : localE (option error)
  | AnchorRead (name namespace : string) : localE (result (trustAnchorRecord * string))
  | OpenBucket (k : bucket_config) : localE (option error)
  | CloseBucket : localE (option error)
  | IterBucket (prefix : string) : localE (list string * option error)
  | OpenLocalArchive (prefix : string) : localE (result archive)
  | MaintenanceResolved (a : archive) : localE (result bool)
  | Tip (a : archive) : localE Slot
  | PrefixHash (a : archive) (tip : Slot) : localE (option string)
  | Snapshot (a : archive) : localE (option LocalSnapshot)
  | OpenRoot (prefix : string) (snapshot : LocalSnapshot) : localE (result root)
  | DownloadRoot (r : root) (dir : string) : localE (option error)
  | OpenDatabase (c : rhizaConfig) : localE (option error)
  | CloseDatabase : localE (option error).
End signature.

(** errors.Join; the text of the second of two errors is dropped. *)
Definition Join (a b : option error) : option error :=
  match a, b with
  | Some a, Some b => Some (ErrorWrap "joined" a)
  | Some a, None => Some a
  | None, b => b
  end.

Definition is_ErrNotExist (e : error) : bool := bool_decide (e = ErrNotExist).

(** A deferred call whose error joins the one returned. *)
Definition deferring {E} (p cleanup : prog E (option error)) : prog E (option error) :=
  let! err := p in let! e := cleanup in Ret (Join err e).

(** ** Metadata on disk *)

Definition localModeMarker : string := ".ternal-data-mode.json".
Definition maxLocalReceipt : Z := Z.shiftl 128 10.

Record localArchiveView {L : LocalArchives} := mkView {
  View_Binding : LocalBinding; View_Tip : Slot; View_PrefixHash : string; View_Snapshot : option LocalSnapshot }.

Record localPreflightReceipt {L : LocalArchives} := mkReceipt {
  Receipt_Version : Z; Receipt_StorageID : string; Receipt_NodeID : string; Receipt_Scope : string;
  Receipt_AnchorName : string; Receipt_AnchorNamespace : string; Receipt_View : localArchiveView }.

Record localDataMode {L : LocalArchives} := mkDataMode {
  Mode_Version : Z; Mode_Mode : string; Mode_StorageID : string; Mode_Binding : LocalBinding }.

(** json.Decoder with DisallowUnknownFields. *)
Fixpoint decode_known {S} (fields : list (struct_field S)) (s : S) (l : list (string * json)) : option S :=
  match l with
  | [] => Some s
  | kv :: l => f ← find_field fields kv.1; s ← f.2 s kv.2; decode_known fields s l
  end.

Definition decode_strict {S} (fields : list (struct_field S)) : decoder S := λ s j,
  match j with JNull => Some s | JObj l => decode_known fields s l | _ => None end.

(** A [n]byte array: [null] leaves it, missing elements are zero, further ones
    are dropped. *)
Definition decode_byte (old : ascii) (j : json) : option ascii :=
  match j with JNull => Some old | JNum t => v ← strconv.ParseUint t 8; Some (ascii_of_N (Z.to_N v)) | _ => None end.

Fixpoint decode_bytes (old : string) (l : list json) : option string :=
  match old, l with
  | EmptyString, _ => Some ""
  | String _ old, [] => s ← decode_bytes old []; Some (String Ascii.zero s)
  | String c old, j :: l => c ← decode_byte c j; s ← decode_bytes old l; Some (String c s)
  end.

Definition decode_byte_array : decoder string := λ s j,
  match j with JNull => Some s | JArr l => decode_bytes s l | _ => None end.

Fixpoint json_of_bytes (s : string) : list json :=
  match s with EmptyString => [] | String c s => JNum (strconv.FormatInt (Z.of_N (byte_of c))) :: json_of_bytes s end.

Section json.
Context {L : LocalArchives}.

Definition view_fields : list (struct_field localArchiveView) :=
  [at_field "binding" View_Binding (λ x v, mkView L x (View_Tip v) (View_PrefixHash v) (View_Snapshot v)) decode_binding;
   at_field "tip" View_Tip (λ x v, mkView L (View_Binding v) x (View_PrefixHash v) (View_Snapshot v)) decode_slot;
   at_field "prefix_hash" View_PrefixHash (λ x v, mkView L (View_Binding v) (View_Tip v) x (View_Snapshot v)) decode_byte_array;
   at_field "snapshot" View_Snapshot (λ x v, mkView L (View_Binding v) (View_Tip v) (View_PrefixHash v) x)
     (decode_pointer zero_snapshot decode_snapshot)].

Definition receipt_fields : list (struct_field localPreflightReceipt) :=
  [at_field "version" Receipt_Version (λ x r, mkReceipt L x (Receipt_StorageID r) (Receipt_NodeID r) (Receipt_Scope r)
     (Receipt_AnchorName r) (Receipt_AnchorNamespace r) (Receipt_View r)) decode_int64;
   at_field "storage_id" Receipt_StorageID (λ x r, mkReceipt L (Receipt_Version r) x (Receipt_NodeID r) (Receipt_Scope r)
     (Receipt_AnchorName r) (Receipt_AnchorNamespace r) (Receipt_View r)) decode_string;
   at_field "node_id" Receipt_NodeID (λ x r, mkReceipt L (Receipt_Version r) (Receipt_StorageID r) x (Receipt_Scope r)
     (Receipt_AnchorName r) (Receipt_AnchorNamespace r) (Receipt_View r)) decode_string;
   at_field "scope" Receipt_Scope (λ x r, mkReceipt L (Receipt_Version r) (Receipt_StorageID r) (Receipt_NodeID r) x
     (Receipt_AnchorName r) (Receipt_AnchorNamespace r) (Receipt_View r)) decode_string;
   at_field "anchor_name" Receipt_AnchorName (λ x r, mkReceipt L (Receipt_Version r) (Receipt_StorageID r) (Receipt_NodeID r)
     (Receipt_Scope r) x (Receipt_AnchorNamespace r) (Receipt_View r)) decode_string;
   at_field "anchor_namespace" Receipt_AnchorNamespace (λ x r, mkReceipt L (Receipt_Version r) (Receipt_StorageID r) (Receipt_NodeID r)
     (Receipt_Scope r) (Receipt_AnchorName r) x (Receipt_View r)) decode_string;
   at_field "view" Receipt_View (λ x r, mkReceipt L (Receipt_Version r) (Receipt_StorageID r) (Receipt_NodeID r) (Receipt_Scope r)
     (Receipt_AnchorName r) (Receipt_AnchorNamespace r) x) (decode_strict view_fields)].

Definition mode_fields : list (struct_field localDataMode) :=
  [at_field "version" Mode_Version (λ x m, mkDataMode L x (Mode_Mode m) (Mode_StorageID m) (Mode_Binding m)) decode_int64;
   at_field "mode" Mode_Mode (λ x m, mkDataMode L (Mode_Version m) x (Mode_StorageID m) (Mode_Binding m)) decode_string;
   at_field "storage_id" Mode_StorageID (λ x m, mkDataMode L (Mode_Version m) (Mode_Mode m) x (Mode_Binding m)) decode_string;
   at_field "binding" Mode_Binding (λ x m, mkDataMode L (Mode_Version m) (Mode_Mode m) (Mode_StorageID m) x) decode_binding].

Definition zero_view : localArchiveView := mkView L zero_binding zero_slot (zero_bytes 32) None.
Definition zero_receipt : localPreflightReceipt := mkReceipt L 0 "" "" "" "" "" zero_view.
Definition zero_mode : localDataMode := mkDataMode L 0 "" "" zero_binding.

Definition json_of_view (v : localArchiveView) : json :=
  JObj [("binding", json_of_binding (View_Binding v)); ("tip", json_of_slot (View_Tip v));
        ("prefix_hash", JArr (json_of_bytes (View_PrefixHash v)));
        ("snapshot", match View_Snapshot v with None => JNull | Some s => json_of_snapshot s end)].

Definition json_of_receipt (r : localPreflightReceipt) : json :=
  JObj [("version", JNum (strconv.FormatInt (Receipt_Version r))); ("storage_id", JStr (Receipt_StorageID r));
        ("node_id", JStr (Receipt_NodeID r)); ("scope", JStr (Receipt_Scope r)); ("anchor_name", JStr (Receipt_AnchorName r));
        ("anchor_namespace", JStr (Receipt_AnchorNamespace r)); ("view", json_of_view (Receipt_View r))].

Definition json_of_mode (m : localDataMode) : json :=
  JObj [("version", JNum (strconv.FormatInt (Mode_Version m))); ("mode", JStr (Mode_Mode m)); ("storage_id", JStr (Mode_StorageID m));
        ("binding", json_of_binding (Mode_Binding m))].
End json.

(** The first value of the metadata, after which there is nothing. *)
Definition decode_local {A} (d : decoder A) (zero : A) (data : string) : result A :=
  let body := stake (Z.to_nat (maxLocalReceipt + 1)) data in
  match parse_value (2 * String.length body + 2) 0 body with
  | None => Err (Errorf "invalid JSON")
  | Some (j, rest) =>
    match d zero j with
    | None => Err (Errorf "invalid JSON")
    | Some v => if bool_decide (skip_ws rest = "") then Ok v else Err (Errorf "Local metadata has trailing content")
    end
  end.

(** ** Programs *)

Section programs.
Context {Hurl : NetURL} {Rec : Recovery} {R : RhizaMembers} {L : LocalArchives} (env : environment).

(** *** Metadata *)

Definition readLocalJSON {A} (d : decoder A) (zero : A) (name : string) : prog localE (result A) :=
  info ←? call (LstatOf name);
  match info with
  | IsRegular size =>
    if (maxLocalReceipt <? size)%Z then Ret (Err (Errorf "Local metadata must be a bounded regular file")) else
    data ←? call (ReadOf name); Ret (decode_local d zero data)
  | _ => Ret (Err (Errorf "Local metadata must be a bounded regular file"))
  end.

(** The content, on disk, under its temporary name. *)
Definition write_temp (f data name : string) : prog localE (option error) :=
  let! err := call (CopyTo f data) in
  match err with
  | Some e => let! _ := call (CloseOf f) in Ret (Some e)
  | None =>
    let! err := call (SyncOf f) in
    match err with
    | Some e => let! _ := call (CloseOf f) in Ret (Some e)
    | None => must call (CloseOf f); call (RenameOf f name)
    end
  end.

Definition writeLocalJSON (name : string) (value : json) : prog localE (option error) :=
  let data := print value in
  if (maxLocalReceipt <? Z.of_nat (String.length data))%Z then Ret (Some (Errorf "Local metadata exceeds size bound")) else
  let! info := call (LstatOf name) in
  match info with
  | Ok (IsDirectory | IsSymlink | IsOther) => Ret (Some (Errorf "Local metadata target is not regular"))
  | Err e =>
    if negb (is_ErrNotExist e) then Ret (Some e) else
    f ←! call (TempOf (path.Dir name) ".local-metadata-");
    deferring (write_temp f data name)
      (let! cleanup := call (RemoveOf f) in Ret (match cleanup with Some e => if is_ErrNotExist e then None else Some e | None => None end))
  | Ok (IsRegular _) =>
    f ←! call (TempOf (path.Dir name) ".local-metadata-");
    deferring (write_temp f data name)
      (let! cleanup := call (RemoveOf f) in Ret (match cleanup with Some e => if is_ErrNotExist e then None else Some e | None => None end))
  end.

(** *** The trust anchor *)

Definition anchor_namespace_file : string := "/var/run/secrets/kubernetes.io/serviceaccount/namespace".

Definition anchor_of (name namespace : string) : trustAnchor :=
  let '(clusterID, storageID) := storageBindingFromEnv env in
  mkTrustAnchor Rec (mkRecord Rec "1" clusterID storageID 0 "" None "" false 0 None None) name namespace.

Definition named_anchor (name namespace : string) : result (option trustAnchor) :=
  if bool_decide (namespace = "") then Err (Errorf "trust-anchor namespace is required") else Ok (Some (anchor_of name namespace)).

Definition trustAnchorFromEnv : prog localE (result (option trustAnchor)) :=
  if negb (requireTrustAnchor env) then Ret (Ok None) else
  match (if bool_decide (env "TERNAL_OBJECT_STORE_PROVIDER" = "azure") then
           match azureStorageFromEnv env with
           | Err e => Some e
           | Ok _ => if bool_decide (env "TERNAL_OBJECT_STORE_BUCKET" = "")
                     then Some (Errorf "Azure requires TERNAL_OBJECT_STORE_BUCKET as its container") else None
           end
         else None) with
  | Some e => Ret (Err e)
  | None =>
    let name := env "TERNAL_TRUST_ANCHOR_CONFIGMAP" in
    if bool_decide (name = "") then Ret (Err (Errorf "TERNAL_TRUST_ANCHOR_CONFIGMAP is required with object-store data")) else
    let namespace := env "TERNAL_TRUST_ANCHOR_NAMESPACE" in
    if bool_decide (namespace = "") then
      let! data := call (ReadOf anchor_namespace_file) in
      Ret (match data with
           | Err e => Err (ErrorWrap "read trust-anchor namespace" e)
           | Ok data => named_anchor name (strings.TrimSpace data)
           end)
    else Ret (named_anchor name namespace)
  end.

(** trustAnchor.get over [localE]. *)
Definition anchor_get (a : trustAnchor) : prog localE (result (trustAnchorRecord * string)) :=
  let! r := call (AnchorRead (anchor_name a) (anchor_namespace a)) in
  Ret (match r with
       | Err e => Err (ErrorWrap "read trust anchor" e)
       | Ok (record, rv) => match validate a record with Some e => Err e | None => Ok (record, rv) end
       end).

Definition localTrustBeforeOpen : prog localE (result trustAnchor) :=
  a ←? trustAnchorFromEnv;
  match a with
  | None => Ret (Err (Errorf "Local mode requires the Kubernetes trust anchor"))
  | Some a =>
    got ←? anchor_get a;
    Ret (match PendingEpoch (fst got) with
         | Some _ => Err (Errorf "Local preflight refuses a pending application write")
         | None => Ok a
         end)
  end.

Definition legacyLocalAuthorityGuard (c : rhizaConfig) : prog localE (option error) :=
  if negb (requireTrustAnchor env) && bool_decide (env "TERNAL_TRUST_ANCHOR_CONFIGMAP" = "") then Ret None else
  a ←! trustAnchorFromEnv;
  match a with
  | None => Ret (Some (Errorf "configured trust authority is unavailable"))
  | Some a =>
    let! r := call (AnchorRead (anchor_name a) (anchor_namespace a)) in
    Ret (match r with
         | Err e => Some (ErrorWrap "read trust authority before SDK startup" e)
         | Ok (record, _) =>
           if bool_decide (StorageID record = localStorageID c) then Some (Errorf "trusted Local archive cannot be opened in legacy mode") else None
         end)
  end.

(** *** The bucket *)

(** bucketConfig: the client's defaults are kept but for the container. *)
Definition azure_bucket (a : azureStorageConfig) (container : string) : option bucket_config :=
  endpoint ← sdkEndpoint a; Some (AzureBucket a container endpoint false).

Definition no_azure : azureStorageConfig := mkAzure "" "" "" "" "" "" "" "" false.

Definition bucketWithContext (s : recoveryStorage) : prog localE (option error) :=
  let provider := st_Provider s in
  if bool_decide (provider = "s3") then
    if bool_decide (st_Bucket s = "") then Ret (Some (Errorf "TERNAL_OBJECT_STORE_BUCKET is required for an s3 recovery store")) else
    call (OpenBucket (S3Bucket (st_Bucket s) (st_Endpoint s) (st_Region s) (st_Insecure s) (bool_decide (st_AccessKey s = ""))
      (st_AccessKey s) (st_SecretKey s) (st_SessionToken s)))
  else if bool_decide (provider = "gcs") then
    if bool_decide (st_Bucket s = "") then Ret (Some (Errorf "TERNAL_OBJECT_STORE_BUCKET is required for a gcs recovery store")) else
    call (OpenBucket (GCSBucket (st_Bucket s)))
  else if bool_decide (provider = "azure") then
    match st_Azure s with
    | Some (Err e) => Ret (Some e)
    | declared =>
      if bool_decide (st_Bucket s = "") || StorageConfig.set (st_Endpoint s) || st_Insecure s
      then Ret (Some (Errorf "Azure requires a container and rejects generic endpoint/insecure overrides")) else
      match normalized (match declared with Some (Ok a) => a | _ => no_azure end) with
      | Err e => Ret (Some e)
      | Ok a =>
        match azure_bucket a (st_Bucket s) with
        | None => Ret (Some nil_dereference)
        | Some k =>
          let! err := call (OpenBucket k) in
          Ret (match err with Some _ => Some (Errorf "initialize Azure recovery store") | None => None end)
        end
      end
    end
  else if bool_decide (provider = "filesystem") then
    call (OpenBucket (FilesystemBucket (if bool_decide (st_Dir s = "") then "./objstore" else st_Dir s)))
  else Ret (Some (Errorf ("unsupported recovery object store provider " +:+ provider))).

Definition archive_root (c : rhizaConfig) : string := path.Join [cf_Prefix c; cf_ClusterID c] +:+ "/".
Definition archive_local (c : rhizaConfig) : string := path.Join [archive_root c; "local/v1"] +:+ "/".

Definition check_key (c : rhizaConfig) (key : string) : option error :=
  let isLocal := strings.HasPrefix key (archive_local c) in
  if cf_Local c && negb isLocal then Some (Errorf "Local archive root contains non-Local objects; use fresh dedicated roots") else
  if negb (cf_Local c) && isLocal then Some (Errorf "Local archive cannot be opened in legacy mode; preserve data and configuration") else None.

(** The first error of the callback ends the iteration. *)
Fixpoint check_keys (c : rhizaConfig) (keys : list string) (after : option error) : option error :=
  match keys with
  | [] => after
  | key :: keys => match check_key c key with Some e => Some e | None => check_keys c keys after end
  end.

Definition checkArchiveMode (c : rhizaConfig) : prog localE (option error) :=
  let! got := call (IterBucket (archive_root c)) in
  Ret (check_keys c (fst got) (snd got)).

(** *** The archive *)

Definition validateLocalBinding (c : rhizaConfig) (b : LocalBinding) : option error :=
  match Binding_Members b with
  | [id] => if bool_decide (id = cf_NodeID c) then None else Some (Errorf "Local archive must bind exactly the configured singleton node")
  | _ => Some (Errorf "Local archive must bind exactly the configured singleton node")
  end.

Definition readLocalArchive (c : rhizaConfig) : prog localE (result localArchiveView) :=
  let! opened := call (OpenLocalArchive (localNamespace c)) in
  match opened with
  | Err e => Ret (Err (ErrorWrap "read seeded Local archive (manual SDK seeding is required; no automatic bootstrap)" e))
  | Ok a =>
    match validateLocalBinding c (Archive_Binding a) with
    | Some e => Ret (Err e)
    | None =>
      if StorageConfig.set (ArchiveLocationHash (Archive_Binding a))
      then Ret (Err (Errorf "Ternal Local supports only remote S3/GCS/Azure archive bindings, not copied filesystem archives")) else
      let! resolved := call (MaintenanceResolved a) in
      match resolved with
      | Err e => Ret (Err (ErrorWrap "Local maintenance is unknown" e))
      | Ok false => Ret (Err (Errorf "Local maintenance is held"))
      | Ok true =>
        let! tip := call (Tip a) in
        let! hash := call (PrefixHash a tip) in
        match hash with
        | None => Ret (Err (Errorf "Local preflight requires a seeded, certified checkpoint"))
        | Some hash =>
          let! snapshot := call (Snapshot a) in
          match snapshot with
          | None => Ret (Err (Errorf "Local preflight requires a seeded, certified checkpoint"))
          | Some _ => let! snapshot := call (Snapshot a) in Ret (Ok (mkView L (Archive_Binding a) tip hash snapshot))
          end
        end
      end
    end
  end.

Definition downloadLocalRoot (prefix : string) (snapshot : option LocalSnapshot) (work : string) : prog localE (option error) :=
  match snapshot with
  | None => Ret (Some (Errorf "Local checkpoint is absent"))
  | Some snapshot =>
    must call (MkdirOf (path.Join [work; "files"]) 448);
    root ←! call (OpenRoot prefix snapshot);
    call (DownloadRoot root (path.Join [work; "files"]))
  end.

(** *** Paths *)

Definition blank_bytes : string := bytes [0; 13; 10; 9].

Definition localPreflightScope : result string :=
  let scope := env "TERNAL_LOCAL_PREFLIGHT_SCOPE" in
  if bool_decide (scope = "") || (256 <? String.length scope) || negb (bool_decide (strings.TrimSpace scope = scope)) ||
     strings.ContainsAny scope blank_bytes
  then Err (Errorf "TERNAL_LOCAL_PREFLIGHT_SCOPE must be an explicit bounded Pod UID or non-Kubernetes run identifier") else Ok scope.

Definition inside (child parent : string) : bool := bool_decide (child = parent) || strings.HasPrefix child (parent +:+ "/").

(** One unit for each byte of the name is enough: every parent is shorter. *)
Fixpoint resolvedLocalPath (fuel : nat) (name : string) : prog localE (result string) :=
  let! real := call (EvalSymlinks name) in
  match real with
  | Ok real => Ret (Ok real)
  | Err e =>
    if negb (is_ErrNotExist e) || bool_decide (path.Dir name = name) then Ret (Err e) else
    match fuel with
    | O => Ret (Err (Errorf "out of fuel"))
    | S fuel => parent ←? resolvedLocalPath fuel (path.Dir name); Ret (Ok (path.Join [parent; path.Base name]))
    end
  end.

Definition path_fuel (name : string) : nat := S (String.length name).

Definition localPreflightPaths (dataDir : string) : prog localE (result (string * string)) :=
  let stage := env "TERNAL_LOCAL_PREFLIGHT_STAGING_DIR" in
  let receipt := env "TERNAL_LOCAL_PREFLIGHT_RECEIPT_FILE" in
  data ←? call (AbsOf dataDir);
  if negb (path.IsAbs stage) || negb (path.IsAbs receipt) || negb (bool_decide (path.Clean stage = stage)) ||
     negb (bool_decide (path.Clean receipt = receipt)) || bool_decide (stage = "/")
  then Ret (Err (Errorf "Local preflight requires canonical absolute staging and receipt paths")) else
  if negb (bool_decide (path.Dir receipt = stage)) || inside stage data || inside data stage
  then Ret (Err (Errorf "Local staging must be separate from DataDir and contain the receipt")) else
  let! info := call (LstatOf stage) in
  match info with
  | Err e => Ret (Err (ErrorWrap "staging must be a pre-existing dedicated directory" e))
  | Ok IsDirectory =>
    realStage ←? call (EvalSymlinks stage);
    realData ←? resolvedLocalPath (path_fuel data) data;
    if inside realStage realData || inside realData realStage
    then Ret (Err (Errorf "resolved staging overlaps DataDir")) else Ret (Ok (stage, receipt))
  | Ok _ => Ret (Err (Errorf "staging must not be a symlink"))
  end.

(** *** The preflight *)

Definition preflight_work (c : rhizaConfig) (work : string) (receiptPath : string) (before : localArchiveView) (receipt : localPreflightReceipt) :
    prog localE (option error) :=
  must downloadLocalRoot (localNamespace c) (View_Snapshot before) work;
  after ←! readLocalArchive c;
  if negb (bool_decide (View_Binding before = View_Binding after ∧ View_Tip before = View_Tip after ∧
                        View_PrefixHash before = View_PrefixHash after ∧ View_Snapshot before = View_Snapshot after))
  then Ret (Some (Errorf "Local archive changed during read-only preflight")) else
  _ ←! localTrustBeforeOpen;
  writeLocalJSON receiptPath (json_of_receipt receipt).

Definition LocalPreflightFromEnv : prog localE (option error) :=
  match rhizaConfigFromEnv env (getenv_or env "TERNAL_DATA_DIR" "ternal-data") with
  | Err e => Ret (Some e)
  | Ok c =>
    if negb (cf_Local c) then Ret (Some (Errorf "local-preflight requires TERNAL_DATA_LOCAL=1")) else
    paths ←! localPreflightPaths (cf_DataDir c);
    let (stage, receiptPath) := paths : string * string in
    match localPreflightScope with
    | Err e => Ret (Some e)
    | Ok scope =>
      anchor ←! localTrustBeforeOpen;
      must bucketWithContext (recoveryStorageFromEnv env);
      deferring
        (must checkArchiveMode c;
         before ←! readLocalArchive c;
         work ←! call (MkdirTemp stage "verified-");
         deferring
           (preflight_work c work receiptPath before
              (mkReceipt L 1 (localStorageID c) (cf_NodeID c) scope (anchor_name anchor) (anchor_namespace anchor) before))
           (call (RemoveAll work)))
        (call CloseBucket)
    end
  end.

(** *** Before the database is opened *)

Definition checkLocalDataDir (c : rhizaConfig) : prog localE (result (option localDataMode)) :=
  let name := path.Join [cf_DataDir c; localModeMarker] in
  if negb (cf_Local c) then
    let! info := call (LstatOf name) in
    Ret (match info with
         | Ok _ => Err (Errorf "Local DataDir cannot be opened in legacy mode")
         | Err e => if is_ErrNotExist e then Ok None else Err e
         end)
  else
    let! info := call (LstatOf (cf_DataDir c)) in
    match info with
    | Err e => Ret (if is_ErrNotExist e then Ok None else Err e)
    | Ok IsDirectory =>
      let! marker := readLocalJSON (decode_strict mode_fields) zero_mode name in
      match marker with
      | Ok marker =>
        Ret (if negb (Mode_Version marker =? 1)%Z || negb (bool_decide (Mode_Mode marker = "local")) ||
                negb (bool_decide (Mode_StorageID marker = localStorageID c))
             then Err (Errorf "Local DataDir mode or archive identity mismatch") else Ok (Some marker))
      | Err e =>
        if negb (is_ErrNotExist e) then Ret (Err e) else
        entries ←? call (ReadDir (cf_DataDir c));
        Ret (match entries with
             | [] => Ok None
             | _ => Err (Errorf "refusing unknown nonempty DataDir in Local mode; migration is unsupported")
             end)
      end
    | Ok _ => Ret (Err (Errorf "DataDir must be a dedicated real directory"))
    end.

Definition validateLocalReceipt (c : rhizaConfig) (receipt : localPreflightReceipt) (current : localArchiveView) : option error :=
  if negb (Receipt_Version receipt =? 1)%Z || negb (bool_decide (Receipt_StorageID receipt = localStorageID c)) ||
     negb (bool_decide (Receipt_NodeID receipt = cf_NodeID c)) ||
     negb (bool_decide (View_Binding (Receipt_View receipt) = View_Binding current)) ||
     match View_Snapshot (Receipt_View receipt) with None => true | Some _ => false end
  then Some (Errorf "Local preflight receipt does not match the configured archive") else None.

Definition validateLocalReceiptScope (receipt : localPreflightReceipt) (anchor : trustAnchor) : option error :=
  match localPreflightScope with
  | Err e => Some e
  | Ok scope =>
    if negb (bool_decide (Receipt_Scope receipt = scope)) || negb (bool_decide (Receipt_AnchorName receipt = anchor_name anchor)) ||
       negb (bool_decide (Receipt_AnchorNamespace receipt = anchor_namespace anchor))
    then Some (Errorf "Local preflight receipt trust authority or Pod/run scope mismatch") else None
  end.

(** What follows the listing of the archive in Local mode. *)
Definition prepare_local (c : rhizaConfig) (marker : option localDataMode) (anchor : trustAnchor) : prog localE (option error) :=
  paths ←! localPreflightPaths (cf_DataDir c);
  let! receipt := readLocalJSON (decode_strict receipt_fields) zero_receipt (snd paths) in
  match receipt with
  | Err e => Ret (Some (ErrorWrap "read required Local preflight receipt" e))
  | Ok receipt =>
    current ←! readLocalArchive c;
    match validateLocalReceipt c receipt current with
    | Some e => Ret (Some e)
    | None =>
      match validateLocalReceiptScope receipt anchor with
      | Some e => Ret (Some e)
      | None =>
        if match marker with Some m => negb (bool_decide (Mode_Binding m = View_Binding current)) | None => false end
        then Ret (Some (Errorf "Local DataDir binding differs from archive")) else
        _ ←! localTrustBeforeOpen;
        match marker with
        | Some _ => Ret None
        | None =>
          must call (MkdirAllOf (cf_DataDir c) 448);
          writeLocalJSON (path.Join [cf_DataDir c; localModeMarker])
            (json_of_mode (mkDataMode L 1 "local" (localStorageID c) (View_Binding current)))
        end
      end
    end
  end.

Definition remote_provider (c : rhizaConfig) : bool :=
  bool_decide (cf_Provider c = "s3") || bool_decide (cf_Provider c = "gcs") || bool_decide (cf_Provider c = "azure").

Definition prepareLocalOpen (c : rhizaConfig) : prog localE (option error) :=
  marker ←! checkLocalDataDir c;
  if negb (cf_Local c) then
    must legacyLocalAuthorityGuard c;
    if negb (remote_provider c) then Ret None else
    must bucketWithContext (recoveryStorageFromEnv env);
    deferring (checkArchiveMode c) (call CloseBucket)
  else
    anchor ←! localTrustBeforeOpen;
    must bucketWithContext (recoveryStorageFromEnv env);
    deferring (must checkArchiveMode c; prepare_local c marker anchor) (call CloseBucket).

(** *** Opening *)

Definition LocalRestoreFromEnv : prog localE (option error) :=
  must LocalPreflightFromEnv;
  match rhizaConfigFromEnv env (getenv_or env "TERNAL_DATA_DIR" "ternal-data") with
  | Err e => Ret (Some e)
  | Ok c =>
    must prepareLocalOpen c;
    let! err := call (OpenDatabase c) in
    match err with
    | Some e => Ret (Some (ErrorWrap "open Local init recovery" e))
    | None =>
      let! err := call CloseDatabase in
      Ret (match err with Some e => Some (ErrorWrap "close Local init recovery" e) | None => None end)
    end
  end.

Definition schema_version : string := "1".

(** Open, until the database is open. *)
Definition open_database (dataDir : string) : prog localE (option error) :=
  let expected := env "TERNAL_DATA_SCHEMA_VERSION" in
  if StorageConfig.set expected && negb (bool_decide (expected = schema_version))
  then Ret (Some (Errorf ("TERNAL_DATA_SCHEMA_VERSION must be " +:+ schema_version +:+ " for this binary"))) else
  match rhizaConfigFromEnv env dataDir with
  | Err e => Ret (Some e)
  | Ok config =>
    let! err := prepareLocalOpen config in
    match err with
    | Some e => Ret (Some (ErrorWrap "data mode preflight" e))
    | None =>
      let! err := call (MkdirAllOf dataDir 493) in
      match err with
      | Some e => Ret (Some (ErrorWrap "create data dir" e))
      | None =>
        let! err := call (OpenDatabase config) in
        Ret (match err with Some e => Some (ErrorWrap "open database" e) | None => None end)
      end
    end
  end.
End programs.

(** ** ternal-api (cmd/ternal-api/main.go) *)

Section process.
Context {Hurl : NetURL} {Rec : Recovery} {R : RhizaMembers} {L : LocalArchives}.

(** The environment of the server: the operator's identity comes first. *)
Definition server_environment (env : environment) : environment * option error :=
  if bool_decide (env "TERNAL_DATA_LOCAL" = "1") then (env, None) else Apply env.

(** run and OpenFromEnv, until the database is open. *)
Definition start (env : environment) : prog localE (option error) :=
  let '(env, err) := server_environment env in
  match err with
  | Some e => Ret (Some e)
  | None => open_database env (getenv_or env "TERNAL_DATA_DIR" "ternal-data")
  end.

Definition runArgs (env : environment) (args : list string) : prog localE (option error) :=
  match args with
  | [] => start env
  | [command] =>
    if bool_decide (command = "local-restore") then LocalRestoreFromEnv env else
    if bool_decide (command = "local-preflight") then LocalPreflightFromEnv env else
    Ret (Some (Errorf "usage: ternal-api [local-preflight|local-restore]"))
  | _ => Ret (Some (Errorf "usage: ternal-api [local-preflight|local-restore]"))
  end.
End process.
