(* ===== verification/LocalFacts.v ===== *)
(** * Local mode before the database is opened: what is checked first

    Every run of the preflight and of the opening, whatever the disk, the bucket,
    the archive and the trust anchor answer: what changes the disk stays in the
    staging directory, the receipt is left only after every check, and the
    database is opened only when the authority over it has been checked. *)

From S2P Require Export GoQuery LocalPreflight.
Open Scope go_scope.

(** ** Runs with their history *)

Section history.
Context {Rec : Recovery} {R : RhizaMembers} {L : LocalArchives}.

(** A call and its answer; a history has the latest first. *)
Inductive event :=
  | Did {X : Type} (e : localE X) (x : X).

(** Each call of a run is allowed by what came before it, whatever is answered. *)
Section logic.
Context (ok : list event → ∀ X, localE X → Prop).

Fixpoint wph {A} (p : prog localE A) (l : list event) (Q : A → list event → Prop) : Prop :=
  match p with
  | Ret a => Q a l
  | Call e k => ok l _ e ∧ ∀ x, wph (k x) (Did e x :: l) Q
  end.

Lemma wph_mono {A} (p : prog localE A) l (Q Q' : A → list event → Prop) :
  wph p l Q → (∀ a l', Q a l' → Q' a l') → wph p l Q'.
Proof.
  revert l. induction p as [a|X e k IH]; intros l H HQ; [by apply HQ|]. destruct H as [Ho H]. split; [done|].
  intros x. by apply IH.
Qed.

Lemma wph_bind {A B} (p : prog localE A) (f : A → prog localE B) l (Q : B → list event → Prop) :
  wph p l (λ a l', wph (f a) l' Q) → wph (prog_bind p f) l Q.
Proof.
  revert l. induction p as [a|X e k IH]; intros l; [done|]. intros [Ho H]. split; [done|]. intros x. by apply IH.
Qed.

Lemma wph_call {X B} (e : localE X) (f : X → prog localE B) l (Q : B → list event → Prop) :
  ok l X e → (∀ x, wph (f x) (Did e x :: l) Q) → wph (prog_bind (call e) f) l Q.
Proof. by split. Qed.

Lemma wph_last {X} (e : localE X) l (Q : X → list event → Prop) : ok l X e → (∀ x, Q x (Did e x :: l)) → wph (call e) l Q.
Proof. by split. Qed.

Lemma wph_try {A B} (p : prog localE (result A)) (f : A → prog localE (result B)) l (Q : result B → list event → Prop) :
  wph p l (λ r l', match r with Ok a => wph (f a) l' Q | Err e => Q (Err e) l' end) → wph (try_bind p f) l Q.
Proof. intros H. apply wph_bind. eapply wph_mono; [exact H|]. by intros [a|e] l'. Qed.

Lemma wph_need {A} (p : prog localE (result A)) (f : A → prog localE (option error)) l (Q : option error → list event → Prop) :
  wph p l (λ r l', match r with Ok a => wph (f a) l' Q | Err e => Q (Some e) l' end) → wph (need_bind p f) l Q.
Proof. intros H. apply wph_bind. eapply wph_mono; [exact H|]. by intros [a|e] l'. Qed.

Lemma wph_check (p k : prog localE (option error)) l (Q : option error → list event → Prop) :
  wph p l (λ r l', match r with None => wph k l' Q | Some e => Q (Some e) l' end) → wph (check_bind p k) l Q.
Proof. intros H. apply wph_bind. eapply wph_mono; [exact H|]. by intros [e|] l'. Qed.

Lemma wph_deferring (p cleanup : prog localE (option error)) l (Q : option error → list event → Prop) :
  wph p l (λ r l', wph cleanup l' (λ e l'', Q (Join r e) l'')) → wph (deferring p cleanup) l Q.
Proof.
  intros H. apply wph_bind. eapply wph_mono; [exact H|]. intros r l' H'. apply wph_bind. eapply wph_mono; [exact H'|]. by intros e l''.
Qed.
End logic.

(** *** Runs *)

(** The histories a program passes through, whatever the calls answer. *)
Inductive ran {A} : prog localE A → list event → list event → Prop :=
  | ran_here p l : ran p l l
  | ran_call {X} (e : localE X) k x l l' : ran (k x) (Did e x :: l) l' → ran (Call e k) l l'.

(** Each call was allowed by what came before it. *)
Fixpoint allowed (ok : list event → ∀ X, localE X → Prop) (l : list event) : Prop :=
  match l with
  | [] => True
  | Did e _ :: l => ok l _ e ∧ allowed ok l
  end.

Lemma wph_allowed ok {A} (p : prog localE A) l Q l' : wph ok p l Q → allowed ok l → ran p l l' → allowed ok l'.
Proof.
  intros Hp Hl Hr. revert Hp Hl. induction Hr as [|X e k x l l' Hr IH]; [done|]. intros [Ho Hk] Hl. apply IH; [apply Hk|]. by split.
Qed.

Lemma ran_ret {A} (a : A) l l' : ran (Ret a) l l' → l' = l.
Proof. by inversion 1. Qed.

Lemma allowed_weaken (ok ok' : list event → ∀ X, localE X → Prop) l :
  (∀ l X (e : localE X), ok l X e → ok' l X e) → allowed ok l → allowed ok' l.
Proof. intros H. induction l as [|[X e x] l IH]; [done|]. intros [H1 H2]. split; [by apply H|by apply IH]. Qed.

(** A run with given answers. *)
Fixpoint run_history {A} (answer : list event → ∀ X, localE X → X) (p : prog localE A) (l : list event) : list event :=
  match p with
  | Ret _ => l
  | Call e k => let x := answer l _ e in run_history answer (k x) (Did e x :: l)
  end.

Lemma run_history_ran {A} answer (p : prog localE A) l : ran p l (run_history answer p l).
Proof. revert l. induction p as [a|X e k IH]; intros l; [apply ran_here|]. cbn [run_history]. eapply ran_call, IH. Qed.
End history.

(** One step of a program: a call, or a sequence of two programs. *)
Ltac history_step :=
  lazymatch goal with
  | |- wph _ (prog_bind (call _) _) _ _ => apply wph_call
  | |- wph _ (prog_bind _ _) _ _ => apply wph_bind
  | |- wph _ (try_bind _ _) _ _ => apply wph_try
  | |- wph _ (need_bind _ _) _ _ => apply wph_need
  | |- wph _ (check_bind _ _) _ _ => apply wph_check
  | |- wph _ (deferring _ _) _ _ => apply wph_deferring
  | |- wph _ (call _) _ _ => apply wph_last
  end.

Lemma here {Rec : Recovery} {R : RhizaMembers} {L : LocalArchives} (a : event) l : a ∈ a :: l.
Proof. apply list_elem_of_here. Qed.

Lemma earlier {Rec : Recovery} {R : RhizaMembers} {L : LocalArchives} (a : event) l l' : l `suffix_of` l' → a ∈ l → a ∈ l'.
Proof. intros [k ->] H. apply elem_of_app. by right. Qed.

(** Histories only grow. *)
Lemma wph_grows {Rec : Recovery} {R : RhizaMembers} {L : LocalArchives} ok {A} (p : prog localE A) l (Q : A → list event → Prop) :
  wph ok p l Q → wph ok p l (λ a l', l `suffix_of` l' ∧ Q a l').
Proof.
  revert l. induction p as [a|X e k IH]; intros l; [done|]. intros [Ho H]. split; [done|]. intros x.
  eapply wph_mono; [by apply IH|]. intros a l' [Hs HQ]. split; [|done]. by apply suffix_cons_l in Hs.
Qed.

(** The facts a program leaves, used by what follows it. *)
Lemma wph_use {Rec : Recovery} {R : RhizaMembers} {L : LocalArchives} ok {A} (p : prog localE A) l (F Q : A → list event → Prop) :
  wph ok p l F → (∀ a l', l `suffix_of` l' → F a l' → Q a l') → wph ok p l Q.
Proof. intros H HQ. eapply wph_mono; [by apply wph_grows|]. intros a l' [? ?]. by apply HQ. Qed.

(** ** What a history shows *)

Section facts.
Context {Hurl : NetURL} {Rec : Recovery} {R : RhizaMembers} {L : LocalArchives} (env : environment).

(** The event came after the history [l0]. *)
Definition since (l0 : list event) (a : event) (l : list event) : Prop := ∃ l1, l0 `suffix_of` l1 ∧ (a :: l1) `suffix_of` l.

(** The anchor of the environment was read after [l0], was valid for the
    configured storage, and reserved nothing. *)
Definition anchored (l0 : list event) (a : trustAnchor) (l : list event) : Prop :=
  a = anchor_of env (env "TERNAL_TRUST_ANCHOR_CONFIGMAP") (anchor_namespace a) ∧
  ∃ r rv, since l0 (Did (AnchorRead (anchor_name a) (anchor_namespace a)) (Ok (r, rv))) l ∧ validate a r = None ∧ PendingEpoch r = None.

(** The archive was read after [l0] and is the configured node's, seeded and resolved. *)
Definition archive_read (c : rhizaConfig) (v : localArchiveView) (l0 l : list event) : Prop :=
  ∃ a, since l0 (Did (OpenLocalArchive (localNamespace c)) (Ok a)) l ∧ View_Binding v = Archive_Binding a ∧
    Binding_Members (Archive_Binding a) = [cf_NodeID c] ∧ ArchiveLocationHash (Archive_Binding a) = "" ∧
    Did (MaintenanceResolved a) (Ok true) ∈ l ∧ Did (Tip a) (View_Tip v) ∈ l ∧
    Did (PrefixHash a (View_Tip v)) (Some (View_PrefixHash v)) ∈ l ∧ Did (Snapshot a) (View_Snapshot v) ∈ l.

(** The whole root was listed and holds the objects of one mode. *)
Definition listed (c : rhizaConfig) (l : list event) : Prop :=
  ∃ keys, Did (IterBucket (archive_root c)) (keys, None) ∈ l ∧
    Forall (λ key, strings.HasPrefix key (archive_local c) = cf_Local c) keys.

(** What a name stands for. *)
Inductive resolves (l : list event) : string → string → Prop :=
  | resolves_real name real : Did (EvalSymlinks name) (Ok real) ∈ l → resolves l name real
  | resolves_missing name parent : Did (EvalSymlinks name) (Err ErrNotExist) ∈ l → resolves l (path.Dir name) parent →
      resolves l name (path.Join [parent; path.Base name]).

(** The staging directory is a real one that holds the receipt, and neither it
    nor the data directory is inside the other, as written or resolved. *)
Record separated (dataDir stage receipt : string) (l : list event) : Prop := {
  sep_receipt : path.Dir receipt = stage;
  sep_real : Did (LstatOf stage) (Ok IsDirectory) ∈ l;
  sep_written : ∃ data, Did (AbsOf dataDir) (Ok data) ∈ l ∧ inside stage data = false ∧ inside data stage = false ∧
    ∃ realStage realData, Did (EvalSymlinks stage) (Ok realStage) ∈ l ∧ resolves l data realData ∧
      inside realStage realData = false ∧ inside realData realStage = false;
}.

(** The data directory is Ternal's own for this archive, or new. *)
Definition data_dir (c : rhizaConfig) (marker : option localDataMode) (l : list event) : Prop :=
  match marker with
  | Some m => (∃ data, Did (ReadOf (path.Join [cf_DataDir c; localModeMarker])) (Ok data) ∈ l ∧
                 decode_local (decode_strict mode_fields) zero_mode data = Ok m) ∧
              Mode_Version m = 1%Z ∧ Mode_Mode m = "local" ∧ Mode_StorageID m = localStorageID c
  | None => Did (LstatOf (cf_DataDir c)) (Err ErrNotExist) ∈ l ∨ Did (ReadDir (cf_DataDir c)) (Ok []) ∈ l
  end.

(** The receipt of the preflight was read, and is of this archive, run and anchor. *)
Definition receipt_read (c : rhizaConfig) (a : trustAnchor) (v : localArchiveView) (l : list event) : Prop :=
  ∃ stage receiptPath data receipt, separated (cf_DataDir c) stage receiptPath l ∧ Did (ReadOf receiptPath) (Ok data) ∈ l ∧
    decode_local (decode_strict receipt_fields) zero_receipt data = Ok receipt ∧
    validateLocalReceipt c receipt v = None ∧ validateLocalReceiptScope env receipt a = None.

(** What Local mode may be opened after. *)
Definition local_authorized (c : rhizaConfig) (l : list event) : Prop :=
  ∃ marker a v l1, data_dir c marker l ∧ anchored [] a l ∧ listed c l ∧ receipt_read c a v l ∧ archive_read c v [] l1 ∧
    match marker with Some m => Mode_Binding m = View_Binding v | None => True end ∧ ∃ a', anchored l1 a' l.

(** What the other modes may be opened after. *)
Definition legacy_authorized (c : rhizaConfig) (l : list event) : Prop :=
  Did (LstatOf (path.Join [cf_DataDir c; localModeMarker])) (Err ErrNotExist) ∈ l ∧
  (requireTrustAnchor env = true ∨ env "TERNAL_TRUST_ANCHOR_CONFIGMAP" ≠ "" →
     ∃ namespace r rv, Did (AnchorRead (env "TERNAL_TRUST_ANCHOR_CONFIGMAP") namespace) (Ok (r, rv)) ∈ l ∧ StorageID r ≠ localStorageID c) ∧
  (remote_provider c = true → listed c l).

Definition authorized (c : rhizaConfig) (l : list event) : Prop :=
  if cf_Local c then local_authorized c l else legacy_authorized c l.

(** *** They stay true *)

Lemma since_here l0 a l : l0 `suffix_of` l → since l0 a (a :: l).
Proof. intros H. exists l. by split. Qed.

Lemma since_more l0 a l l' : l `suffix_of` l' → since l0 a l → since l0 a l'.
Proof. intros H (l1 & H1 & H2). exists l1. split; [done|by etrans]. Qed.

Lemma since_in l0 a l : since l0 a l → a ∈ l.
Proof. intros (l1 & _ & H). eapply earlier; [exact H|]. apply here. Qed.

Lemma anchored_more l0 a l l' : l `suffix_of` l' → anchored l0 a l → anchored l0 a l'.
Proof. intros H (Ha & r & rv & Hs & Hr). split; [done|]. exists r, rv. split; [by eapply since_more|done]. Qed.

Lemma anchored_earlier l0 l0' a l : l0 `suffix_of` l0' → anchored l0' a l → anchored l0 a l.
Proof.
  intros H (Ha & r & rv & (l1 & H1 & H2) & Hr). split; [done|]. exists r, rv. split; [|done]. exists l1. split; [by etrans|done].
Qed.

Lemma archive_more c v l0 l l' : l `suffix_of` l' → archive_read c v l0 l → archive_read c v l0 l'.
Proof.
  intros H (a & Hs & Hb & Hm & Hh & H1 & H2 & H3 & H4). exists a. split; [by eapply since_more|]. do 3 (split; [done|]).
  split_and!; eauto using earlier.
Qed.

Lemma archive_earlier c v l0 l0' l : l0 `suffix_of` l0' → archive_read c v l0' l → archive_read c v l0 l.
Proof. intros H (a & (l1 & H1 & H2) & Hr). exists a. split; [|done]. exists l1. split; [by etrans|done]. Qed.

Lemma listed_more c l l' : l `suffix_of` l' → listed c l → listed c l'.
Proof. intros H (keys & Hk & Hf). exists keys. eauto using earlier. Qed.

Lemma resolves_more l l' name real : l `suffix_of` l' → resolves l name real → resolves l' name real.
Proof. intros H. induction 1; [eapply resolves_real|eapply resolves_missing]; eauto using earlier. Qed.

Lemma separated_more d s r l l' : l `suffix_of` l' → separated d s r l → separated d s r l'.
Proof.
  intros H [H1 H2 (data & H3 & H4 & H5 & rs & rd & H6 & H7 & H8)]. split; [done|eauto using earlier|].
  exists data. split; [eauto using earlier|]. do 2 (split; [done|]). exists rs, rd. eauto using earlier, resolves_more.
Qed.

Lemma data_dir_more c m l l' : l `suffix_of` l' → data_dir c m l → data_dir c m l'.
Proof.
  intros H. destruct m as [m|]; simpl; [|naive_solver eauto using earlier]. intros [(data & Hd & He) Hm]. split; [|done].
  exists data. eauto using earlier.
Qed.

Lemma receipt_more c a v l l' : l `suffix_of` l' → receipt_read c a v l → receipt_read c a v l'.
Proof. intros H (s & p & d & r & H1 & H2 & H3). exists s, p, d, r. eauto using earlier, separated_more. Qed.

Lemma local_authorized_more c l l' : l `suffix_of` l' → local_authorized c l → local_authorized c l'.
Proof.
  intros H (m & a & v & l1 & H1 & H2 & H3 & H4 & H5 & H6 & a' & H7). exists m, a, v, l1.
  split_and!; eauto using data_dir_more, anchored_more, listed_more, receipt_more.
Qed.

Lemma legacy_authorized_more c l l' : l `suffix_of` l' → legacy_authorized c l → legacy_authorized c l'.
Proof.
  intros H (H1 & H2 & H3). split; [eauto using earlier|]. split; [|eauto using listed_more].
  intros Ht. destruct (H2 Ht) as (ns & r & rv & Hr & Hn). exists ns, r, rv. eauto using earlier.
Qed.

Lemma authorized_more c l l' : l `suffix_of` l' → authorized c l → authorized c l'.
Proof. unfold authorized. intros H. destruct (cf_Local c); eauto using local_authorized_more, legacy_authorized_more. Qed.

(** ** What each program leaves *)

Section specs.
Context (ok : list event → ∀ X, localE X → Prop).

(** Calls that change nothing of the disk but what a file handle has pending. *)
Definition reads {X} (e : localE X) : Prop :=
  match e with
  | MkdirTemp _ _ | MkdirOf _ _ | MkdirAllOf _ _ | RemoveAll _ | TempOf _ _ | CopyTo _ _ | RenameOf _ _ | RemoveOf _
  | DownloadRoot _ _ | OpenDatabase _ | CloseDatabase => False
  | _ => True
  end.

Hypothesis Hreads : ∀ l X (e : localE X), reads e → ok l X e.

Ltac go := repeat first
  [ progress cbv beta zeta
  | history_step
  | lazymatch goal with |- ok _ _ _ => apply Hreads; exact I end
  | lazymatch goal with |- ∀ _, _ => intro end ].

Lemma readLocalJSON_spec {A} (d : decoder A) zero name l :
  wph ok (readLocalJSON d zero name) l (λ r l', ∀ v, r = Ok v → ∃ data, Did (ReadOf name) (Ok data) ∈ l' ∧ decode_local d zero data = Ok v).
Proof.
  unfold readLocalJSON. go. destruct x as [[|size| |]|]; try done. destruct (_ <? _)%Z; [done|]. go. destruct x as [data|]; [|done].
  cbn [wph]. intros v Hv. exists data. split; [apply here|done].
Qed.

Lemma trustAnchorFromEnv_spec l :
  wph ok (trustAnchorFromEnv env) l (λ r _, ∀ a, r = Ok a →
    match a with Some a => a = anchor_of env (env "TERNAL_TRUST_ANCHOR_CONFIGMAP") (anchor_namespace a) | None => requireTrustAnchor env = false end).
Proof.
  assert (Hn : ∀ name ns a, named_anchor env name ns = Ok a → ∃ b, a = Some b ∧ b = anchor_of env name (anchor_namespace b)).
  { intros name ns a. unfold named_anchor. case_bool_decide; [done|]. intros [= <-]. eexists. split; [done|].
    unfold anchor_of. by destruct (storageBindingFromEnv env). }
  unfold trustAnchorFromEnv. destruct (requireTrustAnchor env); cbn [negb]; [|by intros a [= <-]].
  destruct (if bool_decide _ then _ else _) as [e|]; [by intros a|]. cbv zeta. case_bool_decide; [by intros a|]. case_bool_decide.
  - go. destruct x as [data|e]; cbn [wph]; [|done]. intros a Ha. by destruct (Hn _ _ _ Ha) as (b & -> & Hb).
  - intros a Ha. by destruct (Hn _ _ _ Ha) as (b & -> & Hb).
Qed.

Lemma localTrustBeforeOpen_spec l : wph ok (localTrustBeforeOpen env) l (λ r l', ∀ a, r = Ok a → anchored l a l').
Proof.
  unfold localTrustBeforeOpen. go. eapply wph_use; [apply trustAnchorFromEnv_spec|]. intros [[a|]|] l' Hs Ha; try done.
  specialize (Ha _ eq_refl). cbv beta iota in Ha. unfold anchor_get. go. destruct x as [[r rv]|e]; [|done].
  destruct (validate a r) eqn:Ev; [done|]. cbn [wph fst]. destruct (PendingEpoch r) eqn:Ep; [done|]. intros a' [= <-].
  split; [done|]. exists r, rv. split; [by apply since_here|done].
Qed.

Lemma anchor_of_name name ns a : a = anchor_of env name ns → anchor_name a = name.
Proof. intros ->. unfold anchor_of. by destruct (storageBindingFromEnv env). Qed.

Lemma legacy_guard_spec c l : wph ok (legacyLocalAuthorityGuard env c) l (λ r l', r = None →
  requireTrustAnchor env = true ∨ env "TERNAL_TRUST_ANCHOR_CONFIGMAP" ≠ "" →
  ∃ namespace r rv, Did (AnchorRead (env "TERNAL_TRUST_ANCHOR_CONFIGMAP") namespace) (Ok (r, rv)) ∈ l' ∧ StorageID r ≠ localStorageID c).
Proof.
  unfold legacyLocalAuthorityGuard. destruct (_ && _) eqn:E.
  { apply andb_true_iff in E as [H1 H2]. apply negb_true_iff in H1. apply bool_decide_eq_true in H2. intros _ [H|H]; congruence. }
  go. eapply wph_use; [apply trustAnchorFromEnv_spec|]. intros [[a|]|] l' Hs Ha; try done. specialize (Ha _ eq_refl). cbv beta iota in Ha.
  go. cbn [wph]. destruct x as [[r rv]|e]; [|done].
  destruct (decide (StorageID r = localStorageID c)) as [Hid|Hid]; [by rewrite bool_decide_eq_true_2|]. intros _ _.
  exists (anchor_namespace a), r, rv. split; [|done]. rewrite <- (anchor_of_name _ _ a Ha). apply here.
Qed.

Lemma bucket_spec s l : wph ok (bucketWithContext s) l (λ _ _, True).
Proof.
  unfold bucketWithContext. cbv zeta.
  repeat first [ done | case_match | progress go ].
Qed.

Lemma check_keys_spec c keys after : check_keys c keys after = None →
  after = None ∧ Forall (λ key, strings.HasPrefix key (archive_local c) = cf_Local c) keys.
Proof.
  induction keys as [|key keys IH]; cbn [check_keys]; [done|]. unfold check_key.
  destruct (strings.HasPrefix key (archive_local c)) eqn:Eh, (cf_Local c) eqn:El; cbn [negb andb]; try done;
    intros H; destruct (IH H); (split; [done|]); constructor; congruence.
Qed.

Lemma checkArchiveMode_spec c l : wph ok (checkArchiveMode c) l (λ r l', r = None → listed c l').
Proof.
  unfold checkArchiveMode. go. destruct x as [keys after]. cbn [wph fst snd]. intros H. apply check_keys_spec in H as [-> H].
  exists keys. split; [apply here|done].
Qed.

Lemma readLocalArchive_spec c l : wph ok (readLocalArchive c) l (λ r l', ∀ v, r = Ok v → archive_read c v l l').
Proof.
  unfold readLocalArchive. go. destruct x as [a|e]; [|done]. unfold validateLocalBinding.
  destruct (Binding_Members (Archive_Binding a)) as [|id [|]] eqn:Em; try done.
  case_bool_decide as Hid; [|done]. destruct (StorageConfig.set _) eqn:Es; [done|].
  unfold StorageConfig.set in Es. apply negb_false_iff, bool_decide_eq_true in Es.
  go. destruct x as [[|]|]; try done. go. destruct x0 as [hash|]; [|done]. go. destruct x0 as [snapshot|]; [|done]. go.
  cbn [wph]. intros v [= <-]. exists a. cbn [View_Binding View_Tip View_PrefixHash View_Snapshot].
  split; [exists l; split; [done|]; by do 5 apply suffix_cons_r|].
  split; [done|]. split; [by rewrite Em, Hid|]. split; [done|].
  split_and!; repeat first [apply list_elem_of_here|apply list_elem_of_further].
Qed.

Lemma resolvedLocalPath_spec fuel name l : wph ok (resolvedLocalPath fuel name) l (λ r l', ∀ real, r = Ok real → resolves l' name real).
Proof.
  revert name l. induction fuel as [|fuel IH]; intros name l; cbn [resolvedLocalPath]; go;
    (destruct x as [real|e]; [intros ? [= <-]; eapply resolves_real, here|]);
    (destruct (negb _ || _) eqn:E; [done|]); [done|].
  apply orb_false_iff in E as [He _]. apply negb_false_iff, bool_decide_eq_true in He as ->.
  go. eapply wph_use; [apply IH|]. intros [parent|e] l' Hs Hp; [|done]. cbn [wph]. intros real [= <-].
  eapply resolves_missing; [eapply earlier; [exact Hs|apply here]|by apply Hp].
Qed.

Lemma localPreflightPaths_spec dataDir l : wph ok (localPreflightPaths env dataDir) l (λ r l', ∀ stage receipt, r = Ok (stage, receipt) →
  stage = env "TERNAL_LOCAL_PREFLIGHT_STAGING_DIR" ∧ receipt = env "TERNAL_LOCAL_PREFLIGHT_RECEIPT_FILE" ∧ separated dataDir stage receipt l').
Proof.
  unfold localPreflightPaths. go. destruct x as [data|e]; [|done].
  destruct (_ || bool_decide (_ = "/")); [done|]. destruct (_ || inside data _) eqn:E; [done|].
  rewrite !orb_false_iff in E. destruct E as [[Ed E1] E2]. apply negb_false_iff, bool_decide_eq_true in Ed.
  go. destruct x as [[| | |]|]; try done. go. destruct x as [realStage|]; [|done]. go.
  eapply wph_use; [apply resolvedLocalPath_spec|]. intros [realData|e] l' Hs Hr; [|done]. specialize (Hr _ eq_refl).
  destruct (_ || _) eqn:E; [done|]. apply orb_false_iff in E as [E3 E4]. cbn [wph]. intros stage receipt [= <- <-].
  do 2 (split; [done|]). split; [done|eapply earlier; [exact Hs|]; apply list_elem_of_further, here|].
  exists data. split; [eapply earlier; [exact Hs|]; do 2 apply list_elem_of_further; apply here|]. do 2 (split; [done|]).
  exists realStage, realData. split; [eapply earlier; [exact Hs|]; apply here|]. done.
Qed.

Lemma checkLocalDataDir_spec c l : wph ok (checkLocalDataDir c) l (λ r l', ∀ marker, r = Ok marker →
  if cf_Local c then data_dir c marker l' else Did (LstatOf (path.Join [cf_DataDir c; localModeMarker])) (Err ErrNotExist) ∈ l').
Proof.
  unfold checkLocalDataDir. cbv zeta. destruct (cf_Local c); cbn [negb].
  - go. destruct x as [[| | |]|e]; try done.
    2:{ cbn [wph]. intros marker. destruct (is_ErrNotExist e) eqn:He; [|done]. apply bool_decide_eq_true in He as ->.
        intros [= <-]. left. apply here. }
    go. eapply wph_use; [apply readLocalJSON_spec|]. intros [m|e] l' Hs Hm.
    + cbn [wph]. intros marker. destruct (_ || _) eqn:E; [done|]. intros [= <-]. rewrite !orb_false_iff in E. destruct E as [[E1 E2] E3].
      apply negb_false_iff in E1, E2, E3. apply Z.eqb_eq in E1. apply bool_decide_eq_true in E2, E3.
      split; [by apply Hm|done].
    + destruct (negb _); [done|]. go. destruct x as [[|entry entries]|]; cbn [wph]; try done. intros marker [= <-]. right. apply here.
  - go. cbn [wph]. intros marker. destruct x as [info|e]; [done|]. destruct (is_ErrNotExist e) eqn:He; [|done].
    apply bool_decide_eq_true in He as ->. intros _. apply here.
Qed.

(** *** Writing metadata *)

Definition metadata_pattern : string := ".local-metadata-".

(** A write of [data] to [name]: to a temporary file beside it, which takes its
    name when it is complete and on disk. *)
Definition writes_metadata (name data : string) (l : list event) {X} (e : localE X) : Prop :=
  let temp f := Did (TempOf (path.Dir name) metadata_pattern) (Ok f) ∈ l in
  match e with
  | TempOf dir pattern => dir = path.Dir name ∧ pattern = metadata_pattern
  | CopyTo f d => temp f ∧ d = data
  | RenameOf f to => temp f ∧ to = name ∧ Did (CopyTo f data) None ∈ l ∧ Did (SyncOf f) None ∈ l
  | RemoveOf f => temp f
  | _ => False
  end.

Lemma writeLocalJSON_spec name value l :
  (∀ l' X (e : localE X), l `suffix_of` l' → writes_metadata name (print value) l' e → ok l' X e) →
  wph ok (writeLocalJSON name value) l (λ _ _, True).
Proof.
  intros Hw. assert (Hrest : ∀ info, wph ok
    (f ←! call (TempOf (path.Dir name) ".local-metadata-");
     deferring (write_temp f (print value) name)
       (let! cleanup := call (RemoveOf f) in Ret (match cleanup with Some e => if is_ErrNotExist e then None else Some e | None => None end)))%go
    (Did (LstatOf name) info :: l) (λ _ _, True)).
  { intros info. assert (Hl : l `suffix_of` Did (LstatOf name) info :: l) by by apply suffix_cons_r.
    apply wph_need, wph_last; [by apply Hw|]. intros [f|e]; [|done].
    set (l1 := Did (TempOf _ _) (Ok f) :: _ :: l). assert (H1 : l `suffix_of` l1) by by apply suffix_cons_r.
    assert (Hf : ∀ l2, l1 `suffix_of` l2 → Did (TempOf (path.Dir name) metadata_pattern) (Ok f) ∈ l2) by (intros l2 Hs; eapply earlier; [exact Hs|apply here]).
    apply wph_deferring. eapply wph_use with (F := λ _ _, True).
    - unfold write_temp. go; [apply Hw; [done|]; split; [by apply Hf|done]|]. destruct x as [e|]; [go; done|]. go.
      destruct x as [e|]; [go; done|]. go. destruct x as [e|]; [done|]. go; [|done].
      apply Hw; [by do 3 apply suffix_cons_r|]. split; [apply Hf; by do 3 apply suffix_cons_r|]. split; [done|].
      split; repeat first [apply list_elem_of_here|apply list_elem_of_further].
    - intros r l2 Hs _. go; [|done]. apply Hw; [by etrans|]. by apply Hf. }
  unfold writeLocalJSON. cbv zeta. destruct (_ <? _)%Z; [done|]. go.
  destruct x as [[| | |]|e]; try done. destruct (negb _); [done|]. apply Hrest.
Qed.

(** *** Before the database is opened *)

(** The marker that the opening leaves in a new data directory. *)
Definition marks (c : rhizaConfig) (l : list event) {X} (e : localE X) : Prop :=
  local_authorized c l ∧ ∃ v, archive_read c v [] l ∧
    match e with
    | MkdirAllOf p mode => p = cf_DataDir c ∧ mode = 448%Z
    | _ => writes_metadata (path.Join [cf_DataDir c; localModeMarker])
             (print (json_of_mode (mkDataMode L 1 "local" (localStorageID c) (View_Binding v)))) l e
    end.

Lemma Join_None a b : Join a b = None → a = None ∧ b = None.
Proof. by destruct a, b. Qed.

Ltac joined := repeat match goal with H : Join _ _ = None |- _ => apply Join_None in H as [? ?] end.

Lemma nil_suffix {A} (l : list A) : [] `suffix_of` l.
Proof. exists l. by rewrite app_nil_r. Qed.

Lemma validateLocalReceipt_binding c receipt v : validateLocalReceipt c receipt v = None → View_Binding (Receipt_View receipt) = View_Binding v.
Proof.
  unfold validateLocalReceipt. destruct (_ || _ || negb (bool_decide (View_Binding _ = _)) || _) eqn:E; [done|]. intros _.
  rewrite !orb_false_iff in E. destruct E as [[_ E] _]. by apply negb_false_iff, bool_decide_eq_true in E.
Qed.

Lemma prepare_local_spec c marker a l0 l :
  (∀ l' X (e : localE X), marks c l' e → ok l' X e) →
  data_dir c marker l → anchored l0 a l → listed c l →
  wph ok (prepare_local env c marker a) l (λ r l', r = None → local_authorized c l').
Proof.
  intros Hm Hd Ha Hl. unfold prepare_local. go. eapply wph_use; [apply localPreflightPaths_spec|].
  intros [[stage receiptPath]|e] l1 S1 Hp; [|done]. destruct (Hp _ _ eq_refl) as (_ & _ & Hsep). cbn [snd]. go.
  eapply wph_use; [apply readLocalJSON_spec|]. intros [receipt|e] l2 S2 Hr; [|done]. destruct (Hr _ eq_refl) as (data & Hdata & Hdec). go.
  eapply wph_use; [apply readLocalArchive_spec|]. intros [v|e] l3 S3 Hv; [|done]. specialize (Hv _ eq_refl).
  destruct (validateLocalReceipt c receipt v) eqn:E1; [done|]. destruct (validateLocalReceiptScope env receipt a) eqn:E2; [done|].
  destruct (match marker with Some m => _ | None => false end) eqn:E3; [done|].
  go. eapply wph_use; [apply localTrustBeforeOpen_spec|]. intros [a'|e] l4 S4 Ha'; [|done]. specialize (Ha' _ eq_refl).
  assert (Hauth : ∀ l5, l4 `suffix_of` l5 → local_authorized c l5).
  { intros l5 S5. apply (local_authorized_more c l4 l5 S5). exists marker, a, v, l3.
    assert (Hs : l `suffix_of` l4) by (etrans; [exact S1|]; etrans; [exact S2|]; by etrans).
    split_and!; eauto using data_dir_more, listed_more, anchored_more, anchored_earlier, nil_suffix, archive_earlier.
    - exists stage, receiptPath, data, receipt. assert (S24 : l2 `suffix_of` l4) by by etrans.
      split; [eapply separated_more; [|exact Hsep]; by etrans|]. split; [by eapply earlier|done].
    - destruct marker as [m|]; [|done]. by apply negb_false_iff, bool_decide_eq_true in E3. }
  destruct marker as [m|]; [cbn [wph]; intros _; by apply Hauth|]. go.
  { apply Hm. split; [by apply Hauth|]. exists v. split; [|done]. eapply archive_more; [exact S4|]. eapply archive_earlier; [apply nil_suffix|exact Hv]. }
  destruct x as [e|]; [done|]. eapply wph_use; [apply writeLocalJSON_spec|].
  - intros l5 X e S5 Hw. apply suffix_cons_l in S5 as S5'. apply Hm. split; [by apply Hauth|]. exists v.
    split; [eapply archive_more; [exact S5'|]; eapply archive_more; [exact S4|]; eapply archive_earlier; [apply nil_suffix|exact Hv]|].
    by destruct e.
  - intros r l5 S5 _ _. apply Hauth. by apply suffix_cons_l in S5.
Qed.

Lemma prepareLocalOpen_spec c l :
  (∀ l' X (e : localE X), cf_Local c = true → marks c l' e → ok l' X e) →
  wph ok (prepareLocalOpen env c) l (λ r l', r = None → authorized c l').
Proof.
  intros Hm. unfold prepareLocalOpen, authorized. go. eapply wph_use; [apply checkLocalDataDir_spec|].
  intros [marker|e] l1 S1 Hd; [|done]. specialize (Hd _ eq_refl). destruct (cf_Local c) eqn:El; cbn [negb]; go.
  - eapply wph_use; [apply localTrustBeforeOpen_spec|]. intros [a|e] l2 S2 Ha; [|done]. specialize (Ha _ eq_refl). go.
    eapply wph_use; [apply bucket_spec|]. intros [e|] l3 S3 _; [done|]. go.
    eapply wph_use; [apply checkArchiveMode_spec|]. intros [e|] l4 S4 Hl; [go; by joined|]. specialize (Hl eq_refl).
    eapply wph_use; [eapply prepare_local_spec;
      [by auto|eapply data_dir_more; [|exact Hd]; etrans; [exact S2|]; by etrans|eapply anchored_more; [|exact Ha]; by etrans|exact Hl]|].
    intros r l5 S5 Hr. go. joined. eapply local_authorized_more; [|by apply Hr]. by apply suffix_cons_r.
  - eapply wph_use; [apply legacy_guard_spec|]. intros [e|] l2 S2 Hg; [done|]. specialize (Hg eq_refl).
    destruct (remote_provider c) eqn:Er; cbn [negb].
    2:{ cbn [wph]. intros _. split; [by eapply earlier|]. split; [exact Hg|congruence]. }
    go. eapply wph_use; [apply bucket_spec|]. intros [e|] l3 S3 _; [done|]. go.
    eapply wph_use; [apply checkArchiveMode_spec|]. intros err l4 S4 Hl. go. joined. specialize (Hl ltac:(done)).
    eapply (legacy_authorized_more c l4); [by apply suffix_cons_r|]. assert (S24 : l2 `suffix_of` l4) by by etrans.
    split; [eapply earlier; [|exact Hd]; by etrans|]. split; [|done].
    intros Ht. destruct (Hg Ht) as (ns & r & rv & Hr & Hn). exists ns, r, rv. split; [by eapply earlier|done].
Qed.

(** *** The preflight *)

Notation stage := (env "TERNAL_LOCAL_PREFLIGHT_STAGING_DIR").
Notation receipt_file := (env "TERNAL_LOCAL_PREFLIGHT_RECEIPT_FILE").

(** What the receipt says was found: the archive read, its checkpoint downloaded
    and verified, the archive read again as it was, and the anchor once more. *)
Definition vouched (c : rhizaConfig) (r : localPreflightReceipt) (l : list event) : Prop :=
  ∃ scope a v snapshot rt dir l1 l2 l3 a',
    r = mkReceipt L 1 (localStorageID c) (cf_NodeID c) scope (anchor_name a) (anchor_namespace a) v ∧
    localPreflightScope env = Ok scope ∧ anchored [] a l ∧ listed c l ∧
    archive_read c v [] l1 ∧ View_Snapshot v = Some snapshot ∧ Did (OpenRoot (localNamespace c) snapshot) (Ok rt) ∈ l2 ∧
    since l1 (Did (DownloadRoot rt dir) None) l2 ∧ archive_read c v l2 l3 ∧ anchored l3 a' l.

(** What the preflight may change: a directory of its own in staging, and the
    receipt there. *)
Definition stages (c : rhizaConfig) (l : list event) {X} (e : localE X) : Prop :=
  separated (cf_DataDir c) stage receipt_file l ∧
  let own p := Did (MkdirTemp stage "verified-") (Ok p) ∈ l in
  match e with
  | MkdirTemp dir pattern => dir = stage ∧ pattern = "verified-"
  | MkdirOf p _ | DownloadRoot _ p => ∃ work, own work ∧ p = path.Join [work; "files"]
  | RemoveAll p => own p
  | _ => ∃ r, vouched c r l ∧ writes_metadata receipt_file (print (json_of_receipt r)) l e
  end.

Lemma vouched_more c r l l' : l `suffix_of` l' → vouched c r l → vouched c r l'.
Proof.
  intros H (scope & a & v & snap & rt & dir & l1 & l2 & l3 & a' & H1 & H2 & H3 & H4 & H5 & H6 & H7 & H8 & H9 & H10).
  exists scope, a, v, snap, rt, dir, l1, l2, l3, a'. split_and!; eauto using anchored_more, listed_more.
Qed.

Lemma downloadLocalRoot_spec prefix snapshot work l :
  (∀ l' mode, l `suffix_of` l' → ok l' _ (MkdirOf (path.Join [work; "files"]) mode)) →
  (∀ l' rt, l `suffix_of` l' → ok l' _ (DownloadRoot rt (path.Join [work; "files"]))) →
  wph ok (downloadLocalRoot prefix snapshot work) l (λ r l', r = None → ∃ snap rt,
    snapshot = Some snap ∧ Did (OpenRoot prefix snap) (Ok rt) ∈ l' ∧ since l (Did (DownloadRoot rt (path.Join [work; "files"])) None) l').
Proof.
  intros Hm Hd. unfold downloadLocalRoot. destruct snapshot as [snap|]; [|done].
  apply wph_check, wph_last; [by apply Hm|]. intros [e|]; [done|]. go. destruct x as [rt|e]; [|done]. apply wph_last; [apply Hd; by do 2 apply suffix_cons_r|].
  intros r ->. exists snap, rt. split; [done|]. split; [apply list_elem_of_further, here|]. apply since_here. by do 2 apply suffix_cons_r.
Qed.

Section preflight.
Context (c : rhizaConfig).
Hypothesis Hstages : ∀ l X (e : localE X), stages c l e → ok l X e.

Lemma preflight_work_spec scope a v work l0 l :
  localPreflightScope env = Ok scope → anchored l0 a l → listed c l → archive_read c v l0 l →
  separated (cf_DataDir c) stage receipt_file l → Did (MkdirTemp stage "verified-") (Ok work) ∈ l →
  wph ok (preflight_work env c work receipt_file v
    (mkReceipt L 1 (localStorageID c) (cf_NodeID c) scope (anchor_name a) (anchor_namespace a) v)) l (λ _ _, True).
Proof.
  intros Hscope Ha Hl Hv Hsep Hwork.
  assert (Hown : ∀ l', l `suffix_of` l' → separated (cf_DataDir c) stage receipt_file l' ∧ Did (MkdirTemp stage "verified-") (Ok work) ∈ l')
    by eauto using separated_more, earlier.
  unfold preflight_work. go. eapply wph_use.
  { apply downloadLocalRoot_spec; intros l' ? S; apply Hstages; destruct (Hown l' S); (split; [done|]); by exists work. }
  intros [e|] l1 S1 Hdown; [done|]. destruct (Hdown eq_refl) as (snap & rt & Hsnap & Hroot & Hdl).
  go. eapply wph_use; [apply readLocalArchive_spec|]. intros [after|e] l2 S2 Hafter; [|done]. specialize (Hafter _ eq_refl).
  destruct (bool_decide _) eqn:Eq; [|done]. cbn [negb]. apply bool_decide_eq_true in Eq as (E1 & E2 & E3 & E4).
  assert (after = v) as -> by (destruct after, v; cbn in *; congruence).
  go. eapply wph_use; [apply localTrustBeforeOpen_spec|]. intros [a'|e] l3 S3 Ha'; [|done]. specialize (Ha' _ eq_refl).
  assert (S13 : l `suffix_of` l3) by (etrans; [exact S1|]; by etrans).
  eapply wph_use; [apply writeLocalJSON_spec|done]. intros l4 X e S4 Hw. apply Hstages.
  split; [apply Hown; by etrans|]. cbv zeta.
  assert (Hr : vouched c (mkReceipt L 1 (localStorageID c) (cf_NodeID c) scope (anchor_name a) (anchor_namespace a) v) l4).
  { apply (vouched_more _ _ l3); [done|]. exists scope, a, v, snap, rt, (path.Join [work; "files"]), l, l1, l2, a'.
    split_and!; eauto using anchored_more, anchored_earlier, nil_suffix, listed_more, archive_earlier. }
  destruct e; try done; by eexists.
Qed.

End preflight.

Lemma LocalPreflight_spec l :
  (∀ c l' X (e : localE X), rhizaConfigFromEnv env (getenv_or env "TERNAL_DATA_DIR" "ternal-data") = Ok c → cf_Local c = true →
     stages c l' e → ok l' X e) →
  wph ok (LocalPreflightFromEnv env) l (λ _ _, True).
Proof.
  intros Hstages. unfold LocalPreflightFromEnv. destruct (rhizaConfigFromEnv _ _) as [c|e] eqn:Ec; [|done].
  destruct (cf_Local c) eqn:El; cbn [negb]; [|done]. specialize (Hstages c). go.
  eapply wph_use; [apply localPreflightPaths_spec|]. intros [[st rp]|e] l1 S1 Hp; [|done]. destruct (Hp _ _ eq_refl) as (-> & -> & Hsep).
  destruct (localPreflightScope env) as [scope|e] eqn:Escope; [|done]. go.
  eapply wph_use; [apply localTrustBeforeOpen_spec|]. intros [a|e] l2 S2 Ha; [|done]. specialize (Ha _ eq_refl). go.
  eapply wph_use; [apply bucket_spec|]. intros [e|] l3 S3 _; [done|]. go.
  eapply wph_use; [apply checkArchiveMode_spec|]. intros [e|] l4 S4 Hl; [by go|]. specialize (Hl eq_refl). go.
  eapply wph_use; [apply readLocalArchive_spec|]. intros [v|e] l5 S5 Hv; [|by go]. specialize (Hv _ eq_refl).
  assert (S25 : l2 `suffix_of` l5) by (etrans; [exact S3|]; by etrans).
  assert (Hsep5 : separated (cf_DataDir c) stage receipt_file l5) by (eapply separated_more; [|exact Hsep]; by etrans).
  apply wph_need, wph_last; [apply Hstages; [done..|]; by split|]. intros [work|e]; [|by go].
  set (l6 := Did (MkdirTemp _ _) _ :: l5). assert (S56 : l5 `suffix_of` l6) by by apply suffix_cons_r.
  apply wph_deferring. eapply wph_use.
  - eapply (preflight_work_spec c ltac:(intros ???; by apply Hstages) scope a v work []); [done|..|apply here].
    + eapply anchored_earlier; [apply nil_suffix|]. eapply anchored_more; [|exact Ha]. by etrans.
    + eapply listed_more; [|exact Hl]. by etrans.
    + eapply archive_more; [exact S56|]. eapply archive_earlier; [apply nil_suffix|exact Hv].
    + by eapply separated_more.
  - intros r l7 S7 _. apply wph_last; [|by go]. apply Hstages; [done..|]. split; [eapply separated_more; [|exact Hsep5]; by etrans|].
    eapply earlier; [exact S7|apply here].
Qed.

End specs.

(** ** The two theorems *)

(** Opening: the disk is touched, and the database opened, only when authorized. *)
Definition opens_checked (dataDir : string) (l : list event) X (e : localE X) : Prop :=
  reads e ∨ ∃ c, rhizaConfigFromEnv env dataDir = Ok c ∧ authorized c l ∧
    match e with
    | OpenDatabase c' => c' = c
    | MkdirAllOf p _ => p = dataDir ∨ (cf_Local c = true ∧ p = cf_DataDir c)
    | _ => cf_Local c = true ∧ marks c l e
    end.

(** Restoring: the same, after the preflight, and the database is closed again. *)
Definition restores_checked (l : list event) X (e : localE X) : Prop :=
  let dataDir := getenv_or env "TERNAL_DATA_DIR" "ternal-data" in
  opens_checked dataDir l X e ∨
  ∃ c, rhizaConfigFromEnv env dataDir = Ok c ∧
    match e with CloseDatabase => Did (OpenDatabase c) None ∈ l | _ => cf_Local c = true ∧ stages c l e end.


Lemma reads_allowed dataDir l X (e : localE X) : reads e → opens_checked dataDir l X e.
Proof. by left. Qed.

Lemma marks_allowed dataDir c l X (e : localE X) : rhizaConfigFromEnv env dataDir = Ok c → cf_Local c = true → marks c l e →
  opens_checked dataDir l X e.
Proof.
  intros Hc Hl Hm. right. exists c. split; [done|]. split; [unfold authorized; rewrite Hl; apply Hm|].
  destruct e; try done; destruct Hm as (_ & v & _ & Hw); try done. right. split; [done|apply Hw].
Qed.

Lemma open_database_spec dataDir : wph (opens_checked dataDir) (open_database env dataDir) [] (λ _ _, True).
Proof.
  unfold open_database. cbv zeta. destruct (_ && _); [done|]. destruct (rhizaConfigFromEnv env dataDir) as [c|e] eqn:Ec; [|done].
  apply wph_bind. eapply wph_use; [apply prepareLocalOpen_spec; eauto using reads_allowed, marks_allowed|].
  intros [e|] l1 S1 Ha; [done|]. specialize (Ha eq_refl). apply wph_call; [right; exists c; split_and!; by try left|].
  intros [e|]; [done|]. apply wph_call; [|done]. right. exists c. split; [done|]. split; [|done]. eapply authorized_more; [|exact Ha]. by apply suffix_cons_r.
Qed.

(** What the preflight may do. *)
Definition preflights (l : list event) X (e : localE X) : Prop :=
  reads e ∨ ∃ c, rhizaConfigFromEnv env (getenv_or env "TERNAL_DATA_DIR" "ternal-data") = Ok c ∧ cf_Local c = true ∧ stages c l e.

Lemma preflight_spec : wph preflights (LocalPreflightFromEnv env) [] (λ _ _, True).
Proof. apply LocalPreflight_spec; [by left|]. intros c l' X e Hc Hl Hs. right. by exists c. Qed.

(** [C14] The database is opened only after its checks.  Whatever the disk, the
    bucket, the archive and the trust anchor answer, Open touches the disk and
    opens the database only when the authority over it was checked: in Local
    mode the data directory is this archive's or new, the anchor of the
    environment is valid and reserves nothing, the whole root holds only Local
    objects, the receipt of a preflight of this run is of this archive, and the
    anchor is read again after the archive; otherwise there is no Local data
    directory, the anchor does not name the Local archive, and the root holds no
    Local objects.  The only file written before is the marker of a new data
    directory, whole and on disk before it takes its name. *)
Theorem database_opens_after_its_checks dataDir l : ran (open_database env dataDir) [] l → allowed (opens_checked dataDir) l.
Proof. by apply (wph_allowed _ _ _ (λ _ _, True) _ (open_database_spec dataDir)). Qed.

(** [C37] The preflight changes nothing but its staging directory.  Whatever is
    answered, it makes and removes a working directory of its own there and
    writes the receipt, all outside the data directory as written and as
    resolved; and the receipt is written only when it says what was found: the
    anchor was valid and reserved nothing before and after, the root holds only
    Local objects, the checkpoint of the archive was downloaded and verified,
    and the archive read the same before and after.  Nothing else is written,
    and no database is opened. *)
Theorem preflight_stays_in_staging l : ran (LocalPreflightFromEnv env) [] l → allowed preflights l.
Proof. by apply (wph_allowed _ _ _ (λ _ _, True) _ preflight_spec). Qed.

(** Restoring is the preflight followed by an opening. *)
Lemma restore_is_checked l : ran (LocalRestoreFromEnv env) [] l → allowed restores_checked l.
Proof.
  apply (wph_allowed _ _ _ (λ _ _, True)); [|done]. unfold LocalRestoreFromEnv.
  assert (Hreads : ∀ l' X (e : localE X), reads e → restores_checked l' X e) by (intros; left; by apply reads_allowed).
  apply wph_check. eapply wph_use; [apply LocalPreflight_spec; [exact Hreads|]|].
  { intros c l' X e Hc Hl Hs. right. exists c. split; [done|]. destruct e; try by split. by destruct Hs as (_ & r & _ & ?). }
  intros [e|] l1 S1 _; [done|]. cbv zeta. destruct (rhizaConfigFromEnv _ _) as [c|e] eqn:Ec; [|done].
  apply wph_check. eapply wph_use; [apply prepareLocalOpen_spec; [exact Hreads|]; intros; left; by eapply marks_allowed|].
  intros [e|] l2 S2 Ha; [done|]. specialize (Ha eq_refl). apply wph_call; [left; right; by exists c|].
  intros [e|]; [done|]. apply wph_call; [|done]. right. exists c. split; [done|]. apply here.
Qed.


(** ** The receipt is read back *)

Lemma decode_known_at {S A} (fields : list (struct_field S)) name (get : S → A) set d s j l a :
  find_field fields name = Some (at_field name get set d) → d (get s) j = Some a →
  decode_known fields s ((name, j) :: l) = decode_known fields (set a s) l.
Proof. intros Hf Hd. cbn [decode_known fst snd]. rewrite Hf. cbn [mbind option_bind]. unfold at_field. cbn [fst snd]. by rewrite Hd. Qed.

Lemma decode_bytes_back old s : String.length old = String.length s → decode_bytes old (json_of_bytes s) = Some s.
Proof.
  revert old. induction s as [|c s IH]; intros [|o old] H; try done. injection H as H. cbn [json_of_bytes decode_bytes decode_byte].
  rewrite ParseUint_FormatInt.
  2:{ pose proof (N_ascii_bounded c). unfold byte_of. change (2 ^ 8)%Z with 256%Z. lia. }
  cbn [mbind option_bind]. rewrite IH by done. cbn [mbind option_bind]. do 2 f_equal. rewrite N2Z.id. apply ascii_N_embedding.
Qed.

Lemma printable_bytes d s : foldr (λ j P, printable d j ∧ P) True (json_of_bytes s).
Proof. induction s as [|c s IH]; [done|]. split; [by eexists|done]. Qed.

(** The archive's own types survive their JSON form. *)
Record stable_view (v : localArchiveView) : Prop := {
  sv_binding : printable 2 (json_of_binding (View_Binding v)) ∧ decode_binding zero_binding (json_of_binding (View_Binding v)) = Some (View_Binding v);
  sv_tip : printable 2 (json_of_slot (View_Tip v)) ∧ decode_slot zero_slot (json_of_slot (View_Tip v)) = Some (View_Tip v);
  sv_hash : String.length (View_PrefixHash v) = 32;
  sv_snapshot snapshot : View_Snapshot v = Some snapshot →
    printable 2 (json_of_snapshot snapshot) ∧ json_of_snapshot snapshot ≠ JNull ∧ decode_snapshot zero_snapshot (json_of_snapshot snapshot) = Some snapshot;
}.

Definition stable_receipt (r : localPreflightReceipt) : Prop :=
  stable_view (Receipt_View r) ∧ in_int64 (Receipt_Version r) ∧
  Forall (λ s, ValidString s = true) [Receipt_StorageID r; Receipt_NodeID r; Receipt_Scope r; Receipt_AnchorName r; Receipt_AnchorNamespace r].

Lemma decode_view v : stable_view v → decode_strict view_fields zero_view (json_of_view v) = Some v.
Proof.
  intros [[_ Hb] [_ Ht] Hh Hs]. unfold json_of_view, decode_strict.
  erewrite (decode_known_at view_fields "binding"); [|reflexivity|exact Hb].
  erewrite (decode_known_at view_fields "tip"); [|reflexivity|exact Ht].
  erewrite (decode_known_at view_fields "prefix_hash"); [|reflexivity|by apply decode_bytes_back].
  erewrite (decode_known_at view_fields "snapshot" _ _ _ _ _ _ (View_Snapshot v)); cycle 1; [reflexivity| |by destruct v].
  destruct (View_Snapshot v) as [snapshot|]; [|done]. destruct (Hs _ eq_refl) as (_ & Hn & Hd).
  unfold decode_pointer. cbn [default View_Snapshot zero_view]. rewrite Hd. by destruct (json_of_snapshot snapshot).
Qed.

Lemma printable_receipt r : stable_receipt r → printable 0 (json_of_receipt r).
Proof.
  intros ([[Hb _] [Ht _] _ Hs] & _ & Hv). rewrite !Forall_cons in Hv. destruct Hv as (H1 & H2 & H3 & H4 & H5 & _).
  apply printable_members_intro; [|done]. members; (split; [done|]); try done; [by eexists|].
  apply (printable_members_intro 1); [|done]. members; (split; [done|]); try done; [split; [done|apply printable_bytes]|].
  cbn [snd]. destruct (View_Snapshot _); [by apply Hs|done].
Qed.

Lemma receipt_reads_back r : stable_receipt r → (Z.of_nat (String.length (print (json_of_receipt r))) ≤ maxLocalReceipt)%Z →
  decode_local (decode_strict receipt_fields) zero_receipt (print (json_of_receipt r)) = Ok r.
Proof.
  intros Hr Hlen. pose proof (printable_receipt r Hr) as Hp. unfold decode_local. cbv zeta. rewrite stake_all by lia.
  rewrite <- (app_nil_r_s (print (json_of_receipt r))) at 2. pose proof (need_le (json_of_receipt r) 0 Hp).
  erewrite parse_value_print; [|exact Hp|lia|done]. destruct Hr as (Hv & Hver & _).
  unfold json_of_receipt at 1, decode_strict.
  erewrite (decode_known_at receipt_fields "version"); [|reflexivity|exact (ParseInt_FormatInt _ Hver)].
  do 5 (erewrite (decode_known_at receipt_fields); [|reflexivity|reflexivity]).
  erewrite (decode_known_at receipt_fields "view"); [|reflexivity|exact (decode_view _ Hv)]. by destruct r.
Qed.

(** [C38] The receipt of a preflight is accepted.  What a preflight vouches for is
    read back as it was written, every unknown field being refused, and the
    opening with the same settings accepts it for the same anchor as long as
    the archive keeps its binding, whatever was added to it since. *)
Theorem preflight_receipt_is_accepted c r l v a : vouched c r l → stable_receipt r →
  (Z.of_nat (String.length (print (json_of_receipt r))) ≤ maxLocalReceipt)%Z →
  View_Binding v = View_Binding (Receipt_View r) → anchor_name a = Receipt_AnchorName r → anchor_namespace a = Receipt_AnchorNamespace r →
  decode_local (decode_strict receipt_fields) zero_receipt (print (json_of_receipt r)) = Ok r ∧
  validateLocalReceipt c r v = None ∧ validateLocalReceiptScope env r a = None.
Proof.
  intros (scope & a0 & v0 & snapshot & _ & _ & _ & _ & _ & _ & -> & Hscope & _ & _ & _ & Hsnap & _) Hr Hlen Hv Hn Hns.
  split; [by apply receipt_reads_back|]. cbn in Hv, Hn, Hns. split.
  - unfold validateLocalReceipt. cbn [Receipt_Version Receipt_StorageID Receipt_NodeID Receipt_View]. rewrite Hsnap, Hv.
    by rewrite !bool_decide_eq_true_2.
  - unfold validateLocalReceiptScope. rewrite Hscope. cbn [Receipt_Scope Receipt_AnchorName Receipt_AnchorNamespace].
    by rewrite !bool_decide_eq_true_2.
Qed.

End facts.

(** *** The process *)

Section process.
Context {Hurl : NetURL} {Rec : Recovery} {R : RhizaMembers} {L : LocalArchives}.

(** Whatever ternal-api is called with, it keeps the rules of restoring, with
    the operator's variables in place when it serves. *)
Lemma process_is_checked env args l : ran (runArgs env args) [] l →
  allowed (restores_checked (if bool_decide (args = []) then fst (server_environment env) else env)) l.
Proof.
  destruct args as [|command [|]]; cbn [runArgs].
  - rewrite bool_decide_eq_true_2 by done. unfold start. destruct (server_environment env) as [env' [e|]]; cbn [fst].
    { by intros ->%ran_ret. }
    intros Hran. apply (wph_allowed _ _ _ _ _ (open_database_spec env' _) I) in Hran. eapply allowed_weaken; [|exact Hran]. by left.
  - rewrite (bool_decide_eq_false_2 ([command] = [])) by done. case_bool_decide; [apply restore_is_checked|]. case_bool_decide.
    + intros Hran. apply (wph_allowed _ _ _ _ _ (preflight_spec env) I) in Hran. eapply allowed_weaken; [|exact Hran]. intros l' X e [Hr|(c & Hc & Hl & Hs)]; [left; by left|].
      right. exists c. split; [done|]. destruct e; try by split. by destruct Hs as (_ & r & _ & ?).
    + by intros ->%ran_ret.
  - rewrite (bool_decide_eq_false_2 (command :: _ = [])) by done. by intros ->%ran_ret.
Qed.
End process.

(** ** The fuel of resolvedLocalPath is enough *)

(** The bytes of a list of elements, with a separator after each. *)
Notation weight := (sum_list_with (λ e, S (String.length e))).

Lemma Join_weight l : l ≠ [] → S (String.length (strings.Join l "/")) = weight l.
Proof.
  induction l as [|x [|y l] IH]; [done|cbn; lia|]. intros _.
  change (strings.Join (x :: y :: l) "/") with (x +:+ "/" +:+ strings.Join (y :: l) "/").
  rewrite !length_app_s. specialize (IH ltac:(done)). cbn [sum_list_with] in *. change (String.length "/") with 1. lia.
Qed.

Lemma Join_last l : l ≠ [] → ∃ a e, strings.Join l "/" = a +:+ e ∧ e ∈ l.
Proof.
  induction l as [|x [|y l] IH]; [done|exists "", x; split; [done|apply list_elem_of_here]|]. intros _.
  destruct (IH ltac:(done)) as (a & e & E & He). exists (x +:+ "/" +:+ a), e. split; [|by apply list_elem_of_further].
  change (strings.Join (x :: y :: l) "/") with (x +:+ "/" +:+ strings.Join (y :: l) "/"). by rewrite E, !app_assoc_s.
Qed.

Lemma clean_step_weight kept e : weight (path.clean_step true kept e) ≤ weight kept + S (String.length e).
Proof.
  unfold path.clean_step. destruct (_ || _); [lia|]. case_bool_decide; [|cbn; lia].
  destruct kept as [|top kept]; [cbn; lia|]. case_bool_decide; cbn; lia.
Qed.

Lemma clean_weight l kept : weight (foldl (path.clean_step true) kept l) ≤ weight kept + weight l.
Proof.
  revert kept. induction l as [|e l IH]; intros kept; [cbn; lia|]. cbn [foldl sum_list_with].
  pose proof (IH (path.clean_step true kept e)). pose proof (clean_step_weight kept e). lia.
Qed.

Definition plain_name (e : string) : Prop := e ≠ "" ∧ without slash e = true.

Lemma clean_plain_names l kept : Forall (λ e, without slash e = true) l → Forall plain_name kept →
  Forall plain_name (foldl (path.clean_step true) kept l).
Proof.
  revert kept. induction l as [|e l IH]; intros kept Hl Hk; [done|]. apply Forall_cons in Hl as [He Hl]. cbn [foldl]. apply IH; [done|].
  unfold path.clean_step. case_bool_decide as E; [done|]. case_bool_decide; [done|]. cbn [orb].
  assert (plain_name e) by by split.
  case_bool_decide; [|by constructor]. destruct kept as [|t kept]; [by constructor|].
  case_bool_decide; [by constructor|]. by apply Forall_cons in Hk as [_ Hk].
Qed.

(** An absolute path that ends in a slash only as a whole. *)
Definition trimmed (s : string) : Prop := s = "/" ∨ ∃ a e, s = String slash a +:+ e ∧ plain_name e.

Lemma clean_trimmed s : path.IsAbs s = true → trimmed (path.Clean s) ∧ String.length (path.Clean s) ≤ String.length s.
Proof.
  intros Ha. unfold path.Clean. rewrite Ha. cbv zeta. rewrite bool_decide_eq_false_2 by done.
  set (kept := foldl _ [] _).
  assert (Hk : Forall plain_name kept) by (apply clean_plain_names; [|constructor]; apply Forall_forall; intros e; apply Split_no_sep).
  assert (Hw : weight kept ≤ String.length s).
  { apply HasPrefix_iff in Ha as [r Er]. unfold kept. rewrite Er, app_cons_s, app_nil_s. change "/"%char with slash. rewrite Split_cons_sep.
    cbn [foldl]. pose proof (clean_weight (strings.Split r slash) []) as H. pose proof (Join_weight _ (Split_not_nil r slash)) as Hj.
    change "/" with (String slash "") in Hj. rewrite Join_Split in Hj. rewrite <- Hj in H. exact H. }
  clearbody kept. destruct (decide (reverse kept = [])) as [E|E].
  { rewrite E. split; [by left|]. apply HasPrefix_iff in Ha as [r ->]. rewrite !length_app_s. cbn. lia. }
  split.
  - right. destruct (Join_last _ E) as (a & e & -> & He). exists a, e. rewrite app_cons_s, app_nil_s. split; [done|].
    rewrite elem_of_reverse in He. exact (proj1 (Forall_forall _ _) Hk e He).
  - rewrite length_app_s. pose proof (Join_weight _ E) as H. rewrite sum_list_with_reverse in H. change (String.length "/") with 1. lia.
Qed.

Lemma LastIndexByte_bound s c i : strings.LastIndexByte s c = Some i → i < String.length s.
Proof.
  revert i. induction s as [|d s IH]; intros i; [done|]. cbn [strings.LastIndexByte].
  destruct (strings.LastIndexByte s c) as [j|]; [intros [= <-]; specialize (IH _ eq_refl); cbn; lia|].
  destruct (char_eqb d c); [|done]. intros [= <-]. cbn. lia.
Qed.

Lemma LastIndexByte_skips a e c : without c e = true → strings.LastIndexByte (a +:+ e) c = strings.LastIndexByte a c.
Proof.
  intros He. induction a as [|d a IH]; [|by rewrite app_cons_s; cbn [strings.LastIndexByte]; rewrite IH].
  rewrite app_nil_s. induction e as [|d e IH]; [done|]. unfold without in He. cbn [str_forallb] in He. apply andb_true_iff in He as [Hd He].
  cbn [strings.LastIndexByte]. rewrite IH by exact He. by apply negb_true_iff in Hd as ->.
Qed.

Lemma LastIndexByte_first a c : ∃ i, strings.LastIndexByte (String c a) c = Some i.
Proof. cbn [strings.LastIndexByte]. destruct (strings.LastIndexByte a c); [by eexists|]. rewrite char_eqb_refl. by eexists. Qed.

Lemma length_stake_le n s : String.length (stake n s) ≤ n.
Proof. revert n. induction s as [|c s IH]; intros [|n]; cbn; try lia. specialize (IH n). lia. Qed.

Lemma abs_cons a : path.IsAbs (String slash a) = true.
Proof. apply HasPrefix_iff. by exists a. Qed.

(** The parent of an absolute path, and how long it is. *)
Lemma Dir_shrinks s : path.IsAbs s = true → trimmed (path.Dir s) ∧ String.length (path.Dir s) ≤ String.length s ∧
  (trimmed s → path.Dir s = s ∨ String.length (path.Dir s) < String.length s).
Proof.
  intros Ha. apply HasPrefix_iff in Ha as [r ->]. rewrite app_cons_s, app_nil_s. change "/"%char with slash. unfold path.Dir, path.split_last.
  destruct (LastIndexByte_first r slash) as [i Hi]. rewrite Hi. cbn [fst stake].
  destruct (clean_trimmed (String slash (stake i r)) (abs_cons _)) as [Ht Hl].
  pose proof (LastIndexByte_bound _ _ _ Hi) as Hb. pose proof (length_stake_le i r) as Hs. cbn [String.length] in *.
  split; [done|]. split; [lia|]. intros [E|(a & e & E & Hne & He)].
  - injection E as ->. left. by destruct i.
  - right. rewrite app_cons_s in E. injection E as ->. rewrite <- app_cons_s, LastIndexByte_skips in Hi by done.
    apply LastIndexByte_bound in Hi. cbn [String.length] in Hi. rewrite length_app_s. destruct e; [done|]. cbn [String.length]. lia.
Qed.

Section fuel.
Context {Rec : Recovery} {R : RhizaMembers} {L : LocalArchives} (ok : list event → ∀ X, localE X → Prop).
Hypothesis Heval : ∀ l p, ok l _ (EvalSymlinks p).

(** A failure is the answer of a call. *)
Notation answered r l := (∀ e, r = Err e → ∃ p, Did (EvalSymlinks p) (Err e) ∈ l).

Lemma resolved_trimmed fuel name l : trimmed name → String.length name ≤ S fuel →
  wph ok (resolvedLocalPath fuel name) l (λ r l', answered r l').
Proof.
  revert name l. induction fuel as [|fuel IH]; intros name l Ht Hf; cbn [resolvedLocalPath]; (apply wph_call; [done|]);
    (intros [real|e]; [done|]); (destruct (negb _ || _) eqn:E; [intros e' [= <-]; eexists; apply here|]);
    apply orb_false_iff in E as [_ E]; apply bool_decide_eq_false in E;
    (assert (Ha : path.IsAbs name = true) by (destruct Ht as [->|(a & x & -> & _)]; [done|rewrite app_cons_s; apply abs_cons]));
    destruct (Dir_shrinks name Ha) as (Hd & _ & Hlt); (destruct (Hlt Ht) as [?|Hlt']; [done|]).
  - destruct Hd as [Hd|(a & x & Hd & Hx & _)]; rewrite Hd in Hlt'; [cbn in Hlt'; lia|]. rewrite length_app_s in Hlt'. cbn in Hlt'. lia.
  - apply wph_try. eapply wph_use; [apply IH; [done|lia]|]. intros [parent|e'] l' Hs Hr; [done|exact Hr].
Qed.

Lemma resolved_enough name l : path.IsAbs name = true → wph ok (resolvedLocalPath (path_fuel name) name) l (λ r l', answered r l').
Proof.
  intros Ha. destruct (Dir_shrinks name Ha) as (Hd & Hle & _). unfold path_fuel. cbn [resolvedLocalPath]. apply wph_call; [done|].
  intros [real|e]; [done|]. destruct (negb _ || _); [intros e' [= <-]; eexists; apply here|].
  apply wph_try. eapply wph_use; [apply resolved_trimmed; [done|lia]|]. intros [parent|e'] l' Hs Hr; [done|exact Hr].
Qed.
End fuel.
