(* ===== verification/RecoveryVerifier.v ===== *)
(** * The recovery verifier and the anchor service
    (internal/store/recovery_verifier.go, lines 118-201, anchor_service.go)

    Before the trust anchor moves to a recovered generation, the verifier proves
    that the recovered database carries the pair the anchor froze: the proof is
    rebuilt from the database, and the coordinator of the recovery library, which
    is a parameter, compares it with the frozen evidence. *)

From S2P Require Export AnchorDataFacts AnchorBackend LocalFacts.
Open Scope go_scope.

(** The rows a recovered database answers with: what each scans to, and the
    error they end with. *)
Record recovered_rows := mkRows { rows_scanned : list (result (Z * string)); rows_Err : option error }.

(** encoding/hex.DecodeString. *)
Fixpoint hex_decode (s : string) : option string :=
  match s with
  | EmptyString => Some ""
  | String _ EmptyString => None
  | String a (String b s) => x ← hex_value a; y ← hex_value b; t ← hex_decode s; Some (String (byte_at (16 * x + y)) t)
  end.

(** recoveryanchor.Request, as far as it is read. *)
Class RecoveryRequests := { Membership : Type; ForkResult : Type }.

Record recoveryRequest {F : RecoveryRequests} := mkRecoveryRequest {
  SourceClusterID : string; TargetClusterID : string; SourcePrefix : string; TargetPrefix : string;
  TargetAnchorHash : string; TargetMembership : Membership; Fork : ForkResult; OperationID : string }.

(** recovery.EvidenceOptions. *)
Record evidenceOptions {F : RecoveryRequests} := mkOptions {
  ExpectedAnchorHash : string; ExpectedMembership : Membership; ExpectedForkResult : ForkResult;
  ExpectedSourcePrefix : string; ExpectedOperationID : string }.

Section verifier.
Context {Hurl : NetURL} {Rec : Recovery} {F : RecoveryRequests} `{!RecordVersions}.

(** recovery.RecoverApplicationEvidence: the databases that the callback was
    given, in order, by their answer to its query, and the error returned. *)
Inductive recoverE : Type → Type :=
  | RecoverApplicationEvidence (prefix : string) (options : evidenceOptions) : recoverE (list (result recovered_rows) * option error).

(** The callback. *)
Definition recovered_proof (frozen : trustAnchorEvidence) (answer : result recovered_rows) : result string :=
  match answer with
  | Err e => Err (ErrorWrap "query recovered trust state" e)
  | Ok rows =>
    match rows_scanned rows with
    | [] => Err (Errorf "recovered trust state is empty")
    | Err e :: _ => Err (ErrorWrap "scan recovered trust state" e)
    | Ok (epoch, token) :: rest =>
      if negb (bool_decide (rest = [])) then Err (Errorf "recovered trust state has more than one row") else
      match rows_Err rows with
      | Some e => Err e
      | None =>
        if (epoch <? 1)%Z || negb (validUUID token) then Err (Errorf "recovered trust state is not a settled application pair")
        else Ok (evidence_bytes (mkEvidence (Evidence_Format frozen) epoch token None "" false))
      end
    end
  end.

(** The variable that the callback assigns; [None] is nil. *)
Definition proof_after (frozen : trustAnchorEvidence) (answers : list (result recovered_rows)) : option string :=
  foldl (λ proof answer, match recovered_proof frozen answer with Ok p => Some p | Err _ => proof end) None answers.

(** The target's cluster and storage, and the proof. *)
Definition verify (storage : recoveryStorage) (req : recoveryRequest) (rec : recoveryRecordT) :
    prog recoverE (result ((string * string) * string)) :=
  if RR_PendingWrite rec then Ret (Err (Errorf "anchor still has a pending application write")) else
  if negb (bool_decide (RR_Version rec = Version1)) || negb (bool_decide (RR_EvidenceFormat rec = trustAnchorEvidenceFormat))
  then Ret (Err (Errorf "unsupported anchor record")) else
  match parseTrustAnchorEvidence (RR_Evidence rec) with
  | Err e => Ret (Err e)
  | Ok frozen =>
    if bool_decide (Evidence_PendingEpoch frozen ≠ None) || StorageConfig.set (Evidence_PendingID frozen)
    then Ret (Err (Errorf "anchor still has a pending application write")) else
    if Evidence_Bootstrap frozen then Ret (Err (Errorf "anchor bootstrap was never consumed")) else
    match hex_decode (TargetAnchorHash req) with
    | None => Ret (Err (Errorf "target anchor hash must be 32-byte hex"))
    | Some anchorHash =>
      if negb (bool_decide (String.length anchorHash = 32)) then Ret (Err (Errorf "target anchor hash must be 32-byte hex")) else
      if negb (bool_decide (RR_ClusterID rec = SourceClusterID req))
      then Ret (Err (Errorf ("anchor binds cluster " +:+ RR_ClusterID rec +:+ ", request source " +:+ SourceClusterID req))) else
      if negb (bool_decide (RR_StorageID rec = StorageConfig.identity storage (SourceClusterID req)))
      then Ret (Err (Errorf "anchor storage identity does not match the configured source storage")) else
      if negb (bool_decide (SourcePrefix req = storage_prefix storage (SourceClusterID req))) ||
         negb (bool_decide (TargetPrefix req = storage_prefix storage (TargetClusterID req)))
      then Ret (Err (Errorf "recovery prefixes do not match the configured object-store root")) else
      let! got := call (RecoverApplicationEvidence (TargetPrefix req)
        (mkOptions F anchorHash (TargetMembership req) (Fork req) (SourcePrefix req) (OperationID req))) in
      Ret (match snd got with
           | Some e => Err e
           | None =>
             match proof_after frozen (fst got) with
             | None => Err (Errorf "recovery produced no evidence")
             | Some proof => Ok ((TargetClusterID req, StorageConfig.identity storage (TargetClusterID req)), proof)
             end
           end)
    end
  end.

(** ** The service (anchor_service.go) *)

Context {R : RhizaMembers} {L : LocalArchives} `{!JSONType Transition} `{!JSONType Receipt}.

Definition AnchorActivationBudget : Z := (120 * second)%Z.

(** recoveryanchor.Coordinator, as it is set up. *)
Record coordinator := mkCoordinator {
  co_Backend : recoveryAnchorBackend kubeE; co_EvidenceFormat : string; co_storage : recoveryStorage }.

Definition co_Verifier (c : coordinator) := verify (co_storage c).

(** The handler: the library's, with its bearer token, under the budget. *)
Record anchor_handler := mkHandler { ah_coordinator : coordinator; ah_token : string; ah_budget : Z }.

Definition not_local (env : environment) : bool := bool_decide (env "TERNAL_DATA_LOCAL" = "") || bool_decide (env "TERNAL_DATA_LOCAL" = "0").

Definition no_Local_mode : error := Errorf "recovery-anchor service does not support Local mode; TERNAL_DATA_LOCAL must be 0".

Definition NewAnchorCoordinator (env : environment) (anchorID : string) (backend : recoveryAnchorBackend kubeE) (storage : recoveryStorage) : result coordinator :=
  if negb (not_local env) then Err no_Local_mode else
  if bool_decide (anchorID = "") then Err (Errorf "anchor service requires an id, a record backend, and a bucket")
  else Ok (mkCoordinator backend trustAnchorEvidenceFormat storage).

Definition NewAnchorHandler (coord : coordinator) (token : string) (budget : Z) : anchor_handler := mkHandler coord token budget.

Definition anchorBearerToken (path : string) : prog localE (result string) :=
  if bool_decide (path = "") then Ret (Err (Errorf "TERNAL_ANCHOR_TOKEN_FILE is required")) else
  let! data := call (ReadOf path) in
  Ret (match data with
       | Err e => Err (ErrorWrap "read anchor token" e)
       | Ok data =>
         let token := strings.TrimSpace data in
         if bool_decide (token = "") then Err (Errorf ("anchor token file " +:+ path +:+ " is empty")) else Ok token
       end).

Definition OpenAnchorService (env : environment) : prog localE (result anchor_handler) :=
  if negb (not_local env) then Ret (Err no_Local_mode) else
  let anchorID := env "TERNAL_RECOVERY_ANCHOR_ID" in
  if bool_decide (anchorID = "") then Ret (Err (Errorf "TERNAL_RECOVERY_ANCHOR_ID is required")) else
  let name := env "TERNAL_TRUST_ANCHOR_CONFIGMAP" in
  if bool_decide (name = "") then Ret (Err (Errorf "TERNAL_TRUST_ANCHOR_CONFIGMAP is required")) else
  let namespace := env "TERNAL_TRUST_ANCHOR_NAMESPACE" in
  if bool_decide (namespace = "") then Ret (Err (Errorf "TERNAL_TRUST_ANCHOR_NAMESPACE is required")) else
  token ←? anchorBearerToken (env "TERNAL_ANCHOR_TOKEN_FILE");
  let storage := recoveryStorageFromEnv env in
  ensure bucketWithContext storage;
  Ret (backend ← NewRecoveryAnchorBackend env anchorID name namespace;
       coord ← NewAnchorCoordinator env anchorID backend storage;
       Ok (NewAnchorHandler coord token AnchorActivationBudget)).

(** A service that is served has its own name, a token that is not empty, and
    the storage of the voters' settings, and never serves a Local deployment. *)
Lemma service_is_complete env l : wph (λ _ _ _, True) (OpenAnchorService env) l (λ r l', ∀ h, r = Ok h →
  not_local env = true ∧ rb_id _ (co_Backend (ah_coordinator h)) = env "TERNAL_RECOVERY_ANCHOR_ID" ∧ env "TERNAL_RECOVERY_ANCHOR_ID" ≠ "" ∧
  co_storage (ah_coordinator h) = recoveryStorageFromEnv env ∧ ah_token h ≠ "" ∧
  ∃ data, Did (ReadOf (env "TERNAL_ANCHOR_TOKEN_FILE")) (Ok data) ∈ l' ∧ ah_token h = strings.TrimSpace data).
Proof.
  unfold OpenAnchorService, anchorBearerToken. destruct (not_local env) eqn:El; [|done]. cbn [negb]. cbv zeta.
  case_bool_decide as Hid; [done|]. case_bool_decide; [done|]. case_bool_decide; [done|].
  case_bool_decide; [apply wph_try; done|]. apply wph_try, wph_call; [done|]. intros [data|e]; [|done]. cbv zeta.
  destruct (decide (strings.TrimSpace data = "")) as [Ht|Ht]; [by rewrite bool_decide_eq_true_2|rewrite bool_decide_eq_false_2 by done].
  cbn [wph]. apply wph_bind. eapply wph_use; [by apply bucket_spec|]. intros [e|] l' Hs _; [done|]. cbn [wph]. intros h.
  unfold NewRecoveryAnchorBackend. destruct (_ || _); [done|]. unfold NewAnchorCoordinator. rewrite El. cbn [negb mbind result_bind].
  rewrite bool_decide_eq_false_2 by done. cbn [result_bind]. intros [= <-]. split_and!; try done. exists data. split; [|done].
  eapply earlier; [exact Hs|apply here].
Qed.

(** ** What a proof proves *)

(** A database that answered with one settled pair. *)
Definition holds_pair (epoch : Z) (token : string) (answer : result recovered_rows) : Prop :=
  answer = Ok (mkRows [Ok (epoch, token)] None) ∧ (1 ≤ epoch)%Z ∧ validUUID token = true.

Definition settled_evidence (format : string) (epoch : Z) (token : string) : trustAnchorEvidence :=
  mkEvidence format epoch token None "" false.

Lemma recovered_proof_inv frozen answer proof : recovered_proof frozen answer = Ok proof →
  ∃ epoch token, holds_pair epoch token answer ∧ proof = evidence_bytes (settled_evidence (Evidence_Format frozen) epoch token).
Proof.
  unfold recovered_proof. destruct answer as [[scanned err]|]; [|done]. cbn [rows_scanned rows_Err].
  destruct scanned as [|[[epoch token]|] rest]; [done| |done]. case_bool_decide as Hr; [|done]. subst rest. cbn [negb].
  destruct err; [done|]. destruct (Z.ltb_spec epoch 1); [done|]. destruct (validUUID token) eqn:Ht; [|done]. intros [= <-].
  by exists epoch, token.
Qed.

Lemma proof_after_inv frozen answers proof : proof_after frozen answers = Some proof →
  ∃ answer, answer ∈ answers ∧ recovered_proof frozen answer = Ok proof.
Proof.
  unfold proof_after. assert (Hgen : ∀ p0, foldl (λ proof answer, match recovered_proof frozen answer with Ok p => Some p | Err _ => proof end) p0 answers = Some proof →
    p0 = Some proof ∨ ∃ answer, answer ∈ answers ∧ recovered_proof frozen answer = Ok proof).
  { induction answers as [|a answers IH]; intros p0; [by left|]. cbn [foldl]. intros Hpr. destruct (IH _ Hpr) as [Hp|(x & Hx & Ha)].
    - destruct (recovered_proof frozen a) eqn:Ea; [injection Hp as ->|by left]. right. exists a. split; [apply list_elem_of_here|done].
    - right. exists x. split; [by apply list_elem_of_further|done]. }
  intros Hpr. by destruct (Hgen _ Hpr).
Qed.

(** The bytes of a settled pair are its own. *)
Lemma settled_bytes_inj format epoch token epoch' token' : ValidString format = true → in_int64 epoch → validUUID token = true →
  parseTrustAnchorEvidence (evidence_bytes (settled_evidence format epoch token)) = Ok (settled_evidence format epoch' token') →
  epoch' = epoch ∧ token' = token.
Proof.
  intros Hf He Ht. rewrite parse_evidence_bytes; [by intros [= -> ->]|].
  split; [done|]. split; [done|]. split; [by apply validUUID_valid|]. split; [|done]. done.
Qed.

(** The library answers [answer]. *)
Definition answering (answer : list (result recovered_rows) * option error) : handler recoverE unit := λ X e w,
  match e in recoverE X return X * unit with RecoverApplicationEvidence _ _ => (answer, w) end.

(** [C15] The anchor moves only on the recovered pair.  The verifier succeeds only
    on a record of the configured source without any pending or unconsumed
    state, for prefixes of the configured root, and the proof it gives is that
    of a settled pair which is the only trust row of a database the library
    recovered; its bytes are those the anchor froze exactly when that pair is
    the frozen one.  It then binds the target's cluster to the configured
    storage. *)
Theorem proof_is_of_the_recovered_pair storage req rec answer target proof :
  fst (run (answering answer) (verify storage req rec) tt) = Ok (target, proof) →
  Forall (λ a, ∀ epoch token, holds_pair epoch token a → in_int64 epoch) (fst answer) →
  ∃ frozen epoch token a, parseTrustAnchorEvidence (RR_Evidence rec) = Ok frozen ∧ RR_PendingWrite rec = false ∧
    frozen = settled_evidence (Evidence_Format frozen) (Evidence_Epoch frozen) (Evidence_Token frozen) ∧
    RR_ClusterID rec = SourceClusterID req ∧ RR_StorageID rec = StorageConfig.identity storage (SourceClusterID req) ∧
    SourcePrefix req = storage_prefix storage (SourceClusterID req) ∧ TargetPrefix req = storage_prefix storage (TargetClusterID req) ∧
    target = (TargetClusterID req, StorageConfig.identity storage (TargetClusterID req)) ∧
    a ∈ fst answer ∧ snd answer = None ∧ holds_pair epoch token a ∧
    proof = evidence_bytes (settled_evidence (Evidence_Format frozen) epoch token) ∧
    (Evidence_Format frozen = "1" → (proof = RR_Evidence rec ↔ Evidence_Epoch frozen = epoch ∧ Evidence_Token frozen = token)).
Proof.
  intros Hv Hint. unfold verify in Hv. destruct (RR_PendingWrite rec); [done|]. destruct (negb (bool_decide (RR_Version rec = _)) || _); [done|].
  destruct (parseTrustAnchorEvidence (RR_Evidence rec)) as [frozen|] eqn:Ef; [|done].
  destruct (_ || StorageConfig.set _) eqn:Epend; [done|]. destruct (Evidence_Bootstrap frozen) eqn:Eb; [done|].
  destruct (hex_decode _) as [hash|]; [|done]. destruct (negb (bool_decide (String.length hash = 32))); [done|].
  destruct (bool_decide (RR_ClusterID rec = _)) eqn:Ec; [|done]. destruct (bool_decide (RR_StorageID rec = _)) eqn:Es; [|done].
  destruct (negb (bool_decide (SourcePrefix req = _)) || _) eqn:Ex; [done|]. cbn [negb] in Hv.
  rewrite run_bind, run_call in Hv. cbn [answering run fst] in Hv. destruct (snd answer) eqn:Ea; [done|].
  destruct (proof_after frozen (fst answer)) as [pr|] eqn:Ep; [|done]. injection Hv as <- ->.
  destruct (proof_after_inv _ _ _ Ep) as (a & Hin & Hproof). destruct (recovered_proof_inv _ _ _ Hproof) as (epoch & token & Hpair & ->).
  apply orb_false_iff in Epend as [Hp1 Hp2], Ex as [Hx1 Hx2]. apply negb_false_iff, bool_decide_eq_true in Hx1, Hx2.
  unfold StorageConfig.set in Hp2. apply negb_false_iff, bool_decide_eq_true in Hp2. apply bool_decide_eq_true in Ec, Es.
  apply bool_decide_eq_false, dec_stable in Hp1.
  assert (Hfrozen : frozen = settled_evidence (Evidence_Format frozen) (Evidence_Epoch frozen) (Evidence_Token frozen)).
  { destruct frozen. cbn in *. by subst. }
  exists frozen, epoch, token, a. do 12 (split; [done|]). intros Hfmt. split.
  - intros E. rewrite <- E, Hfmt in Ef. rewrite Hfrozen, Hfmt in Ef. eapply settled_bytes_inj; [| | |exact Ef]; [done|..|apply Hpair].
    by eapply (proj1 (Forall_forall _ _) Hint).
  - intros [<- <-]. rewrite <- Hfrozen. symmetry. by apply parse_evidence_canonical.
Qed.
End verifier.
