(* ===== verification/ClientExamples.v ===== *)
(** * The agent, ternalctl and the storage's settings on concrete machines

    Each theorem about the agent and about ternalctl is applied to an empty
    machine and a sample configuration, those about the settings to two sample
    environments, and those about what runs before the database is opened to a
    new data directory, whose calls a sample archive and anchor answer. *)

From S2P Require Export AnchorExamples RecoveryVerifier LocalFacts AgentTraffic AgentSupervise ApiExamples CtlProxy CtlMembers StorageFacts.
Open Scope go_scope.

(** The first half of a private key is its public key. *)
#[export] Instance toy_keys : Ed25519Keys := {|
  ed25519_Public := stake 32;
  ed25519_Sign private message := toy_sign (stake 32 private) message;
|}.

#[export] Instance toy_laws : Ed25519Laws.
Proof.
  split; cbn [ed25519_Public ed25519_Sign toy_keys]; intros private.
  - intros H. rewrite length_stake. lia.
  - intros m _. unfold toy_sign. by rewrite length_app_s, !length_Sum256.
  - intros m _. by apply bool_decide_eq_true.
Qed.

Definition blank_machine : machine := mkMachine ∅ (λ _, []) ∅ ∅ ∅ 0 0 [].

Lemma blank_linked : well_linked blank_machine.
Proof. intros p h H. unfold entries in H. simpl in H. by apply list_elem_of_singleton in H. Qed.

Definition sample_config : config :=
  mkConfig "https://ternal.example" "/usr/bin/pigeons" "/var/lib/ternal/device.key" "/var/lib/ternal/device.key.identity.json"
    "/root/.ssh/authorized_keys" "root" 22 None None (60 * second) (5 * second) "/run/ternal/status.json" "".

Definition no_environment : environment := λ _, "".

(** golang.org/x/crypto/ssh on one key. *)
Definition one_key (line : string) : option (string * string * string * string) :=
  if bool_decide (line = "ssh-ed25519 AAAAC3Nz") then Some ("ssh-ed25519 AAAAC3Nz", "", "", "SHA256:abc") else None.

Lemma atomic_write_survives_crashes_witness :
  wpc (λ w', (content w' "/etc/a" = None ∨ content w' "/etc/a" = Some "new") ∧
             (∀ c, may_hold w' "/etc/a" c → may_hold blank_machine "/etc/a" c ∨ c = Some "new") ∧
             ∀ q, q ≠ "/etc/a" → is_temp q = false →
               content w' q = content blank_machine q ∧ ∀ c, may_hold w' q c → may_hold blank_machine q c)
    (AtomicWriteFile "/etc/a" "new" 384) blank_machine
    (λ r w', r = None →
       (∃ h i, m_names w' !! "/etc/a" = Some h ∧ m_inodes w' !! h = Some i ∧ i_mode i = 384%Z) ∧
       content w' "/etc/a" = Some "new" ∧ ∀ c, may_hold w' "/etc/a" c → c = Some "new").
Proof. apply (atomic_write_survives_crashes "/etc/a" "new" 384 blank_machine); [exact blank_linked|reflexivity]. Defined.

Lemma device_key_is_generated_once_witness :
  wpc (λ w', ∀ c, may_hold w' "/etc/device.key" c → may_hold blank_machine "/etc/device.key" c ∨
         m_names blank_machine !! "/etc/device.key" = None ∧
         ∃ private, String.length private = 64 ∧ c = Some (StdEncoding.EncodeToString private))
    (GenerateKey "/etc/device.key") blank_machine
    (λ r w', ∀ public, r = Ok public → m_names blank_machine !! "/etc/device.key" = None ∧
       ∃ private text, PublicKey private = public ∧ parsePrivate text = Ok private ∧ content w' "/etc/device.key" = Some text ∧
         ∀ c, may_hold w' "/etc/device.key" c → c = Some text).
Proof. apply (device_key_is_generated_once "/etc/device.key" blank_machine); [exact blank_linked|reflexivity]. Defined.


Lemma sample_settings : settings_ok no_environment sample_config.
Proof. split; [reflexivity..|by constructor|by split; constructor]. Qed.


(** A snapshot of one key, and the server's answer with it. *)
Definition sample_entries : list AuthorizedKeyEntry := [mkEntry "ssh-ed25519 AAAAC3Nz" 1700000000].

Definition sample_body : string := match renderAuthorizedKeysBody sample_entries with Ok body => body | Err _ => "" end.

Definition sample_answer : HTTPResponse := {|
  rs_Status := 200;
  rs_Header k := if bool_decide (k = "X-Ternal-Authorized-Keys-Generation") then "7"
                 else if bool_decide (k = "X-Ternal-Authorized-Keys-Sha256") then hex_encode (Sum256 sample_body) else "";
  rs_Body := sample_body; rs_Broken := None |}.

Lemma sample_entries_ok : Forall (entry_ok one_key) sample_entries.
Proof.
  repeat constructor; try reflexivity; try done.
  - eexists _, _. split; [reflexivity|reflexivity].
  - exists "ssh-ed25519 AAAAC3N", "z"%char. by split.
  - exists "ssh-ed25519 AAAAC3Nz", "", "", "SHA256:abc". by split.
Qed.

Lemma agent_accepts_the_rendering_witness :
  sample_body = "expiry-time=" +:+ String dquote ("20231114221320Z" +:+ String dquote (" ssh-ed25519 AAAAC3Nz" +:+ String newline "")) ∧
  checked_snapshot one_key sample_answer = Ok (sample_body, mkKeysState 7 (hex_encode (Sum256 sample_body))).
Proof.
  split; [vm_compute; reflexivity|].
  apply (agent_accepts_the_rendering one_key sample_entries sample_body 7 sample_answer);
    [exact sample_entries_ok|vm_compute; reflexivity|lia|split; vm_compute; congruence|split; reflexivity].
Defined.

Lemma child_is_supervised_witness :
  wpc (λ w', ∃ l, m_log w' = l ++ m_log blank_machine ∧ m_children w' = alive l ∧ orderly l ∧ m_children w' ≤ 1)
    (supervise no_environment one_key 9 sample_config) blank_machine
    (λ r w', ∃ l, m_log w' = l ++ m_log blank_machine ∧ (r ≠ None → m_children w' = 0) ∧
       (was_refused l = true → ∃ err, r = Some err ∧ isUnauthorized err = true)).
Proof. apply (child_is_supervised no_environment one_key sample_config 9 blank_machine); reflexivity. Defined.

(** ** ternalctl *)

Definition sample_environment : environment := λ key,
  if bool_decide (key = "TERNAL_API_URL") then "https://ternal.example" else
  if bool_decide (key = "TERNAL_SESSION_COOKIE") then "v1.abc.def" else "".

(** Conversions that a program never needs here. *)
Definition no_wild : spec_float → Z := λ _, 0%Z.
Definition no_float : spec_float → string := λ _, "0".

(** A key of 32 bytes from a seed, and no parser for key lines. *)
Definition toy_public : string → string := Sum256.
Definition no_key : string → option (string * string) := λ _, None.

Notation sample_main := (CtlCommands.main sample_environment "linux" no_wild no_float toy_public no_key).




(** A path with a blank, and the server's command for one host. *)
Definition sample_path : string := "/opt/my tools/ternalctl".

Definition sample_ssh : Prelude.result SshCommand :=
  BuildStrictGrantAwareSSHCommand "ternalctl" "h1" example_endpoint "root" 22
    "SHA256:0123456789abcdefghijklmnopqrstuvwxyzABCDEFG" example_relays ["[2001:db8::1]:443"].


(** A list of two members without keys, and what is written for it. *)
Definition sample_members : string :=
  print (JArr [JObj [("node_id", JStr "a"); ("url", JStr "https://a"); ("log_url", JStr "https://a/log");
                     ("token", JStr "0123456789abcdef0123456789abcdef")];
               JObj [("node_id", JStr "b"); ("url", JStr "https://b"); ("log_url", JStr "https://b/log");
                     ("token", JStr "fedcba9876543210fedcba9876543210")]]).

Lemma members_are_prepared_witness :
  ∃ text, prepare_text toy_public "prod" sample_members = Ok text ∧ prepare_text toy_public "prod" text = Ok text.
Proof.
  destruct (prepare_text toy_public "prod" sample_members) as [text|e] eqn:E; [|vm_compute in E; discriminate E].
  destruct (members_are_prepared toy_public "prod" sample_members text length_Sum256 E)
    as (given & rest & Hd & _ & _ & _ & _ & _ & Hagain).
  exists text. split; [reflexivity|]. apply Hagain. vm_compute in Hd. injection Hd as <- _.
  repeat constructor; reflexivity.
Defined.

(** ** Settings of the storage *)

(** URLs of https and a host of lower-case letters, digits, dots and dashes. *)
#[local] Instance storage_urls : NetURL := {|
  url_Parse s :=
    let host := strings.TrimPrefix s "https://" in
    if strings.HasPrefix s "https://" && str_forallb (λ c, lower_alnum c || char_eqb c "." || char_eqb c "-") host
    then Some (mkURL "https" host host "" "" "" "" "" "" false false s) else None;
  EqualFold a b := bool_decide (strings.ToLowerASCII a = strings.ToLowerASCII b);
  ToLower := strings.ToLowerASCII |}.

#[local] Instance storage_url_laws : URLLaws.
Proof.
  split; cbn [url_Parse storage_urls]; intros raw u.
  - destruct (_ && _) eqn:E; [|done]. intros [= <-] _ _ _ _ _ _ _ _ _ _. cbn [URL_String URL_Scheme URL_Host].
    apply andb_true_iff in E as [Hp _]. apply HasPrefix_iff in Hp as [t ->]. by rewrite TrimPrefix_app.
  - destruct (_ && _) eqn:E; [|done]. intros [= <-] _ _. by left.
Defined.

(** Members that are written as their ID and token, separated by an equals sign. *)
#[local] Instance sample_rhiza : RhizaMembers := {|
  Member := string * string;
  Member_ID := fst;
  Member_PublicKey := snd;
  with_PublicKey key m := (fst m, key);
  PeerPublicKey cluster id token := Sum256 (cluster +:+ id +:+ token);
  unmarshal_members s := Some ((λ item, let '(id, token, _) := strings.Cut item "=" in ((id, no_public_key), token)) <$> strings.Split s ";");
  marshal_members l := strings.Join ((λ m, fst (fst m) +:+ "=" +:+ snd m) <$> l) ";";
  ObjectStoreDurabilityBeforeAck := "before-ack";
  ObjectStoreDurabilityAsync := "async";
|}.

(** The environment of a list of assignments. *)
Definition environment_of (l : list (string * string)) : environment :=
  λ key, default "" (snd <$> List.find (λ p, bool_decide (p.1 = key)) l).

Definition local_environment : environment := environment_of
  [("TERNAL_DATA_LOCAL", "1"); ("TERNAL_LOCAL_WRITER_GC_QUIESCENCE_ACK", "1"); ("TERNAL_DATA_CLUSTER_ID", "prod");
   ("TERNAL_OBJECT_STORE_PROVIDER", "azure"); ("TERNAL_OBJECT_STORE_BUCKET", "archive"); ("TERNAL_OBJECT_STORE_PREFIX", "team/ternal");
   ("TERNAL_OBJECT_STORE_AZURE_STORAGE_ACCOUNT", "acct"); ("TERNAL_DATA_CHECKPOINT_INTERVAL", "1h30m"); ("TERNAL_DATA_DIR", "/data");
   ("TERNAL_TRUST_ANCHOR_CONFIGMAP", "trust"); ("TERNAL_TRUST_ANCHOR_NAMESPACE", "ternal"); ("TERNAL_LOCAL_PREFLIGHT_SCOPE", "pod-1");
   ("TERNAL_LOCAL_PREFLIGHT_STAGING_DIR", "/stage"); ("TERNAL_LOCAL_PREFLIGHT_RECEIPT_FILE", "/stage/receipt.json");
   ("TERNAL_OBJECT_STORE_AZURE_BLOB_ENDPOINT", "https://acct.blob.example.net");
   ("TERNAL_OBJECT_STORE_AZURE_CONNECTION_STRING", "AccountName=acct;AccountKey=AAAA;EndpointSuffix=example.net")].

Definition token_of (digit : string) : string := sconcat (repeat digit 32).

Definition cluster_environment : environment := environment_of
  [("TERNAL_DATA_MULTI_NODE", "1"); ("TERNAL_DATA_NODE_ID", "b"); ("RHIZA_CLUSTER_ID", "prod");
   ("TERNAL_DATA_EXPECTED_MEMBER_IDS", "c,a,b"); ("RHIZA_ADMIN_TOKEN", token_of "0"); ("RHIZA_CLUSTER_MEMBERS", "a;b;c");
   ("RHIZA_PEER_TOKENS", print (JObj [("a", JStr (token_of "1")); ("b", JStr (token_of "2")); ("c", JStr (token_of "3"))]))].

(** The configurations of the two. *)
Notation local_configuration := (rhizaConfigFromEnv local_environment "/data").

(** A property of the configuration that is decided by its fields. *)
Definition configured (p : rhizaConfig → bool) (r : result rhizaConfig) : bool := match r with Ok c => p c | Err _ => false end.

Lemma configured_inv p r : configured p r = true → ∃ c, r = Ok c ∧ p c = true.
Proof. destruct r as [c|e]; [|done]. by exists c. Defined.

Lemma local_configured : ∃ c, local_configuration = Ok c ∧ cf_Local c = true.
Proof. apply configured_inv. vm_compute. reflexivity. Qed.

Lemma binding_is_the_opened_storage_witness :
  ∃ c, local_configuration = Ok c ∧ storageBindingFromEnv local_environment = (cf_ClusterID c, localStorageID c).
Proof.
  destruct local_configured as (c & E & Hl). exists c. split; [exact E|].
  apply (binding_is_the_opened_storage local_environment "/data" c); [exact E|exact Hl].
Defined.

(** The operator's variables, as they reach the configuration. *)
Definition operated : environment := fst (Apply cluster_environment).

Notation cluster_configuration := (rhizaConfigFromEnv operated "/data").

Lemma apply_cluster_environment : Apply cluster_environment = (operated, None).
Proof.
  unfold operated. assert (H : snd (Apply cluster_environment) = None) by (vm_compute; reflexivity).
  by destruct (Apply cluster_environment) as [env e] eqn:E; cbn [snd] in H; subst e.
Defined.

Lemma operator_tokens_reach_their_members_witness :
  operated "TERNAL_DATA_CLUSTER_MEMBERS" = "a=" +:+ token_of "1" +:+ ";b=" +:+ token_of "2" +:+ ";c=" +:+ token_of "3" ∧
  (∀ key, key ∉ pairs.*2 → operated key = cluster_environment key).
Proof.
  split; [vm_compute; reflexivity|].
  exact (proj1 (operator_tokens_reach_their_members cluster_environment operated apply_cluster_environment)).
Defined.

Lemma cluster_configured : ∃ c, cluster_configuration = Ok c ∧ negb (cf_Local c) && bool_decide (cf_NodeID c = "b") = true.
Proof. apply (configured_inv (λ c, negb (cf_Local c) && bool_decide (cf_NodeID c = "b"))). vm_compute. reflexivity. Qed.

Lemma accepted_configuration_witness :
  ∃ c, cluster_configuration = Ok c ∧ (0 < cf_CheckpointInterval c)%Z ∧ cf_PeerToken c = token_of "2".
Proof.
  destruct cluster_configured as (c & E & Hl).
  apply andb_true_iff in Hl as [Hl Hn]. apply negb_true_iff in Hl. apply bool_decide_eq_true in Hn.
  exists c. split; [exact E|]. destruct (accepted_configuration operated "/data" c E) as ((_ & _ & Hi) & _ & Hc). split; [exact Hi|].
  destruct (Hc Hl) as (members & Hm & _ & _ & Ht & _). vm_compute in Hm. injection Hm as <-.
  apply (Ht (("b", no_public_key), token_of "2")); [apply list_elem_of_further, list_elem_of_here|rewrite Hn; reflexivity].
Defined.

(** ** Before the database is opened *)

#[local] Existing Instance ex_recovery.

(** An archive whose binding is its node, and snapshots that are texts. *)
#[local] Instance sample_archives : LocalArchives := {|
  LocalBinding := string; LocalSnapshot := string; Slot := Z;
  LocalBinding_eq_dec := _; LocalSnapshot_eq_dec := _; Slot_eq_dec := _;
  Binding_Members b := [b]; ArchiveLocationHash _ := "";
  zero_binding := ""; zero_snapshot := ""; zero_slot := 0%Z;
  json_of_binding := JStr; json_of_snapshot := JStr; json_of_slot z := JNum (strconv.FormatInt z);
  decode_binding := decode_string; decode_snapshot := decode_string; decode_slot := decode_int64;
  archive := unit; Archive_Binding _ := "node-1"; root := unit |}.

Definition sample_ids : string * string := storageBindingFromEnv local_environment.

Definition sample_record : trustAnchorRecord := mkRecord ex_recovery "1" (fst sample_ids) (snd sample_ids) 5 ex_token None "" false 0 None None.

Definition sample_hash : string := zero_bytes 31 +:+ bytes [200].

Definition sample_view : localArchiveView := mkView sample_archives "node-1" 7%Z sample_hash (Some "root").

Definition sample_receipt : localPreflightReceipt := mkReceipt sample_archives 1 (snd sample_ids) "node-1" "pod-1" "trust" "ternal" sample_view.

Definition sample_text : string := print (json_of_receipt sample_receipt).

(** A new data directory, a staging directory that holds the receipt, and an
    archive and an anchor that answer. *)
Definition local_answer (l : list LocalFacts.event) X (e : localE X) : X :=
  match e in localE X return X with
  | AbsOf p | EvalSymlinks p => Ok p
  | LstatOf p => if bool_decide (p = "/stage") then Ok IsDirectory
                 else if bool_decide (p = "/stage/receipt.json") then Ok (IsRegular 512) else Err ErrNotExist
  | ReadDir _ => Ok []
  | ReadOf _ => Ok sample_text
  | MkdirTemp dir pattern | TempOf dir pattern => Ok (dir +:+ "/" +:+ pattern +:+ "1")
  | RemoveOf _ => Some ErrNotExist
  | AnchorRead _ _ => Ok (sample_record, "1")
  | IterBucket prefix => ([prefix +:+ "local/v1/a"], None)
  | OpenLocalArchive _ => Ok tt
  | MaintenanceResolved _ => Ok true
  | Tip _ => 7%Z
  | PrefixHash _ _ => Some sample_hash
  | Snapshot _ => Some "root"
  | OpenRoot _ _ => Ok tt
  | MkdirOf _ _ | MkdirAllOf _ _ | RemoveAll _ | CopyTo _ _ | SyncOf _ | CloseOf _ | RenameOf _ _ | OpenBucket _ | CloseBucket
  | DownloadRoot _ _ | OpenDatabase _ | CloseDatabase => None
  end.

Notation history p := (run_history local_answer p []).

Definition is_opening (a : LocalFacts.event) : bool := match a with Did e _ => match e with OpenDatabase _ => true | _ => false end end.
Definition is_rename_to (name : string) (a : LocalFacts.event) : bool :=
  match a with Did e _ => match e with RenameOf _ b => bool_decide (b = name) | _ => false end end.

(** A new data directory is marked, and the database opened. *)
Lemma database_opens_after_its_checks_witness :
  existsb (is_rename_to "/data/.ternal-data-mode.json") (history (open_database local_environment "/data")) = true ∧
  existsb is_opening (history (open_database local_environment "/data")) = true ∧
  LocalFacts.allowed (opens_checked local_environment "/data") (history (open_database local_environment "/data")).
Proof.
  split; [vm_compute; reflexivity|]. split; [vm_compute; reflexivity|].
  apply (database_opens_after_its_checks local_environment "/data"). apply run_history_ran.
Defined.

Lemma preflight_stays_in_staging_witness :
  existsb (is_rename_to "/stage/receipt.json") (history (LocalPreflightFromEnv local_environment)) = true ∧
  LocalFacts.allowed (preflights local_environment) (history (LocalPreflightFromEnv local_environment)).
Proof. split; [vm_compute; reflexivity|]. apply (preflight_stays_in_staging local_environment). apply run_history_ran. Defined.

Section receipt.
Context (c : rhizaConfig).
Hypotheses (Hnode : cf_NodeID c = "node-1") (Hstorage : localStorageID c = snd sample_ids).

Definition sample_anchor : trustAnchor := anchor_of local_environment "trust" "ternal".

Definition reading : list LocalFacts.event :=
  [Did (Snapshot tt) (Some "root"); Did (PrefixHash tt 7%Z) (Some sample_hash); Did (Tip tt) 7%Z; Did (MaintenanceResolved tt) (Ok true);
   Did (OpenLocalArchive (localNamespace c)) (Ok tt)].

Definition before_download : list LocalFacts.event :=
  reading ++ [Did (IterBucket (archive_root c)) ([], None); Did (AnchorRead "trust" "ternal") (Ok (sample_record, "1"))].

Definition downloaded : list LocalFacts.event := [Did (DownloadRoot tt "/stage/w/files") None; Did (OpenRoot (localNamespace c) "root") (Ok tt)] ++ before_download.

Definition sample_history : list LocalFacts.event := Did (AnchorRead "trust" "ternal") (Ok (sample_record, "1")) :: reading ++ downloaded.

Lemma read_once l : LocalFacts.archive_read c sample_view l (reading ++ l).
Proof.
  exists tt. split; [exists l; split; [done|]; unfold reading; by do 4 apply suffix_cons_r|]. split; [done|]. split; [by rewrite Hnode|].
  split; [done|]. unfold reading. split_and!; repeat first [apply list_elem_of_here|apply list_elem_of_further].
Qed.

Lemma anchored_once l0 l : l0 `suffix_of` l → LocalFacts.anchored local_environment l0 sample_anchor (Did (AnchorRead "trust" "ternal") (Ok (sample_record, "1")) :: l).
Proof.
  intros H. split; [vm_compute; reflexivity|]. exists sample_record, "1". split; [exists l; split; [done|reflexivity]|].
  split; vm_compute; reflexivity.
Qed.

Lemma sample_vouched : LocalFacts.vouched local_environment c sample_receipt sample_history.
Proof.
  exists "pod-1", sample_anchor, sample_view, "root", (tt : @root sample_archives), "/stage/w/files", before_download, downloaded, (reading ++ downloaded), sample_anchor.
  split; [unfold sample_receipt; by rewrite Hstorage, Hnode|]. split; [vm_compute; reflexivity|].
  split.
  { eapply LocalFacts.anchored_more; [|apply (anchored_once [] []); done]. by exists (take 14 sample_history). }
  split.
  { exists []. split; [|constructor]. unfold sample_history, downloaded, before_download, reading. cbn [app].
    repeat first [apply list_elem_of_here|apply list_elem_of_further]. }
  split; [eapply LocalFacts.archive_earlier; [apply nil_suffix|apply read_once]|]. split; [done|].
  split; [apply list_elem_of_further, list_elem_of_here|].
  split; [exists (drop 1 downloaded); split; [by exists (take 1 (drop 1 downloaded))|done]|].
  split; [apply read_once|]. by apply anchored_once.
Qed.
End receipt.

Lemma receipt_configured : ∃ c, local_configuration = Ok c ∧ bool_decide (cf_NodeID c = "node-1") && bool_decide (localStorageID c = snd sample_ids) = true.
Proof. apply (configured_inv (λ c, bool_decide (cf_NodeID c = "node-1") && bool_decide (localStorageID c = snd sample_ids))). vm_compute. reflexivity. Qed.

Lemma sample_stable : stable_receipt sample_receipt.
Proof.
  split; [split|split].
  - by split.
  - split; [by exists 7%Z|reflexivity].
  - reflexivity.
  - intros s [= <-]. by split_and!.
  - split; discriminate.
  - repeat (apply Forall_cons; split; [vm_compute; reflexivity|]). by apply Forall_nil.
Qed.

Lemma preflight_receipt_is_accepted_witness :
  ∃ c, local_configuration = Ok c ∧ decode_local (decode_strict receipt_fields) zero_receipt sample_text = Ok sample_receipt ∧
    validateLocalReceipt c sample_receipt sample_view = None ∧ validateLocalReceiptScope local_environment sample_receipt sample_anchor = None.
Proof.
  destruct receipt_configured as (c & E & H). apply andb_true_iff in H as [Hn Hs]. apply bool_decide_eq_true in Hn, Hs.
  exists c. split; [exact E|].
  apply (preflight_receipt_is_accepted local_environment c sample_receipt (sample_history c) sample_view sample_anchor (sample_vouched c Hn Hs) sample_stable).
  - apply Z.leb_le. vm_compute. reflexivity.
  - reflexivity.
  - vm_compute. reflexivity.
  - vm_compute. reflexivity.
Defined.

(** *** A recovered generation *)

#[local] Instance sample_requests : RecoveryRequests := {| Membership := unit; ForkResult := unit |}.

Definition sample_storage : recoveryStorage :=
  recoveryStorageFromEnv (environment_of [("TERNAL_OBJECT_STORE_PROVIDER", "s3"); ("TERNAL_OBJECT_STORE_BUCKET", "archive"); ("TERNAL_OBJECT_STORE_PREFIX", "team")]).

Definition sample_frozen : recoveryRecordT :=
  recoveryRecord (mkRecord ex_recovery "1" "prod" (StorageConfig.identity sample_storage "prod") 5 ex_token None "" false 0 None None).

Definition sample_request : recoveryRequest :=
  mkRecoveryRequest sample_requests "prod" "prod-2" "team/prod" "team/prod-2" (hashSecret "target") tt tt "operation".

Definition sample_rows : list (result recovered_rows) * option error := ([Ok (mkRows [Ok (5%Z, ex_token)] None)], None).

Lemma proof_is_of_the_recovered_pair_witness :
  let target := ("prod-2", StorageConfig.identity sample_storage "prod-2") in
  fst (run (answering sample_rows) (verify sample_storage sample_request sample_frozen) tt) = Ok (target, RR_Evidence sample_frozen) ∧
  ∃ frozen epoch token a, parseTrustAnchorEvidence (RR_Evidence sample_frozen) = Ok frozen ∧ a ∈ fst sample_rows ∧ RecoveryVerifier.holds_pair epoch token a ∧
    RR_Evidence sample_frozen = evidence_bytes (settled_evidence (Evidence_Format frozen) epoch token).
Proof.
  assert (H : fst (run (answering sample_rows) (verify sample_storage sample_request sample_frozen) tt) =
    Ok (("prod-2", StorageConfig.identity sample_storage "prod-2"), RR_Evidence sample_frozen)) by (vm_compute; reflexivity).
  split; [exact H|].
  destruct (proof_is_of_the_recovered_pair sample_storage sample_request sample_frozen sample_rows _ _ H)
    as (frozen & epoch & token & a & Hf & _ & _ & _ & _ & _ & _ & _ & Ha & _ & Hp & Hproof & _).
  - apply Forall_singleton. intros epoch token [E _]. injection E as <- _. split; discriminate.
  - exists frozen, epoch, token, a. split; [exact Hf|]. split; [exact Ha|]. split; [exact Hp|exact Hproof].
Defined.
